(** * cjson: a shallow embedding of [cjson.h] and the properties of its
      value model, containers, lexer, parser, path accessor and serializer.

    Conventions of the embedding.

    - A [char *] is a list of bytes ([ascii]).  The C string it points to
      is the prefix before the first NUL byte ([c_str]); a read AT the
      end of the list yields the terminator, a read beyond it leaves the
      object and is undefined.
    - [int] is a 32-bit two's complement integer, [long] and [size_t] used
      for arithmetic on values are 64 bits wide (x86-64, gcc); both are
      carried in [Z] with the wrap-around written out.  Lengths and
      indices of in-memory sequences are [nat].
    - [double] is IEEE 754 binary64, carried as [spec_float].
    - A C function whose execution can stop in [assert], or leave the
      behaviour defined by the C standard, returns an [outcome]. *)

From Stdlib Require Import Ascii String.
From Stdlib Require Import List ZArith Bool Lia Arith PeanoNat.
From Stdlib Require Import Permutation.
From Stdlib Require Import Floats.SpecFloat.
Import ListNotations.

Set Implicit Arguments.
Local Open Scope Z_scope.

(** ** Outcomes of a C call *)

Inductive outcome (A : Type) : Type :=
| Ret (a : A)        (* the call returns *)
| Aborted              (* an [assert] fails: the process is aborted *)
| Undefined          (* out-of-bounds or NULL access, division by zero,
                        read of a union member that was not stored,
                        signed overflow *)
| OutOfFuel.         (* artefact of the embedding: recursion budget spent *)

Arguments Ret {A} a.
Arguments Aborted {A}.
Arguments Undefined {A}.
Arguments OutOfFuel {A}.

Definition bind {A B : Type} (m : outcome A) (k : A -> outcome B) : outcome B :=
  match m with
  | Ret a => k a
  | Aborted => Aborted
  | Undefined => Undefined
  | OutOfFuel => OutOfFuel
  end.

Declare Scope outcome_scope.
Delimit Scope outcome_scope with outcome.
Notation "x <- m ;; k" := (bind m (fun x => k))
  (at level 61, m at next level, right associativity) : outcome_scope.
Notation "' pat <- m ;; k" := (bind m (fun x => match x with pat => k end))
  (at level 61, pat pattern, m at next level, right associativity) : outcome_scope.
Local Open Scope outcome_scope.

(** [assert(b)] *)
Definition assert (b : bool) : outcome unit := if b then Ret tt else Aborted.

(** ** Characters and C strings *)

Definition cstr := list ascii.

Definition NUL : ascii := ascii_of_nat 0.
Definition quote : ascii := ascii_of_nat 34.
Definition backslash : ascii := ascii_of_nat 92.

Definition code (c : ascii) : Z := Z.of_N (N_of_ascii c).

(** [char] is signed on the target: the value a byte promotes to. *)
Definition schar (c : ascii) : Z := if code c <? 128 then code c else code c - 256.

(** <ctype.h>, "C" locale *)
Definition isdigit (c : ascii) : bool := (48 <=? code c) && (code c <=? 57).
Definition isspace (c : ascii) : bool :=
  (code c =? 32) || ((9 <=? code c) && (code c <=? 13)).
Definition isalpha (c : ascii) : bool :=
  ((65 <=? code c) && (code c <=? 90)) || ((97 <=? code c) && (code c <=? 122)).

(** The string a [char *] denotes: the bytes before the first NUL. *)
Fixpoint c_str (s : list ascii) : cstr :=
  match s with
  | [] => []
  | c :: s' => if Ascii.eqb c NUL then [] else c :: c_str s'
  end.

(** [s[i]] for a [char *] whose terminator sits right after [s]. *)
Definition char_at (s : list ascii) (i : nat) : outcome ascii :=
  match nth_error s i with
  | Some c => Ret c
  | None => if Nat.eqb i (length s) then Ret NUL else Undefined
  end.

(** First byte of the rest of a buffer; the terminator when it is empty. *)
Definition head_char (s : list ascii) : ascii :=
  match s with
  | [] => NUL
  | c :: _ => c
  end.

(** [strcmp(a, b) == 0] *)
Definition str_eqb (a b : list ascii) : bool :=
  if list_eq_dec ascii_dec (c_str a) (c_str b) then true else false.

Definition strdup (s : list ascii) : cstr := c_str s.
Definition strndup (s : list ascii) (n : nat) : cstr := c_str (firstn n s).

(** [strncmp(input, lit, n) == 0] for a literal [lit] of [n] non-NUL bytes *)
Definition starts_with (lit input : list ascii) : bool :=
  if list_eq_dec ascii_dec (firstn (length lit) input) lit then true else false.

(** Writing inputs: an apostrophe in the literal stands for a double quote. *)
Definition txt (s : string) : list ascii :=
  map (fun c => if Ascii.eqb c "'"%char then quote else c) (list_ascii_of_string s).

(** ** Machine integers *)

Definition INT_MIN : Z := - 2 ^ 31.
Definition INT_MAX : Z := 2 ^ 31 - 1.
Definition LONG_MIN : Z := - 2 ^ 63.
Definition LONG_MAX : Z := 2 ^ 63 - 1.
Definition ULONG_MAX : Z := 2 ^ 64 - 1.

(** conversion to [size_t] / [unsigned long] *)
Definition wrap64 (z : Z) : Z := z mod 2 ^ 64.
(** conversion to [int] (gcc: reduction modulo 2^32) *)
Definition wrap_int (z : Z) : Z := (z + 2 ^ 31) mod 2 ^ 32 - 2 ^ 31.

Definition digit_val (c : ascii) : Z := code c - 48.

(** Length of the leading run of decimal digits, and its value on top of
    the digits read before ([acc]). *)
Fixpoint digit_run (s : list ascii) : nat :=
  match s with
  | c :: s' => if isdigit c then S (digit_run s') else O
  | [] => O
  end.

Fixpoint digits_value (s : list ascii) (acc : Z) : Z :=
  match s with
  | c :: s' => if isdigit c then digits_value s' (acc * 10 + digit_val c) else acc
  | [] => acc
  end.

Fixpoint skip_space (s : list ascii) : list ascii :=
  match s with
  | c :: s' => if isspace c then skip_space s' else s
  | [] => []
  end.

(** [strtol(s, NULL, 10)]: white space, an optional sign, digits; the
    result saturates at the bounds of [long]; 0 when there is no digit. *)
Definition strtol (s : list ascii) : Z :=
  let s1 := skip_space s in
  let '(neg, s2) :=
    match s1 with
    | c :: r => if Ascii.eqb c "-" then (true, r)
                else if Ascii.eqb c "+" then (false, r) else (false, s1)
    | [] => (false, s1)
    end in
  let v := digits_value s2 0 in
  let v := if neg then - v else v in
  Z.max LONG_MIN (Z.min LONG_MAX v).

(** [strtoul(s, &endptr, 10)]: the value and the offset of [endptr] in [s].
    Without a digit nothing is converted and [endptr] is [s]; a leading
    [-] negates in [unsigned long]; overflow yields [ULONG_MAX]. *)
Definition strtoul (s : list ascii) : Z * nat :=
  let s1 := skip_space s in
  let ws := (length s - length s1)%nat in
  let '(neg, sg, s2) :=
    match s1 with
    | c :: r => if Ascii.eqb c "-" then (true, 1%nat, r)
                else if Ascii.eqb c "+" then (false, 1%nat, r) else (false, 0%nat, s1)
    | [] => (false, 0%nat, s1)
    end in
  let v := digits_value s2 0 in
  let n := digit_run s2 in
  match n with
  | O => (0, 0%nat)
  | _ => (if ULONG_MAX <? v then ULONG_MAX else if neg then wrap64 (- v) else v,
          (ws + sg + n)%nat)
  end.

(** [strspn(s, accept)] *)
Fixpoint strspn (s accept : list ascii) : nat :=
  match s with
  | c :: s' => if existsb (Ascii.eqb c) accept then S (strspn s' accept) else O
  | [] => O
  end.

(** Decimal digits of a natural number, most significant first. *)
Fixpoint digits_rec (fuel : nat) (n : Z) (acc : list ascii) : list ascii :=
  match fuel with
  | O => acc
  | S fuel' =>
      let acc' := ascii_of_N (Z.to_N (48 + n mod 10)) :: acc in
      if n <? 10 then acc' else digits_rec fuel' (n / 10) acc'
  end.

Definition digits (n : Z) : list ascii := digits_rec (S (Z.to_nat (Z.log2 n))) n [].

(** The text [printf("%d", v)] writes. *)
Definition fmt_d (v : Z) : list ascii :=
  if v <? 0 then "-"%char :: digits (- v) else digits v.

(** ** Doubles *)

Definition double := spec_float.
Definition prec : Z := 53.
Definition emax : Z := 1024.

Definition double_of_int (z : Z) : double :=
  binary_normalize prec emax z 0 false.

Definition double_mul (x y : double) : double := SFmul prec emax x y.

(** Correctly rounded [num / den] for [den > 0]. *)
Definition double_of_ratio (neg : bool) (num den : Z) : double :=
  match num, den with
  | Zpos n, Zpos d => SFdiv prec emax (S754_finite neg n 0) (S754_finite false d 0)
  | _, _ => S754_zero neg
  end.

(** [strtod(s, NULL)] on the decimal forms: an optional sign, digits, an
    optional fraction, an optional exponent.  The lexer only calls it on
    text that starts with an optional [-], digits, a point and a digit, so
    the hexadecimal, infinity and NaN forms cannot occur. *)
Definition strtod (s : list ascii) : double :=
  let s1 := skip_space s in
  let '(neg, s2) :=
    match s1 with
    | c :: r => if Ascii.eqb c "-" then (true, r)
                else if Ascii.eqb c "+" then (false, r) else (false, s1)
    | [] => (false, s1)
    end in
  let ip := digits_value s2 0 in
  let s3 := skipn (digit_run s2) s2 in
  let '(m, n2, s4) :=
    match s3 with
    | c :: r => if Ascii.eqb c "."
                then (digits_value r ip, digit_run r, skipn (digit_run r) r)
                else (ip, 0%nat, s3)
    | [] => (ip, 0%nat, s3)
    end in
  let ex :=
    match s4 with
    | c :: r =>
        if Ascii.eqb c "e" || Ascii.eqb c "E" then
          let '(eneg, r') :=
            match r with
            | d :: r2 => if Ascii.eqb d "-" then (true, r2)
                         else if Ascii.eqb d "+" then (false, r2) else (false, r)
            | [] => (false, r)
            end in
          let ev := digits_value r' 0 in
          match digit_run r' with O => 0 | _ => if eneg then - ev else ev end
        else 0
    | [] => 0
    end in
  let e10 := ex - Z.of_nat n2 in
  if 0 <=? e10 then double_of_ratio neg (m * 10 ^ e10) 1
  else double_of_ratio neg m (10 ^ (- e10)).

(** The text [printf("%lf", d)] writes: six fractional digits, the exact
    value rounded to nearest, ties to even. *)
Definition fmt_lf (d : double) : list ascii :=
  match d with
  | S754_nan => list_ascii_of_string "nan"
  | S754_infinity s => (if s then ["-"%char] else []) ++ list_ascii_of_string "inf"
  | S754_zero s => (if s then ["-"%char] else []) ++ list_ascii_of_string "0.000000"
  | S754_finite s m e =>
      let num := Zpos m * 1000000 * (if 0 <=? e then 2 ^ e else 1) in
      let den := if 0 <=? e then 1 else 2 ^ (- e) in
      let q := num / den in
      let r := num mod den in
      let n := if (den <? 2 * r) || ((den =? 2 * r) && Z.odd q) then q + 1 else q in
      let frac := digits (1000000 + n mod 1000000) in
      (if s then ["-"%char] else []) ++ digits (n / 1000000) ++ "."%char :: skipn 1 frac
  end.


Local Close Scope Z_scope.

(** ** The value model *)

(** The anonymous enumeration of [struct cjson_element]. *)
Inductive cjson_type : Type :=
| CJSON_NULL | CJSON_BOOL | CJSON_INTEGER | CJSON_FLOAT
| CJSON_STRING | CJSON_ARRAY | CJSON_OBJECT.

Definition type_code (t : cjson_type) : Z :=
  match t with
  | CJSON_NULL => 0 | CJSON_BOOL => 1 | CJSON_INTEGER => 2 | CJSON_FLOAT => 3
  | CJSON_STRING => 4 | CJSON_ARRAY => 5 | CJSON_OBJECT => 6
  end%Z.

Definition type_eqb (a b : cjson_type) : bool := (type_code a =? type_code b)%Z.

(** [cjson_array]: [elements] lists the first [size] slots of the buffer,
    [capacity] is the number of slots allocated.  A slot holds a pointer,
    which may be NULL ([None]). *)
Record cjson_array_of (E : Type) : Type := mk_array {
  elements : list (option E);
  capacity : nat
}.

(** [cjson_map_item]: the [next] pointer is the rest of the chain. *)
Record cjson_map_item_of (E : Type) : Type := mk_item {
  name : cstr;
  element : option E
}.

(** [cjson_map]: [items] is the bucket array, one chain per bucket; its
    length is the [capacity] field. *)
Record cjson_map_of (E : Type) : Type := mk_map {
  items : list (list (cjson_map_item_of E))
}.

(** [cjson_value]: the union, by the member that was last stored;
    [val_zero] is the all-zero storage [calloc] hands out. *)
Inductive cjson_value_of (E : Type) : Type :=
| val_zero
| val_boolean (b : bool)
| val_integer (i : Z)
| val_fraction (d : double)
| val_string (s : option cstr)
| val_array (a : cjson_array_of E)
| val_object (o : cjson_map_of E).

Arguments val_zero {E}.
Arguments val_boolean {E} b.
Arguments val_integer {E} i.
Arguments val_fraction {E} d.
Arguments val_string {E} s.

Unset Elimination Schemes.
Inductive cjson_element : Type :=
| Element (element_type : cjson_type) (value : cjson_value_of cjson_element).
Set Elimination Schemes.

Definition element_type (e : cjson_element) : cjson_type :=
  match e with Element t _ => t end.
Definition value (e : cjson_element) : cjson_value_of cjson_element :=
  match e with Element _ v => v end.

Abbreviation cjson_array := (cjson_array_of cjson_element).
Abbreviation cjson_map_item := (cjson_map_item_of cjson_element).
Abbreviation cjson_map := (cjson_map_of cjson_element).
Abbreviation cjson_object := (cjson_map_of cjson_element).
Abbreviation cjson_value := (cjson_value_of cjson_element).

Definition size (a : cjson_array) : nat := length (elements a).
Definition map_capacity (m : cjson_map) : nat := length (items m).

(** All entries of a map, bucket after bucket, each chain from its head. *)
Definition entries (m : cjson_map) : list cjson_map_item := concat (items m).

(** Reading a member of the union.  Zeroed storage reads as the zero of
    every member; a member other than the stored one is not a value the
    embedding follows. *)
Definition read_boolean (v : cjson_value) : outcome bool :=
  match v with val_boolean b => Ret b | val_zero => Ret false | _ => Undefined end.
Definition read_integer (v : cjson_value) : outcome Z :=
  match v with val_integer i => Ret i | val_zero => Ret 0%Z | _ => Undefined end.
Definition read_fraction (v : cjson_value) : outcome double :=
  match v with val_fraction d => Ret d | val_zero => Ret (S754_zero false) | _ => Undefined end.
Definition read_string (v : cjson_value) : outcome (option cstr) :=
  match v with val_string s => Ret s | val_zero => Ret None | _ => Undefined end.
Definition read_array (v : cjson_value) : outcome cjson_array :=
  match v with val_array a => Ret a | val_zero => Ret (mk_array [] 0) | _ => Undefined end.
Definition read_object (v : cjson_value) : outcome cjson_object :=
  match v with val_object o => Ret o | val_zero => Ret (mk_map []) | _ => Undefined end.

(** Number of nodes of a tree. *)
Fixpoint elt_size (e : cjson_element) : nat :=
  match e with
  | Element _ v =>
      S match v with
        | val_array a =>
            (fix slots (l : list (option cjson_element)) : nat :=
               match l with
               | [] => O
               | Some x :: r => elt_size x + slots r
               | None :: r => slots r
               end) (elements a)
        | val_object o =>
            (fix buckets (bs : list (list cjson_map_item)) : nat :=
               match bs with
               | [] => O
               | b :: r =>
                   (fix chain (c : list cjson_map_item) : nat :=
                      match c with
                      | [] => O
                      | it :: c' =>
                          match element it with
                          | Some x => elt_size x
                          | None => O
                          end + chain c'
                      end) b + buckets r
               end) (items o)
        | _ => O
        end
  end.

(** ** Typed predicates, accessors and constructors *)

Definition cjson_is_bool (e : cjson_element) : bool := type_eqb (element_type e) CJSON_BOOL.
Definition cjson_is_integer (e : cjson_element) : bool := type_eqb (element_type e) CJSON_INTEGER.
Definition cjson_is_float (e : cjson_element) : bool := type_eqb (element_type e) CJSON_FLOAT.
Definition cjson_is_string (e : cjson_element) : bool := type_eqb (element_type e) CJSON_STRING.
Definition cjson_is_array (e : cjson_element) : bool := type_eqb (element_type e) CJSON_ARRAY.
Definition cjson_is_object (e : cjson_element) : bool := type_eqb (element_type e) CJSON_OBJECT.
Definition cjson_is_null (e : cjson_element) : bool := type_eqb (element_type e) CJSON_NULL.

Definition cjson_as_bool (e : cjson_element) : outcome bool :=
  _ <- assert (cjson_is_bool e) ;; read_boolean (value e).
Definition cjson_as_integer (e : cjson_element) : outcome Z :=
  _ <- assert (cjson_is_integer e) ;; read_integer (value e).
Definition cjson_as_float (e : cjson_element) : outcome double :=
  _ <- assert (cjson_is_float e) ;; read_fraction (value e).
Definition cjson_as_string (e : cjson_element) : outcome (option cstr) :=
  _ <- assert (cjson_is_string e) ;; read_string (value e).
Definition cjson_as_array (e : cjson_element) : outcome cjson_array :=
  _ <- assert (cjson_is_array e) ;; read_array (value e).
Definition cjson_as_object (e : cjson_element) : outcome cjson_object :=
  _ <- assert (type_eqb (element_type e) CJSON_OBJECT) ;; read_object (value e).

Definition cjson_create_bool (v : bool) : cjson_element := Element CJSON_BOOL (val_boolean v).
Definition cjson_create_integer (v : Z) : cjson_element := Element CJSON_INTEGER (val_integer v).
Definition cjson_create_float (v : double) : cjson_element := Element CJSON_FLOAT (val_fraction v).
Definition cjson_create_string (v : list ascii) : cjson_element :=
  Element CJSON_STRING (val_string (Some (strdup v))).
Definition cjson_create_array : cjson_element :=
  Element CJSON_ARRAY (val_array (mk_array [] 0)).
Definition cjson_create_object (capacity : nat) : cjson_element :=
  Element CJSON_OBJECT (val_object (mk_map (repeat [] capacity))).
Definition cjson_create_null : cjson_element := Element CJSON_NULL val_zero.

(** ** Array container *)

(** [array->elements[i] = x] for a slot among the first [size]. *)
Fixpoint store {A : Type} (l : list A) (i : nat) (x : A) : list A :=
  match l, i with
  | [], _ => []
  | _ :: r, O => x :: r
  | y :: r, S j => y :: store r j x
  end.

Definition cjson_array_append (array : cjson_array) (e : option cjson_element)
  : outcome cjson_array :=
  (* a buffer of [capacity] slots holds the first [size] ones *)
  if capacity array <? size array then Undefined
  else
    let capacity := if Nat.eqb (capacity array) 0 then 8 else capacity array in
    let capacity := if Nat.eqb (size array) capacity then capacity * 2 else capacity in
    (* array->elements[array->size++] = element *)
    Ret (mk_array (elements array ++ [e]) capacity).

(** The loop of [cjson_array_insert]: while [current > index], exchange
    the slots [current - 1] and [current] and step down. *)
Fixpoint insert_loop (els : list (option cjson_element)) (current index : nat)
  : list (option cjson_element) :=
  match current with
  | O => els
  | S prev =>
      if index <? current then
        let tmp := nth prev els None in
        let els := store els prev (nth current els None) in
        let els := store els current tmp in
        insert_loop els prev index
      else els
  end.

Definition cjson_array_insert (array : cjson_array) (e : option cjson_element)
  (index : nat) : outcome cjson_array :=
  array <- cjson_array_append array e ;;
  let current := size array - 1 in
  Ret (mk_array (insert_loop (elements array) current index) (capacity array)).

(** ** Object map *)

Definition cjson_hash (str : list ascii) : Z :=
  fold_left (fun res c => wrap64 (Z.shiftl res 3 + schar c)) (c_str str) 0%Z.

(** [cjson_hash(name) % capacity]; the remainder by zero is undefined. *)
Definition bucket_of (capacity : nat) (name : list ascii) : outcome nat :=
  match capacity with
  | O => Undefined
  | _ => Ret (Z.to_nat (cjson_hash name mod Z.of_nat capacity))
  end.

(** The scan [while (item != NULL && strcmp(item->name, name) != 0)
    item = item->next]: the chain from the item it stops at. *)
Fixpoint chain_find (chain : list cjson_map_item) (nm : list ascii)
  : list cjson_map_item :=
  match chain with
  | [] => []
  | item :: next => if str_eqb (name item) nm then chain else chain_find next nm
  end.

(** [item->element = element] at the item the scan stops at. *)
Fixpoint chain_set (chain : list cjson_map_item) (nm : list ascii)
  (e : option cjson_element) : list cjson_map_item :=
  match chain with
  | [] => []
  | item :: next =>
      if str_eqb (name item) nm then mk_item (name item) e :: next
      else item :: chain_set next nm e
  end.

Definition cjson_object_get (object : cjson_object) (nm : list ascii)
  : outcome (option cjson_element) :=
  h <- bucket_of (map_capacity object) nm ;;
  match chain_find (nth h (items object) []) nm with
  | item :: _ => Ret (element item)
  | [] => Ret None
  end.

(** ** Object iterator *)

Record cjson_object_iterator : Type := mk_iterator {
  it_name : option cstr;
  it_element : option cjson_element;
  it_end : bool;
  it_map : cjson_map;
  it_i : nat;
  it_item : list cjson_map_item   (* the current item and its successors *)
}.

(** [for (; i < capacity; i++) if (items[i] != NULL) break;] over the
    buckets from [i] on: the index reached and the chain found there. *)
Fixpoint next_bucket (buckets : list (list cjson_map_item)) (i : nat)
  : nat * list cjson_map_item :=
  match buckets with
  | [] => (i, [])
  | [] :: rest => next_bucket rest (S i)
  | chain :: _ => (i, chain)
  end.

Definition cjson_iterate_object (obj : cjson_object) : cjson_object_iterator :=
  let '(i, first) := next_bucket (items obj) 0 in
  match first with
  | [] => mk_iterator None None true obj i []
  | item :: _ => mk_iterator (Some (name item)) (element item) false obj i first
  end.

Definition cjson_iterate_next (iterator : cjson_object_iterator)
  : outcome cjson_object_iterator :=
  if it_end iterator then Ret iterator
  else
    match it_item iterator with
    | [] => Undefined                            (* iterator->item->next *)
    | _ :: next =>
        let it :=
          match next with
          | item :: _ =>
              mk_iterator (Some (name item)) (element item) (it_end iterator)
                (it_map iterator) (it_i iterator) next
          | [] =>
              let '(i, found) :=
                next_bucket (skipn (S (it_i iterator)) (items (it_map iterator)))
                  (S (it_i iterator)) in
              match found with
              | item :: _ =>
                  mk_iterator (Some (name item)) (element item) (it_end iterator)
                    (it_map iterator) i found
              | [] =>
                  mk_iterator (it_name iterator) (it_element iterator)
                    (it_end iterator) (it_map iterator) i (it_item iterator)
              end
          end in
        if Nat.eqb (it_i it) (map_capacity (it_map it))
        then Ret (mk_iterator (it_name it) (it_element it) true (it_map it)
                    (it_i it) (it_item it))
        else Ret it
    end.

(** ** Delete *)

Section Delete.
(** The recursive call. *)
Variable cjson_delete : option cjson_element -> outcome unit.

Fixpoint delete_elements (l : list (option cjson_element)) : outcome unit :=
  match l with
  | [] => Ret tt
  | e :: r => _ <- cjson_delete e ;; delete_elements r
  end.

(** [while (!it.end) { ...; cjson_delete(it.element); cjson_iterate_next(&it); }] *)
Fixpoint delete_members (n : nat) (it : cjson_object_iterator) : outcome unit :=
  if it_end it then Ret tt
  else
    match n with
    | O => OutOfFuel
    | S n' =>
        _ <- cjson_delete (it_element it) ;;
        it <- cjson_iterate_next it ;;
        delete_members n' it
    end.

Definition delete_body (element : option cjson_element) : outcome unit :=
  match element with
  | None => Undefined                          (* element->element_type *)
  | Some e =>
      match element_type e with
      | CJSON_STRING => _ <- read_string (value e) ;; Ret tt
      | CJSON_ARRAY => a <- read_array (value e) ;; delete_elements (elements a)
      | CJSON_OBJECT =>
          o <- read_object (value e) ;;
          delete_members (length (entries o)) (cjson_iterate_object o)
      | _ => Ret tt
      end
  end.
End Delete.

Fixpoint delete_rec (fuel : nat) (element : option cjson_element) : outcome unit :=
  match fuel with
  | O => OutOfFuel
  | S fuel' => delete_body (delete_rec fuel') element
  end.

Definition cjson_delete (element : option cjson_element) : outcome unit :=
  delete_rec (match element with Some e => S (elt_size e) | None => 1 end) element.

Definition cjson_map_insert (map : cjson_map) (nm : list ascii)
  (e : option cjson_element) : outcome cjson_map :=
  h <- bucket_of (map_capacity map) nm ;;
  let chain := nth h (items map) [] in
  match chain_find chain nm with
  | [] =>
      Ret (mk_map (store (items map) h (mk_item (strdup nm) e :: chain)))
  | item :: _ =>
      _ <- cjson_delete (element item) ;;
      Ret (mk_map (store (items map) h (chain_set chain nm e)))
  end.

Definition cjson_object_insert (object : cjson_object) (nm : list ascii)
  (value : option cjson_element) : outcome cjson_object :=
  cjson_map_insert object nm value.

(** ** Lexer *)

Inductive token_type : Type :=
| CJSON_TOK_ERROR | CJSON_TOK_NONE | CJSON_TOK_EOF | CJSON_TOK_INTEGER
| CJSON_TOK_FLOAT | CJSON_TOK_STRING | CJSON_TOK_TRUE | CJSON_TOK_FALSE
| CJSON_TOK_NULL | CJSON_TOK_COLON | CJSON_TOK_COMMA | CJSON_TOK_LBRACE
| CJSON_TOK_RBRACE | CJSON_TOK_LBRACK | CJSON_TOK_RBRACK.

Definition tok_code (t : token_type) : Z :=
  match t with
  | CJSON_TOK_ERROR => -1 | CJSON_TOK_NONE => 0 | CJSON_TOK_EOF => 1
  | CJSON_TOK_INTEGER => 2 | CJSON_TOK_FLOAT => 3 | CJSON_TOK_STRING => 4
  | CJSON_TOK_TRUE => 5 | CJSON_TOK_FALSE => 6 | CJSON_TOK_NULL => 7
  | CJSON_TOK_COLON => 8 | CJSON_TOK_COMMA => 9 | CJSON_TOK_LBRACE => 10
  | CJSON_TOK_RBRACE => 11 | CJSON_TOK_LBRACK => 12 | CJSON_TOK_RBRACK => 13
  end%Z.

Definition tok_eqb (a b : token_type) : bool := (tok_code a =? tok_code b)%Z.

(** [content] points into the input: the bytes from the start of the
    token to the end of the buffer. *)
Record cjson_token : Type := mk_token {
  type : token_type;
  content : list ascii;
  content_len : nat;
  integer_value : Z;
  float_value : double
}.

Record cjson_lexer : Type := mk_lexer {
  lexer_content : list ascii;
  location : nat;
  token : cjson_token
}.

(** [lexer->content + lexer->location] *)
Definition input (lexer : cjson_lexer) : list ascii :=
  skipn (location lexer) (lexer_content lexer).

Definition set_type (t : token_type) (tok : cjson_token) : cjson_token :=
  mk_token t (content tok) (content_len tok) (integer_value tok) (float_value tok).

(** Length of the leading run of white space. *)
Fixpoint space_run (s : list ascii) : nat :=
  match s with
  | c :: s' => if isspace c then S (space_run s') else O
  | [] => O
  end.

Definition is_escape (c : ascii) : bool :=
  Ascii.eqb c quote || Ascii.eqb c backslash || Ascii.eqb c "/" || Ascii.eqb c "b"
  || Ascii.eqb c "f" || Ascii.eqb c "n" || Ascii.eqb c "r" || Ascii.eqb c "t".

(** The string case of the lexer, from [input + token_len]: the token type
    and the final [token_len].  The loop does not look for the terminator:
    it reads it like any other byte and then leaves the buffer. *)
Fixpoint scan_string (s : list ascii) (token_len : nat) : outcome (token_type * nat) :=
  match s with
  | [] => Undefined
  | c :: s' =>
      if Ascii.eqb c quote then Ret (CJSON_TOK_STRING, token_len + 1)
      else if Ascii.eqb c backslash then
        match s' with
        | d :: s'' =>
            if is_escape d then scan_string s'' (token_len + 2)
            else if Ascii.eqb d "u" then Aborted                   (* TODO() *)
            else Ret (CJSON_TOK_ERROR, token_len)
        | [] => Ret (CJSON_TOK_ERROR, token_len)
        end
      else scan_string s' (token_len + 1)
  end.

(** The numeric case: the token type, its length and the two values. *)
Definition scan_number (inp : list ascii) (sign : Z) (tok : cjson_token)
  : outcome (token_type * nat * Z * double) :=
  let token_len :=
    if Ascii.eqb (head_char inp) "0" then 1 else 1 + digit_run (skipn 1 inp) in
  let prod := (strtol inp * sign)%Z in
  if (prod <? LONG_MIN)%Z || (LONG_MAX <? prod)%Z then Undefined
  else
    let integer_value := wrap_int prod in
    match skipn token_len inp with
    | c :: d :: _ =>
        if Ascii.eqb c "." && isdigit d then
          let token_len := token_len + 1 in
          let token_len := token_len + digit_run (skipn (token_len + 1) inp) in
          Ret (CJSON_TOK_FLOAT, token_len, integer_value,
               double_mul (strtod inp) (double_of_int sign))
        else Ret (CJSON_TOK_INTEGER, token_len, integer_value, float_value tok)
    | _ => Ret (CJSON_TOK_INTEGER, token_len, integer_value, float_value tok)
    end.

Definition cjson_read_next_token (lexer : cjson_lexer) : outcome cjson_lexer :=
  let inp := input lexer in
  let tok := token lexer in
  let c := head_char inp in
  let simple (t : token_type) (token_len : nat) :=
    Ret (t, token_len, integer_value tok, float_value tok) in
  let keyword (lit : string) (t : token_type) :=
    if starts_with (list_ascii_of_string lit) inp
    then simple t (length (list_ascii_of_string lit))
    else simple CJSON_TOK_ERROR 0 in
  '(t, token_len, iv, fv) <-
    (if Ascii.eqb c "-" then scan_number inp (-1) tok
     else if isdigit c then scan_number inp 1 tok
     else if Ascii.eqb c "f" then keyword "false"%string CJSON_TOK_FALSE
     else if Ascii.eqb c "n" then keyword "null"%string CJSON_TOK_NULL
     else if Ascii.eqb c "t" then keyword "true"%string CJSON_TOK_TRUE
     else if Ascii.eqb c "," then simple CJSON_TOK_COMMA 1
     else if Ascii.eqb c ":" then simple CJSON_TOK_COLON 1
     else if Ascii.eqb c "[" then simple CJSON_TOK_LBRACK 1
     else if Ascii.eqb c "]" then simple CJSON_TOK_RBRACK 1
     else if Ascii.eqb c "{" then simple CJSON_TOK_LBRACE 1
     else if Ascii.eqb c "}" then simple CJSON_TOK_RBRACE 1
     else if Ascii.eqb c quote then
       '(t, token_len) <- scan_string (skipn 1 inp) 1 ;;
       simple t token_len
     else if Ascii.eqb c NUL then simple CJSON_TOK_EOF 0
     else simple CJSON_TOK_ERROR 0) ;;
  Ret (mk_lexer (lexer_content lexer) (location lexer + token_len)
         (mk_token t inp token_len iv fv)).

Definition cjson_lexer_peek (lexer : cjson_lexer) : outcome (cjson_token * cjson_lexer) :=
  lexer <- (if tok_eqb (type (token lexer)) CJSON_TOK_NONE
            then cjson_read_next_token lexer else Ret lexer) ;;
  Ret (token lexer, lexer).

Definition cjson_lexer_pop (lexer : cjson_lexer) : outcome (cjson_token * cjson_lexer) :=
  lexer <- (if tok_eqb (type (token lexer)) CJSON_TOK_NONE
            then cjson_read_next_token lexer else Ret lexer) ;;
  let res := token lexer in
  Ret (res, mk_lexer (lexer_content lexer) (location lexer)
              (set_type CJSON_TOK_NONE (token lexer))).

(** The loop of [cjson_extract_string] from index [i]: [s] is the content
    from [i] on and [n] the number of indices left below
    [content_len - 1].  An escape consumes two of them. *)
Fixpoint extract_loop (s : list ascii) (n : nat) (res : list ascii)
  : outcome (option (list ascii)) :=
  match n with
  | O => Ret (Some res)
  | S n' =>
      match s with
      | [] => if Nat.eqb n' 0 then Ret (Some (res ++ [NUL])) else Undefined
      | c :: s' =>
          if Ascii.eqb c backslash then
            let d := head_char s' in
            let go (x : ascii) := extract_loop (skipn 1 s') (n' - 1) (res ++ [x]) in
            if Ascii.eqb d quote then go quote
            else if Ascii.eqb d backslash then go backslash
            else if Ascii.eqb d "/" then go "/"%char
            else if Ascii.eqb d "b" then go (ascii_of_nat 8)
            else if Ascii.eqb d "f" then go (ascii_of_nat 12)
            else if Ascii.eqb d "n" then go (ascii_of_nat 10)
            else if Ascii.eqb d "t" then go (ascii_of_nat 9)
            else if Ascii.eqb d "u" then Aborted                   (* TODO() *)
            else Ret None
          else extract_loop s' n' (res ++ [c])
      end
  end.

Definition cjson_extract_string (tok : cjson_token) : outcome (option cstr) :=
  _ <- assert (tok_code (type tok) =? type_code CJSON_STRING)%Z ;;
  match content_len tok with
  | O => Undefined                               (* calloc(content_len - 1) *)
  | S _ =>
      r <- extract_loop (skipn 1 (content tok)) (content_len tok - 2) [] ;;
      Ret (option_map c_str r)
  end.

(** ** Parser *)

Definition cjson_parse_ws (lexer : cjson_lexer) : cjson_lexer :=
  mk_lexer (lexer_content lexer) (location lexer + space_run (input lexer))
    (token lexer).

(** What [cjson_parse_element] hands back: the pointer returned, the lexer
    and the error flag it shares with its caller. *)
Definition parse_result : Type := (option cjson_element * cjson_lexer * bool)%type.

Section Parser.
(** The recursive call [cjson_parse_element(lexer, error)]. *)
Variable cjson_parse_element : cjson_lexer -> bool -> outcome parse_result.

Definition cjson_parse_member (lexer : cjson_lexer) (map : cjson_map) (error : bool)
  : outcome (cjson_lexer * cjson_map * bool) :=
  let lexer := cjson_parse_ws lexer in
  '(str, lexer) <- cjson_lexer_pop lexer ;;
  if negb (tok_eqb (type str) CJSON_TOK_STRING) then Ret (lexer, map, true)
  else
    let nm := strndup (skipn 1 (content str)) (content_len str - 2) in
    let lexer := cjson_parse_ws lexer in
    '(tok, lexer) <- cjson_lexer_peek lexer ;;
    if negb (tok_eqb (type tok) CJSON_TOK_COLON) then Ret (lexer, map, true)
    else
      '(_, lexer) <- cjson_lexer_pop lexer ;;
      '(element, lexer, error) <- cjson_parse_element lexer error ;;
      map <- cjson_map_insert map nm element ;;
      Ret (lexer, map, error).

(** [while (!*error && cjson_lexer_peek(lexer).type == CJSON_TOK_COMMA)] *)
Fixpoint members_loop (n : nat) (lexer : cjson_lexer) (map : cjson_map) (error : bool)
  : outcome (cjson_lexer * cjson_map * bool) :=
  if error then Ret (lexer, map, error)
  else
    '(tok, lexer) <- cjson_lexer_peek lexer ;;
    if negb (tok_eqb (type tok) CJSON_TOK_COMMA) then Ret (lexer, map, error)
    else
      match n with
      | O => OutOfFuel
      | S n' =>
          '(_, lexer) <- cjson_lexer_pop lexer ;;
          '(lexer, map, error) <- cjson_parse_member lexer map error ;;
          members_loop n' lexer map error
      end.

Definition cjson_parse_members (lexer : cjson_lexer) (map : cjson_map) (error : bool)
  : outcome (cjson_lexer * cjson_map * bool) :=
  '(lexer, map, error) <- cjson_parse_member lexer map error ;;
  (* every turn of the loop consumes a comma of the input *)
  members_loop (S (length (input lexer))) lexer map error.

Definition cjson_parse_object (lexer : cjson_lexer) (error : bool)
  : outcome parse_result :=
  '(_, lexer) <- cjson_lexer_pop lexer ;;
  let map : cjson_map := mk_map (repeat [] 64) in
  let lexer := cjson_parse_ws lexer in
  '(lexer, map, error) <-
    (if error then Ret (lexer, map, error)
     else
       '(tok, lexer) <- cjson_lexer_peek lexer ;;
       if negb (tok_eqb (type tok) CJSON_TOK_RBRACE)
       then cjson_parse_members lexer map error
       else Ret (lexer, map, error)) ;;
  '(tok, lexer) <- cjson_lexer_pop lexer ;;
  let res := Element CJSON_OBJECT (val_object map) in
  if negb (tok_eqb (type tok) CJSON_TOK_RBRACE) then
    _ <- cjson_delete (Some res) ;;
    Ret (None, lexer, error)
  else Ret (Some res, lexer, error).

(** [while (!*error && cjson_lexer_peek(lexer).type == CJSON_TOK_COMMA)] *)
Fixpoint elements_loop (n : nat) (lexer : cjson_lexer) (array : cjson_array)
  (error : bool) : outcome (cjson_lexer * cjson_array * bool) :=
  if error then Ret (lexer, array, error)
  else
    '(tok, lexer) <- cjson_lexer_peek lexer ;;
    if negb (tok_eqb (type tok) CJSON_TOK_COMMA) then Ret (lexer, array, error)
    else
      match n with
      | O => OutOfFuel
      | S n' =>
          '(_, lexer) <- cjson_lexer_pop lexer ;;
          '(elt, lexer, error) <- cjson_parse_element lexer error ;;
          array <- cjson_array_append array elt ;;
          elements_loop n' lexer array error
      end.

Definition cjson_parse_array (lexer : cjson_lexer) (error : bool)
  : outcome parse_result :=
  '(_, lexer) <- cjson_lexer_pop lexer ;;
  let array : cjson_array := mk_array [] 0 in
  let lexer := cjson_parse_ws lexer in
  let finish (lexer : cjson_lexer) (array : cjson_array) (error : bool) :=
    '(_, lexer) <- cjson_lexer_pop lexer ;;
    Ret (Some (Element CJSON_ARRAY (val_array array)), lexer, error) in
  if error then finish lexer array error
  else
    '(tok, lexer) <- cjson_lexer_peek lexer ;;
    if negb (tok_eqb (type tok) CJSON_TOK_RBRACK) then
      '(elt, lexer, error) <- cjson_parse_element lexer error ;;
      array <- cjson_array_append array elt ;;
      '(lexer, array, error) <-
        elements_loop (S (length (input lexer))) lexer array error ;;
      '(tok, lexer) <- cjson_lexer_peek lexer ;;
      if negb (tok_eqb (type tok) CJSON_TOK_RBRACK) then
        _ <- cjson_delete (Some (Element CJSON_ARRAY (val_array array))) ;;
        Ret (None, lexer, error)
      else finish lexer array error
    else finish lexer array error.

Definition cjson_parse_value (lexer : cjson_lexer) (error : bool)
  : outcome parse_result :=
  '(tok, lexer) <- cjson_lexer_peek lexer ;;
  let scalar (res : cjson_element) :=
    '(_, lexer) <- cjson_lexer_pop lexer ;;
    Ret (Some res, lexer, error) in
  match type tok with
  | CJSON_TOK_LBRACE => cjson_parse_object lexer error
  | CJSON_TOK_LBRACK => cjson_parse_array lexer error
  | CJSON_TOK_STRING =>
      s <- cjson_extract_string tok ;;
      scalar (Element CJSON_STRING (val_string s))
  | CJSON_TOK_INTEGER =>
      scalar (Element CJSON_INTEGER (val_integer (integer_value tok)))
  | CJSON_TOK_FLOAT =>
      scalar (Element CJSON_INTEGER (val_fraction (float_value tok)))
  | CJSON_TOK_TRUE => scalar (Element CJSON_BOOL (val_boolean true))
  | CJSON_TOK_FALSE => scalar (Element CJSON_BOOL (val_boolean false))
  | CJSON_TOK_NULL => scalar (Element CJSON_NULL val_zero)
  | _ => Ret (None, lexer, error)
  end.

Definition parse_element_body (lexer : cjson_lexer) (error : bool)
  : outcome parse_result :=
  let lexer := cjson_parse_ws lexer in
  '(value, lexer, error) <- cjson_parse_value lexer error ;;
  let lexer := cjson_parse_ws lexer in
  Ret (value, lexer, error).
End Parser.

Fixpoint cjson_parse_element (fuel : nat) (lexer : cjson_lexer) (error : bool)
  : outcome parse_result :=
  match fuel with
  | O => OutOfFuel
  | S fuel' => parse_element_body (cjson_parse_element fuel') lexer error
  end.

Definition initial_token : cjson_token :=
  mk_token CJSON_TOK_NONE [] 0 0%Z (S754_zero false).

(** Every nested call of [cjson_parse_element] comes after a byte of the
    input has been consumed, so the length of the input bounds the depth. *)
Definition cjson_parse_str (str : list ascii) : outcome (option cjson_element) :=
  let lexer := mk_lexer str 0 initial_token in
  '(res, _, error) <- cjson_parse_element (S (length str)) lexer false ;;
  if error then Ret None else Ret res.

(** ** Path accessor *)

Definition member_chars : list ascii :=
  list_ascii_of_string
    "abcdefghijklmnopqrstuvwxyzABCDEFGHIJKLMNOPQRSTUVWXYZ_0123456789".

(** [array->elements[i]]: defined for the first [size] slots only. *)
Definition array_at (array : cjson_array) (i : Z) : outcome (option cjson_element) :=
  match nth_error (elements array) (Z.to_nat i) with
  | Some slot => Ret slot
  | None => Undefined
  end.

Section Path.
(** The recursive call [cjson_get_element_from(element, from)]. *)
Variable cjson_get_element_from :
  option cjson_element -> list ascii -> outcome (option cjson_element).

Definition cjson_get_element_from_object (element : option cjson_element)
  (from : list ascii) : outcome (option cjson_element) :=
  match element with
  | None => Undefined                          (* element->element_type *)
  | Some e =>
      _ <- assert (cjson_is_object e) ;;
      let c1 := head_char (skipn 1 from) in
      _ <- assert (isalpha c1 || Ascii.eqb c1 "_") ;;
      object <- cjson_as_object e ;;
      let name_len := strspn (skipn 1 from) member_chars in
      let nm := strndup (skipn 1 from) name_len in
      elt_at_name <- cjson_object_get object nm ;;
      _ <- assert (match elt_at_name with Some _ => true | None => false end) ;;
      if Ascii.eqb (head_char (skipn (name_len + 1) from)) NUL
      then Ret elt_at_name
      else cjson_get_element_from elt_at_name (skipn (name_len + 1) from)
  end.

Definition cjson_get_element_from_array (element : option cjson_element)
  (from : list ascii) : outcome (option cjson_element) :=
  match element with
  | None => Undefined                          (* element->element_type *)
  | Some e =>
      _ <- assert (cjson_is_array e) ;;
      array <- cjson_as_array e ;;
      let '(i, off) := strtoul (skipn 1 from) in
      let endptr := skipn off (skipn 1 from) in
      _ <- assert (Ascii.eqb (head_char endptr) "]") ;;
      elt_at_i <- array_at array i ;;
      if Ascii.eqb (head_char (skipn 1 endptr)) NUL
      then Ret elt_at_i
      else cjson_get_element_from elt_at_i (skipn 1 endptr)
  end.

Definition get_element_from_body (element : option cjson_element)
  (from : list ascii) : outcome (option cjson_element) :=
  if Ascii.eqb (head_char from) "[" then cjson_get_element_from_array element from
  else if Ascii.eqb (head_char from) "." then cjson_get_element_from_object element from
  else Aborted.                                  (* assert(0 && ...) *)
End Path.

Fixpoint get_element_from_rec (fuel : nat) (element : option cjson_element)
  (from : list ascii) : outcome (option cjson_element) :=
  match fuel with
  | O => OutOfFuel
  | S fuel' => get_element_from_body (get_element_from_rec fuel') element from
  end.

(** Every step consumes a byte of the path before the nested call. *)
Definition cjson_get_element_from (element : option cjson_element)
  (from : list ascii) : outcome (option cjson_element) :=
  get_element_from_rec (S (length from)) element from.

(** ** Serializer *)

(** [cjson_str_builder]: [str] lists the first [size] bytes of the buffer. *)
Record cjson_str_builder : Type := mk_sb {
  str : list ascii;
  sb_capacity : nat
}.

Definition cjson_str_builder_append_char (sb : cjson_str_builder) (c : ascii)
  : outcome cjson_str_builder :=
  (* a buffer of [capacity] bytes holds the first [size] ones *)
  if sb_capacity sb <? length (str sb) then Undefined
  else
    let capacity := if Nat.eqb (sb_capacity sb) 0 then 8 else sb_capacity sb in
    let capacity := if Nat.eqb (length (str sb)) capacity then capacity * 2 else capacity in
    Ret (mk_sb (str sb ++ [c]) capacity).

Fixpoint append_chars (sb : cjson_str_builder) (s : list ascii)
  : outcome cjson_str_builder :=
  match s with
  | [] => Ret sb
  | c :: s' => sb <- cjson_str_builder_append_char sb c ;; append_chars sb s'
  end.

(** [for (i = 0; cstr[i] != '\0'; i++) append_char(sb, cstr[i])] *)
Definition cjson_str_builder_append_cstr (sb : cjson_str_builder)
  (cstr : option (list ascii)) : outcome cjson_str_builder :=
  match cstr with
  | None => Undefined                            (* cstr[0] *)
  | Some s => append_chars sb (c_str s)
  end.

(** [sprintf(buffer, fmt, ...)] into [char buffer[11]] *)
Definition sprintf_buffer (text : list ascii) : outcome (list ascii) :=
  if length text <? 11 then Ret text else Undefined.

(** The serializer state: the builder and the function's [static] indent. *)
Definition to_str_state : Type := (cjson_str_builder * nat)%type.

(** [if (pretty) { append '\n'; indent spaces }] *)
Definition pretty_newline (pretty : bool) (st : to_str_state) : outcome to_str_state :=
  let '(sb, indent) := st in
  if pretty then
    sb <- cjson_str_builder_append_char sb (ascii_of_nat 10) ;;
    sb <- append_chars sb (repeat " "%char indent) ;;
    Ret (sb, indent)
  else Ret st.

Definition put_char (c : ascii) (st : to_str_state) : outcome to_str_state :=
  let '(sb, indent) := st in
  sb <- cjson_str_builder_append_char sb c ;; Ret (sb, indent).

Definition put_cstr (s : option (list ascii)) (st : to_str_state) : outcome to_str_state :=
  let '(sb, indent) := st in
  sb <- cjson_str_builder_append_cstr sb s ;; Ret (sb, indent).

Section ToStr.
Variable pretty : bool.
(** The recursive call [cjson_to_str_rec(element, pretty, sb)]. *)
Variable cjson_to_str_rec : option cjson_element -> to_str_state -> outcome to_str_state.

(** [for (i = 1; i < size; i++)] over the slots from [i] on *)
Fixpoint to_str_elements (l : list (option cjson_element)) (st : to_str_state)
  : outcome to_str_state :=
  match l with
  | [] => Ret st
  | e :: r =>
      st <- put_char "," st ;;
      st <- pretty_newline pretty st ;;
      st <- cjson_to_str_rec e st ;;
      to_str_elements r st
  end.

Definition to_str_member (it : cjson_object_iterator) (st : to_str_state)
  : outcome to_str_state :=
  st <- put_char quote st ;;
  st <- put_cstr (it_name it) st ;;
  st <- put_cstr (Some [quote; ":"%char]) st ;;
  cjson_to_str_rec (it_element it) st.

(** [for (cjson_iterate_next(&it); !it.end; cjson_iterate_next(&it))],
    entered after the step of the initialisation *)
Fixpoint to_str_members (n : nat) (it : cjson_object_iterator) (st : to_str_state)
  : outcome to_str_state :=
  if it_end it then Ret st
  else
    match n with
    | O => OutOfFuel
    | S n' =>
        st <- put_char "," st ;;
        st <- pretty_newline pretty st ;;
        st <- to_str_member it st ;;
        it <- cjson_iterate_next it ;;
        to_str_members n' it st
    end.

Definition to_str_body (element : option cjson_element) (st : to_str_state)
  : outcome to_str_state :=
  match element with
  | None => Undefined                          (* element->element_type *)
  | Some e =>
      match element_type e with
      | CJSON_NULL => put_cstr (Some (list_ascii_of_string "null")) st
      | CJSON_BOOL =>
          b <- read_boolean (value e) ;;
          if b then put_cstr (Some (list_ascii_of_string "true")) st
          else put_cstr (Some (list_ascii_of_string "false")) st
      | CJSON_INTEGER =>
          v <- read_integer (value e) ;;
          buffer <- sprintf_buffer (fmt_d v) ;;
          put_cstr (Some buffer) st
      | CJSON_FLOAT =>
          d <- read_fraction (value e) ;;
          buffer <- sprintf_buffer (fmt_lf d) ;;
          put_cstr (Some buffer) st
      | CJSON_STRING =>
          s <- read_string (value e) ;;
          st <- put_char quote st ;;
          st <- put_cstr s st ;;
          put_char quote st
      | CJSON_ARRAY =>
          a <- read_array (value e) ;;
          '(sb, indent) <- put_char "[" st ;;
          st <- pretty_newline pretty (sb, indent + 2) ;;
          st <- match elements a with
                | [] => Ret st
                | first :: rest =>
                    st <- cjson_to_str_rec first st ;;
                    to_str_elements rest st
                end ;;
          let '(sb, indent) := st in
          st <- pretty_newline pretty (sb, indent - 2) ;;
          put_char "]" st
      | CJSON_OBJECT =>
          o <- read_object (value e) ;;
          '(sb, indent) <- put_char "{" st ;;
          st <- pretty_newline pretty (sb, indent + 2) ;;
          let it := cjson_iterate_object o in
          st <- (if it_end it then Ret st else to_str_member it st) ;;
          it <- cjson_iterate_next it ;;
          st <- to_str_members (length (entries o)) it st ;;
          let '(sb, indent) := st in
          st <- pretty_newline pretty (sb, indent - 2) ;;
          put_char "}" st
      end
  end.
End ToStr.

Fixpoint cjson_to_str_rec (fuel : nat) (pretty : bool)
  (element : option cjson_element) (st : to_str_state) : outcome to_str_state :=
  match fuel with
  | O => OutOfFuel
  | S fuel' => to_str_body pretty (cjson_to_str_rec fuel' pretty) element st
  end.

(** The [static] indent is 0 whenever no call is in progress. *)
Definition cjson_to_str (element : option cjson_element) (pretty : bool)
  : outcome cstr :=
  let fuel := match element with Some e => S (elt_size e) | None => 1 end in
  '(sb, _) <- cjson_to_str_rec fuel pretty element (mk_sb [] 0, 0) ;;
  sb <- cjson_str_builder_append_char sb NUL ;;
  Ret (c_str (str sb)).

(** ** Notions used to state the properties *)

Definition cstr_eqb (a b : cstr) : bool :=
  if list_eq_dec ascii_dec a b then true else false.

(** A list of bytes that is a C string as it stands: no NUL inside. *)
Definition is_cstr (s : list ascii) : bool :=
  forallb (fun c => negb (Ascii.eqb c NUL)) s.

(** Bytes the serializer writes and the lexer reads back unchanged. *)
Definition plain_char (c : ascii) : bool :=
  negb (Ascii.eqb c NUL) && negb (Ascii.eqb c quote) && negb (Ascii.eqb c backslash).
Definition plain_text (s : list ascii) : bool := forallb plain_char s.

Fixpoint distinct (l : list cstr) : bool :=
  match l with
  | [] => true
  | x :: r => negb (existsb (cstr_eqb x) r) && distinct r
  end.

(** The invariant of the maps [cjson_create_object] and [cjson_map_insert]
    build: a bucket array that is not empty, every item in the bucket of
    its hash, under a name that is a C string, no name twice in a chain. *)
Definition item_ok (cap h : nat) (it : cjson_map_item) : bool :=
  match bucket_of cap (name it) with
  | Ret h' => Nat.eqb h' h
  | _ => false
  end && is_cstr (name it).

Definition chain_ok (cap h : nat) (chain : list cjson_map_item) : bool :=
  forallb (item_ok cap h) chain && distinct (map (@name _) chain).

Fixpoint buckets_ok (cap h : nat) (buckets : list (list cjson_map_item)) : bool :=
  match buckets with
  | [] => true
  | chain :: rest => chain_ok cap h chain && buckets_ok cap (S h) rest
  end.

Definition map_ok (m : cjson_map) : bool :=
  negb (Nat.eqb (map_capacity m) 0) && buckets_ok (map_capacity m) 0 (items m).

(** Every element stored in the map can be released. *)
Definition deletable (e : option cjson_element) : bool :=
  match cjson_delete e with Ret _ => true | _ => false end.
Definition members_deletable (m : cjson_map) : bool :=
  forallb (fun it => deletable (element it)) (entries m).

(** The iterator after [k] calls of [cjson_iterate_next]. *)
Fixpoint iterate_steps (k : nat) (obj : cjson_object) : outcome cjson_object_iterator :=
  match k with
  | O => Ret (cjson_iterate_object obj)
  | S k' => it <- iterate_steps k' obj ;; cjson_iterate_next it
  end.

(** Trees built from null, booleans, non-negative integers, strings,
    arrays and objects, whose strings and member names hold no quote and no
    backslash, and whose objects hold no name twice.  A null element has
    the zeroed storage [cjson_create_null] and the parser give it. *)
Fixpoint plain_tree (e : cjson_element) : bool :=
  match e with
  | Element CJSON_NULL val_zero => true
  | Element CJSON_BOOL (val_boolean _) => true
  | Element CJSON_INTEGER (val_integer i) => ((0 <=? i) && (i <=? INT_MAX))%Z
  | Element CJSON_STRING (val_string (Some s)) => plain_text s
  | Element CJSON_ARRAY (val_array a) =>
      forallb (fun slot => match slot with Some x => plain_tree x | None => false end)
        (elements a)
  | Element CJSON_OBJECT (val_object o) =>
      distinct (map (@name _) (concat (items o)))
      && forallb (forallb (fun it =>
                    plain_text (name it)
                    && match element it with Some x => plain_tree x | None => false end))
           (items o)
  | _ => false
  end.

(** Structural equality: exact on scalars and arrays, up to the order of
    the members on objects.  The capacities of the containers are storage,
    not content. *)
Inductive slot_rel (R : cjson_element -> cjson_element -> Prop)
  : option cjson_element -> option cjson_element -> Prop :=
| slot_null : slot_rel R None None
| slot_some : forall a b, R a b -> slot_rel R (Some a) (Some b).

Inductive item_rel (R : cjson_element -> cjson_element -> Prop)
  : cjson_map_item -> cjson_map_item -> Prop :=
| item_same : forall n a b, slot_rel R a b -> item_rel R (mk_item n a) (mk_item n b).

Unset Elimination Schemes.
Inductive struct_eq : cjson_element -> cjson_element -> Prop :=
| eq_null : forall v w, struct_eq (Element CJSON_NULL v) (Element CJSON_NULL w)
| eq_bool : forall b,
    struct_eq (Element CJSON_BOOL (val_boolean b)) (Element CJSON_BOOL (val_boolean b))
| eq_integer : forall i,
    struct_eq (Element CJSON_INTEGER (val_integer i)) (Element CJSON_INTEGER (val_integer i))
| eq_float : forall d,
    struct_eq (Element CJSON_FLOAT (val_fraction d)) (Element CJSON_FLOAT (val_fraction d))
| eq_string : forall s,
    struct_eq (Element CJSON_STRING (val_string s)) (Element CJSON_STRING (val_string s))
| eq_array : forall a b,
    Forall2 (slot_rel struct_eq) (elements a) (elements b) ->
    struct_eq (Element CJSON_ARRAY (val_array a)) (Element CJSON_ARRAY (val_array b))
| eq_object : forall o p l,
    Permutation (entries o) l ->
    Forall2 (item_rel struct_eq) l (entries p) ->
    struct_eq (Element CJSON_OBJECT (val_object o)) (Element CJSON_OBJECT (val_object p)).
Set Elimination Schemes.

(** The bytes after a number do not continue it: no digit, and no point
    followed by a digit. *)
Definition number_ends (rest : list ascii) : bool :=
  match rest with
  | [] => true
  | c :: r => negb (isdigit c) && negb (Ascii.eqb c "." && isdigit (head_char r))
  end.

(** The compact text of a plain tree. *)
Fixpoint join (l : list (list ascii)) : list ascii :=
  match l with
  | [] => []
  | [x] => x
  | x :: r => x ++ ","%char :: join r
  end.

Fixpoint render (e : cjson_element) : list ascii :=
  match e with
  | Element CJSON_NULL _ => list_ascii_of_string "null"
  | Element CJSON_BOOL (val_boolean true) => list_ascii_of_string "true"
  | Element CJSON_BOOL _ => list_ascii_of_string "false"
  | Element CJSON_INTEGER (val_integer i) => fmt_d i
  | Element CJSON_STRING (val_string (Some s)) => quote :: s ++ [quote]
  | Element CJSON_ARRAY (val_array a) =>
      "["%char
      :: join (map (fun slot => match slot with Some x => render x | None => [] end)
                 (elements a))
      ++ ["]"%char]
  | Element CJSON_OBJECT (val_object o) =>
      "{"%char
      :: join (concat (map (map (fun it =>
                 quote :: name it ++ quote :: ":"%char
                 :: match element it with Some x => render x | None => [] end))
               (items o)))
      ++ ["}"%char]
  | _ => []
  end.

(** ** Notions used in the proofs *)

(** The iterator stands on the [k]-th entry of the map. *)
Definition stands_at (obj : cjson_object) (k : nat) (it : cjson_object_iterator) : Prop :=
  it_map it = obj /\ it_end it = false
  /\ exists pre c rest,
      it_item it = c :: rest
      /\ nth_error (items obj) (it_i it) = Some (pre ++ c :: rest)
      /\ k = length (concat (firstn (it_i it) (items obj))) + length pre
      /\ it_name it = Some (name c)
      /\ it_element it = element c.


(** ** Sample values *)

(** The object the demonstration program builds with
    [cjson_create_object(10)] and three insertions. *)
Definition sample_object : cjson_object :=
  match
    (o <- cjson_as_object (cjson_create_object 10) ;;
     o <- cjson_object_insert o (txt "f1") (Some (cjson_create_integer 42)) ;;
     o <- cjson_object_insert o (txt "f2") (Some (cjson_create_string (txt "42"))) ;;
     cjson_object_insert o (txt "f3") (Some cjson_create_array))
  with
  | Ret o => o
  | _ => mk_map []
  end.

Definition sample_array : cjson_element :=
  Element CJSON_ARRAY (val_array (mk_array [Some (cjson_create_integer 1)] 8)).

(** The lexer holds no token and stands before the text [s]. *)
Definition fresh (lexer : cjson_lexer) (s : list ascii) : Prop :=
  type (token lexer) = CJSON_TOK_NONE /\ input lexer = s.

(** The lexer [lexer] after it has read a token of [len] bytes and type [t]
    (and integer value [iv], if it is a number). *)
Definition after_token (lexer : cjson_lexer) (t : token_type) (len : nat) (iv : Z)
  : cjson_lexer :=
  mk_lexer (lexer_content lexer) (location lexer + len)
    (mk_token t (input lexer) len iv (float_value (token lexer))).

(** The pieces of [render]. *)
Definition slot_text (slot : option cjson_element) : list ascii :=
  match slot with Some x => render x | None => [] end.

Definition member_text (it : cjson_map_item) : list ascii :=
  quote :: name it ++ quote :: ":"%char :: slot_text (element it).

Definition tail_text (l : list (list ascii)) : list ascii :=
  concat (map (fun x => ","%char :: x) l).

(** A string builder whose buffer holds its bytes. *)
Definition sb_ok (sb : cjson_str_builder) : Prop := length (str sb) <= sb_capacity sb.

(** A slot that holds a plain tree, an item that holds one under a plain name. *)
Definition plain_slot (slot : option cjson_element) : bool :=
  match slot with Some x => plain_tree x | None => false end.

Definition plain_item (it : cjson_map_item) : bool :=
  plain_text (name it) && plain_slot (element it).

(** A step of the serializer that appends [text] to any builder whose
    buffer holds its bytes, and leaves the indent as it was. *)
Definition writes (m : to_str_state -> outcome to_str_state) (text : list ascii) : Prop :=
  forall (sb : cjson_str_builder) (indent : nat),
    sb_ok sb ->
    exists sb',
      m (sb, indent) = Ret (sb', indent)
      /\ str sb' = str sb ++ text
      /\ sb_ok sb'.

(** The lexer after [cjson_lexer_pop] has handed out its token. *)
Definition consumed (lexer : cjson_lexer) : cjson_lexer :=
  mk_lexer (lexer_content lexer) (location lexer)
    (set_type CJSON_TOK_NONE (token lexer)).

(** Bytes that end an element inside a container: they continue no number
    and start with no white space. *)
Definition delimited (rest : list ascii) : Prop :=
  number_ends rest = true /\ space_run rest = 0.

(** [rec] reads [text], whatever delimited bytes follow it, and returns
    [res] without raising the error flag; it does the same when its caller
    has looked at the first token of the text, which is no closing bracket. *)
Definition parses_to (rec : cjson_lexer -> bool -> outcome parse_result)
  (text : list ascii) (res : option cjson_element) : Prop :=
  forall lexer rest,
    fresh lexer (text ++ rest) -> delimited rest ->
    exists lexer' peeked,
      rec lexer false = Ret (res, lexer', false)
      /\ fresh lexer' rest
      /\ cjson_read_next_token lexer = Ret peeked
      /\ tok_eqb (type (token peeked)) CJSON_TOK_RBRACK = false
      /\ rec peeked false = Ret (res, lexer', false).

(** The appends and the insertions of the parser, in the order of the text. *)
Fixpoint append_all (array : cjson_array) (l : list (option cjson_element))
  : outcome cjson_array :=
  match l with
  | [] => Ret array
  | e :: r => array <- cjson_array_append array e ;; append_all array r
  end.

Fixpoint insert_all (map : cjson_map) (l : list cjson_map_item) : outcome cjson_map :=
  match l with
  | [] => Ret map
  | it :: r => map <- cjson_map_insert map (name it) (element it) ;; insert_all map r
  end.

(** The parser reads the member [it] and stores the result as [it']. *)
Definition member_parses (rec : cjson_lexer -> bool -> outcome parse_result)
  (it it' : cjson_map_item) : Prop :=
  name it' = name it
  /\ plain_text (name it) = true
  /\ parses_to rec (slot_text (element it)) (element it').


(** ** Clone *)

Section Clone.
(** The recursive call. *)
Variable cjson_clone : option cjson_element -> outcome (option cjson_element).

(** [for (i = 0; i < src_arr->size; i++)
       cjson_array_append(dst_arr, cjson_clone(src_arr->elements[i]));] *)
Fixpoint clone_elements (l : list (option cjson_element)) (dst_arr : cjson_array)
  : outcome cjson_array :=
  match l with
  | [] => Ret dst_arr
  | e :: r =>
      c <- cjson_clone e ;;
      dst_arr <- cjson_array_append dst_arr c ;;
      clone_elements r dst_arr
  end.

(** [while (!it.end) { cjson_object_insert(dst_obj, it.name,
       cjson_clone(it.element)); it = cjson_iterate_next(&it); }] *)
Fixpoint clone_members (n : nat) (it : cjson_object_iterator) (dst_obj : cjson_object)
  : outcome cjson_object :=
  if it_end it then Ret dst_obj
  else
    match n with
    | O => OutOfFuel
    | S n' =>
        c <- cjson_clone (it_element it) ;;
        dst_obj <- match it_name it with
                   | Some nm => cjson_object_insert dst_obj nm c
                   | None => Undefined             (* cjson_hash(NULL) *)
                   end ;;
        it <- cjson_iterate_next it ;;
        clone_members n' it dst_obj
    end.

Definition clone_body (element : option cjson_element)
  : outcome (option cjson_element) :=
  match element with
  | None => Ret None
  | Some e =>
      match element_type e with
      | CJSON_STRING =>
          s <- read_string (value e) ;;
          match s with
          | Some s => Ret (Some (Element CJSON_STRING (val_string (Some (strdup s)))))
          | None => Undefined                      (* strdup(NULL) *)
          end
      | CJSON_ARRAY =>
          src_arr <- cjson_as_array e ;;
          dst_arr <- cjson_as_array cjson_create_array ;;
          dst_arr <- clone_elements (elements src_arr) dst_arr ;;
          Ret (Some (Element CJSON_ARRAY (val_array dst_arr)))
      | CJSON_OBJECT =>
          src_obj <- cjson_as_object e ;;
          dst_obj <- cjson_as_object (cjson_create_object (map_capacity src_obj)) ;;
          dst_obj <- clone_members (length (entries src_obj))
                       (cjson_iterate_object src_obj) dst_obj ;;
          Ret (Some (Element CJSON_OBJECT (val_object dst_obj)))
      | _ => Ret (Some e)                          (* *res = *element *)
      end
  end.
End Clone.

Fixpoint clone_rec (fuel : nat) (element : option cjson_element)
  : outcome (option cjson_element) :=
  match fuel with
  | O => OutOfFuel
  | S fuel' => clone_body (clone_rec fuel') element
  end.

Definition cjson_clone (element : option cjson_element)
  : outcome (option cjson_element) :=
  clone_rec (match element with Some e => S (elt_size e) | None => 1 end) element.

(** ** Dump to the standard output *)

(** [cjson_pretty_newline(pretty, indent)]: the [size_t] indent arrives as
    an [int]; [printf] with the format of a newline and [%*s] writes a newline
    and [indent] spaces.  The function returns the standard output it has extended. *)
Definition cjson_pretty_newline (pretty : bool) (indent : Z) (out : list ascii)
  : outcome (list ascii) :=
  _ <- assert (0 <=? indent)%Z ;;
  if pretty then Ret (out ++ ascii_of_nat 10 :: repeat " "%char (Z.to_nat indent))
  else Ret out.

(** The bytes written so far and the function's [static] indent. *)
Definition dump_state : Type := (list ascii * nat)%type.

(** [putchar], [printf] of a text *)
Definition print (s : list ascii) (st : dump_state) : dump_state :=
  (fst st ++ s, snd st).

Definition dump_newline (pretty : bool) (st : dump_state) : outcome dump_state :=
  out <- cjson_pretty_newline pretty (wrap_int (Z.of_nat (snd st))) (fst st) ;;
  Ret (out, snd st).

Section Dump.
Variable pretty : bool.
(** The recursive call [cjson_dump(element, pretty)]. *)
Variable cjson_dump : option cjson_element -> dump_state -> outcome dump_state.

Fixpoint dump_elements (l : list (option cjson_element)) (st : dump_state)
  : outcome dump_state :=
  match l with
  | [] => Ret st
  | e :: r =>
      st <- dump_newline pretty (print [","%char] st) ;;
      st <- cjson_dump e st ;;
      dump_elements r st
  end.

(** [printf] of the name between quotes and of a colon, then
    [cjson_dump(it.element, pretty)] *)
Definition dump_member (it : cjson_object_iterator) (st : dump_state)
  : outcome dump_state :=
  match it_name it with
  | Some nm => cjson_dump (it_element it) (print (quote :: c_str nm ++ [quote; ":"%char]) st)
  | None => Undefined                              (* %s of NULL *)
  end.

Fixpoint dump_members (n : nat) (it : cjson_object_iterator) (st : dump_state)
  : outcome dump_state :=
  if it_end it then Ret st
  else
    match n with
    | O => OutOfFuel
    | S n' =>
        st <- dump_newline pretty (print [","%char] st) ;;
        st <- dump_member it st ;;
        it <- cjson_iterate_next it ;;
        dump_members n' it st
    end.

Definition dump_body (element : option cjson_element) (st : dump_state)
  : outcome dump_state :=
  match element with
  | None => Undefined                          (* element->element_type *)
  | Some e =>
      match element_type e with
      | CJSON_NULL => Ret (print (list_ascii_of_string "null") st)
      | CJSON_BOOL =>
          b <- read_boolean (value e) ;;
          if b then Ret (print (list_ascii_of_string "true") st)
          else Ret (print (list_ascii_of_string "false") st)
      | CJSON_INTEGER =>
          v <- read_integer (value e) ;;
          Ret (print (fmt_d v) st)
      | CJSON_FLOAT =>
          (* printf of element->value.integer.value with %d *)
          v <- read_integer (value e) ;;
          Ret (print (fmt_d v) st)
      | CJSON_STRING =>
          s <- read_string (value e) ;;
          match s with
          | Some s => Ret (print (quote :: c_str s ++ [quote]) st)
          | None => Undefined                      (* %s of NULL *)
          end
      | CJSON_ARRAY =>
          a <- read_array (value e) ;;
          let st := print ["["%char] st in
          st <- dump_newline pretty (fst st, snd st + 2) ;;
          st <- match elements a with
                | [] => Ret st
                | first :: rest =>
                    st <- cjson_dump first st ;;
                    dump_elements rest st
                end ;;
          st <- dump_newline pretty (fst st, snd st - 2) ;;
          Ret (print ["]"%char] st)
      | CJSON_OBJECT =>
          o <- read_object (value e) ;;
          let st := print ["{"%char] st in
          st <- dump_newline pretty (fst st, snd st + 2) ;;
          let it := cjson_iterate_object o in
          st <- (if it_end it then Ret st else dump_member it st) ;;
          it <- cjson_iterate_next it ;;
          st <- dump_members (length (entries o)) it st ;;
          st <- dump_newline pretty (fst st, snd st - 2) ;;
          Ret (print ["}"%char] st)
      end
  end.
End Dump.

Fixpoint dump_rec (fuel : nat) (pretty : bool) (element : option cjson_element)
  (st : dump_state) : outcome dump_state :=
  match fuel with
  | O => OutOfFuel
  | S fuel' => dump_body pretty (dump_rec fuel' pretty) element st
  end.

(** [cjson_dump(element, pretty)] on the standard output [out]: the output
    after the call.  The [static] indent is 0 whenever no call is in
    progress. *)
Definition cjson_dump (element : option cjson_element) (pretty : bool)
  (out : list ascii) : outcome (list ascii) :=
  let fuel := match element with Some e => S (elt_size e) | None => 1 end in
  '(out, _) <- dump_rec fuel pretty element (out, 0) ;;
  Ret out.

(** ** Notions used to state further properties *)

(** Trees [cjson_delete] can walk: no NULL pointer in a slot of an array
    or as the element of a member, and in every node of string, array or
    object type the member of the union that goes with the type (or the
    zeroed storage). *)
Fixpoint releasable (e : cjson_element) : bool :=
  match e with
  | Element CJSON_STRING v =>
      match v with val_string _ | val_zero => true | _ => false end
  | Element CJSON_ARRAY v =>
      match v with
      | val_array a =>
          forallb (fun slot => match slot with Some x => releasable x | None => false end)
            (elements a)
      | val_zero => true
      | _ => false
      end
  | Element CJSON_OBJECT v =>
      match v with
      | val_object o =>
          forallb (forallb (fun it => match element it with
                                      | Some x => releasable x
                                      | None => false
                                      end))
            (items o)
      | val_zero => true
      | _ => false
      end
  | _ => true
  end.

Definition releasable_slot (slot : option cjson_element) : bool :=
  match slot with Some x => releasable x | None => false end.

(** A loop over the members of an object, as the library writes it:
    [while (!it.end) { body; cjson_iterate_next(&it); }]. *)
Fixpoint iter_loop {St : Type} (body : cjson_object_iterator -> St -> outcome St)
  (n : nat) (it : cjson_object_iterator) (st : St) : outcome St :=
  if it_end it then Ret st
  else
    match n with
    | O => OutOfFuel
    | S n' =>
        st <- body it st ;;
        it <- cjson_iterate_next it ;;
        iter_loop body n' it st
    end.

(** The same steps, entry by entry. *)
Fixpoint fold_entries {St : Type} (f : cjson_map_item -> St -> outcome St)
  (l : list cjson_map_item) (st : St) : outcome St :=
  match l with
  | [] => Ret st
  | c :: r => st <- f c st ;; fold_entries f r st
  end.



(** Trees as the constructors, the containers and the parser of the library
    build them: in every node the member of the union that goes with its
    type, strings that are C strings, maps under their invariant.  A slot
    of an array and the element of a member may be NULL. *)
Fixpoint well_formed (e : cjson_element) : bool :=
  match e with
  | Element CJSON_NULL _ => true
  | Element CJSON_BOOL (val_boolean _) => true
  | Element CJSON_INTEGER (val_integer _) => true
  | Element CJSON_FLOAT (val_fraction _) => true
  | Element CJSON_STRING (val_string (Some s)) => is_cstr s
  | Element CJSON_ARRAY (val_array a) =>
      forallb (fun slot => match slot with Some x => well_formed x | None => true end)
        (elements a)
  | Element CJSON_OBJECT (val_object o) =>
      map_ok o
      && forallb (forallb (fun it => match element it with
                                     | Some x => well_formed x
                                     | None => true
                                     end))
           (items o)
  | _ => false
  end.

Definition well_formed_slot (slot : option cjson_element) : bool :=
  match slot with Some x => well_formed x | None => true end.

(** The item hashes to bucket [h] of a map of [cap] buckets. *)
Definition in_bucket (cap h : nat) (it : cjson_map_item) : bool :=
  match bucket_of cap (name it) with
  | Ret h' => Nat.eqb h' h
  | _ => false
  end.

(** The chains of [p] are the chains of [o] in reverse order, item by item
    under the same name, with elements that are structurally equal. *)
Definition chains_reversed (o p : cjson_map) : Prop :=
  Forall2 (fun c c' => Forall2 (item_rel struct_eq) (rev c) c') (items o) (items p).

(** No node of the tree has the float type. *)
Fixpoint no_float (e : cjson_element) : bool :=
  match e with
  | Element CJSON_FLOAT _ => false
  | Element _ (val_array a) =>
      forallb (fun slot => match slot with Some x => no_float x | None => true end)
        (elements a)
  | Element _ (val_object o) =>
      forallb (forallb (fun it => match element it with
                                  | Some x => no_float x
                                  | None => true
                                  end))
        (items o)
  | _ => true
  end.

Definition no_float_slot (slot : option cjson_element) : bool :=
  match slot with Some x => no_float x | None => true end.

(** The two walkers on the members of an object, entry by entry. *)
Definition to_str_entry (rec : option cjson_element -> to_str_state -> outcome to_str_state)
  (c : cjson_map_item) (st : to_str_state) : outcome to_str_state :=
  st <- put_char quote st ;;
  st <- put_cstr (Some (name c)) st ;;
  st <- put_cstr (Some [quote; ":"%char]) st ;;
  rec (element c) st.

Definition to_str_entries (pretty : bool)
  (rec : option cjson_element -> to_str_state -> outcome to_str_state)
  (l : list cjson_map_item) (st : to_str_state) : outcome to_str_state :=
  match l with
  | [] => Ret st
  | c :: r =>
      st <- to_str_entry rec c st ;;
      fold_entries (fun c st => st <- put_char ","%char st ;;
                                st <- pretty_newline pretty st ;;
                                to_str_entry rec c st) r st
  end.

Definition dump_entry (rec : option cjson_element -> dump_state -> outcome dump_state)
  (c : cjson_map_item) (st : dump_state) : outcome dump_state :=
  rec (element c) (print (quote :: c_str (name c) ++ [quote; ":"%char]) st).

Definition dump_entries (pretty : bool)
  (rec : option cjson_element -> dump_state -> outcome dump_state)
  (l : list cjson_map_item) (st : dump_state) : outcome dump_state :=
  match l with
  | [] => Ret st
  | c :: r =>
      st <- dump_entry rec c st ;;
      fold_entries (fun c st => st <- dump_newline pretty (print [","%char] st) ;;
                                dump_entry rec c st) r st
  end.

(** Whenever the step [f] of [cjson_to_str_rec] returns, at an indent that
    satisfies [P], the step [g] of [cjson_dump] prints the bytes [f] has
    appended, and both leave the indent as it was. *)
Definition sim (P : nat -> Prop)
  (f : to_str_state -> outcome to_str_state)
  (g : dump_state -> outcome dump_state) : Prop :=
  forall (sb sb' : cjson_str_builder) (indent indent' : nat) (out : list ascii),
    P indent ->
    f (sb, indent) = Ret (sb', indent') ->
    exists d,
      str sb' = str sb ++ d
      /\ is_cstr d = true
      /\ indent' = indent
      /\ g (out, indent) = Ret (out ++ d, indent).

(** The first byte of [s] starts no value, is no closing bracket, no comma
    and no white space: the end of the input, a colon, a closing brace, or
    a byte that starts no token. *)
Definition stuck_char (c : ascii) : bool :=
  negb (isspace c)
  && negb (existsb (Ascii.eqb c)
             (quote :: list_ascii_of_string "-0123456789fnt,[]{")).

Definition stuck_start (s : list ascii) : bool := stuck_char (head_char s).

(** The token types [cjson_parse_value] builds no element for, other than
    the comma and the closing bracket. *)
Definition stuck_token (t : token_type) : bool :=
  match t with
  | CJSON_TOK_ERROR | CJSON_TOK_EOF | CJSON_TOK_COLON | CJSON_TOK_RBRACE => true
  | _ => false
  end.

(** A byte of the body of a string literal: a byte that stands for itself,
    or a backslash and the byte after it. *)
Inductive piece : Type :=
| Plain (c : ascii)
| Escaped (c : ascii).

(** The [switch] of [cjson_extract_string]. *)
Definition escape_value (c : ascii) : option ascii :=
  if Ascii.eqb c quote then Some quote
  else if Ascii.eqb c backslash then Some backslash
  else if Ascii.eqb c "/" then Some "/"%char
  else if Ascii.eqb c "b" then Some (ascii_of_nat 8)
  else if Ascii.eqb c "f" then Some (ascii_of_nat 12)
  else if Ascii.eqb c "n" then Some (ascii_of_nat 10)
  else if Ascii.eqb c "t" then Some (ascii_of_nat 9)
  else None.

Definition piece_text (p : piece) : list ascii :=
  match p with Plain c => [c] | Escaped c => [backslash; c] end.

Definition piece_ok (p : piece) : bool :=
  match p with
  | Plain c => plain_char c
  | Escaped c => match escape_value c with Some _ => true | None => false end
  end.

Definition piece_value (p : piece) : ascii :=
  match p with
  | Plain c => c
  | Escaped c => match escape_value c with Some x => x | None => NUL end
  end.

Definition literal_body (ps : list piece) : list ascii := concat (map piece_text ps).

(** A path, segment by segment: a member behind a point, or an index
    between brackets. *)
Inductive segment : Type :=
| Member (nm : list ascii)
| Index (i : nat).

Definition segment_text (s : segment) : list ascii :=
  match s with
  | Member nm => "."%char :: nm
  | Index i => "["%char :: digits (Z.of_nat i) ++ ["]"%char]
  end.

Definition path_text (p : list segment) : list ascii := concat (map segment_text p).

Definition member_char (c : ascii) : bool := existsb (Ascii.eqb c) member_chars.

(** A member name starts with a letter or an underscore and goes on with
    letters, digits and underscores; an index fits [unsigned long]. *)
Definition segment_ok (s : segment) : bool :=
  match s with
  | Member nm =>
      (isalpha (head_char nm) || Ascii.eqb (head_char nm) "_") && forallb member_char nm
  | Index i => (Z.of_nat i <=? ULONG_MAX)%Z
  end.

(** The lookups a path stands for, with the containers' own functions. *)
Definition follow_segment (s : segment) (e : cjson_element)
  : outcome (option cjson_element) :=
  match s with
  | Member nm =>
      object <- cjson_as_object e ;;
      elt <- cjson_object_get object nm ;;
      _ <- assert (match elt with Some _ => true | None => false end) ;;
      Ret elt
  | Index i =>
      array <- cjson_as_array e ;;
      array_at array (Z.of_nat i)
  end.

Fixpoint follow (p : list segment) (e : option cjson_element)
  : outcome (option cjson_element) :=
  match p with
  | [] => Ret e
  | s :: p' =>
      match e with
      | None => Undefined
      | Some x => r <- follow_segment s x ;; follow p' r
      end
  end.

(** ** Further sample values *)


(** The array [[1, "two", [null]]]. *)
Definition sample_tree : cjson_element :=
  Element CJSON_ARRAY
    (val_array (mk_array [Some (cjson_create_integer 1);
                          Some (cjson_create_string (txt "two"));
                          Some (Element CJSON_ARRAY
                                  (val_array (mk_array [Some cjson_create_null] 8)))]
                  8)).


(** ** The pretty text *)

(** What the serializer writes for a new line at an indent: a line feed
    and [indent] spaces. *)
Definition newline (indent : nat) : list ascii :=
  ascii_of_nat 10 :: repeat " "%char indent.

(** Texts separated by a comma and the white space [sep]. *)
Definition tail_sp (sep : list ascii) (l : list (list ascii)) : list ascii :=
  concat (map (fun x => ","%char :: sep ++ x) l).

Definition join_sp (sep : list ascii) (l : list (list ascii)) : list ascii :=
  match l with
  | [] => []
  | x :: r => x ++ tail_sp sep r
  end.

(** The pretty text of a plain tree that starts at the indent [indent]:
    the children of a container stand on lines of their own, two columns
    further in, and the closing bracket on a line at the indent. *)
Fixpoint render_pretty (indent : nat) (e : cjson_element) : list ascii :=
  match e with
  | Element CJSON_ARRAY (val_array a) =>
      "["%char
      :: newline (indent + 2)
      ++ join_sp (newline (indent + 2))
           (map (fun slot => match slot with
                             | Some x => render_pretty (indent + 2) x
                             | None => []
                             end)
              (elements a))
      ++ newline indent ++ ["]"%char]
  | Element CJSON_OBJECT (val_object o) =>
      "{"%char
      :: newline (indent + 2)
      ++ join_sp (newline (indent + 2))
           (concat (map (map (fun it =>
              quote :: name it ++ quote :: ":"%char
              :: match element it with
                 | Some x => render_pretty (indent + 2) x
                 | None => []
                 end))
            (items o)))
      ++ newline indent ++ ["}"%char]
  | _ => render e
  end.

(** The pieces of [render_pretty]. *)
Definition slot_pretty (indent : nat) (slot : option cjson_element) : list ascii :=
  match slot with Some x => render_pretty indent x | None => [] end.

Definition member_pretty (indent : nat) (it : cjson_map_item) : list ascii :=
  quote :: name it ++ quote :: ":"%char :: slot_pretty indent (element it).

(** A text that starts with a byte that is no white space. *)
Definition solid (t : list ascii) : bool :=
  match t with
  | c :: _ => negb (isspace c)
  | [] => false
  end.

(** A step of the serializer that appends [text] when the indent is
    [indent], and leaves the indent as it was. *)
Definition writes_at (indent : nat) (m : to_str_state -> outcome to_str_state)
  (text : list ascii) : Prop :=
  forall sb : cjson_str_builder,
    sb_ok sb ->
    exists sb',
      m (sb, indent) = Ret (sb', indent)
      /\ str sb' = str sb ++ text
      /\ sb_ok sb'.

(** [rec] reads [text], whatever bytes follow it that continue no number,
    skips the white space after it and returns [res] without raising the
    error flag; it does the same when its caller has looked at the first
    token of the text, which is no closing bracket. *)
Definition parses_sp (rec : cjson_lexer -> bool -> outcome parse_result)
  (text : list ascii) (res : option cjson_element) : Prop :=
  forall lexer rest,
    fresh lexer (text ++ rest) -> number_ends rest = true ->
    exists lexer' peeked,
      rec lexer false = Ret (res, lexer', false)
      /\ fresh lexer' (skip_space rest)
      /\ cjson_read_next_token lexer = Ret peeked
      /\ tok_eqb (type (token peeked)) CJSON_TOK_RBRACK = false
      /\ rec peeked false = Ret (res, lexer', false).

(** The text of a member whose value has the text [vt it], and what the
    parser makes of it. *)
Definition member_sp (vt : cjson_map_item -> list ascii) (it : cjson_map_item)
  : list ascii :=
  quote :: name it ++ quote :: ":"%char :: vt it.

Definition member_parses_sp (rec : cjson_lexer -> bool -> outcome parse_result)
  (vt : cjson_map_item -> list ascii) (it it' : cjson_map_item) : Prop :=
  name it' = name it
  /\ plain_text (name it) = true
  /\ parses_sp rec (vt it) (element it').

(** ** Trees whose nodes store the member of their type *)

(** Every node of string, array or object type stores the member of the
    union that goes with its type, or the zeroed storage of [calloc]: these
    are the members [cjson_delete] reads.  The constructors, the containers
    and the parser of the library build no other node. *)
Fixpoint typed (e : cjson_element) : bool :=
  match e with
  | Element CJSON_STRING v =>
      match v with val_string _ | val_zero => true | _ => false end
  | Element CJSON_ARRAY v =>
      match v with
      | val_array a =>
          forallb (fun slot => match slot with Some x => typed x | None => true end)
            (elements a)
      | val_zero => true
      | _ => false
      end
  | Element CJSON_OBJECT v =>
      match v with
      | val_object o =>
          forallb (forallb (fun it => match element it with
                                      | Some x => typed x
                                      | None => true
                                      end))
            (items o)
      | val_zero => true
      | _ => false
      end
  | _ => true
  end.

(** No NULL pointer in a slot of an array or as the element of a member,
    at any depth. *)
Fixpoint no_null (e : cjson_element) : bool :=
  match e with
  | Element CJSON_ARRAY (val_array a) =>
      forallb (fun slot => match slot with Some x => no_null x | None => false end)
        (elements a)
  | Element CJSON_OBJECT (val_object o) =>
      forallb (forallb (fun it => match element it with
                                  | Some x => no_null x
                                  | None => false
                                  end))
        (items o)
  | _ => true
  end.

(** ** Number literals *)

(** The optional minus sign of a number. *)
Definition sign_text (neg : bool) : list ascii :=
  if neg then ["-"%char] else [].

(** The bytes start with a point and a digit: the test of the lexer for a
    fraction. *)
Definition point_digit (r : list ascii) : bool :=
  match r with
  | c :: d :: _ => Ascii.eqb c "." && isdigit d
  | _ => false
  end.


(** * Properties *)

(** ** Array container *)

Lemma store_middle (A : Type) (l1 l2 : list A) (y x : A) (i : nat) :
  length l1 = i -> store (l1 ++ y :: l2) i x = l1 ++ x :: l2.
Proof.
  revert i; induction l1 as [|a l1 IH]; intros i Hi; simpl in *; subst i.
  - reflexivity.
  - f_equal. apply IH. reflexivity.
Qed.

Lemma store_length (A : Type) (l : list A) (i : nat) (x : A) :
  length (store l i x) = length l.
Proof.
  revert i; induction l as [|a l IH]; intros [|i]; simpl; auto.
Qed.

Lemma insert_loop_spec (l1 l2 : list (option cjson_element)) e index :
  insert_loop (l1 ++ e :: l2) (length l1) index
  = firstn index l1 ++ e :: skipn index l1 ++ l2.
Proof.
  revert l2; induction l1 as [|x l1 IH] using rev_ind; intros l2.
  - simpl. rewrite firstn_nil, skipn_nil. reflexivity.
  - rewrite length_app. simpl length. rewrite Nat.add_1_r.
    cbn [insert_loop].
    destruct (index <? S (length l1)) eqn:Hlt.
    + apply Nat.ltb_lt in Hlt.
      rewrite <- app_assoc. cbn [app].
      rewrite nth_middle.
      replace (nth (S (length l1)) (l1 ++ x :: e :: l2) None) with e
        by (change (l1 ++ x :: e :: l2) with (l1 ++ [x] ++ e :: l2);
            rewrite app_assoc;
            replace (S (length l1)) with (length (l1 ++ [x]))
              by (rewrite length_app; simpl; lia);
            rewrite nth_middle; reflexivity).
      rewrite store_middle by reflexivity.
      change (l1 ++ e :: e :: l2) with (l1 ++ [e] ++ e :: l2).
      rewrite app_assoc.
      rewrite store_middle by (rewrite length_app; simpl; lia).
      rewrite <- app_assoc. cbn [app].
      rewrite IH.
      rewrite firstn_app, skipn_app.
      replace (index - length l1) with 0 by lia.
      simpl. rewrite app_nil_r, <- app_assoc. reflexivity.
    + apply Nat.ltb_ge in Hlt.
      rewrite firstn_all2 by (rewrite length_app; simpl; lia).
      rewrite skipn_all2 by (rewrite length_app; simpl; lia).
      reflexivity.
Qed.

Lemma array_append_spec (array : cjson_array) e :
  size array <= capacity array ->
  exists array',
    cjson_array_append array e = Ret array'
    /\ elements array' = elements array ++ [e]
    /\ size array' <= capacity array'.
Proof.
  intros Hle. unfold cjson_array_append.
  destruct (capacity array <? size array) eqn:Hlt.
  - apply Nat.ltb_lt in Hlt. lia.
  - eexists; split; [reflexivity|]. split; [reflexivity|].
    unfold size in *. simpl. rewrite length_app. simpl.
    destruct (Nat.eqb (capacity array) 0) eqn:H0;
      [apply Nat.eqb_eq in H0 | apply Nat.eqb_neq in H0].
    + destruct (Nat.eqb (length (elements array)) 8) eqn:H8;
        [apply Nat.eqb_eq in H8 | apply Nat.eqb_neq in H8]; lia.
    + destruct (Nat.eqb (length (elements array)) (capacity array)) eqn:Hc;
        [apply Nat.eqb_eq in Hc | apply Nat.eqb_neq in Hc]; lia.
Qed.

(** C5.  [cjson_array_insert] on an array of length [n] puts the element
    at position [index] and moves the elements that were at
    [index .. n-1] one slot towards the end; with [index >= n] it appends.
    From the empty array, append 1, 2, 3, then insert -1 at 0, 0 at 1,
    5 at 5 and 4 at 5 give [-1, 0, 1, 2, 3, 4, 5]. *)
Theorem array_insert_places_element :
  (forall (array : cjson_array) (e : option cjson_element) (index : nat),
      size array <= capacity array ->
      exists array',
        cjson_array_insert array e index = Ret array'
        /\ elements array'
           = firstn index (elements array) ++ e :: skipn index (elements array)
        /\ (size array <= index -> elements array' = elements array ++ [e]))
  /\ (let int v := Some (cjson_create_integer v) in
      (a <- cjson_as_array cjson_create_array ;;
       a <- cjson_array_append a (int 1%Z) ;;
       a <- cjson_array_append a (int 2%Z) ;;
       a <- cjson_array_append a (int 3%Z) ;;
       a <- cjson_array_insert a (int (-1)%Z) 0 ;;
       a <- cjson_array_insert a (int 0%Z) 1 ;;
       a <- cjson_array_insert a (int 5%Z) 5 ;;
       a <- cjson_array_insert a (int 4%Z) 5 ;;
       Ret (elements a))
      = Ret (map int [-1; 0; 1; 2; 3; 4; 5]%Z)).
Proof.
  split; [|reflexivity].
  intros array e index Hle.
  destruct (array_append_spec array e Hle) as (a1 & Happ & Hels & _).
  unfold cjson_array_insert. rewrite Happ. cbn [bind].
  eexists; split; [reflexivity|].
  cbn [elements]. unfold size. rewrite Hels.
  rewrite length_app. simpl length.
  replace (length (elements array) + 1 - 1) with (length (elements array)) by lia.
  rewrite insert_loop_spec. rewrite app_nil_r.
  split; [reflexivity|].
  intros Hge. unfold size in Hge.
  rewrite firstn_all2, skipn_all2 by lia. reflexivity.
Qed.

Lemma array_insert_places_element_witness :
  exists array',
    cjson_array_insert (mk_array [Some cjson_create_null; None] 8)
      (Some (cjson_create_bool true)) 1 = Ret array'
    /\ elements array' = [Some cjson_create_null; Some (cjson_create_bool true); None].
Proof.
  destruct (proj1 array_insert_places_element
              (mk_array [Some cjson_create_null; None] 8)
              (Some (cjson_create_bool true)) 1) as (a' & H1 & H2 & _).
  - unfold size; simpl; lia.
  - exists a'. split; [exact H1 | exact H2].
Defined.


(** ** C strings *)

Lemma ascii_eqb_true (a b : ascii) : Ascii.eqb a b = true <-> a = b.
Proof. apply Ascii.eqb_eq. Qed.

Lemma cstr_eqb_true (a b : cstr) : cstr_eqb a b = true <-> a = b.
Proof.
  unfold cstr_eqb. destruct (list_eq_dec ascii_dec a b); split; congruence.
Qed.

Lemma cstr_eqb_false (a b : cstr) : cstr_eqb a b = false <-> a <> b.
Proof.
  unfold cstr_eqb. destruct (list_eq_dec ascii_dec a b); split; congruence.
Qed.

Lemma str_eqb_true (a b : list ascii) : str_eqb a b = true <-> c_str a = c_str b.
Proof.
  unfold str_eqb. destruct (list_eq_dec ascii_dec (c_str a) (c_str b)); split; congruence.
Qed.

Lemma str_eqb_false (a b : list ascii) : str_eqb a b = false <-> c_str a <> c_str b.
Proof.
  unfold str_eqb. destruct (list_eq_dec ascii_dec (c_str a) (c_str b)); split; congruence.
Qed.

Lemma c_str_is_cstr (s : list ascii) : is_cstr (c_str s) = true.
Proof.
  induction s as [|c s IH]; simpl; [reflexivity|].
  destruct (Ascii.eqb c NUL) eqn:Hc; simpl; [reflexivity|].
  rewrite Hc. simpl. exact IH.
Qed.

Lemma is_cstr_c_str (s : list ascii) : is_cstr s = true -> c_str s = s.
Proof.
  induction s as [|c s IH]; simpl; [reflexivity|].
  intros H. apply andb_prop in H. destruct H as [Hc Hs].
  apply negb_true_iff in Hc. rewrite Hc. f_equal. auto.
Qed.

Lemma c_str_idem (s : list ascii) : c_str (c_str s) = c_str s.
Proof. apply is_cstr_c_str, c_str_is_cstr. Qed.

Lemma cjson_hash_c_str (s : list ascii) : cjson_hash (c_str s) = cjson_hash s.
Proof. unfold cjson_hash. rewrite c_str_idem. reflexivity. Qed.

Lemma bucket_of_c_str (cap : nat) (s : list ascii) :
  bucket_of cap (c_str s) = bucket_of cap s.
Proof. unfold bucket_of. rewrite cjson_hash_c_str. reflexivity. Qed.

Lemma bucket_of_lt (cap h : nat) (s : list ascii) :
  bucket_of cap s = Ret h -> h < cap.
Proof.
  unfold bucket_of. destruct cap as [|cap]; [discriminate|].
  intros H. injection H as <-.
  pose proof (Z.mod_pos_bound (cjson_hash s) (Z.of_nat (S cap)) ltac:(lia)).
  lia.
Qed.

Lemma bucket_of_defined (cap : nat) (s : list ascii) :
  cap <> 0 -> exists h, bucket_of cap s = Ret h.
Proof.
  unfold bucket_of. destruct cap as [|cap]; [congruence|]. intros _. eexists. reflexivity.
Qed.

(** ** Object map: the invariant *)

Lemma distinct_NoDup (l : list cstr) : distinct l = true <-> NoDup l.
Proof.
  induction l as [|x l IH]; simpl.
  - split; [constructor | reflexivity].
  - rewrite andb_true_iff, negb_true_iff, IH. split.
    + intros [Hx Hl]. constructor; [|exact Hl].
      intros Hin. apply not_true_iff_false in Hx. apply Hx.
      apply existsb_exists. exists x. split; [exact Hin | apply cstr_eqb_true; reflexivity].
    + intros H. inversion H as [|? ? Hx Hl]; subst. split; [|exact Hl].
      apply not_true_iff_false. intros Hex. apply existsb_exists in Hex.
      destruct Hex as (y & Hy & Hxy). apply cstr_eqb_true in Hxy. subst y. contradiction.
Qed.

Lemma item_ok_spec (cap h : nat) (it : cjson_map_item) :
  item_ok cap h it = true <->
  bucket_of cap (name it) = Ret h /\ c_str (name it) = name it.
Proof.
  unfold item_ok. rewrite andb_true_iff. split.
  - intros [Hb Hc]. split; [|apply is_cstr_c_str; exact Hc].
    destruct (bucket_of cap (name it)); try discriminate.
    apply Nat.eqb_eq in Hb. congruence.
  - intros [Hb Hc]. rewrite Hb, Nat.eqb_refl. split; [reflexivity|].
    rewrite <- Hc. apply c_str_is_cstr.
Qed.

Lemma buckets_ok_nth (cap i : nat) (bs : list (list cjson_map_item)) :
  buckets_ok cap i bs = true ->
  forall h, chain_ok cap (i + h) (nth h bs []) = true.
Proof.
  revert i; induction bs as [|b bs IH]; intros i H h.
  - destruct h; reflexivity.
  - simpl in H. apply andb_prop in H. destruct H as [Hb Hbs].
    destruct h as [|h]; simpl.
    + rewrite Nat.add_0_r. exact Hb.
    + rewrite <- Nat.add_succ_comm. apply IH. exact Hbs.
Qed.

Lemma buckets_ok_store (cap i h : nat) (bs : list (list cjson_map_item)) chain :
  buckets_ok cap i bs = true ->
  chain_ok cap (i + h) chain = true ->
  buckets_ok cap i (store bs h chain) = true.
Proof.
  revert i h; induction bs as [|b bs IH]; intros i h H Hc.
  - destruct h; reflexivity.
  - simpl in H. apply andb_prop in H. destruct H as [Hb Hbs].
    destruct h as [|h]; simpl.
    + rewrite Nat.add_0_r in Hc. rewrite Hc, Hbs. reflexivity.
    + rewrite Hb. simpl. apply IH; [exact Hbs|].
      rewrite Nat.add_succ_comm. exact Hc.
Qed.

Lemma in_entries (m : cjson_map) (it : cjson_map_item) :
  In it (entries m) <-> exists h, h < map_capacity m /\ In it (nth h (items m) []).
Proof.
  unfold entries, map_capacity. destruct m as [bs]. simpl. split.
  - intros H. apply in_concat in H. destruct H as (chain & Hc & Hit).
    apply In_nth with (d := []) in Hc. destruct Hc as (h & Hh & Hn).
    exists h. split; [exact Hh|]. rewrite Hn. exact Hit.
  - intros (h & Hh & Hit). apply in_concat. exists (nth h bs []).
    split; [apply nth_In; exact Hh | exact Hit].
Qed.

Lemma map_ok_spec (m : cjson_map) :
  map_ok m = true ->
  map_capacity m <> 0
  /\ forall h, chain_ok (map_capacity m) h (nth h (items m) []) = true.
Proof.
  unfold map_ok. intros H. apply andb_prop in H. destruct H as [Hc Hb].
  split.
  - apply negb_true_iff, Nat.eqb_neq in Hc. exact Hc.
  - intros h. apply (buckets_ok_nth _ _ _ Hb h).
Qed.

Lemma chain_ok_item (cap h : nat) chain (it : cjson_map_item) :
  chain_ok cap h chain = true -> In it chain ->
  bucket_of cap (name it) = Ret h /\ c_str (name it) = name it.
Proof.
  unfold chain_ok. intros H Hin. apply andb_prop in H. destruct H as [Hall _].
  rewrite forallb_forall in Hall. apply item_ok_spec. auto.
Qed.

Lemma map_ok_item (m : cjson_map) (it : cjson_map_item) :
  map_ok m = true -> In it (entries m) ->
  exists h, bucket_of (map_capacity m) (name it) = Ret h
            /\ In it (nth h (items m) [])
            /\ c_str (name it) = name it.
Proof.
  intros Hok Hin. apply map_ok_spec in Hok. destruct Hok as [_ Hch].
  apply in_entries in Hin. destruct Hin as (h & _ & Hit).
  destruct (chain_ok_item _ _ _ _ (Hch h) Hit) as [Hb Hc].
  exists h. auto.
Qed.

(** The scan of a chain. *)
Lemma chain_find_none chain (nm : list ascii) :
  (forall it, In it chain -> c_str (name it) <> c_str nm) ->
  chain_find chain nm = [].
Proof.
  induction chain as [|x chain IH]; intros H; simpl; [reflexivity|].
  destruct (str_eqb (name x) nm) eqn:Hx.
  - apply str_eqb_true in Hx. exfalso. apply (H x); [left; reflexivity | exact Hx].
  - apply IH. intros it Hin. apply H. right. exact Hin.
Qed.

Lemma chain_find_some chain (nm : list ascii) (it : cjson_map_item) :
  distinct (map (@name _) chain) = true ->
  (forall x, In x chain -> c_str (name x) = name x) ->
  In it chain -> name it = c_str nm ->
  exists pre post,
    chain = pre ++ it :: post
    /\ chain_find chain nm = it :: post
    /\ forall e, chain_set chain nm e = pre ++ mk_item (name it) e :: post.
Proof.
  induction chain as [|x chain IH]; intros Hd Hc Hin Hn; [contradiction|].
  simpl in Hd. apply andb_prop in Hd. destruct Hd as [Hx Hd].
  simpl. destruct Hin as [->|Hin].
  - replace (str_eqb (name it) nm) with true.
    + exists [], chain. simpl. auto.
    + symmetry. apply str_eqb_true. rewrite Hn. apply c_str_idem.
  - destruct (str_eqb (name x) nm) eqn:Hxn.
    + exfalso. apply str_eqb_true in Hxn.
      rewrite (Hc x (or_introl eq_refl)) in Hxn.
      apply negb_true_iff, not_true_iff_false in Hx. apply Hx.
      apply existsb_exists. exists (name it). split.
      * apply in_map. exact Hin.
      * apply cstr_eqb_true. congruence.
    + destruct (IH Hd (fun y Hy => Hc y (or_intror Hy)) Hin Hn)
        as (pre & post & -> & Hf & Hs).
      exists (x :: pre), post. simpl. split; [reflexivity|]. split; [exact Hf|].
      intros e. rewrite Hs. reflexivity.
Qed.

Lemma object_get_absent (m : cjson_map) (nm : list ascii) :
  map_ok m = true ->
  ~ In (c_str nm) (map (@name _) (entries m)) ->
  cjson_object_get m nm = Ret None.
Proof.
  intros Hok Hnot. pose proof (map_ok_spec _ Hok) as [Hcap Hch].
  unfold cjson_object_get.
  destruct (bucket_of_defined nm Hcap) as (h & Hh). rewrite Hh. cbn [bind].
  rewrite chain_find_none; [reflexivity|].
  intros it Hin Heq. apply Hnot.
  destruct (chain_ok_item _ _ _ _ (Hch h) Hin) as [_ Hc].
  rewrite <- Heq, Hc. apply in_map.
  apply in_entries. exists h. split; [|exact Hin].
  apply bucket_of_lt in Hh. exact Hh.
Qed.

Lemma object_get_present (m : cjson_map) (nm : list ascii) (it : cjson_map_item) :
  map_ok m = true ->
  In it (entries m) -> name it = c_str nm ->
  cjson_object_get m nm = Ret (element it).
Proof.
  intros Hok Hin Hn. pose proof (map_ok_spec _ Hok) as [Hcap Hch].
  destruct (map_ok_item _ _ Hok Hin) as (h & Hb & Hit & Hc).
  unfold cjson_object_get.
  rewrite <- bucket_of_c_str, <- Hn, Hb. cbn [bind].
  pose proof (Hch h) as Hchain. unfold chain_ok in Hchain.
  apply andb_prop in Hchain. destruct Hchain as [Hall Hd].
  destruct (chain_find_some (nth h (items m) []) nm it Hd) as (pre & post & _ & Hf & _).
  - intros x Hx. apply (chain_ok_item _ _ _ _ (Hch h) Hx).
  - exact Hit.
  - exact Hn.
  - rewrite Hf. reflexivity.
Qed.

(** C10 (amended to the maps that satisfy the invariant of the container:
    at least one bucket, every item in the bucket of its hash, no name twice
    in a chain).  On such a map [cjson_object_get] returns NULL for a name
    that is not a member, it does not abort, and for a name that is a member
    it returns the element stored under it. *)
Theorem object_get_null_or_stored (m : cjson_object) (Hok : map_ok m = true) :
  (forall nm : list ascii,
      ~ In (c_str nm) (map (@name _) (entries m)) ->
      cjson_object_get m nm = Ret None)
  /\ (forall (nm : list ascii) (it : cjson_map_item),
         In it (entries m) -> name it = c_str nm ->
         cjson_object_get m nm = Ret (element it)).
Proof.
  split.
  - intros nm. apply object_get_absent. exact Hok.
  - intros nm it. apply object_get_present. exact Hok.
Qed.

Lemma store_nth_same (A : Type) (l : list A) (h : nat) (x d : A) :
  h < length l -> nth h (store l h x) d = x.
Proof.
  revert h; induction l as [|a l IH]; intros [|h] Hlt; simpl in *; try lia; auto.
  apply IH. lia.
Qed.

Lemma store_nth_other (A : Type) (l : list A) (h h' : nat) (x d : A) :
  h' <> h -> nth h' (store l h x) d = nth h' l d.
Proof.
  revert h h'; induction l as [|a l IH]; intros [|h] [|h'] Hne; simpl; try congruence; auto.
Qed.

Lemma buckets_ok_bucket (cap i : nat) (bs : list (list cjson_map_item)) it :
  buckets_ok cap i bs = true -> In it (concat bs) ->
  exists h, i <= h /\ bucket_of cap (name it) = Ret h.
Proof.
  revert i; induction bs as [|b bs IH]; intros i H Hin; [contradiction|].
  simpl in H. apply andb_prop in H. destruct H as [Hb Hbs].
  simpl in Hin. apply in_app_or in Hin. destruct Hin as [Hin|Hin].
  - exists i. split; [lia|]. apply (chain_ok_item _ _ _ _ Hb Hin).
  - destruct (IH _ Hbs Hin) as (h & Hle & Hh). exists h. split; [lia | exact Hh].
Qed.

Lemma buckets_ok_NoDup (cap i : nat) (bs : list (list cjson_map_item)) :
  buckets_ok cap i bs = true -> NoDup (map (@name _) (concat bs)).
Proof.
  revert i; induction bs as [|b bs IH]; intros i H; [constructor|].
  simpl in H. apply andb_prop in H. destruct H as [Hb Hbs].
  simpl. rewrite map_app. apply NoDup_app.
  - unfold chain_ok in Hb. apply andb_prop in Hb. apply distinct_NoDup. apply Hb.
  - apply (IH _ Hbs).
  - intros n Hn1 Hn2. apply in_map_iff in Hn1. destruct Hn1 as (x & <- & Hx).
    apply in_map_iff in Hn2. destruct Hn2 as (y & Hxy & Hy).
    destruct (chain_ok_item _ _ _ _ Hb Hx) as [Hbx _].
    destruct (buckets_ok_bucket _ _ _ _ Hbs Hy) as (h & Hle & Hby).
    rewrite Hxy, Hbx in Hby. injection Hby as <-. lia.
Qed.

Lemma map_ok_NoDup (m : cjson_map) :
  map_ok m = true -> NoDup (map (@name _) (entries m)).
Proof.
  unfold map_ok. intros H. apply andb_prop in H. destruct H as [_ H].
  apply (buckets_ok_NoDup _ _ _ H).
Qed.

Lemma chain_find_inv chain (nm : list ascii) :
  match chain_find chain nm with
  | [] => forall it, In it chain -> c_str (name it) <> c_str nm
  | item :: _ => In item chain /\ c_str (name item) = c_str nm
  end.
Proof.
  induction chain as [|x chain IH]; simpl.
  - intros it [].
  - destruct (str_eqb (name x) nm) eqn:Hx.
    + split; [left; reflexivity | apply str_eqb_true; exact Hx].
    + apply str_eqb_false in Hx.
      destruct (chain_find chain nm) as [|item rest].
      * intros it [<-|Hin]; [exact Hx | apply IH; exact Hin].
      * destruct IH as [Hin Hn]. split; [right; exact Hin | exact Hn].
Qed.

Lemma map_ok_store (m : cjson_map) (h : nat) chain :
  map_ok m = true ->
  chain_ok (map_capacity m) h chain = true ->
  map_ok (mk_map (store (items m) h chain)) = true.
Proof.
  unfold map_ok, map_capacity. simpl. rewrite store_length.
  intros H Hc. apply andb_prop in H. destruct H as [H0 Hb].
  rewrite H0. simpl. apply buckets_ok_store; assumption.
Qed.

Lemma map_insert_spec (m : cjson_map) (nm : list ascii)
  (e : option cjson_element)
  (Hok : map_ok m = true)
  (Hdel : forall it, In it (entries m) -> name it = c_str nm ->
                     cjson_delete (element it) = Ret tt) :
  exists (m' : cjson_map) (h : nat),
    cjson_map_insert m nm e = Ret m'
    /\ bucket_of (map_capacity m) nm = Ret h
    /\ map_capacity m' = map_capacity m
    /\ map_ok m' = true
    /\ NoDup (map (@name _) (entries m'))
    /\ cjson_object_get m' nm = Ret e
    /\ (forall h', h' <> h -> nth h' (items m') [] = nth h' (items m) [])
    /\ (forall it, In it (entries m) -> name it = c_str nm ->
          exists pre post,
            nth h (items m) [] = pre ++ it :: post
            /\ nth h (items m') [] = pre ++ mk_item (name it) e :: post)
    /\ (~ In (c_str nm) (map (@name _) (entries m)) ->
          nth h (items m') [] = mk_item (c_str nm) e :: nth h (items m) []).
Proof.
  pose proof (map_ok_spec _ Hok) as [Hcap Hch].
  destruct (bucket_of_defined nm Hcap) as (h & Hh).
  pose proof (bucket_of_lt _ _ Hh) as Hlt.
  set (chain := nth h (items m) []).
  pose proof (Hch h) as Hchain. fold chain in Hchain.
  assert (Hnames : forall x, In x chain -> c_str (name x) = name x)
    by (intros x Hx; apply (chain_ok_item _ _ _ _ Hchain Hx)).
  assert (Hsub : forall x, In x chain -> In x (entries m))
    by (intros x Hx; apply in_entries; exists h; auto).
  assert (Hhere : forall it, In it (entries m) -> name it = c_str nm -> In it chain).
  { intros it Hin Hn. destruct (map_ok_item _ _ Hok Hin) as (h' & Hb & Hit & _).
    rewrite Hn, bucket_of_c_str, Hh in Hb. injection Hb as <-. exact Hit. }
  (* the chain after the insertion, in both cases *)
  assert (Hres : exists chain',
             cjson_map_insert m nm e = Ret (mk_map (store (items m) h chain'))
             /\ chain_ok (map_capacity m) h chain' = true
             /\ In (mk_item (c_str nm) e) chain'
             /\ (forall it, In it chain -> name it = c_str nm ->
                   exists pre post, chain = pre ++ it :: post
                                    /\ chain' = pre ++ mk_item (name it) e :: post)
             /\ ((forall it, In it chain -> name it <> c_str nm) ->
                   chain' = mk_item (c_str nm) e :: chain)).
  { unfold cjson_map_insert. rewrite Hh. cbn [bind]. fold chain.
    pose proof (chain_find_inv chain nm) as Hinv.
    unfold chain_ok in Hchain. apply andb_prop in Hchain. destruct Hchain as [Hall Hd].
    destruct (chain_find chain nm) as [|item rest] eqn:Hfind.
    - exists (mk_item (strdup nm) e :: chain). split; [reflexivity|].
      assert (Hfresh : forall it, In it chain -> name it <> c_str nm)
        by (intros it Hin; rewrite <- (Hnames it Hin); apply Hinv; exact Hin).
      split; [|split; [left; reflexivity | split]].
      + unfold chain_ok. simpl. rewrite Hall, Hd.
        replace (item_ok (map_capacity m) h (mk_item (strdup nm) e)) with true
          by (symmetry; apply item_ok_spec; simpl; unfold strdup;
              rewrite bucket_of_c_str, c_str_idem; auto).
        simpl. rewrite andb_true_r. apply negb_true_iff, not_true_iff_false.
        intros Hex. apply existsb_exists in Hex. destruct Hex as (y & Hy & Hxy).
        apply cstr_eqb_true in Hxy. apply in_map_iff in Hy.
        destruct Hy as (it & <- & Hit). apply (Hfresh it Hit). symmetry. exact Hxy.
      + intros it Hin Hn. exfalso. apply (Hfresh it Hin Hn).
      + reflexivity.
    - destruct Hinv as [Hitem Hname].
      rewrite (Hnames item Hitem) in Hname.
      rewrite (Hdel item (Hsub _ Hitem) Hname). cbn [bind].
      destruct (chain_find_some chain nm item Hd Hnames Hitem Hname)
        as (pre & post & Hsplit & _ & Hset).
      exists (chain_set chain nm e). split; [reflexivity|].
      rewrite Hset.
      assert (Hmap : map (@name _) (pre ++ mk_item (name item) e :: post)
                     = map (@name _) chain)
        by (rewrite Hsplit, !map_app; reflexivity).
      split; [|split; [|split]].
      + unfold chain_ok. rewrite Hmap, Hd, andb_true_r.
        apply forallb_forall. intros x Hx.
        rewrite forallb_forall in Hall.
        apply in_app_or in Hx. destruct Hx as [Hx|[<-|Hx]].
        * apply Hall. rewrite Hsplit. apply in_or_app. left. exact Hx.
        * pose proof (Hall item Hitem) as Hi. unfold item_ok in *. exact Hi.
        * apply Hall. rewrite Hsplit. apply in_or_app. right. right. exact Hx.
      + rewrite Hname. apply in_or_app. right. left. reflexivity.
      + intros it Hin Hn.
        assert (it = item) as ->.
        { apply distinct_NoDup in Hd.
          rewrite Hsplit in Hin. apply in_app_or in Hin.
          rewrite Hsplit, map_app in Hd. simpl in Hd.
          apply NoDup_remove_2 in Hd.
          destruct Hin as [Hin|[Heq|Hin]]; [|symmetry; exact Heq|].
          - exfalso. apply Hd. apply in_or_app. left.
            replace (name item) with (name it) by congruence. apply in_map. exact Hin.
          - exfalso. apply Hd. apply in_or_app. right.
            replace (name item) with (name it) by congruence. apply in_map. exact Hin. }
        exists pre, post. auto.
      + intros Hfresh. exfalso. apply (Hfresh item Hitem Hname). }
  destruct Hres as (chain' & Hins & Hok' & Hin' & Hrep & Hpush).
  set (m' := mk_map (store (items m) h chain')) in *.
  assert (Hcap' : map_capacity m' = map_capacity m)
    by (unfold m', map_capacity; simpl; apply store_length).
  assert (Hmok : map_ok m' = true) by (apply map_ok_store; assumption).
  assert (Hnth : nth h (items m') [] = chain')
    by (unfold m'; simpl; apply store_nth_same; exact Hlt).
  exists m', h. split; [exact Hins|]. split; [exact Hh|]. split; [exact Hcap'|].
  split; [exact Hmok|]. split; [apply map_ok_NoDup; exact Hmok|].
  split.
  - apply (object_get_present m' nm (mk_item (c_str nm) e) Hmok); [|reflexivity].
    apply in_entries. exists h. rewrite Hcap', Hnth. auto.
  - split; [intros h' Hne; unfold m'; simpl; apply store_nth_other; exact Hne|].
    split.
    + intros it Hin Hn. rewrite Hnth. apply Hrep; [apply Hhere|]; assumption.
    + intros Hfresh. rewrite Hnth. apply Hpush.
      intros it Hin Hn. apply Hfresh. rewrite <- Hn. apply in_map, Hsub, Hin.
Qed.

(** C6 (amended to the maps that satisfy the invariant of the container:
    at least one bucket, every item in the bucket of its hash, no name twice
    in a chain; and to the insertions that release no NULL pointer: the
    entry under the name, if there is one, holds an element that
    [cjson_delete] releases).  On such a map an insertion under a name that
    has an entry replaces the element of that entry and keeps its stored
    name and its place in the chain; an insertion under a fresh name pushes
    a new entry at the head of the chain of its bucket; either way the names
    stay unique and a lookup of the name returns the element just
    inserted. *)
Theorem map_insert_replaces_or_pushes (m : cjson_map) (nm : list ascii)
  (e : option cjson_element)
  (Hok : map_ok m = true)
  (Hdel : forall it, In it (entries m) -> name it = c_str nm ->
                     cjson_delete (element it) = Ret tt) :
  exists (m' : cjson_map) (h : nat),
    cjson_map_insert m nm e = Ret m'
    /\ bucket_of (map_capacity m) nm = Ret h
    /\ map_capacity m' = map_capacity m
    /\ map_ok m' = true
    /\ NoDup (map (@name _) (entries m'))
    /\ cjson_object_get m' nm = Ret e
    /\ (forall h', h' <> h -> nth h' (items m') [] = nth h' (items m) [])
    /\ (forall it, In it (entries m) -> name it = c_str nm ->
          exists pre post,
            nth h (items m) [] = pre ++ it :: post
            /\ nth h (items m') [] = pre ++ mk_item (name it) e :: post)
    /\ (~ In (c_str nm) (map (@name _) (entries m)) ->
          nth h (items m') [] = mk_item (c_str nm) e :: nth h (items m) []).
Proof. exact (map_insert_spec m nm e Hok Hdel). Qed.



Lemma repeat_nil_buckets_ok (cap h n : nat) :
  buckets_ok cap h (repeat ([] : list cjson_map_item) n) = true.
Proof.
  revert h; induction n as [|n IH]; intros h; simpl; [reflexivity | apply IH].
Qed.

Lemma empty_map_ok (cap : nat) :
  cap <> 0 -> map_ok (mk_map (repeat [] cap)) = true.
Proof.
  intros Hcap. unfold map_ok, map_capacity. simpl. rewrite repeat_length.
  apply Nat.eqb_neq in Hcap. rewrite Hcap. simpl. apply repeat_nil_buckets_ok.
Qed.

Lemma concat_repeat_nil (A : Type) (n : nat) : concat (repeat ([] : list A) n) = [].
Proof. induction n; simpl; auto. Qed.

(** ** Object iterator *)

(** The scan for the next bucket that is not empty. *)
Lemma next_bucket_spec (bs : list (list cjson_map_item)) (i : nat) :
  exists n,
    next_bucket bs i = (i + n, nth n bs [])
    /\ n <= length bs
    /\ concat (firstn n bs) = []
    /\ (nth n bs [] = [] -> n = length bs).
Proof.
  revert i; induction bs as [|b bs IH]; intros i.
  - exists 0. simpl. rewrite Nat.add_0_r. auto.
  - destruct b as [|c b].
    + destruct (IH (S i)) as (n & Hn & Hle & Hc & He).
      exists (S n). simpl. rewrite Hn. rewrite Nat.add_succ_comm.
      split; [reflexivity|]. split; [lia|]. split; [exact Hc|].
      intros H. f_equal. apply He. exact H.
    + exists 0. simpl. rewrite Nat.add_0_r.
      split; [reflexivity|]. split; [lia|]. split; [reflexivity|]. discriminate.
Qed.

Lemma nth_nth_error (A : Type) (l : list A) (n : nat) (d x : A) :
  nth n l d = x -> x <> d -> nth_error l n = Some x.
Proof.
  revert n; induction l as [|a l IH]; intros [|n] H Hd; simpl in *; try congruence.
  apply IH; assumption.
Qed.

Lemma stands_at_entry (obj : cjson_object) (k : nat) (it : cjson_object_iterator) :
  stands_at obj k it ->
  exists c, nth_error (entries obj) k = Some c
            /\ it_name it = Some (name c) /\ it_element it = element c
            /\ k < length (entries obj).
Proof.
  intros (_ & _ & pre & c & rest & _ & Hnth & Hk & Hn & He).
  exists c.
  assert (Hsplit : entries obj
                   = (concat (firstn (it_i it) (items obj)) ++ pre)
                       ++ c :: rest ++ concat (skipn (S (it_i it)) (items obj))).
  { unfold entries. rewrite <- (firstn_skipn_middle _ _ Hnth) at 1.
    rewrite concat_app. simpl. rewrite <- !app_assoc. reflexivity. }
  assert (Hlen : length (concat (firstn (it_i it) (items obj)) ++ pre) = k)
    by (rewrite Hk; apply length_app).
  split; [|split; [exact Hn | split; [exact He|]]].
  - rewrite Hsplit. rewrite nth_error_app2 by (rewrite Hlen; lia).
    rewrite Hlen, Nat.sub_diag. reflexivity.
  - rewrite Hsplit, length_app, Hlen. simpl. lia.
Qed.

Lemma iterate_object_spec (obj : cjson_object) :
  (entries obj = [] /\ it_end (cjson_iterate_object obj) = true)
  \/ stands_at obj 0 (cjson_iterate_object obj).
Proof.
  unfold cjson_iterate_object.
  destruct (next_bucket_spec (items obj) 0) as (n & Hn & Hle & Hc & He).
  rewrite Hn. simpl.
  destruct (nth n (items obj) []) as [|c rest] eqn:Hnth.
  - left. split; [|reflexivity].
    unfold entries. rewrite <- (firstn_all (items obj)), <- (He eq_refl). exact Hc.
  - right. split; [reflexivity|]. split; [reflexivity|].
    exists [], c, rest. simpl.
    split; [reflexivity|].
    split; [apply nth_nth_error with (d := []); [exact Hnth | discriminate]|].
    split; [rewrite Hc; reflexivity|]. auto.
Qed.

Lemma iterate_next_spec (obj : cjson_object) (k : nat) (it : cjson_object_iterator) :
  stands_at obj k it ->
  exists it',
    cjson_iterate_next it = Ret it'
    /\ ((S k < length (entries obj) /\ stands_at obj (S k) it')
        \/ (S k = length (entries obj) /\ it_end it' = true)).
Proof.
  intros (Hmap & Hend & pre & c & rest & Hitem & Hnth & Hk & Hn & He).
  assert (Hi : it_i it < length (items obj))
    by (apply nth_error_Some; rewrite Hnth; discriminate).
  assert (Hsplit : entries obj
                   = concat (firstn (it_i it) (items obj)) ++ (pre ++ c :: rest)
                       ++ concat (skipn (S (it_i it)) (items obj))).
  { unfold entries. rewrite <- (firstn_skipn_middle _ _ Hnth) at 1.
    rewrite concat_app. reflexivity. }
  unfold cjson_iterate_next. rewrite Hend, Hitem.
  destruct rest as [|c' rest'].
  - rewrite Hmap.
    destruct (next_bucket_spec (skipn (S (it_i it)) (items obj)) (S (it_i it)))
      as (n & Hnb & Hle & Hc & Hz).
    rewrite Hnb.
    rewrite length_skipn in Hle.
    assert (Hfound : nth n (skipn (S (it_i it)) (items obj)) []
                     = nth (S (it_i it) + n) (items obj) []).
    { rewrite <- (firstn_skipn (S (it_i it)) (items obj)) at 2.
      rewrite app_nth2; rewrite length_firstn; [|lia].
      f_equal. lia. }
    assert (Hbefore : concat (firstn (S (it_i it) + n) (items obj))
                      = concat (firstn (it_i it) (items obj)) ++ pre ++ [c]).
    { rewrite <- (firstn_skipn (S (it_i it)) (items obj)) at 1.
      rewrite firstn_app, length_firstn.
      replace (S (it_i it) + n - Nat.min (S (it_i it)) (length (items obj))) with n by lia.
      rewrite firstn_firstn.
      replace (Nat.min (S (it_i it) + n) (S (it_i it))) with (S (it_i it)) by lia.
      rewrite concat_app, Hc, app_nil_r.
      rewrite <- (firstn_skipn_middle _ _ Hnth) at 1.
      rewrite firstn_app, length_firstn.
      replace (S (it_i it) - Nat.min (it_i it) (length (items obj))) with 1 by lia.
      rewrite firstn_firstn.
      replace (Nat.min (S (it_i it)) (it_i it)) with (it_i it) by lia.
      simpl. rewrite concat_app. simpl. rewrite app_nil_r. reflexivity. }
    destruct (nth n (skipn (S (it_i it)) (items obj)) []) as [|d drest] eqn:Hd.
    + pose proof (Hz eq_refl) as Hall.
      rewrite Hall, firstn_all in Hc.
      rewrite length_skipn in Hall.
      cbn [it_i it_map].
      replace (Nat.eqb (S (it_i it) + n) (map_capacity obj)) with true
        by (symmetry; apply Nat.eqb_eq; unfold map_capacity; lia).
      eexists. split; [reflexivity|]. right. split; [|reflexivity].
      rewrite Hsplit, Hc, app_nil_r, Hk, !length_app. simpl. lia.
    + assert (Hlt : S (it_i it) + n < length (items obj)).
      { destruct (Nat.lt_ge_cases (S (it_i it) + n) (length (items obj))) as [H|H];
          [exact H|].
        rewrite nth_overflow in Hd; [discriminate|]. rewrite length_skipn. lia. }
      cbn [it_i it_map].
      replace (Nat.eqb (S (it_i it) + n) (map_capacity obj)) with false
        by (symmetry; apply Nat.eqb_neq; unfold map_capacity; lia).
      eexists. split; [reflexivity|].
      assert (Hst : stands_at obj (S k)
                      (mk_iterator (Some (name d)) (element d) false obj
                         (S (it_i it) + n) (d :: drest))).
      { split; [reflexivity|]. split; [reflexivity|].
        exists [], d, drest. cbn [it_item it_i it_name it_element].
        split; [reflexivity|].
        split; [apply nth_nth_error with (d := []);
                [rewrite <- Hfound; reflexivity | discriminate]|].
        split; [rewrite Hbefore, !length_app; simpl; lia|]. auto. }
      left. split; [|exact Hst].
      destruct (stands_at_entry Hst) as (_ & _ & _ & _ & H). exact H.
  - cbn [it_i it_map]. rewrite Hmap.
    replace (Nat.eqb (it_i it) (map_capacity obj)) with false
      by (symmetry; apply Nat.eqb_neq; unfold map_capacity; lia).
    eexists. split; [reflexivity|].
    assert (Hst : stands_at obj (S k)
                    (mk_iterator (Some (name c')) (element c') false obj
                       (it_i it) (c' :: rest'))).
    { split; [reflexivity|]. split; [reflexivity|].
      exists (pre ++ [c]), c', rest'. cbn [it_item it_i it_name it_element].
      split; [reflexivity|].
      split; [rewrite <- app_assoc; exact Hnth|].
      split; [rewrite length_app; simpl; lia|]. auto. }
    left. split; [|exact Hst].
    destruct (stands_at_entry Hst) as (_ & _ & _ & _ & H). exact H.
Qed.

Lemma iterate_next_end (it : cjson_object_iterator) :
  it_end it = true -> cjson_iterate_next it = Ret it.
Proof. intros H. unfold cjson_iterate_next. rewrite H. reflexivity. Qed.

Lemma iterate_steps_spec (obj : cjson_object) (k : nat) :
  exists it,
    iterate_steps k obj = Ret it
    /\ ((k < length (entries obj) /\ stands_at obj k it)
        \/ (length (entries obj) <= k /\ it_end it = true)).
Proof.
  induction k as [|k IH].
  - exists (cjson_iterate_object obj). split; [reflexivity|].
    destruct (iterate_object_spec obj) as [[He Hend]|Hst].
    + right. rewrite He. simpl. auto.
    + left. split; [|exact Hst].
      destruct (stands_at_entry Hst) as (_ & _ & _ & _ & H). exact H.
  - destruct IH as (it & Hit & [[Hlt Hst]|[Hge Hend]]).
    + destruct (iterate_next_spec Hst) as (it' & Hnext & [[Hlt' Hst']|[Heq Hend']]).
      * exists it'. simpl. rewrite Hit. cbn [bind]. split; [exact Hnext|]. left. auto.
      * exists it'. simpl. rewrite Hit. cbn [bind]. split; [exact Hnext|]. right.
        split; [lia | exact Hend'].
    + exists it. simpl. rewrite Hit. cbn [bind].
      split; [apply iterate_next_end; exact Hend|]. right. split; [lia | exact Hend].
Qed.

(** C9.  The iterator of [cjson_iterate_object], advanced by
    [cjson_iterate_next], stands after [k] steps on the [k]-th entry of the
    map, in the order of the buckets and, within a bucket, of the chain:
    every stored entry is visited, once; after as many steps as there are
    entries, and from then on, [end] is set; on a map without entries the
    first iterator has [end] set. *)
Theorem iterator_visits_every_entry_once (obj : cjson_object) :
  (forall (k : nat) (c : cjson_map_item),
      nth_error (entries obj) k = Some c ->
      exists it,
        iterate_steps k obj = Ret it
        /\ it_end it = false
        /\ it_name it = Some (name c)
        /\ it_element it = element c)
  /\ (forall k : nat,
         length (entries obj) <= k ->
         exists it, iterate_steps k obj = Ret it /\ it_end it = true)
  /\ (entries obj = [] -> it_end (cjson_iterate_object obj) = true).
Proof.
  split; [|split].
  - intros k c Hc.
    assert (Hlt : k < length (entries obj))
      by (apply nth_error_Some; rewrite Hc; discriminate).
    destruct (iterate_steps_spec obj k) as (it & Hit & [[_ Hst]|[Hge _]]); [|lia].
    exists it. split; [exact Hit|].
    destruct (stands_at_entry Hst) as (c' & Hc' & Hn & He & _).
    rewrite Hc in Hc'. injection Hc' as <-.
    destruct Hst as (_ & Hend & _). auto.
  - intros k Hge.
    destruct (iterate_steps_spec obj k) as (it & Hit & [[Hlt _]|[_ Hend]]); [lia|].
    exists it. auto.
  - intros He. destruct (iterate_object_spec obj) as [[_ Hend]|Hst]; [exact Hend|].
    destruct (stands_at_entry Hst) as (_ & _ & _ & _ & H).
    rewrite He in H. simpl in H. lia.
Qed.


Lemma object_get_null_or_stored_witness :
  map_ok sample_object = true
  /\ cjson_object_get sample_object (txt "f1") = Ret (Some (cjson_create_integer 42))
  /\ cjson_object_get sample_object (txt "f4") = Ret None.
Proof.
  split; [reflexivity|].
  destruct (object_get_null_or_stored sample_object eq_refl) as [Habsent Hpresent].
  split.
  - apply (Hpresent (txt "f1") (mk_item (txt "f1") (Some (cjson_create_integer 42)))).
    + vm_compute. tauto.
    + reflexivity.
  - apply Habsent. vm_compute. intros [H|[H|[H|[]]]]; discriminate H.
Defined.

(** C10 as it is stated fails: the object [cjson_create_object] builds for
    the capacity 0 has no bucket, and every lookup in it takes the remainder
    of the hash by zero instead of returning NULL. *)
Lemma object_get_fails_without_buckets :
  exists o,
    cjson_as_object (cjson_create_object 0) = Ret o
    /\ entries o = []
    /\ forall nm : list ascii, cjson_object_get o nm = Undefined.
Proof.
  exists (mk_map []). repeat split.
Qed.

Lemma map_insert_replaces_or_pushes_witness :
  map_ok sample_object = true
  /\ exists m' h,
      cjson_map_insert sample_object (txt "f1") (Some (cjson_create_bool true)) = Ret m'
      /\ bucket_of (map_capacity sample_object) (txt "f1") = Ret h
      /\ cjson_object_get m' (txt "f1") = Ret (Some (cjson_create_bool true)).
Proof.
  split; [reflexivity|].
  destruct (map_insert_replaces_or_pushes sample_object (txt "f1")
              (Some (cjson_create_bool true)) eq_refl)
    as (m' & h & Hins & Hb & _ & _ & _ & Hget & _).
  - intros it Hin Hn. vm_compute in Hin.
    destruct Hin as [<-|[<-|[<-|[]]]]; try reflexivity; discriminate Hn.
  - exists m', h. auto.
Defined.

(** C6 as it is stated fails: in the object [cjson_create_object] builds
    for the capacity 0 every insertion takes the remainder of the hash by
    zero; and an insertion under a name whose entry holds a NULL pointer
    passes that pointer to [cjson_delete], which follows it. *)
Lemma map_insert_fails_outside_invariant :
  (exists o,
      cjson_as_object (cjson_create_object 0) = Ret o
      /\ forall (nm : list ascii) (e : option cjson_element),
           cjson_object_insert o nm e = Undefined)
  /\ (exists o o',
        cjson_as_object (cjson_create_object 8) = Ret o
        /\ cjson_object_insert o (txt "a") None = Ret o'
        /\ cjson_object_get o' (txt "a") = Ret None
        /\ forall e : option cjson_element,
             cjson_object_insert o' (txt "a") e = Undefined).
Proof.
  split.
  - exists (mk_map []). split; [reflexivity|]. intros nm e. reflexivity.
  - eexists. eexists. split; [reflexivity|]. split; [vm_compute; reflexivity|].
    split; [vm_compute; reflexivity|]. intros e. reflexivity.
Qed.

Lemma iterator_visits_every_entry_once_witness :
  exists it,
    iterate_steps 1 sample_object = Ret it
    /\ it_end it = false
    /\ it_name it = Some (txt "f2")
    /\ it_element it = Some (cjson_create_string (txt "42")).
Proof.
  apply (proj1 (iterator_visits_every_entry_once sample_object) 1
           (mk_item (txt "f2") (Some (cjson_create_string (txt "42"))))).
  reflexivity.
Defined.

(** ** Parser: what it does on float literals, on negative numbers and on
       malformed input *)

Lemma peek_token (lexer lexer1 : cjson_lexer) (tok : cjson_token) :
  cjson_lexer_peek lexer = Ret (tok, lexer1) -> tok = token lexer1.
Proof.
  unfold cjson_lexer_peek.
  destruct (tok_eqb (type (token lexer)) CJSON_TOK_NONE).
  - destruct (cjson_read_next_token lexer); cbn [bind]; try discriminate.
    intros H. injection H as <- <-. reflexivity.
  - cbn [bind]. intros H. injection H as <- <-. reflexivity.
Qed.

Lemma pop_materialised (lexer : cjson_lexer) :
  tok_eqb (type (token lexer)) CJSON_TOK_NONE = false ->
  cjson_lexer_pop lexer
  = Ret (token lexer,
         mk_lexer (lexer_content lexer) (location lexer)
           (set_type CJSON_TOK_NONE (token lexer))).
Proof. intros H. unfold cjson_lexer_pop. rewrite H. reflexivity. Qed.

(** C1 (the code departs from it).  Whatever the input, when the next
    token is a float token [cjson_parse_value] returns an element whose tag
    is [CJSON_INTEGER], with the double stored in the [fraction] member; on
    the text [1.5] the parser returns such an element, [cjson_is_float] is
    false on it and [cjson_is_integer] true.  [cjson_create_float] tags its
    element [CJSON_FLOAT]. *)
Theorem float_literal_tagged_integer :
  (forall rec (lexer lexer1 : cjson_lexer) (error : bool) (tok : cjson_token),
      cjson_lexer_peek lexer = Ret (tok, lexer1) ->
      type tok = CJSON_TOK_FLOAT ->
      exists lexer2,
        cjson_parse_value rec lexer error
        = Ret (Some (Element CJSON_INTEGER (val_fraction (float_value tok))),
               lexer2, error))
  /\ cjson_parse_str (txt "1.5")
     = Ret (Some (Element CJSON_INTEGER
                    (val_fraction (S754_finite false 6755399441055744 (-52)))))
  /\ (forall e, cjson_parse_str (txt "1.5") = Ret (Some e) ->
                cjson_is_float e = false /\ cjson_is_integer e = true)
  /\ (forall d, cjson_is_float (cjson_create_float d) = true).
Proof.
  split; [|split; [|split]].
  - intros rec lexer lexer1 error tok Hpeek Htype.
    unfold cjson_parse_value. rewrite Hpeek. cbn [bind]. rewrite Htype.
    pose proof (peek_token _ Hpeek) as Htok.
    rewrite pop_materialised by (rewrite <- Htok, Htype; reflexivity).
    cbn [bind]. eexists. reflexivity.
  - vm_compute. reflexivity.
  - intros e H. vm_compute in H. injection H as <-. split; reflexivity.
  - intros d. reflexivity.
Qed.

Lemma scan_string_unterminated (s : list ascii) (n : nat) :
  forallb (fun c => negb (Ascii.eqb c quote) && negb (Ascii.eqb c backslash)) s = true ->
  scan_string s n = Undefined.
Proof.
  revert n; induction s as [|c s IH]; intros n H; simpl; [reflexivity|].
  simpl in H. apply andb_prop in H. destruct H as [Hc Hs].
  apply andb_prop in Hc. destruct Hc as [Hq Hb].
  apply negb_true_iff in Hq, Hb. rewrite Hq, Hb. apply IH. exact Hs.
Qed.

Lemma parse_unterminated_string (s : list ascii) :
  forallb (fun c => negb (Ascii.eqb c quote) && negb (Ascii.eqb c backslash)) s = true ->
  cjson_parse_str (quote :: s) = Undefined.
Proof.
  intros H. unfold cjson_parse_str. cbn [length cjson_parse_element].
  unfold parse_element_body, cjson_parse_ws, cjson_parse_value, cjson_lexer_peek,
    cjson_read_next_token, input.
  cbn -[scan_string]. rewrite (scan_string_unterminated s 1 H). reflexivity.
Qed.

(** C2 (the code departs from it).  A trailing comma before [}] and a
    missing [:] make the parser return NULL.  A trailing comma before []]
    does not: the parser returns the array, with a NULL pointer in the slot
    after the comma.  On a string without its closing quote the lexer reads
    past the terminator of the input: no result is defined. *)
Theorem malformed_input_outcomes :
  cjson_parse_str (txt "{'a':1,}") = Ret None
  /\ cjson_parse_str (txt "{'a' 1}") = Ret None
  /\ cjson_parse_str (txt "[1,]")
     = Ret (Some (Element CJSON_ARRAY
                    (val_array (mk_array [Some (cjson_create_integer 1); None] 8))))
  /\ cjson_parse_str (txt "'abc") = Undefined
  /\ (forall s : list ascii,
         forallb (fun c => negb (Ascii.eqb c quote) && negb (Ascii.eqb c backslash)) s
         = true ->
         cjson_parse_str (quote :: s) = Undefined).
Proof.
  split; [vm_compute; reflexivity|].
  split; [vm_compute; reflexivity|].
  split; [vm_compute; reflexivity|].
  split; [vm_compute; reflexivity|].
  exact parse_unterminated_string.
Qed.

(** ** Path accessor *)

Lemma path_bad_first_char (element : option cjson_element) (from : list ascii) :
  Ascii.eqb (head_char from) "[" = false ->
  Ascii.eqb (head_char from) "." = false ->
  cjson_get_element_from element from = Aborted.
Proof.
  intros H1 H2. unfold cjson_get_element_from. cbn [get_element_from_rec].
  unfold get_element_from_body. rewrite H1, H2. reflexivity.
Qed.

Lemma path_member_of_non_object (e : cjson_element) (from : list ascii) :
  Ascii.eqb (head_char from) "." = true ->
  cjson_is_object e = false ->
  cjson_get_element_from (Some e) from = Aborted.
Proof.
  intros H1 H2. unfold cjson_get_element_from. cbn [get_element_from_rec].
  unfold get_element_from_body.
  apply Ascii.eqb_eq in H1. rewrite H1. cbn [Ascii.eqb Bool.eqb].
  unfold cjson_get_element_from_object. rewrite H2. reflexivity.
Qed.

Lemma path_index_of_non_array (e : cjson_element) (from : list ascii) :
  Ascii.eqb (head_char from) "[" = true ->
  cjson_is_array e = false ->
  cjson_get_element_from (Some e) from = Aborted.
Proof.
  intros H1 H2. unfold cjson_get_element_from. cbn [get_element_from_rec].
  unfold get_element_from_body. rewrite H1.
  unfold cjson_get_element_from_array. rewrite H2. reflexivity.
Qed.

Lemma path_missing_member (e : cjson_element) (o : cjson_object) (from : list ascii) :
  Ascii.eqb (head_char from) "." = true ->
  cjson_as_object e = Ret o ->
  cjson_object_get o
    (strndup (skipn 1 from) (strspn (skipn 1 from) member_chars)) = Ret None ->
  cjson_get_element_from (Some e) from = Aborted.
Proof.
  intros H1 H2 H3. unfold cjson_get_element_from. cbn [get_element_from_rec].
  unfold get_element_from_body.
  apply Ascii.eqb_eq in H1. rewrite H1. cbn [Ascii.eqb Bool.eqb].
  unfold cjson_get_element_from_object.
  assert (Hobj : cjson_is_object e = true).
  { unfold cjson_as_object in H2. unfold cjson_is_object.
    destruct (type_eqb (element_type e) CJSON_OBJECT); [reflexivity | discriminate]. }
  rewrite Hobj. cbn [assert bind].
  destruct (isalpha (head_char (skipn 1 from)) || Ascii.eqb (head_char (skipn 1 from)) "_");
    cbn [assert bind]; [|reflexivity].
  rewrite H2. cbn [bind]. rewrite H3. reflexivity.
Qed.

Lemma path_index_out_of_range (e : cjson_element) (a : cjson_array) (from : list ascii)
  (i : Z) (off : nat) :
  Ascii.eqb (head_char from) "[" = true ->
  cjson_as_array e = Ret a ->
  strtoul (skipn 1 from) = (i, off) ->
  Ascii.eqb (head_char (skipn off (skipn 1 from))) "]" = true ->
  size a <= Z.to_nat i ->
  cjson_get_element_from (Some e) from = Undefined.
Proof.
  intros H1 H2 H3 H4 H5. unfold cjson_get_element_from. cbn [get_element_from_rec].
  unfold get_element_from_body. rewrite H1.
  unfold cjson_get_element_from_array.
  assert (Harr : cjson_is_array e = true).
  { unfold cjson_as_array in H2.
    destruct (cjson_is_array e); [reflexivity | discriminate]. }
  rewrite Harr. cbn [assert bind]. rewrite H2. cbn [bind]. rewrite H3, H4.
  cbn [assert bind]. unfold array_at.
  replace (nth_error (elements a) (Z.to_nat i)) with (@None (option cjson_element))
    by (symmetry; apply nth_error_None; exact H5).
  reflexivity.
Qed.

(** C4 (the code departs from it).  A path that does not start with [.]
    or [[], a [.name] step on an element that is not an object or that has
    no such member, and a [[i]] step on an element that is not an array
    stop in an assertion.  A [[i]] step with [i] at or beyond the length of
    the array does not: the slot is read unchecked, outside the elements of
    the array, and nothing aborts the call. *)
Theorem path_index_not_checked :
  (forall (e : cjson_element) (a : cjson_array) (from : list ascii) (i : Z) (off : nat),
      Ascii.eqb (head_char from) "[" = true ->
      cjson_as_array e = Ret a ->
      strtoul (skipn 1 from) = (i, off) ->
      Ascii.eqb (head_char (skipn off (skipn 1 from))) "]" = true ->
      size a <= Z.to_nat i ->
      cjson_get_element_from (Some e) from = Undefined)
  /\ cjson_get_element_from (Some sample_array) (txt "[5]") = Undefined
  /\ cjson_get_element_from (Some sample_array) (txt "[0]")
     = Ret (Some (cjson_create_integer 1))
  /\ cjson_get_element_from (Some sample_array) (txt ".a") = Aborted
  /\ cjson_get_element_from (Some sample_array) (txt "x") = Aborted
  /\ cjson_get_element_from (Some (Element CJSON_OBJECT (val_object sample_object)))
       (txt ".f4") = Aborted.
Proof.
  split; [exact path_index_out_of_range|].
  repeat split; vm_compute; reflexivity.
Qed.


(** ** Decimal digits *)

Local Open Scope Z_scope.

Lemma digit_char_spec (d : Z) :
  0 <= d < 10 ->
  isdigit (ascii_of_N (Z.to_N (48 + d))) = true
  /\ digit_val (ascii_of_N (Z.to_N (48 + d))) = d
  /\ (Ascii.eqb (ascii_of_N (Z.to_N (48 + d))) "0" = true <-> d = 0).
Proof.
  intros H.
  assert (Hd : d = 0 \/ d = 1 \/ d = 2 \/ d = 3 \/ d = 4 \/ d = 5 \/ d = 6
               \/ d = 7 \/ d = 8 \/ d = 9) by lia.
  repeat (destruct Hd as [Hd|Hd]; [subst d; vm_compute; repeat split; congruence|]).
  subst d; vm_compute; repeat split; congruence.
Qed.

Lemma digits_rec_acc (f : nat) (n : Z) (acc : list ascii) :
  digits_rec f n acc = digits_rec f n [] ++ acc.
Proof.
  revert n acc; induction f as [|f IH]; intros n acc; simpl; [reflexivity|].
  destruct (n <? 10); [reflexivity|].
  rewrite IH. rewrite (IH _ [_]). rewrite <- app_assoc. reflexivity.
Qed.

Lemma digits_rec_fuel (f g : nat) (n : Z) (acc : list ascii) :
  0 <= n -> n < 2 ^ Z.of_nat f -> n < 2 ^ Z.of_nat g ->
  (1 <= f)%nat -> (1 <= g)%nat ->
  digits_rec f n acc = digits_rec g n acc.
Proof.
  revert g n acc; induction f as [|f IH]; intros g n acc H0 Hf Hg H1f H1g; [lia|].
  destruct g as [|g]; [lia|]. simpl.
  destruct (n <? 10) eqn:Hn; [reflexivity|].
  apply Z.ltb_ge in Hn.
  rewrite Nat2Z.inj_succ, Z.pow_succ_r in Hf, Hg by lia.
  assert (Hq : 0 <= n / 10) by (apply Z.div_pos; lia).
  assert (Hle : n / 10 <= n / 2).
  { apply Z.div_le_lower_bound; [lia|].
    pose proof (Z.mul_div_le n 10 ltac:(lia)). lia. }
  assert (Hh : forall k : Z, n < 2 * k -> n / 2 < k)
    by (intros k Hk; apply Z.div_lt_upper_bound; lia).
  assert (Hf1 : (1 <= f)%nat).
  { destruct f; [|lia]. simpl in Hf. lia. }
  assert (Hg1 : (1 <= g)%nat).
  { destruct g; [|lia]. simpl in Hg. lia. }
  apply IH; try lia.
  - specialize (Hh _ Hf). lia.
  - specialize (Hh _ Hg). lia.
Qed.

Lemma log2_fuel (n : Z) : 0 <= n -> n < 2 ^ Z.of_nat (S (Z.to_nat (Z.log2 n))).
Proof.
  intros H. rewrite Nat2Z.inj_succ, Z2Nat.id by apply Z.log2_nonneg.
  destruct (Z.eq_dec n 0) as [->|Hn]; [reflexivity|].
  apply Z.log2_spec. lia.
Qed.

Lemma digits_small (n : Z) :
  0 <= n < 10 -> digits n = [ascii_of_N (Z.to_N (48 + n))].
Proof.
  intros H. unfold digits. simpl.
  replace (n <? 10) with true by (symmetry; apply Z.ltb_lt; lia).
  rewrite Z.mod_small by lia. reflexivity.
Qed.

Lemma digits_step (n : Z) :
  10 <= n -> digits n = digits (n / 10) ++ [ascii_of_N (Z.to_N (48 + n mod 10))].
Proof.
  intros H. unfold digits at 1. simpl.
  replace (n <? 10) with false by (symmetry; apply Z.ltb_ge; lia).
  rewrite digits_rec_acc. f_equal. unfold digits.
  assert (Hq : 0 < n / 10) by (apply Z.div_str_pos; lia).
  pose proof (@log2_fuel n ltac:(lia)) as Hn.
  rewrite Nat2Z.inj_succ, Z.pow_succ_r in Hn by lia.
  assert (Hlog : 3 <= Z.log2 n) by (apply Z.log2_le_pow2; simpl; lia).
  apply digits_rec_fuel; try lia.
  - apply Z.div_lt_upper_bound; [lia|].
    rewrite Z2Nat.id by lia.
    rewrite Z2Nat.id in Hn by lia. lia.
  - apply log2_fuel. lia.
Qed.

(** Induction on the number of digits. *)
Lemma digits_ind (P : Z -> Prop) :
  (forall n, 0 <= n < 10 -> P n) ->
  (forall n, 10 <= n -> P (n / 10) -> P n) ->
  forall n, 0 <= n -> P n.
Proof.
  intros Hsmall Hstep n Hn.
  assert (H : forall k : nat, forall n, 0 <= n < Z.of_nat k -> P n).
  { induction k as [|k IH]; intros m Hm; [lia|].
    destruct (Z_lt_dec m 10) as [Hlt|Hge]; [apply Hsmall; lia|].
    apply Hstep; [lia|]. apply IH. split; [apply Z.div_pos; lia|].
    apply Z.div_lt_upper_bound; lia. }
  apply (H (Z.to_nat (n + 1))). lia.
Qed.

Lemma digits_all_digits (n : Z) : 0 <= n -> forallb isdigit (digits n) = true.
Proof.
  revert n. apply digits_ind.
  - intros n Hn. rewrite digits_small by exact Hn. cbn [forallb].
    rewrite (proj1 (digit_char_spec Hn)). reflexivity.
  - intros n Hn IH. rewrite digits_step by exact Hn.
    rewrite forallb_app, IH. cbn [forallb andb].
    rewrite (proj1 (digit_char_spec (Z.mod_pos_bound n 10 ltac:(lia)))). reflexivity.
Qed.

Lemma digits_value_app (l r : list ascii) (acc : Z) :
  forallb isdigit l = true ->
  digits_value (l ++ r) acc = digits_value r (digits_value l acc).
Proof.
  revert acc; induction l as [|c l IH]; intros acc H; simpl; [reflexivity|].
  simpl in H. apply andb_prop in H. destruct H as [Hc Hl].
  rewrite Hc. apply IH. exact Hl.
Qed.

Lemma digit_run_app (l r : list ascii) :
  forallb isdigit l = true ->
  digit_run (l ++ r) = (length l + digit_run r)%nat.
Proof.
  induction l as [|c l IH]; intros H; simpl; [reflexivity|].
  simpl in H. apply andb_prop in H. destruct H as [Hc Hl].
  rewrite Hc, IH by exact Hl. reflexivity.
Qed.

Lemma digits_value_digits (n : Z) : 0 <= n -> digits_value (digits n) 0 = n.
Proof.
  revert n. apply digits_ind.
  - intros n Hn. rewrite digits_small by exact Hn. cbn [digits_value].
    destruct (digit_char_spec Hn) as (Hd & Hv & _). rewrite Hd, Hv. reflexivity.
  - intros n Hn IH. rewrite digits_step by exact Hn.
    rewrite digits_value_app by (apply digits_all_digits, Z.div_pos; lia).
    rewrite IH. cbn [digits_value].
    destruct (digit_char_spec (Z.mod_pos_bound n 10 ltac:(lia))) as (Hd & Hv & _).
    rewrite Hd, Hv. pose proof (Z.div_mod n 10 ltac:(lia)). lia.
Qed.

Lemma digits_nonempty (n : Z) : 0 <= n -> exists c r, digits n = c :: r.
Proof.
  intros Hn. destruct (Z_lt_dec n 10).
  - rewrite digits_small by lia. eauto.
  - rewrite digits_step by lia.
    destruct (digits (n / 10)); simpl; eauto.
Qed.

Lemma digits_head_zero (n : Z) :
  0 <= n -> Ascii.eqb (head_char (digits n)) "0" = true -> n = 0.
Proof.
  revert n.
  apply (@digits_ind (fun n => Ascii.eqb (head_char (digits n)) "0" = true -> n = 0)).
  - intros n Hn. rewrite digits_small by exact Hn. cbn [head_char].
    apply (digit_char_spec Hn).
  - intros n Hn IH H. exfalso.
    rewrite digits_step in H by exact Hn.
    destruct (@digits_nonempty (n / 10) ltac:(apply Z.div_pos; lia)) as (c & r & Hc).
    rewrite Hc in H, IH. cbn [app head_char] in H, IH.
    specialize (IH H).
    assert (0 < n / 10) by (apply Z.div_str_pos; lia). lia.
Qed.

Lemma digits_length (n : Z) (k : nat) :
  0 <= n < 10 ^ Z.of_nat k -> (1 <= k)%nat -> (length (digits n) <= k)%nat.
Proof.
  revert n; induction k as [|k IH]; intros n Hn Hk; [lia|].
  destruct (Z_lt_dec n 10).
  - rewrite digits_small by lia. simpl. lia.
  - rewrite digits_step by lia. rewrite length_app. simpl.
    rewrite Nat2Z.inj_succ, Z.pow_succ_r in Hn by lia.
    assert (Hk1 : (1 <= k)%nat) by (destruct k; [simpl in Hn; lia | lia]).
    assert ((length (digits (n / 10)) <= k)%nat); [|lia].
    apply IH; [|exact Hk1]. split; [apply Z.div_pos; lia|].
    apply Z.div_lt_upper_bound; lia.
Qed.

Local Close Scope Z_scope.


(** ** Lexer: the tokens of a compact text *)

Lemma input_advance (lexer : cjson_lexer) (n : nat) (tok : cjson_token) :
  input (mk_lexer (lexer_content lexer) (location lexer + n) tok)
  = skipn n (input lexer).
Proof.
  unfold input. simpl. rewrite skipn_skipn. f_equal. apply Nat.add_comm.
Qed.

Lemma input_after_token (lexer : cjson_lexer) t (pre r : list ascii) iv :
  input lexer = pre ++ r ->
  input (after_token lexer t (length pre) iv) = r.
Proof.
  intros H. unfold after_token. rewrite input_advance, H.
  rewrite skipn_app, skipn_all, Nat.sub_diag. reflexivity.
Qed.

Lemma isdigit_other (c : ascii) :
  isdigit c = true ->
  Ascii.eqb c "-" = false /\ isspace c = false /\ Ascii.eqb c "." = false.
Proof.
  destruct c as [[] [] [] [] [] [] [] []]; vm_compute; intros H;
    repeat split; congruence.
Qed.

Lemma plain_char_other (c : ascii) :
  plain_char c = true ->
  Ascii.eqb c quote = false /\ Ascii.eqb c backslash = false /\ Ascii.eqb c NUL = false.
Proof.
  unfold plain_char. intros H.
  apply andb_prop in H. destruct H as [H Hb].
  apply andb_prop in H. destruct H as [Hn Hq].
  apply negb_true_iff in Hb, Hn, Hq. auto.
Qed.

Lemma plain_text_is_cstr (s : list ascii) : plain_text s = true -> is_cstr s = true.
Proof.
  unfold plain_text, is_cstr. intros H. apply forallb_forall. intros c Hc.
  rewrite forallb_forall in H. destruct (plain_char_other _ (H c Hc)) as (_ & _ & Hn).
  rewrite Hn. reflexivity.
Qed.

(** Punctuation. *)
Lemma lex_punct (lexer : cjson_lexer) (c : ascii) (r : list ascii) (t : token_type) :
  input lexer = c :: r ->
  (c, t) = (","%char, CJSON_TOK_COMMA) \/ (c, t) = (":"%char, CJSON_TOK_COLON)
  \/ (c, t) = ("["%char, CJSON_TOK_LBRACK) \/ (c, t) = ("]"%char, CJSON_TOK_RBRACK)
  \/ (c, t) = ("{"%char, CJSON_TOK_LBRACE) \/ (c, t) = ("}"%char, CJSON_TOK_RBRACE) ->
  cjson_read_next_token lexer
  = Ret (after_token lexer t 1 (integer_value (token lexer))).
Proof.
  intros Hin Hc. unfold cjson_read_next_token, after_token. rewrite Hin.
  repeat (destruct Hc as [Hc|Hc]; [injection Hc as -> ->; reflexivity|]).
  injection Hc as -> ->; reflexivity.
Qed.

(** Keywords. *)
Lemma lex_keyword (lexer : cjson_lexer) (lit r : list ascii) (t : token_type) :
  input lexer = lit ++ r ->
  (lit, t) = (list_ascii_of_string "null", CJSON_TOK_NULL)
  \/ (lit, t) = (list_ascii_of_string "true", CJSON_TOK_TRUE)
  \/ (lit, t) = (list_ascii_of_string "false", CJSON_TOK_FALSE) ->
  cjson_read_next_token lexer
  = Ret (after_token lexer t (length lit) (integer_value (token lexer))).
Proof.
  intros Hin Hc. unfold cjson_read_next_token, after_token. rewrite Hin.
  destruct Hc as [Hc|[Hc|Hc]]; injection Hc as -> ->; cbn -[Nat.add]; reflexivity.
Qed.

(** Strings without quote and backslash. *)
Lemma scan_string_plain (body r : list ascii) (n : nat) :
  plain_text body = true ->
  scan_string (body ++ quote :: r) n = Ret (CJSON_TOK_STRING, n + length body + 1).
Proof.
  revert n; induction body as [|c body IH]; intros n H.
  - simpl. f_equal. f_equal. lia.
  - simpl in H. apply andb_prop in H. destruct H as [Hc Hb].
    destruct (plain_char_other _ Hc) as (Hq & Hbs & _).
    cbn [app scan_string]. rewrite Hq, Hbs. rewrite IH by exact Hb.
    f_equal. f_equal. simpl. lia.
Qed.

Lemma lex_string (lexer : cjson_lexer) (body r : list ascii) :
  input lexer = quote :: body ++ quote :: r ->
  plain_text body = true ->
  cjson_read_next_token lexer
  = Ret (after_token lexer CJSON_TOK_STRING (length (quote :: body ++ [quote]))
           (integer_value (token lexer))).
Proof.
  intros Hin Hb. unfold cjson_read_next_token, after_token. rewrite Hin.
  cbn -[Nat.add scan_string]. rewrite scan_string_plain by exact Hb.
  cbn [bind]. rewrite length_app. simpl.
  replace (S (length body + 1)) with (1 + length body + 1) by lia. reflexivity.
Qed.

Lemma extract_loop_plain (body r res : list ascii) :
  plain_text body = true ->
  extract_loop (body ++ r) (length body) res = Ret (Some (res ++ body)).
Proof.
  revert res; induction body as [|c body IH]; intros res H.
  - simpl. rewrite app_nil_r. reflexivity.
  - simpl in H. apply andb_prop in H. destruct H as [Hc Hb].
    destruct (plain_char_other _ Hc) as (_ & Hbs & _).
    cbn [app length extract_loop]. rewrite Hbs. rewrite IH by exact Hb.
    rewrite <- app_assoc. reflexivity.
Qed.

Lemma extract_string_plain (body r : list ascii) (iv : Z) (fv : double) :
  plain_text body = true ->
  cjson_extract_string
    (mk_token CJSON_TOK_STRING (quote :: body ++ quote :: r)
       (length (quote :: body ++ [quote])) iv fv)
  = Ret (Some body).
Proof.
  intros H. unfold cjson_extract_string. cbn [type content content_len].
  cbn [tok_code type_code Z.eqb Pos.eqb assert bind].
  cbn [length skipn]. rewrite length_app. cbn [length].
  replace (S (length body + 1) - 2) with (length body) by lia.
  rewrite extract_loop_plain by exact H. cbn [bind app option_map].
  rewrite is_cstr_c_str by (apply plain_text_is_cstr; exact H). reflexivity.
Qed.

Lemma member_name_plain (body r : list ascii) :
  plain_text body = true ->
  strndup (skipn 1 (quote :: body ++ quote :: r))
    (length (quote :: body ++ [quote]) - 2) = body.
Proof.
  intros H. unfold strndup. cbn [length skipn]. rewrite length_app. cbn [length].
  replace (S (length body + 1) - 2) with (length body) by lia.
  rewrite firstn_app, firstn_all, Nat.sub_diag. simpl. rewrite app_nil_r.
  apply is_cstr_c_str, plain_text_is_cstr, H.
Qed.

(** Non-negative integers. *)
Local Open Scope Z_scope.

Lemma number_ends_spec (r : list ascii) :
  number_ends r = true ->
  digit_run r = 0%nat
  /\ match r with
     | c :: d :: _ => Ascii.eqb c "." && isdigit d = false
     | _ => True
     end.
Proof.
  unfold number_ends. destruct r as [|c r]; [auto|].
  intros H. apply andb_prop in H. destruct H as [Hd Hp].
  apply negb_true_iff in Hd, Hp. simpl. rewrite Hd. split; [reflexivity|].
  destruct r as [|d r]; [exact I|]. exact Hp.
Qed.

Lemma lex_integer (lexer : cjson_lexer) (v : Z) (r : list ascii) :
  input lexer = digits v ++ r ->
  0 <= v <= INT_MAX ->
  number_ends r = true ->
  cjson_read_next_token lexer
  = Ret (after_token lexer CJSON_TOK_INTEGER (length (digits v)) v).
Proof.
  intros Hin Hv Hr.
  destruct (number_ends_spec _ Hr) as [Hrun Hpoint].
  pose proof (@digits_all_digits v ltac:(lia)) as Hall.
  destruct (@digits_nonempty v ltac:(lia)) as (c & ds & Hd).
  assert (Hc : isdigit c = true /\ forallb isdigit ds = true)
    by (rewrite Hd in Hall; simpl in Hall; apply andb_prop in Hall; exact Hall).
  destruct Hc as [Hc Hds].
  destruct (isdigit_other _ Hc) as (Hminus & Hsp & _).
  (* the length of the token *)
  assert (Hlen : (if Ascii.eqb (head_char (digits v ++ r)) "0" then 1
                  else 1 + digit_run (skipn 1 (digits v ++ r)))%nat
                 = length (digits v)).
  { destruct (Ascii.eqb (head_char (digits v ++ r)) "0") eqn:Hz.
    - assert (v = 0).
      { apply digits_head_zero; [lia|]. rewrite Hd in Hz |- *. exact Hz. }
      subst v. reflexivity.
    - rewrite Hd. cbn [app skipn length].
      rewrite digit_run_app by exact Hds. rewrite Hrun. lia. }
  (* the value *)
  assert (Hval : strtol (digits v ++ r) = v).
  { unfold strtol.
    replace (skip_space (digits v ++ r)) with (digits v ++ r)
      by (rewrite Hd; cbn [app skip_space]; rewrite Hsp; reflexivity).
    rewrite Hd at 1. cbn [app]. rewrite Hminus.
    replace (Ascii.eqb c "+") with false
      by (revert Hc; clear; destruct c as [[] [] [] [] [] [] [] []];
          vm_compute; congruence).
    rewrite digits_value_app by exact Hall.
    rewrite digits_value_digits by lia.
    replace (digits_value r v) with v
      by (destruct r as [|x r']; [reflexivity|]; simpl in Hrun |- *;
          destruct (isdigit x); [discriminate | reflexivity]).
    unfold LONG_MIN, LONG_MAX, INT_MAX in *. lia. }
  unfold cjson_read_next_token, after_token. rewrite Hin.
  replace (head_char (digits v ++ r)) with c by (rewrite Hd; reflexivity).
  rewrite Hminus, Hc.
  unfold scan_number.
  replace (head_char (digits v ++ r)) with c by (rewrite Hd; reflexivity).
  replace (if Ascii.eqb c "0" then 1%nat
           else (1 + digit_run (skipn 1 (digits v ++ r)))%nat)
    with (length (digits v))
    by (rewrite <- Hlen; rewrite Hd; reflexivity).
  rewrite Hval, Z.mul_1_r.
  replace ((v <? LONG_MIN) || (LONG_MAX <? v)) with false
    by (symmetry; apply orb_false_iff; unfold LONG_MIN, LONG_MAX, INT_MAX in *;
        split; [apply Z.ltb_ge | apply Z.ltb_ge]; lia).
  replace (wrap_int v) with v
    by (unfold wrap_int, INT_MAX in *; rewrite Z.mod_small by lia; lia).
  rewrite skipn_app, skipn_all, Nat.sub_diag. cbn [app skipn].
  destruct r as [|x [|y r']]; cbn [bind]; try reflexivity.
  rewrite Hpoint. reflexivity.
Qed.

(** The same token behind a minus sign: [strtol] reads the sign and the
    lexer multiplies by it again. *)
Lemma lex_negative (lexer : cjson_lexer) (v : Z) (r : list ascii) :
  input lexer = "-"%char :: digits v ++ r ->
  0 <= v <= INT_MAX ->
  number_ends r = true ->
  cjson_read_next_token lexer
  = Ret (after_token lexer CJSON_TOK_INTEGER (S (length (digits v))) v).
Proof.
  intros Hin Hv Hr.
  destruct (number_ends_spec _ Hr) as [Hrun Hpoint].
  pose proof (@digits_all_digits v ltac:(lia)) as Hall.
  assert (Hval : strtol ("-"%char :: digits v ++ r) = - v).
  { unfold strtol. cbn [skip_space]. change (isspace "-") with false. cbv iota.
    change (Ascii.eqb "-" "-") with true. cbv iota.
    rewrite digits_value_app by exact Hall.
    rewrite digits_value_digits by lia.
    replace (digits_value r v) with v
      by (destruct r as [|x r']; [reflexivity|]; simpl in Hrun |- *;
          destruct (isdigit x); [discriminate | reflexivity]).
    unfold LONG_MIN, LONG_MAX, INT_MAX in *. lia. }
  unfold cjson_read_next_token, after_token. rewrite Hin.
  change (head_char ("-"%char :: digits v ++ r)) with "-"%char.
  change (Ascii.eqb "-" "-") with true. cbv iota.
  unfold scan_number.
  change (head_char ("-"%char :: digits v ++ r)) with "-"%char.
  change (Ascii.eqb "-" "0") with false. cbv iota.
  cbn [skipn]. rewrite digit_run_app by exact Hall. rewrite Hrun, Nat.add_0_r.
  rewrite Hval. replace (- v * -1) with v by lia.
  replace ((v <? LONG_MIN) || (LONG_MAX <? v)) with false
    by (symmetry; apply orb_false_iff; unfold LONG_MIN, LONG_MAX, INT_MAX in *;
        split; [apply Z.ltb_ge | apply Z.ltb_ge]; lia).
  replace (wrap_int v) with v
    by (unfold wrap_int, INT_MAX in *; rewrite Z.mod_small by lia; lia).
  change (1 + length (digits v))%nat with (S (length (digits v))).
  cbn [skipn]. rewrite skipn_app, skipn_all, Nat.sub_diag. cbn [app skipn].
  destruct r as [|x [|y r']]; cbn [bind]; try reflexivity.
  rewrite Hpoint. reflexivity.
Qed.

Local Close Scope Z_scope.


(** ** The compact text of a plain tree *)

Lemma join_cons (x : list ascii) (l : list (list ascii)) :
  join (x :: l) = x ++ tail_text l.
Proof.
  revert x; induction l as [|y l IH]; intros x.
  - simpl. rewrite app_nil_r. reflexivity.
  - change (join (x :: y :: l)) with (x ++ ","%char :: join (y :: l)).
    rewrite IH. reflexivity.
Qed.

Lemma tail_text_cons (x : list ascii) (l : list (list ascii)) :
  tail_text (x :: l) = ","%char :: x ++ tail_text l.
Proof. reflexivity. Qed.

Lemma render_array t (a : cjson_array) :
  t = CJSON_ARRAY ->
  render (Element t (val_array a))
  = "["%char :: join (map slot_text (elements a)) ++ ["]"%char].
Proof. intros ->. reflexivity. Qed.

Lemma render_object t (o : cjson_map) :
  t = CJSON_OBJECT ->
  render (Element t (val_object o))
  = "{"%char :: join (map member_text (entries o)) ++ ["}"%char].
Proof.
  intros ->. unfold entries. rewrite concat_map. reflexivity.
Qed.

Lemma plain_array (a : cjson_array) :
  plain_tree (Element CJSON_ARRAY (val_array a)) = true ->
  forallb plain_slot (elements a) = true.
Proof. simpl. auto. Qed.

Lemma forallb_concat (A : Type) (f : A -> bool) (l : list (list A)) :
  forallb (forallb f) l = forallb f (concat l).
Proof.
  induction l as [|x l IH]; simpl; [reflexivity|].
  rewrite forallb_app, IH. reflexivity.
Qed.

Lemma plain_object (o : cjson_map) :
  plain_tree (Element CJSON_OBJECT (val_object o)) = true ->
  NoDup (map (@name _) (entries o))
  /\ forallb plain_item (entries o) = true.
Proof.
  simpl. intros H.
  apply andb_prop in H. destruct H as [Hd Hall].
  split; [apply distinct_NoDup; exact Hd|].
  unfold entries. rewrite <- forallb_concat. exact Hall.
Qed.

Lemma slot_size (t : cjson_type) (a : cjson_array) (x : cjson_element) :
  In (Some x) (elements a) ->
  elt_size x < elt_size (Element t (val_array a)).
Proof.
  destruct a as [els cap]. simpl. intros Hin.
  apply Nat.lt_succ_r.
  induction els as [|s els IH]; [contradiction|].
  destruct Hin as [->|Hin].
  - lia.
  - specialize (IH Hin). destruct s; lia.
Qed.

Lemma member_size (t : cjson_type) (o : cjson_map) (it : cjson_map_item)
  (x : cjson_element) :
  In it (entries o) -> element it = Some x ->
  elt_size x < elt_size (Element t (val_object o)).
Proof.
  destruct o as [bs]. unfold entries. simpl. intros Hin Hx.
  apply Nat.lt_succ_r.
  induction bs as [|b bs IH]; [contradiction|].
  simpl in Hin. apply in_app_or in Hin. destruct Hin as [Hin|Hin].
  - clear IH. apply Nat.le_trans with (m :=
      (fix chain (c : list cjson_map_item) : nat :=
         match c with
         | [] => 0
         | it0 :: c' =>
             match element it0 with Some x0 => elt_size x0 | None => 0 end + chain c'
         end) b); [|lia].
    induction b as [|c b IHb]; [contradiction|].
    destruct Hin as [->|Hin].
    + rewrite Hx. lia.
    + specialize (IHb Hin). lia.
  - specialize (IH Hin). lia.
Qed.

Lemma plain_text_cstr_chars (s : list ascii) :
  plain_text s = true -> is_cstr s = true.
Proof. apply plain_text_is_cstr. Qed.

Lemma is_cstr_app (a b : list ascii) :
  is_cstr (a ++ b) = is_cstr a && is_cstr b.
Proof. apply forallb_app. Qed.

Lemma is_cstr_tail_text (l : list (list ascii)) :
  forallb is_cstr l = true -> is_cstr (tail_text l) = true.
Proof.
  induction l as [|x l IH]; intros H; [reflexivity|].
  simpl in H. apply andb_prop in H. destruct H as [Hx Hl].
  rewrite tail_text_cons. change (is_cstr (","%char :: x ++ tail_text l))
    with (is_cstr (x ++ tail_text l)).
  rewrite is_cstr_app, Hx, IH by exact Hl. reflexivity.
Qed.

Lemma is_cstr_join (l : list (list ascii)) :
  forallb is_cstr l = true -> is_cstr (join l) = true.
Proof.
  destruct l as [|x l]; intros H; [reflexivity|].
  simpl in H. apply andb_prop in H. destruct H as [Hx Hl].
  rewrite join_cons, is_cstr_app, Hx, is_cstr_tail_text by exact Hl. reflexivity.
Qed.

Lemma is_cstr_digits (n : Z) : (0 <= n)%Z -> is_cstr (digits n) = true.
Proof.
  intros Hn. unfold is_cstr. apply forallb_forall. intros c Hc.
  pose proof (digits_all_digits Hn) as Hall. rewrite forallb_forall in Hall.
  specialize (Hall c Hc). revert Hall. clear.
  destruct c as [[] [] [] [] [] [] [] []]; vm_compute; congruence.
Qed.

(** Strong induction on the size of a tree. *)
Lemma tree_ind (P : cjson_element -> Prop) :
  (forall T, (forall x, elt_size x < elt_size T -> P x) -> P T) ->
  forall T, P T.
Proof.
  intros Hstep T.
  assert (H : forall n x, elt_size x < n -> P x).
  { induction n as [|n IH]; intros x Hx; [lia|].
    apply Hstep. intros y Hy. apply IH. lia. }
  apply (H (S (elt_size T))). lia.
Qed.

Lemma plain_int_render t (v : cjson_value) :
  plain_tree (Element t v) = true -> t = CJSON_INTEGER ->
  exists i, v = val_integer i /\ (0 <= i <= INT_MAX)%Z
            /\ render (Element t v) = digits i.
Proof.
  intros H ->. destruct v; simpl in H; try discriminate.
  apply andb_prop in H. destruct H as [H0 H1].
  apply Z.leb_le in H0, H1. exists i. split; [reflexivity|]. split; [lia|].
  simpl. unfold fmt_d. replace (i <? 0)%Z with false by (symmetry; apply Z.ltb_ge; lia).
  reflexivity.
Qed.

Lemma render_is_cstr (T : cjson_element) :
  plain_tree T = true -> is_cstr (render T) = true.
Proof.
  induction T as [T IH] using tree_ind. intros Hp.
  destruct T as [t v].
  destruct t.
  - reflexivity.
  - destruct v; simpl in Hp; try discriminate. destruct b; reflexivity.
  - destruct (plain_int_render _ Hp eq_refl) as (i & -> & Hi & ->).
    apply is_cstr_digits. lia.
  - destruct v; discriminate Hp.
  - destruct v as [| | | |[s|]| |]; simpl in Hp; try discriminate Hp.
    simpl. rewrite is_cstr_app. rewrite plain_text_is_cstr by exact Hp. reflexivity.
  - destruct v; try discriminate Hp.
    pose proof (plain_array _ Hp) as Hall.
    rewrite render_array by reflexivity.
    change (is_cstr (join (map slot_text (elements a)) ++ ["]"%char]) = true).
    rewrite is_cstr_app, is_cstr_join; [reflexivity|].
    rewrite forallb_forall in Hall |- *. intros s Hs.
    apply in_map_iff in Hs. destruct Hs as (slot & <- & Hslot).
    specialize (Hall slot Hslot). destruct slot as [x|]; [|discriminate].
    apply IH; [apply slot_size; exact Hslot | exact Hall].
  - destruct v; try discriminate Hp.
    destruct (plain_object _ Hp) as (_ & Hall).
    rewrite render_object by reflexivity.
    change (is_cstr (join (map member_text (entries o)) ++ ["}"%char]) = true).
    rewrite is_cstr_app, is_cstr_join; [reflexivity|].
    rewrite forallb_forall in Hall |- *. intros s Hs.
    apply in_map_iff in Hs. destruct Hs as (it & <- & Hit).
    specialize (Hall it Hit). unfold plain_item in Hall.
    apply andb_prop in Hall. destruct Hall as [Hname Hslot].
    unfold member_text.
    change (is_cstr (name it ++ quote :: ":"%char :: slot_text (element it)) = true).
    rewrite is_cstr_app, plain_text_is_cstr by exact Hname.
    change (is_cstr (slot_text (element it)) = true).
    destruct (element it) as [x|] eqn:Hx; [|discriminate].
    apply IH; [apply member_size with (it := it); assumption | exact Hslot].
Qed.


(** ** Serializer: the compact text it builds *)

Lemma append_char_ok (sb : cjson_str_builder) (c : ascii) :
  sb_ok sb ->
  exists sb',
    cjson_str_builder_append_char sb c = Ret sb'
    /\ str sb' = str sb ++ [c]
    /\ sb_ok sb'.
Proof.
  unfold sb_ok, cjson_str_builder_append_char. intros Hok.
  replace (sb_capacity sb <? length (str sb)) with false
    by (symmetry; apply Nat.ltb_ge; exact Hok).
  eexists. split; [reflexivity|]. split; [reflexivity|].
  cbn [str sb_capacity]. rewrite length_app. simpl.
  destruct (Nat.eqb (sb_capacity sb) 0) eqn:H0;
    [apply Nat.eqb_eq in H0 | apply Nat.eqb_neq in H0].
  - destruct (Nat.eqb (length (str sb)) 8) eqn:H8;
      [apply Nat.eqb_eq in H8 | apply Nat.eqb_neq in H8]; lia.
  - destruct (Nat.eqb (length (str sb)) (sb_capacity sb)) eqn:Hc;
      [apply Nat.eqb_eq in Hc | apply Nat.eqb_neq in Hc]; lia.
Qed.

Lemma append_chars_ok (s : list ascii) (sb : cjson_str_builder) :
  sb_ok sb ->
  exists sb',
    append_chars sb s = Ret sb'
    /\ str sb' = str sb ++ s
    /\ sb_ok sb'.
Proof.
  revert sb; induction s as [|c s IH]; intros sb Hok.
  - exists sb. simpl. rewrite app_nil_r. auto.
  - destruct (append_char_ok c Hok) as (sb1 & E1 & S1 & K1).
    destruct (IH sb1 K1) as (sb2 & E2 & S2 & K2).
    exists sb2. simpl. rewrite E1. cbn [bind]. rewrite E2.
    split; [reflexivity|]. split; [|exact K2].
    rewrite S2, S1, <- app_assoc. reflexivity.
Qed.

Lemma writes_put_char (c : ascii) : writes (put_char c) [c].
Proof.
  intros sb indent Hok. destruct (append_char_ok c Hok) as (sb1 & E1 & S1 & K1).
  exists sb1. unfold put_char. rewrite E1. auto.
Qed.

Lemma writes_put_cstr (s : list ascii) :
  is_cstr s = true -> writes (put_cstr (Some s)) s.
Proof.
  intros Hs sb indent Hok. destruct (append_chars_ok s Hok) as (sb1 & E1 & S1 & K1).
  exists sb1. unfold put_cstr, cjson_str_builder_append_cstr.
  rewrite is_cstr_c_str by exact Hs. rewrite E1. auto.
Qed.

Lemma writes_bind (f g : to_str_state -> outcome to_str_state) (a b : list ascii) :
  writes f a -> writes g b -> writes (fun st => st' <- f st ;; g st') (a ++ b).
Proof.
  intros Hf Hg sb indent Hok.
  destruct (Hf sb indent Hok) as (sb1 & E1 & S1 & K1).
  destruct (Hg sb1 indent K1) as (sb2 & E2 & S2 & K2).
  exists sb2. rewrite E1. cbn [bind]. rewrite E2.
  split; [reflexivity|]. split; [|exact K2].
  rewrite S2, S1, <- app_assoc. reflexivity.
Qed.

Lemma writes_ext (f g : to_str_state -> outcome to_str_state) (a b : list ascii) :
  writes f a -> (forall st, g st = f st) -> b = a -> writes g b.
Proof.
  intros Hf Hfg -> sb indent Hok. rewrite Hfg. apply Hf. exact Hok.
Qed.

Lemma bind_ret_inv (A B : Type) (m : outcome A) (f : A -> outcome B) (r : B) :
  bind m f = Ret r -> exists a, m = Ret a /\ f a = Ret r.
Proof. destruct m; simpl; try discriminate. intros H. exists a. auto. Qed.

Lemma writes_ret : writes (fun st => Ret st) [].
Proof.
  intros sb indent Hok. exists sb. rewrite app_nil_r. auto.
Qed.

Lemma writes_newline : writes (pretty_newline false) [].
Proof.
  intros sb indent Hok. exists sb. rewrite app_nil_r. auto.
Qed.

Section Compact.
Variable rec : option cjson_element -> to_str_state -> outcome to_str_state.

Lemma writes_elements (l : list (option cjson_element)) :
  (forall slot, In slot l -> writes (rec slot) (slot_text slot)) ->
  writes (to_str_elements false rec l) (tail_text (map slot_text l)).
Proof.
  induction l as [|e l IH]; intros Hl.
  - apply writes_ret.
  - cbn [map]. rewrite tail_text_cons.
    change (","%char :: slot_text e ++ tail_text (map slot_text l))
      with ([","%char] ++ (slot_text e ++ tail_text (map slot_text l))).
    eapply writes_ext; [|intros st; reflexivity | reflexivity].
    apply (writes_bind (a := [","%char])
             (b := slot_text e ++ tail_text (map slot_text l)));
      [apply writes_put_char|].
    apply (writes_bind (a := []) (b := slot_text e ++ tail_text (map slot_text l)));
      [apply writes_newline|].
    apply (writes_bind (a := slot_text e) (b := tail_text (map slot_text l)));
      [apply Hl; left; reflexivity|].
    apply IH. intros slot Hs. apply Hl. right. exact Hs.
Qed.

Lemma writes_member (it : cjson_object_iterator) (c : cjson_map_item) :
  it_name it = Some (name c) -> it_element it = element c ->
  plain_text (name c) = true ->
  writes (rec (element c)) (slot_text (element c)) ->
  writes (to_str_member rec it) (member_text c).
Proof.
  intros Hn He Hp Hrec. unfold member_text.
  change (quote :: name c ++ quote :: ":"%char :: slot_text (element c))
    with ([quote] ++ (name c ++ quote :: ":"%char :: slot_text (element c))).
  change (quote :: ":"%char :: slot_text (element c))
    with ([quote; ":"%char] ++ slot_text (element c)).
  eapply writes_ext; [|intros st; unfold to_str_member; rewrite Hn, He; reflexivity
                      | reflexivity].
  apply (writes_bind (a := [quote])
           (b := name c ++ [quote; ":"%char] ++ slot_text (element c)));
    [apply writes_put_char|].
  apply (writes_bind (a := name c) (b := [quote; ":"%char] ++ slot_text (element c)));
    [apply writes_put_cstr, plain_text_is_cstr, Hp|].
  apply (writes_bind (a := [quote; ":"%char]) (b := slot_text (element c)));
    [apply writes_put_cstr; reflexivity|].
  exact Hrec.
Qed.

Lemma skipn_nth_error (A : Type) (l : list A) (k : nat) (c : A) :
  nth_error l k = Some c -> skipn k l = c :: skipn (S k) l.
Proof.
  revert k; induction l as [|a l IH]; intros [|k] H; simpl in *; try discriminate.
  - injection H as ->. reflexivity.
  - apply IH. exact H.
Qed.

Lemma writes_members (o : cjson_object) (n k : nat) (it : cjson_object_iterator) :
  iterate_steps k o = Ret it ->
  length (entries o) <= n + k ->
  (forall c, In c (entries o) ->
             plain_text (name c) = true
             /\ writes (rec (element c)) (slot_text (element c))) ->
  writes (to_str_members false rec n it)
    (tail_text (map member_text (skipn k (entries o)))).
Proof.
  revert k it; induction n as [|n IH]; intros k it Hit Hn Hall.
  - destruct (iterate_steps_spec o k) as (it' & Hit' & [[Hlt _]|[_ Hend]]); [lia|].
    rewrite Hit in Hit'. injection Hit' as <-.
    rewrite skipn_all2 by lia.
    eapply writes_ext; [apply writes_ret | | reflexivity].
    intros st. simpl. rewrite Hend. reflexivity.
  - destruct (iterate_steps_spec o k) as (it' & Hit' & [[Hlt Hst]|[Hge Hend]]);
      rewrite Hit in Hit'; injection Hit' as <-.
    + destruct (stands_at_entry Hst) as (c & Hc & Hname & Helt & _).
      destruct Hst as (_ & Hend & _).
      rewrite (skipn_nth_error _ _ Hc). cbn [map]. rewrite tail_text_cons.
      destruct (iterate_steps_spec o (S k)) as (it1 & Hit1 & _).
      assert (Hnext : cjson_iterate_next it = Ret it1)
        by (simpl in Hit1; rewrite Hit in Hit1; exact Hit1).
      destruct (Hall c (nth_error_In _ _ Hc)) as [Hp Hrec].
      change (","%char :: member_text c
                ++ tail_text (map member_text (skipn (S k) (entries o))))
        with ([","%char] ++ (member_text c
                ++ tail_text (map member_text (skipn (S k) (entries o))))).
      eapply writes_ext;
        [|intros st; cbn [to_str_members]; rewrite Hend, Hnext; cbn [bind];
          reflexivity
         | reflexivity].
      apply (writes_bind (a := [","%char])
               (b := member_text c
                       ++ tail_text (map member_text (skipn (S k) (entries o)))));
        [apply writes_put_char|].
      apply (writes_bind (a := [])
               (b := member_text c
                       ++ tail_text (map member_text (skipn (S k) (entries o)))));
        [apply writes_newline|].
      apply (writes_bind (a := member_text c)
               (b := tail_text (map member_text (skipn (S k) (entries o)))));
        [apply writes_member with (c := c); assumption|].
      apply IH; [exact Hit1 | lia | exact Hall].
    + rewrite skipn_all2 by lia.
      eapply writes_ext; [apply writes_ret | | reflexivity].
      intros st. simpl. rewrite Hend. reflexivity.
Qed.
End Compact.

Lemma elt_size_pos (T : cjson_element) : 1 <= elt_size T.
Proof. destruct T. simpl. lia. Qed.

Lemma c_str_app_nul (s r : list ascii) :
  is_cstr s = true -> c_str (s ++ NUL :: r) = s.
Proof.
  induction s as [|c s IH]; intros H; [reflexivity|].
  simpl in H. apply andb_prop in H. destruct H as [Hc Hs].
  apply negb_true_iff in Hc. simpl. rewrite Hc, IH by exact Hs. reflexivity.
Qed.

Lemma fmt_d_buffer (i : Z) :
  (0 <= i <= INT_MAX)%Z -> sprintf_buffer (fmt_d i) = Ret (digits i).
Proof.
  intros Hi. unfold sprintf_buffer, fmt_d.
  replace (i <? 0)%Z with false by (symmetry; apply Z.ltb_ge; lia).
  assert (Hlen : length (digits i) <= 10).
  { apply digits_length; [|lia]. unfold INT_MAX in Hi. simpl. lia. }
  replace (length (digits i) <? 11) with true by (symmetry; apply Nat.ltb_lt; lia).
  reflexivity.
Qed.

Lemma to_str_rec_render (T : cjson_element) :
  plain_tree T = true ->
  forall fuel, elt_size T <= fuel ->
  writes (cjson_to_str_rec fuel false (Some T)) (render T).
Proof.
  induction T as [T IH] using tree_ind. intros Hp fuel Hfuel.
  destruct fuel as [|fuel]; [pose proof (elt_size_pos T); lia|].
  cbn [cjson_to_str_rec].
  destruct T as [t v]. destruct t.
  - (* null *)
    apply (writes_put_cstr (list_ascii_of_string "null")). reflexivity.
  - (* bool *)
    destruct v; try discriminate Hp. destruct b.
    + apply (writes_put_cstr (list_ascii_of_string "true")). reflexivity.
    + apply (writes_put_cstr (list_ascii_of_string "false")). reflexivity.
  - (* integer *)
    destruct (plain_int_render _ Hp eq_refl) as (i & -> & Hi & Hr).
    rewrite Hr.
    eapply writes_ext; [apply (writes_put_cstr (digits i)) | | reflexivity].
    + apply is_cstr_digits. lia.
    + intros st. unfold to_str_body. cbn [element_type value read_integer bind].
      rewrite fmt_d_buffer by exact Hi. reflexivity.
  - destruct v; discriminate Hp.
  - (* string *)
    destruct v as [| | | |[s|]| |]; simpl in Hp; try discriminate Hp.
    eapply writes_ext; [|intros st; reflexivity | reflexivity].
    apply (writes_bind (a := [quote]) (b := s ++ [quote])); [apply writes_put_char|].
    apply (writes_bind (a := s) (b := [quote]));
      [apply writes_put_cstr, plain_text_is_cstr, Hp | apply writes_put_char].
  - (* array *)
    destruct v; try discriminate Hp.
    pose proof (plain_array _ Hp) as Hall. rewrite forallb_forall in Hall.
    assert (Hslot : forall slot, In slot (elements a) ->
                      writes (cjson_to_str_rec fuel false slot) (slot_text slot)).
    { intros slot Hs. specialize (Hall slot Hs).
      destruct slot as [x|]; [|discriminate].
      pose proof (slot_size CJSON_ARRAY a x Hs).
      apply IH; [assumption | exact Hall | lia]. }
    assert (Hin : writes
                    (fun st => match elements a with
                               | [] => Ret st
                               | first :: rest =>
                                   st <- cjson_to_str_rec fuel false first st ;;
                                   to_str_elements false (cjson_to_str_rec fuel false) rest st
                               end)
                    (join (map slot_text (elements a)))).
    { destruct (elements a) as [|first rest]; [apply writes_ret|].
      cbn [map]. rewrite join_cons.
      apply (writes_bind (a := slot_text first) (b := tail_text (map slot_text rest))).
      - apply Hslot. left. reflexivity.
      - apply writes_elements. intros slot Hs. apply Hslot. right. exact Hs. }
    rewrite render_array by reflexivity.
    intros sb indent Hok.
    destruct (writes_put_char "[" indent Hok) as (sb1 & E1 & S1 & K1).
    destruct (Hin sb1 (indent + 2) K1) as (sb2 & E2 & S2 & K2).
    destruct (writes_put_char "]" indent K2) as (sb3 & E3 & S3 & K3).
    exists sb3. unfold to_str_body. cbn [element_type value read_array bind].
    rewrite E1. cbn [bind pretty_newline]. rewrite E2. cbn [bind].
    rewrite Nat.add_sub, E3.
    split; [reflexivity|]. split; [|exact K3].
    rewrite S3, S2, S1, <- !app_assoc. reflexivity.
  - (* object *)
    destruct v; try discriminate Hp.
    destruct (plain_object _ Hp) as (_ & Hall). rewrite forallb_forall in Hall.
    assert (Hmem : forall c, In c (entries o) ->
                     plain_text (name c) = true
                     /\ writes (cjson_to_str_rec fuel false (element c))
                          (slot_text (element c))).
    { intros c Hc. specialize (Hall c Hc). unfold plain_item in Hall.
      apply andb_prop in Hall. destruct Hall as [Hn Hs]. split; [exact Hn|].
      destruct (element c) as [x|] eqn:Hx; [|discriminate].
      pose proof (member_size CJSON_OBJECT o c Hc Hx).
      apply IH; [assumption | exact Hs | lia]. }
    rewrite render_object by reflexivity.
    assert (Hin : writes
                    (fun st =>
                       let it := cjson_iterate_object o in
                       st <- (if it_end it then Ret st
                              else to_str_member (cjson_to_str_rec fuel false) it st) ;;
                       it <- cjson_iterate_next it ;;
                       to_str_members false (cjson_to_str_rec fuel false)
                         (length (entries o)) it st)
                    (join (map member_text (entries o)))).
    { destruct (iterate_steps_spec o 0) as (it0 & Hit0 & Hcase).
      simpl in Hit0. injection Hit0 as <-.
      destruct (iterate_steps_spec o 1) as (it1 & Hit1 & _).
      simpl in Hit1.
      destruct Hcase as [[Hlt Hst]|[Hge Hend]].
      - destruct (stands_at_entry Hst) as (c & Hc & Hname & Helt & _).
        destruct Hst as (_ & Hend & _).
        assert (Htext : join (map member_text (entries o))
                        = member_text c
                            ++ tail_text (map member_text (skipn 1 (entries o)))).
        { pose proof (skipn_nth_error _ _ Hc) as He. simpl in He.
          rewrite He at 1. cbn [map]. apply join_cons. }
        rewrite Htext.
        destruct (Hmem c (nth_error_In _ _ Hc)) as [Hp0 Hrec0].
        eapply writes_ext;
          [|intros st; cbv zeta; rewrite Hend, Hit1; cbn [bind]; reflexivity
           | reflexivity].
        apply (writes_bind (a := member_text c)
                 (b := tail_text (map member_text (skipn 1 (entries o))))).
        + apply writes_member with (c := c); assumption.
        + apply writes_members.
          * simpl. exact Hit1.
          * lia.
          * exact Hmem.
      - assert (He : entries o = []) by (destruct (entries o); [reflexivity | simpl in Hge; lia]).
        rewrite He. cbn [map join length].
        rewrite iterate_next_end in Hit1 by exact Hend.
        eapply writes_ext; [apply writes_ret | | reflexivity].
        intros st. cbv zeta. rewrite Hend. cbn [bind].
        rewrite iterate_next_end by exact Hend. cbn [bind].
        simpl. rewrite Hend. reflexivity. }
    intros sb indent Hok.
    destruct (writes_put_char "{" indent Hok) as (sb1 & E1 & S1 & K1).
    destruct (Hin sb1 (indent + 2) K1) as (sb2 & E2 & S2 & K2).
    destruct (writes_put_char "}" indent K2) as (sb3 & E3 & S3 & K3).
    exists sb3. unfold to_str_body. cbn [element_type value read_object bind].
    rewrite E1. cbn [bind pretty_newline]. cbv zeta in E2 |- *.
    apply bind_ret_inv in E2. destruct E2 as (stA & EA & E2).
    apply bind_ret_inv in E2. destruct E2 as (itB & EB & E2).
    rewrite EA. cbn [bind]. rewrite EB. cbn [bind]. rewrite E2. cbn [bind].
    rewrite Nat.add_sub, E3.
    split; [reflexivity|]. split; [|exact K3].
    rewrite S3, S2, S1, <- !app_assoc. reflexivity.
Qed.

Lemma to_str_render (T : cjson_element) :
  plain_tree T = true -> cjson_to_str (Some T) false = Ret (render T).
Proof.
  intros Hp. unfold cjson_to_str.
  assert (Hok : sb_ok (mk_sb [] 0)) by (unfold sb_ok; simpl; lia).
  destruct (to_str_rec_render T Hp (fuel := S (elt_size T)) ltac:(lia) 0 Hok)
    as (sb1 & E1 & S1 & K1).
  rewrite E1. cbn [bind].
  destruct (append_char_ok NUL K1) as (sb2 & E2 & S2 & K2).
  rewrite E2. cbn [bind]. rewrite S2, S1. cbn [app str].
  rewrite c_str_app_nul by (apply render_is_cstr; exact Hp). reflexivity.
Qed.


(** ** Parser: reading back the compact text of a plain tree *)

Lemma append_all_spec (l : list (option cjson_element)) (array : cjson_array) :
  size array <= capacity array ->
  exists array',
    append_all array l = Ret array'
    /\ elements array' = elements array ++ l
    /\ size array' <= capacity array'.
Proof.
  revert array; induction l as [|e l IH]; intros array Hok.
  - exists array. simpl. rewrite app_nil_r. auto.
  - destruct (array_append_spec array e Hok) as (a1 & E1 & S1 & K1).
    destruct (IH a1 K1) as (a2 & E2 & S2 & K2).
    exists a2. simpl. rewrite E1. cbn [bind]. split; [exact E2|].
    split; [|exact K2]. rewrite S2, S1, <- app_assoc. reflexivity.
Qed.

Lemma concat_store_push (A : Type) (bs : list (list A)) (h : nat) (x : A) :
  h < length bs ->
  Permutation (concat (store bs h (x :: nth h bs []))) (x :: concat bs).
Proof.
  revert h; induction bs as [|b bs IH]; intros h Hh; [simpl in Hh; lia|].
  destruct h as [|h]; simpl.
  - reflexivity.
  - rewrite (IH h) by (simpl in Hh; lia).
    apply Permutation_sym, Permutation_middle.
Qed.

Lemma store_ext (A : Type) (l l' : list A) (h : nat) (x d : A) :
  length l' = length l -> h < length l ->
  nth h l' d = x ->
  (forall i, i <> h -> nth i l' d = nth i l d) ->
  l' = store l h x.
Proof.
  intros Hlen Hh Hx Hother. apply nth_ext with (d := d) (d' := d).
  - rewrite store_length. exact Hlen.
  - intros i _. destruct (Nat.eq_dec i h) as [->|Hne].
    + rewrite store_nth_same by exact Hh. exact Hx.
    + rewrite store_nth_other by exact Hne. apply Hother. exact Hne.
Qed.

Lemma map_insert_fresh (m : cjson_map) (nm : cstr) (e : option cjson_element) :
  map_ok m = true ->
  is_cstr nm = true ->
  ~ In nm (map (@name _) (entries m)) ->
  exists m',
    cjson_map_insert m nm e = Ret m'
    /\ map_ok m' = true
    /\ Permutation (entries m') (mk_item nm e :: entries m).
Proof.
  intros Hok Hc Hfresh.
  pose proof (is_cstr_c_str _ Hc) as Hcs.
  destruct (@map_insert_spec m nm e Hok) as (m' & h & Hins & Hb & Hcap & Hok' & _ & _ & Hoth & _ & Hpush).
  - intros it Hin Hn. exfalso. apply Hfresh. rewrite Hcs in Hn. rewrite <- Hn.
    apply in_map. exact Hin.
  - rewrite Hcs in Hpush. specialize (Hpush Hfresh).
    exists m'. split; [exact Hins|]. split; [exact Hok'|].
    pose proof (bucket_of_lt _ _ Hb) as Hlt.
    assert (Hitems : items m' = store (items m) h (mk_item nm e :: nth h (items m) [])).
    { apply store_ext with (d := []); try assumption. }
    unfold entries. rewrite Hitems. apply concat_store_push. exact Hlt.
Qed.

Lemma insert_all_spec (l : list cjson_map_item) (m : cjson_map) :
  map_ok m = true ->
  NoDup (map (@name _) l) ->
  (forall it, In it l -> is_cstr (name it) = true) ->
  (forall it, In it l -> ~ In (name it) (map (@name _) (entries m))) ->
  exists m',
    insert_all m l = Ret m'
    /\ map_ok m' = true
    /\ Permutation (entries m') (rev l ++ entries m).
Proof.
  revert m; induction l as [|it l IH]; intros m Hok Hnd Hc Hfresh.
  - exists m. simpl. auto.
  - inversion Hnd as [|? ? Hnotin Hnd']; subst.
    destruct (@map_insert_fresh m (name it) (element it) Hok
                (Hc it (or_introl eq_refl)) (Hfresh it (or_introl eq_refl)))
      as (m1 & E1 & K1 & P1).
    destruct (IH m1 K1 Hnd') as (m2 & E2 & K2 & P2).
    + intros x Hx. apply Hc. right. exact Hx.
    + intros x Hx Hin.
      apply (Permutation_in _ (Permutation_map (@name _) P1)) in Hin.
      simpl in Hin. destruct Hin as [Heq|Hin].
      * apply Hnotin. rewrite Heq. apply in_map. exact Hx.
      * apply (Hfresh x (or_intror Hx)). exact Hin.
    + exists m2. simpl. rewrite E1. cbn [bind]. split; [exact E2|].
      split; [exact K2|].
      rewrite P2. rewrite <- app_assoc. apply Permutation_app_head.
      simpl. rewrite P1. destruct it; reflexivity.
Qed.

(** The states of the lexer. *)
Lemma fresh_consumed (lexer : cjson_lexer) : fresh (consumed lexer) (input lexer).
Proof. split; reflexivity. Qed.

Lemma peek_fresh (lexer lexer1 : cjson_lexer) :
  type (token lexer) = CJSON_TOK_NONE ->
  cjson_read_next_token lexer = Ret lexer1 ->
  cjson_lexer_peek lexer = Ret (token lexer1, lexer1).
Proof.
  intros Ht Hr. unfold cjson_lexer_peek. rewrite Ht, Hr. reflexivity.
Qed.

Lemma pop_fresh (lexer lexer1 : cjson_lexer) :
  type (token lexer) = CJSON_TOK_NONE ->
  cjson_read_next_token lexer = Ret lexer1 ->
  cjson_lexer_pop lexer = Ret (token lexer1, consumed lexer1).
Proof.
  intros Ht Hr. unfold cjson_lexer_pop. rewrite Ht, Hr. reflexivity.
Qed.

Lemma peek_held (lexer : cjson_lexer) :
  tok_eqb (type (token lexer)) CJSON_TOK_NONE = false ->
  cjson_lexer_peek lexer = Ret (token lexer, lexer).
Proof. intros H. unfold cjson_lexer_peek. rewrite H. reflexivity. Qed.

Lemma pop_held (lexer : cjson_lexer) :
  tok_eqb (type (token lexer)) CJSON_TOK_NONE = false ->
  cjson_lexer_pop lexer = Ret (token lexer, consumed lexer).
Proof. intros H. unfold cjson_lexer_pop. rewrite H. reflexivity. Qed.

Lemma parse_ws_id (lexer : cjson_lexer) :
  space_run (input lexer) = 0 -> cjson_parse_ws lexer = lexer.
Proof.
  intros H. unfold cjson_parse_ws. rewrite H, Nat.add_0_r.
  destruct lexer; reflexivity.
Qed.

Lemma skipn_space_run (s : list ascii) : skipn (space_run s) s = skip_space s.
Proof.
  induction s as [|c s IH]; simpl; [reflexivity|].
  destruct (isspace c); [exact IH | reflexivity].
Qed.

Lemma parse_ws_fresh (lexer : cjson_lexer) (s : list ascii) :
  fresh lexer s -> fresh (cjson_parse_ws lexer) (skip_space s).
Proof.
  intros [Ht Hi]. split; [exact Ht|].
  unfold cjson_parse_ws. rewrite input_advance, Hi. apply skipn_space_run.
Qed.

Lemma space_run_cons (c : ascii) (s : list ascii) :
  isspace c = false -> space_run (c :: s) = 0.
Proof. intros H. simpl. rewrite H. reflexivity. Qed.

Lemma skip_space_id (s : list ascii) : space_run s = 0 -> skip_space s = s.
Proof. intros H. rewrite <- skipn_space_run, H. reflexivity. Qed.

Lemma delimited_cons (c : ascii) (s : list ascii) :
  isspace c = false -> isdigit c = false -> Ascii.eqb c "." = false ->
  delimited (c :: s).
Proof.
  intros Hs Hd Hp. split; [|apply space_run_cons; exact Hs].
  unfold number_ends. rewrite Hd, Hp. reflexivity.
Qed.

Lemma delimited_tail (l : list (list ascii)) (c : ascii) (rest : list ascii) :
  c = "]"%char \/ c = "}"%char ->
  delimited (tail_text l ++ c :: rest).
Proof.
  intros Hc. destruct l as [|x l].
  - destruct Hc as [-> | ->]; apply delimited_cons; reflexivity.
  - rewrite tail_text_cons. apply delimited_cons; reflexivity.
Qed.

Lemma tail_text_length (l : list (list ascii)) : length l <= length (tail_text l).
Proof.
  induction l as [|x l IH]; [simpl; lia|].
  rewrite tail_text_cons. simpl. rewrite length_app. lia.
Qed.

(** The first byte of the text of a plain tree. *)
Lemma render_head (T : cjson_element) :
  plain_tree T = true ->
  exists c r, render T = c :: r /\ isspace c = false.
Proof.
  intros Hp. destruct T as [t v]. destruct t.
  - exists "n"%char. eexists. split; reflexivity.
  - destruct v; try discriminate Hp. destruct b.
    + exists "t"%char. eexists. split; reflexivity.
    + exists "f"%char. eexists. split; reflexivity.
  - destruct (plain_int_render _ Hp eq_refl) as (i & -> & Hi & ->).
    destruct (@digits_nonempty i ltac:(lia)) as (c & r & Hd).
    exists c, r. split; [exact Hd|].
    pose proof (@digits_all_digits i ltac:(lia)) as Hall.
    rewrite Hd in Hall. simpl in Hall. apply andb_prop in Hall.
    apply (isdigit_other _ (proj1 Hall)).
  - destruct v; discriminate Hp.
  - destruct v as [| | | |[s|]| |]; try discriminate Hp.
    exists quote. eexists. split; reflexivity.
  - destruct v; try discriminate Hp.
    exists "["%char. eexists. split; reflexivity.
  - destruct v; try discriminate Hp.
    exists "{"%char. eexists. split; reflexivity.
Qed.

Lemma render_space_run (T : cjson_element) (rest : list ascii) :
  plain_tree T = true -> space_run (render T ++ rest) = 0.
Proof.
  intros Hp. destruct (render_head T Hp) as (c & r & -> & Hc).
  apply space_run_cons. exact Hc.
Qed.

Lemma after_token_input (lexer : cjson_lexer) t (pre r : list ascii) iv :
  input lexer = pre ++ r ->
  input (after_token lexer t (length pre) iv) = r.
Proof. apply input_after_token. Qed.

(** The first token of the text of a plain tree. *)
Lemma first_token (T : cjson_element) (lexer : cjson_lexer) (rest : list ascii) :
  plain_tree T = true ->
  input lexer = render T ++ rest ->
  delimited rest ->
  exists peeked,
    cjson_read_next_token lexer = Ret peeked
    /\ tok_eqb (type (token peeked)) CJSON_TOK_NONE = false
    /\ tok_eqb (type (token peeked)) CJSON_TOK_RBRACK = false
    /\ space_run (input peeked) = 0.
Proof.
  intros Hp Hin [Hnum Hsp]. destruct T as [t v]. destruct t.
  - eexists. split;
      [apply (@lex_keyword lexer _ rest CJSON_TOK_NULL Hin); left; reflexivity|].
    repeat split; try reflexivity.
    erewrite (@after_token_input lexer _ _ rest _ Hin). exact Hsp.
  - destruct v; try discriminate Hp. destruct b.
    + eexists. split;
        [apply (@lex_keyword lexer _ rest CJSON_TOK_TRUE Hin); right; left; reflexivity|].
      repeat split; try reflexivity.
      erewrite (@after_token_input lexer _ _ rest _ Hin). exact Hsp.
    + eexists. split;
        [apply (@lex_keyword lexer _ rest CJSON_TOK_FALSE Hin); right; right; reflexivity|].
      repeat split; try reflexivity.
      erewrite (@after_token_input lexer _ _ rest _ Hin). exact Hsp.
  - destruct (plain_int_render _ Hp eq_refl) as (i & -> & Hi & Hr).
    rewrite Hr in Hin.
    eexists. split; [apply (@lex_integer lexer i rest Hin Hi Hnum)|].
    repeat split; try reflexivity.
    erewrite (@after_token_input lexer _ _ rest _ Hin). exact Hsp.
  - destruct v; discriminate Hp.
  - destruct v as [| | | |[s|]| |]; try discriminate Hp.
    simpl in Hp.
    assert (Hin' : input lexer = quote :: s ++ quote :: rest)
      by (rewrite Hin; simpl; rewrite <- app_assoc; reflexivity).
    eexists. split; [apply (@lex_string lexer s rest Hin' Hp)|].
    repeat split; try reflexivity.
    erewrite (@after_token_input lexer CJSON_TOK_STRING (quote :: s ++ [quote]) rest).
    + exact Hsp.
    + rewrite Hin'. simpl. rewrite <- app_assoc. reflexivity.
  - destruct v; try discriminate Hp.
    rewrite render_array in Hin by reflexivity.
    assert (Hin' : input lexer
                   = ["["%char] ++ (join (map slot_text (elements a)) ++ ["]"%char]) ++ rest)
      by (rewrite Hin; reflexivity).
    eexists. split; [apply (@lex_punct lexer _ _ CJSON_TOK_LBRACK Hin'); tauto|].
    repeat split; try reflexivity.
    erewrite (@after_token_input lexer CJSON_TOK_LBRACK ["["%char] _ _ Hin').
    pose proof (plain_array _ Hp) as Hall.
    destruct (elements a) as [|x xs]; [reflexivity|].
    simpl in Hall. apply andb_prop in Hall. destruct Hall as [Hx _].
    destruct x as [x|]; [|discriminate].
    cbn [map]. rewrite join_cons. unfold slot_text at 1. rewrite <- !app_assoc.
    apply render_space_run. exact Hx.
  - destruct v; try discriminate Hp.
    rewrite render_object in Hin by reflexivity.
    assert (Hin' : input lexer
                   = ["{"%char] ++ (join (map member_text (entries o)) ++ ["}"%char]) ++ rest)
      by (rewrite Hin; reflexivity).
    eexists. split; [apply (@lex_punct lexer _ _ CJSON_TOK_LBRACE Hin'); tauto|].
    repeat split; try reflexivity.
    erewrite (@after_token_input lexer CJSON_TOK_LBRACE ["{"%char] _ _ Hin').
    destruct (entries o) as [|x xs]; [reflexivity|].
    cbn [map]. rewrite join_cons. reflexivity.
Qed.

Lemma parse_element_after_peek (fuel : nat) (lexer peeked : cjson_lexer) (error : bool) :
  type (token lexer) = CJSON_TOK_NONE ->
  cjson_read_next_token lexer = Ret peeked ->
  tok_eqb (type (token peeked)) CJSON_TOK_NONE = false ->
  space_run (input lexer) = 0 ->
  space_run (input peeked) = 0 ->
  cjson_parse_element fuel peeked error = cjson_parse_element fuel lexer error.
Proof.
  intros Ht Hr Hq Hs Hsq. destruct fuel as [|fuel]; [reflexivity|].
  cbn [cjson_parse_element]. unfold parse_element_body.
  rewrite !parse_ws_id by assumption.
  unfold cjson_parse_value.
  rewrite (peek_fresh _ Ht Hr), (peek_held _ Hq). reflexivity.
Qed.

Lemma fresh_after_pop (lexer : cjson_lexer) t (pre r : list ascii) iv :
  input lexer = pre ++ r ->
  fresh (consumed (after_token lexer t (length pre) iv)) r.
Proof.
  intros H. split; [reflexivity|].
  apply (@after_token_input lexer t pre r iv H).
Qed.

Section Containers.
Variable rec : cjson_lexer -> bool -> outcome parse_result.

Lemma elements_loop_spec (xs xs' : list (option cjson_element)) :
  Forall2 (fun x x' => parses_to rec (slot_text x) x') xs xs' ->
  forall n lexer array array' rest,
    length xs <= n ->
    fresh lexer (tail_text (map slot_text xs) ++ "]"%char :: rest) ->
    append_all array xs' = Ret array' ->
    exists lexer_e,
      fresh lexer_e ("]"%char :: rest)
      /\ elements_loop rec n lexer array false
         = Ret (after_token lexer_e CJSON_TOK_RBRACK 1 (integer_value (token lexer_e)),
                array', false).
Proof.
  induction 1 as [|x x' xs xs' Hx Hrest IH]; intros n lexer array array' rest Hn Hf Happ.
  - simpl in Happ. injection Happ as <-. exists lexer. split; [exact Hf|].
    destruct Hf as [Ht Hin]. cbn [map] in Hin.
    change (tail_text [] ++ "]"%char :: rest) with ("]"%char :: rest) in Hin.
    assert (Hpeek := peek_fresh _ Ht
                       (@lex_punct lexer _ _ CJSON_TOK_RBRACK Hin ltac:(tauto))).
    destruct n; cbn [elements_loop]; rewrite Hpeek; reflexivity.
  - destruct n as [|n]; [simpl in Hn; lia|].
    destruct Hf as [Ht Hin]. cbn [map] in Hin. rewrite tail_text_cons in Hin.
    cbn [app] in Hin. rewrite <- app_assoc in Hin.
    set (rest1 := tail_text (map slot_text xs) ++ "]"%char :: rest) in *.
    assert (Hpeek := peek_fresh _ Ht
                       (@lex_punct lexer _ _ CJSON_TOK_COMMA Hin ltac:(tauto))).
    set (lexer1 := after_token lexer CJSON_TOK_COMMA 1 (integer_value (token lexer))) in *.
    assert (Hf1 : fresh (consumed lexer1) (slot_text x ++ rest1)).
    { apply (@fresh_after_pop lexer CJSON_TOK_COMMA [","%char] _
               (integer_value (token lexer)) Hin). }
    destruct (Hx _ _ Hf1) as (lexer2 & _ & Hrec & Hf2 & _).
    { apply delimited_tail. left. reflexivity. }
    cbn [append_all] in Happ. apply bind_ret_inv in Happ.
    destruct Happ as (array1 & Happ1 & Happ).
    destruct (IH n lexer2 array1 array' rest) as (lexer_e & Hfe & Hloop);
      [simpl in Hn; lia | exact Hf2 | exact Happ|].
    exists lexer_e. split; [exact Hfe|].
    cbn [elements_loop]. rewrite Hpeek. cbn [bind].
    change (tok_eqb (type (token lexer1)) CJSON_TOK_COMMA) with true. cbn [negb].
    rewrite (pop_held lexer1) by reflexivity. cbn [bind].
    rewrite Hrec. cbn [bind]. rewrite Happ1. cbn [bind]. exact Hloop.
Qed.

Lemma parse_array_spec (xs xs' : list (option cjson_element)) (array' : cjson_array)
  (lexer : cjson_lexer) (rest : list ascii) (iv : Z) :
  Forall2 (fun x x' => parses_to rec (slot_text x) x') xs xs' ->
  append_all (mk_array [] 0) xs' = Ret array' ->
  input lexer = "["%char :: join (map slot_text xs) ++ "]"%char :: rest ->
  space_run (join (map slot_text xs) ++ "]"%char :: rest) = 0 ->
  exists lexer',
    cjson_parse_array rec (after_token lexer CJSON_TOK_LBRACK 1 iv) false
    = Ret (Some (Element CJSON_ARRAY (val_array array')), lexer', false)
    /\ fresh lexer' rest.
Proof.
  intros Hall Happ Hin Hsp.
  set (lexer0 := after_token lexer CJSON_TOK_LBRACK 1 iv).
  assert (Hin0 : input lexer0 = join (map slot_text xs) ++ "]"%char :: rest)
    by (apply (@after_token_input lexer CJSON_TOK_LBRACK ["["%char] _ iv Hin)).
  unfold cjson_parse_array.
  rewrite (pop_held lexer0) by reflexivity. cbn [bind].
  rewrite parse_ws_id
    by (change (space_run (input lexer0) = 0); rewrite Hin0; exact Hsp).
  assert (Hf0 : fresh (consumed lexer0) (join (map slot_text xs) ++ "]"%char :: rest))
    by (split; [reflexivity | exact Hin0]).
  destruct Hall as [|x x' xs xs' Hx Hrest].
  - simpl in Happ. injection Happ as <-.
    destruct Hf0 as [Ht Hi]. cbn [map join app] in Hi.
    rewrite (peek_fresh _ Ht (@lex_punct _ _ _ CJSON_TOK_RBRACK Hi ltac:(tauto))).
    cbn [bind].
    set (lexer1 := after_token (consumed lexer0) CJSON_TOK_RBRACK 1 _).
    change (tok_eqb (type (token lexer1)) CJSON_TOK_RBRACK) with true. cbn [negb].
    rewrite (pop_held lexer1) by reflexivity. cbn [bind].
    eexists. split; [reflexivity|].
    apply (@fresh_after_pop (consumed lexer0) CJSON_TOK_RBRACK ["]"%char] rest
             (integer_value (token (consumed lexer0))) Hi).
  - cbn [map] in Hf0. rewrite join_cons, <- app_assoc in Hf0.
    set (rest1 := tail_text (map slot_text xs) ++ "]"%char :: rest) in *.
    destruct (Hx _ _ Hf0) as (lexer2 & peeked & _ & Hf2 & Hread & Htype & Hrec).
    { apply delimited_tail. left. reflexivity. }
    rewrite (peek_fresh _ (proj1 Hf0) Hread). cbn [bind].
    rewrite Htype. cbn [negb]. rewrite Hrec. cbn [bind].
    cbn [append_all] in Happ. apply bind_ret_inv in Happ.
    destruct Happ as (array1 & Happ1 & Happ).
    rewrite Happ1. cbn [bind].
    destruct (@elements_loop_spec xs xs' Hrest (S (length (input lexer2))) lexer2
                array1 array' rest)
      as (lexer_e & Hfe & Hloop); [|exact Hf2 | exact Happ|].
    { destruct Hf2 as [_ ->]. unfold rest1. rewrite length_app.
      pose proof (tail_text_length (map slot_text xs)) as Hlen.
      rewrite length_map in Hlen. lia. }
    rewrite Hloop. cbn [bind].
    set (lexer3 := after_token lexer_e CJSON_TOK_RBRACK 1 _).
    rewrite (peek_held lexer3) by reflexivity. cbn [bind].
    change (tok_eqb (type (token lexer3)) CJSON_TOK_RBRACK) with true. cbn [negb].
    rewrite (pop_held lexer3) by reflexivity. cbn [bind].
    eexists. split; [reflexivity|].
    apply (@fresh_after_pop lexer_e CJSON_TOK_RBRACK ["]"%char] rest
             (integer_value (token lexer_e)) (proj2 Hfe)).
Qed.
End Containers.

Section Members.
Variable rec : cjson_lexer -> bool -> outcome parse_result.

Lemma member_text_split (it : cjson_map_item) (rest : list ascii) :
  member_text it ++ rest
  = quote :: name it ++ quote :: ([":"%char] ++ slot_text (element it) ++ rest).
Proof.
  unfold member_text. simpl. rewrite <- app_assoc. reflexivity.
Qed.

Lemma parse_member_spec (it it' : cjson_map_item) (lexer0 lexer : cjson_lexer)
  (rest : list ascii) (m m' : cjson_map) :
  member_parses rec it it' ->
  fresh lexer0 (member_text it ++ rest) ->
  lexer = lexer0 \/ cjson_read_next_token lexer0 = Ret lexer ->
  delimited rest ->
  cjson_map_insert m (name it') (element it') = Ret m' ->
  exists lexer',
    cjson_parse_member rec lexer m false = Ret (lexer', m', false)
    /\ fresh lexer' rest.
Proof.
  intros (Hname & Hplain & Hrec) [Ht Hin] Hstate Hdel Hins.
  rewrite member_text_split in Hin.
  pose proof (@lex_string lexer0 (name it) _ Hin Hplain) as Hread.
  set (lexer1 := after_token lexer0 CJSON_TOK_STRING
                   (length (quote :: name it ++ [quote]))
                   (integer_value (token lexer0))) in *.
  assert (Hin1 : input lexer1 = [":"%char] ++ slot_text (element it) ++ rest).
  { apply (@after_token_input lexer0 CJSON_TOK_STRING (quote :: name it ++ [quote])).
    rewrite Hin. simpl. rewrite <- app_assoc. reflexivity. }
  assert (Hpop : cjson_lexer_pop (cjson_parse_ws lexer)
                 = Ret (token lexer1, consumed lexer1)).
  { destruct Hstate as [->|Hr].
    - rewrite parse_ws_id by (rewrite Hin; reflexivity).
      apply pop_fresh; assumption.
    - rewrite Hread in Hr. injection Hr as <-.
      rewrite parse_ws_id by (rewrite Hin1; reflexivity).
      apply pop_held. reflexivity. }
  unfold cjson_parse_member. rewrite Hpop. cbn [bind].
  change (tok_eqb (type (token lexer1)) CJSON_TOK_STRING) with true. cbn [negb].
  replace (strndup (skipn 1 (content (token lexer1)))
             (content_len (token lexer1) - 2)) with (name it').
  2:{ cbn [lexer1 after_token token content content_len]. rewrite Hin, Hname.
      symmetry. apply member_name_plain. exact Hplain. }
  rewrite parse_ws_id by (change (space_run (input lexer1) = 0); rewrite Hin1; reflexivity).
  assert (Hf1 : fresh (consumed lexer1) ([":"%char] ++ slot_text (element it) ++ rest))
    by (split; [reflexivity | exact Hin1]).
  rewrite (peek_fresh _ (proj1 Hf1)
             (@lex_punct _ _ _ CJSON_TOK_COLON (proj2 Hf1) ltac:(tauto))).
  cbn [bind].
  set (lexer2 := after_token (consumed lexer1) CJSON_TOK_COLON 1 _).
  change (tok_eqb (type (token lexer2)) CJSON_TOK_COLON) with true. cbn [negb].
  rewrite (pop_held lexer2) by reflexivity. cbn [bind].
  destruct (Hrec (consumed lexer2) rest) as (lexer' & _ & Hrun & Hf' & _).
  - apply (@fresh_after_pop (consumed lexer1) CJSON_TOK_COLON [":"%char] _
             (integer_value (token (consumed lexer1))) (proj2 Hf1)).
  - exact Hdel.
  - rewrite Hrun. cbn [bind]. rewrite Hins. cbn [bind].
    exists lexer'. split; [reflexivity | exact Hf'].
Qed.

Lemma members_loop_spec (its its' : list cjson_map_item) :
  Forall2 (member_parses rec) its its' ->
  forall n lexer m m' rest,
    length its <= n ->
    fresh lexer (tail_text (map member_text its) ++ "}"%char :: rest) ->
    insert_all m its' = Ret m' ->
    exists lexer_e,
      fresh lexer_e ("}"%char :: rest)
      /\ members_loop rec n lexer m false
         = Ret (after_token lexer_e CJSON_TOK_RBRACE 1 (integer_value (token lexer_e)),
                m', false).
Proof.
  induction 1 as [|it it' its its' Hit Hrest IH]; intros n lexer m m' rest Hn Hf Hins.
  - simpl in Hins. injection Hins as <-. exists lexer. split; [exact Hf|].
    destruct Hf as [Ht Hin]. cbn [map] in Hin.
    change (tail_text [] ++ "}"%char :: rest) with ("}"%char :: rest) in Hin.
    assert (Hpeek := peek_fresh _ Ht
                       (@lex_punct lexer _ _ CJSON_TOK_RBRACE Hin ltac:(tauto))).
    destruct n; cbn [members_loop]; rewrite Hpeek; reflexivity.
  - destruct n as [|n]; [simpl in Hn; lia|].
    destruct Hf as [Ht Hin]. cbn [map] in Hin. rewrite tail_text_cons in Hin.
    cbn [app] in Hin. rewrite <- app_assoc in Hin.
    set (rest1 := tail_text (map member_text its) ++ "}"%char :: rest) in *.
    assert (Hpeek := peek_fresh _ Ht
                       (@lex_punct lexer _ _ CJSON_TOK_COMMA Hin ltac:(tauto))).
    set (lexer1 := after_token lexer CJSON_TOK_COMMA 1 (integer_value (token lexer))) in *.
    assert (Hf1 : fresh (consumed lexer1) (member_text it ++ rest1)).
    { apply (@fresh_after_pop lexer CJSON_TOK_COMMA [","%char] _
               (integer_value (token lexer)) Hin). }
    cbn [insert_all] in Hins. apply bind_ret_inv in Hins.
    destruct Hins as (m1 & Hins1 & Hins).
    destruct (@parse_member_spec it it' (consumed lexer1) (consumed lexer1) rest1 m m1
                Hit Hf1 (or_introl eq_refl))
      as (lexer2 & Hmem & Hf2); [|exact Hins1|].
    { apply delimited_tail. right. reflexivity. }
    destruct (IH n lexer2 m1 m' rest) as (lexer_e & Hfe & Hloop);
      [simpl in Hn; lia | exact Hf2 | exact Hins|].
    exists lexer_e. split; [exact Hfe|].
    cbn [members_loop]. rewrite Hpeek. cbn [bind].
    change (tok_eqb (type (token lexer1)) CJSON_TOK_COMMA) with true. cbn [negb].
    rewrite (pop_held lexer1) by reflexivity. cbn [bind].
    rewrite Hmem. cbn [bind]. exact Hloop.
Qed.

Lemma parse_object_spec (its its' : list cjson_map_item) (m' : cjson_map)
  (lexer : cjson_lexer) (rest : list ascii) (iv : Z) :
  Forall2 (member_parses rec) its its' ->
  insert_all (mk_map (repeat [] 64)) its' = Ret m' ->
  input lexer = "{"%char :: join (map member_text its) ++ "}"%char :: rest ->
  exists lexer',
    cjson_parse_object rec (after_token lexer CJSON_TOK_LBRACE 1 iv) false
    = Ret (Some (Element CJSON_OBJECT (val_object m')), lexer', false)
    /\ fresh lexer' rest.
Proof.
  intros Hall Hins Hin.
  set (lexer0 := after_token lexer CJSON_TOK_LBRACE 1 iv).
  assert (Hin0 : input lexer0 = join (map member_text its) ++ "}"%char :: rest)
    by (apply (@after_token_input lexer CJSON_TOK_LBRACE ["{"%char] _ iv Hin)).
  assert (Hsp : space_run (join (map member_text its) ++ "}"%char :: rest) = 0).
  { destruct its as [|it its]; [reflexivity|]. cbn [map]. rewrite join_cons. reflexivity. }
  unfold cjson_parse_object.
  rewrite (pop_held lexer0) by reflexivity. cbn [bind].
  rewrite parse_ws_id
    by (change (space_run (input lexer0) = 0); rewrite Hin0; exact Hsp).
  assert (Hf0 : fresh (consumed lexer0) (join (map member_text its) ++ "}"%char :: rest))
    by (split; [reflexivity | exact Hin0]).
  destruct Hall as [|it it' its its' Hit Hrest].
  - simpl in Hins. injection Hins as <-.
    destruct Hf0 as [Ht Hi]. cbn [map join app] in Hi.
    rewrite (peek_fresh _ Ht (@lex_punct _ _ _ CJSON_TOK_RBRACE Hi ltac:(tauto))).
    cbn [bind].
    set (lexer1 := after_token (consumed lexer0) CJSON_TOK_RBRACE 1 _).
    change (tok_eqb (type (token lexer1)) CJSON_TOK_RBRACE) with true. cbn [negb bind].
    rewrite (pop_held lexer1) by reflexivity. cbn [bind].
    change (tok_eqb (type (token lexer1)) CJSON_TOK_RBRACE) with true. cbn [negb].
    eexists. split; [reflexivity|].
    apply (@fresh_after_pop (consumed lexer0) CJSON_TOK_RBRACE ["}"%char] rest
             (integer_value (token (consumed lexer0))) Hi).
  - cbn [map] in Hf0. rewrite join_cons, <- app_assoc in Hf0.
    set (rest1 := tail_text (map member_text its) ++ "}"%char :: rest) in *.
    destruct Hf0 as [Ht0 Hi0].
    pose proof Hit as (_ & Hplain & _).
    assert (Hi0' := Hi0). rewrite member_text_split in Hi0'.
    pose proof (@lex_string (consumed lexer0) (name it) _ Hi0' Hplain) as Hread.
    rewrite (peek_fresh _ Ht0 Hread). cbn [bind].
    set (peeked := after_token (consumed lexer0) CJSON_TOK_STRING _ _) in *.
    change (tok_eqb (type (token peeked)) CJSON_TOK_RBRACE) with false. cbn [negb].
    cbn [insert_all] in Hins. apply bind_ret_inv in Hins.
    destruct Hins as (m1 & Hins1 & Hins).
    destruct (@parse_member_spec it it' (consumed lexer0) peeked rest1
                (mk_map (repeat [] 64)) m1 Hit (conj Ht0 Hi0) (or_intror Hread))
      as (lexer2 & Hmem & Hf2); [|exact Hins1|].
    { apply delimited_tail. right. reflexivity. }
    unfold cjson_parse_members. rewrite Hmem. cbn [bind].
    destruct (@members_loop_spec its its' Hrest (S (length (input lexer2))) lexer2
                m1 m' rest)
      as (lexer_e & Hfe & Hloop); [|exact Hf2 | exact Hins|].
    { destruct Hf2 as [_ ->]. unfold rest1. rewrite length_app.
      pose proof (tail_text_length (map member_text its)) as Hlen.
      rewrite length_map in Hlen. lia. }
    rewrite Hloop. cbn [bind].
    set (lexer3 := after_token lexer_e CJSON_TOK_RBRACE 1 _).
    rewrite (pop_held lexer3) by reflexivity. cbn [bind].
    change (tok_eqb (type (token lexer3)) CJSON_TOK_RBRACE) with true. cbn [negb].
    eexists. split; [reflexivity|].
    apply (@fresh_after_pop lexer_e CJSON_TOK_RBRACE ["}"%char] rest
             (integer_value (token lexer_e)) (proj2 Hfe)).
Qed.
End Members.


(** ** Round trip *)

Lemma parse_scalar (fuel : nat) (lexer : cjson_lexer) (t : token_type)
  (pre rest : list ascii) (iv : Z) (res : cjson_element) :
  fresh lexer (pre ++ rest) ->
  space_run (pre ++ rest) = 0 ->
  cjson_read_next_token lexer = Ret (after_token lexer t (length pre) iv) ->
  (t, res) = (CJSON_TOK_INTEGER, Element CJSON_INTEGER (val_integer iv))
  \/ (t, res) = (CJSON_TOK_TRUE, Element CJSON_BOOL (val_boolean true))
  \/ (t, res) = (CJSON_TOK_FALSE, Element CJSON_BOOL (val_boolean false))
  \/ (t, res) = (CJSON_TOK_NULL, Element CJSON_NULL val_zero) ->
  exists lexer',
    cjson_parse_element (S fuel) lexer false = Ret (Some res, lexer', false)
    /\ fresh lexer' (skip_space rest).
Proof.
  intros [Ht Hin] Hsp Hread Hcase.
  exists (cjson_parse_ws (consumed (after_token lexer t (length pre) iv))).
  split.
  - cbn [cjson_parse_element]. unfold parse_element_body.
    rewrite parse_ws_id by (rewrite Hin; exact Hsp).
    unfold cjson_parse_value. rewrite (peek_fresh _ Ht Hread). cbn [bind].
    destruct Hcase as [Hc|[Hc|[Hc|Hc]]]; injection Hc as -> ->;
      cbn [after_token token type]; rewrite pop_held by reflexivity; reflexivity.
  - apply parse_ws_fresh. apply fresh_after_pop. exact Hin.
Qed.

Lemma parse_string (fuel : nat) (lexer : cjson_lexer) (s rest : list ascii) :
  fresh lexer ((quote :: s ++ [quote]) ++ rest) ->
  plain_text s = true ->
  exists lexer',
    cjson_parse_element (S fuel) lexer false
    = Ret (Some (Element CJSON_STRING (val_string (Some s))), lexer', false)
    /\ fresh lexer' (skip_space rest).
Proof.
  intros [Ht Hin] Hp.
  assert (Hin' : input lexer = quote :: s ++ quote :: rest)
    by (rewrite Hin; simpl; rewrite <- app_assoc; reflexivity).
  pose proof (@lex_string lexer s rest Hin' Hp) as Hread.
  set (peeked := after_token lexer CJSON_TOK_STRING (length (quote :: s ++ [quote]))
                   (integer_value (token lexer))) in *.
  exists (cjson_parse_ws (consumed peeked)). split.
  - cbn [cjson_parse_element]. unfold parse_element_body.
    rewrite parse_ws_id by (rewrite Hin'; reflexivity).
    unfold cjson_parse_value. rewrite (peek_fresh _ Ht Hread). cbn [bind].
    change (type (token peeked)) with CJSON_TOK_STRING. cbv iota.
    replace (cjson_extract_string (token peeked)) with (Ret (Some s)).
    + cbn [bind]. rewrite pop_held by reflexivity. reflexivity.
    + symmetry. unfold peeked, after_token. cbn [token]. rewrite Hin'.
      apply extract_string_plain. exact Hp.
  - apply parse_ws_fresh. apply fresh_after_pop. exact Hin.
Qed.

Lemma parses_to_of_run (T T' : cjson_element) (fuel : nat) :
  plain_tree T = true ->
  (forall lexer rest,
      fresh lexer (render T ++ rest) ->
      (cjson_is_integer T = true -> number_ends rest = true) ->
      exists lexer',
        cjson_parse_element fuel lexer false = Ret (Some T', lexer', false)
        /\ fresh lexer' (skip_space rest)) ->
  parses_to (cjson_parse_element fuel) (render T) (Some T').
Proof.
  intros Hp Hrun lexer rest Hf Hd.
  destruct (Hrun lexer rest Hf (fun _ => proj1 Hd)) as (lexer' & Hr & Hf').
  rewrite skip_space_id in Hf' by apply Hd.
  destruct (@first_token T lexer rest Hp (proj2 Hf) Hd)
    as (peeked & Hread & Hnone & Hrb & Hsp).
  exists lexer', peeked. repeat split; try assumption; try apply Hf'.
  rewrite (@parse_element_after_peek fuel lexer peeked false (proj1 Hf) Hread Hnone);
    [exact Hr | | exact Hsp].
  rewrite (proj2 Hf). apply render_space_run. exact Hp.
Qed.

Lemma build_list (A B : Type) (P : A -> B -> Prop) (l : list A) :
  (forall x, In x l -> exists y, P x y) -> exists l', Forall2 P l l'.
Proof.
  induction l as [|x l IH]; intros H.
  - exists []. constructor.
  - destruct (H x (or_introl eq_refl)) as (y & Hy).
    destruct IH as (l' & Hl'); [intros z Hz; apply H; right; exact Hz|].
    exists (y :: l'). constructor; assumption.
Qed.

Lemma Forall2_names (R : cjson_element -> cjson_element -> Prop)
  (l l' : list cjson_map_item) :
  Forall2 (item_rel R) l l' -> map (@name _) l' = map (@name _) l.
Proof.
  induction 1 as [|x y l l' Hxy _ IH]; [reflexivity|].
  simpl. rewrite IH. destruct Hxy. reflexivity.
Qed.

Lemma concat_repeat_empty (A : Type) (n : nat) : concat (repeat (@nil A) n) = [].
Proof. induction n; simpl; auto. Qed.

(** What the parser makes of the compact text of a plain tree. *)
Lemma parse_render (T : cjson_element) :
  plain_tree T = true ->
  exists T',
    struct_eq T T'
    /\ forall fuel lexer rest,
        elt_size T <= fuel ->
        fresh lexer (render T ++ rest) ->
        (cjson_is_integer T = true -> number_ends rest = true) ->
        exists lexer',
          cjson_parse_element fuel lexer false = Ret (Some T', lexer', false)
          /\ fresh lexer' (skip_space rest).
Proof.
  induction T as [T IH] using tree_ind. intros Hp.
  destruct T as [t v]. destruct t.
  - (* null *)
    destruct v; try discriminate Hp.
    exists (Element CJSON_NULL val_zero). split; [constructor|].
    intros [|fuel] lexer rest Hfuel Hf _; [simpl in Hfuel; lia|].
    apply (@parse_scalar fuel lexer CJSON_TOK_NULL (list_ascii_of_string "null") rest
             (integer_value (token lexer))); [exact Hf | reflexivity | | tauto].
    apply (@lex_keyword lexer _ rest CJSON_TOK_NULL (proj2 Hf)). tauto.
  - (* bool *)
    destruct v; try discriminate Hp.
    exists (Element CJSON_BOOL (val_boolean b)). split; [constructor|].
    intros [|fuel] lexer rest Hfuel Hf _; [simpl in Hfuel; lia|].
    destruct b.
    + apply (@parse_scalar fuel lexer CJSON_TOK_TRUE (list_ascii_of_string "true") rest
               (integer_value (token lexer))); [exact Hf | reflexivity | | tauto].
      apply (@lex_keyword lexer _ rest CJSON_TOK_TRUE (proj2 Hf)). tauto.
    + apply (@parse_scalar fuel lexer CJSON_TOK_FALSE (list_ascii_of_string "false") rest
               (integer_value (token lexer))); [exact Hf | reflexivity | | tauto].
      apply (@lex_keyword lexer _ rest CJSON_TOK_FALSE (proj2 Hf)). tauto.
  - (* integer *)
    destruct (plain_int_render _ Hp eq_refl) as (i & -> & Hi & Hr).
    exists (Element CJSON_INTEGER (val_integer i)). split; [constructor|].
    intros [|fuel] lexer rest Hfuel Hf Hnum; [simpl in Hfuel; lia|].
    rewrite Hr in Hf.
    apply (@parse_scalar fuel lexer CJSON_TOK_INTEGER (digits i) rest i);
      [exact Hf | | | tauto].
    + rewrite <- Hr. apply render_space_run. exact Hp.
    + apply (@lex_integer lexer i rest (proj2 Hf) Hi). apply Hnum. reflexivity.
  - destruct v; discriminate Hp.
  - (* string *)
    destruct v as [| | | |[s|]| |]; try discriminate Hp.
    exists (Element CJSON_STRING (val_string (Some s))). split; [constructor|].
    intros [|fuel] lexer rest Hfuel Hf _; [simpl in Hfuel; lia|].
    apply parse_string; [exact Hf | exact Hp].
  - (* array *)
    destruct v; try discriminate Hp.
    pose proof (plain_array _ Hp) as Hall. rewrite forallb_forall in Hall.
    set (T := Element CJSON_ARRAY (val_array a)) in *.
    destruct (@build_list _ _
                (fun x x' =>
                   slot_rel struct_eq x x'
                   /\ forall fuel, elt_size T <= S fuel ->
                        parses_to (cjson_parse_element fuel) (slot_text x) x')
                (elements a)) as (xs' & Hxs).
    { intros x Hx. specialize (Hall x Hx). destruct x as [x|]; [|discriminate].
      pose proof (slot_size CJSON_ARRAY a x Hx) as Hsize.
      destruct (IH x Hsize Hall) as (x' & Heq & Hrun).
      exists (Some x'). split; [constructor; exact Heq|].
      intros fuel Hfuel. apply parses_to_of_run; [exact Hall|].
      intros lexer rest. apply Hrun. fold T in Hsize. lia. }
    destruct (@append_all_spec xs' (mk_array [] 0)) as (array' & Happ & Hels & _);
      [simpl; unfold size; simpl; lia|].
    exists (Element CJSON_ARRAY (val_array array')). split.
    { constructor. rewrite Hels. simpl.
      eapply Forall2_impl; [|exact Hxs]. intros x x' [H _]. exact H. }
    intros [|fuel] lexer rest Hfuel Hf _; [simpl in Hfuel; lia|].
    destruct Hf as [Ht Hin]. unfold T in Hin.
    rewrite render_array in Hin by reflexivity.
    assert (Hin' : input lexer
                   = "["%char :: join (map slot_text (elements a)) ++ "]"%char :: rest)
      by (rewrite Hin; simpl; rewrite <- app_assoc; reflexivity).
    assert (Hsp : space_run (join (map slot_text (elements a)) ++ "]"%char :: rest) = 0).
    { destruct (elements a) as [|x xs] eqn:He; [reflexivity|].
      pose proof (Hall x (or_introl eq_refl)) as Hx. destruct x as [x|]; [|discriminate].
      cbn [map]. rewrite join_cons. unfold slot_text at 1. rewrite <- app_assoc.
      apply render_space_run. exact Hx. }
    destruct (@parse_array_spec (cjson_parse_element fuel) (elements a) xs' array'
                lexer rest (integer_value (token lexer)))
      as (lexer1 & Hrun & Hf1); [|exact Happ | exact Hin' | exact Hsp|].
    { eapply Forall2_impl; [|exact Hxs]. intros x x' [_ H]. apply H. exact Hfuel. }
    exists (cjson_parse_ws lexer1). split; [|apply parse_ws_fresh; exact Hf1].
    cbn [cjson_parse_element]. unfold parse_element_body.
    rewrite parse_ws_id by (rewrite Hin'; reflexivity).
    unfold cjson_parse_value.
    rewrite (peek_fresh _ Ht (@lex_punct lexer _ _ CJSON_TOK_LBRACK Hin' ltac:(tauto))).
    cbn [bind after_token token type]. fold (after_token lexer CJSON_TOK_LBRACK 1
                                               (integer_value (token lexer))).
    rewrite Hrun. reflexivity.
  - (* object *)
    destruct v; try discriminate Hp.
    destruct (plain_object _ Hp) as (Hnd & Hall). rewrite forallb_forall in Hall.
    set (T := Element CJSON_OBJECT (val_object o)) in *.
    destruct (@build_list _ _
                (fun it it' =>
                   item_rel struct_eq it it'
                   /\ forall fuel, elt_size T <= S fuel ->
                        member_parses (cjson_parse_element fuel) it it')
                (entries o)) as (its' & Hits).
    { intros it Hit. specialize (Hall it Hit). unfold plain_item in Hall.
      apply andb_prop in Hall. destruct Hall as [Hname Hslot].
      destruct it as [nm [x|]]; [|discriminate]. cbn [name element plain_slot] in *.
      pose proof (member_size CJSON_OBJECT o _ Hit eq_refl) as Hsize.
      destruct (IH x Hsize Hslot) as (x' & Heq & Hrun).
      exists (mk_item nm (Some x')). split; [constructor; constructor; exact Heq|].
      intros fuel Hfuel. split; [reflexivity|]. split; [exact Hname|].
      cbn [element slot_text]. apply parses_to_of_run; [exact Hslot|].
      intros lexer rest. apply Hrun. fold T in Hsize. lia. }
    assert (Hrel : Forall2 (item_rel struct_eq) (entries o) its')
      by (eapply Forall2_impl; [|exact Hits]; intros x x' [H _]; exact H).
    pose proof (Forall2_names Hrel) as Hnames.
    destruct (@insert_all_spec its' (mk_map (repeat [] 64))) as (m' & Hins & _ & Hperm).
    { apply empty_map_ok. discriminate. }
    { rewrite Hnames. exact Hnd. }
    { intros it' Hit'. apply plain_text_is_cstr.
      assert (Hn : In (name it') (map (@name _) (entries o)))
        by (rewrite <- Hnames; apply in_map; exact Hit').
      apply in_map_iff in Hn. destruct Hn as (it & Heq & Hit).
      rewrite <- Heq. specialize (Hall it Hit). unfold plain_item in Hall.
      apply andb_prop in Hall. apply Hall. }
    { intros it' _. unfold entries. cbn [items]. rewrite concat_repeat_empty. simpl. tauto. }
    exists (Element CJSON_OBJECT (val_object m')). split.
    { assert (Hp' : Permutation its' (entries m')).
      { symmetry. rewrite Hperm.
        change (entries {| items := repeat [] 64 |}) with (concat (repeat (@nil cjson_map_item) 64)).
        rewrite concat_repeat_empty, app_nil_r. symmetry. apply Permutation_rev. }
      assert (Hflip : Forall2 (fun a b => item_rel struct_eq b a) its' (entries o))
        by (apply Forall2_flip; exact Hrel).
      destruct (Permutation_Forall2 Hp' Hflip) as (lp & Hlp & Hf2).
      apply eq_object with (l := lp); [exact Hlp|].
      apply Forall2_flip. exact Hf2. }
    intros [|fuel] lexer rest Hfuel Hf _; [simpl in Hfuel; lia|].
    destruct Hf as [Ht Hin]. unfold T in Hin.
    rewrite render_object in Hin by reflexivity.
    assert (Hin' : input lexer
                   = "{"%char :: join (map member_text (entries o)) ++ "}"%char :: rest)
      by (rewrite Hin; simpl; rewrite <- app_assoc; reflexivity).
    destruct (@parse_object_spec (cjson_parse_element fuel) (entries o) its' m'
                lexer rest (integer_value (token lexer)))
      as (lexer1 & Hrun & Hf1); [|exact Hins | exact Hin'|].
    { eapply Forall2_impl; [|exact Hits]. intros x x' [_ H]. apply H. exact Hfuel. }
    exists (cjson_parse_ws lexer1). split; [|apply parse_ws_fresh; exact Hf1].
    cbn [cjson_parse_element]. unfold parse_element_body.
    rewrite parse_ws_id by (rewrite Hin'; reflexivity).
    unfold cjson_parse_value.
    rewrite (peek_fresh _ Ht (@lex_punct lexer _ _ CJSON_TOK_LBRACE Hin' ltac:(tauto))).
    cbn [bind after_token token type]. fold (after_token lexer CJSON_TOK_LBRACE 1
                                               (integer_value (token lexer))).
    rewrite Hrun. reflexivity.
Qed.

(** The text of a plain tree has at least as many bytes as the tree has
    nodes: the input is long enough for the depth of the recursion. *)
Lemma render_size (T : cjson_element) :
  plain_tree T = true -> elt_size T <= length (render T).
Proof.
  induction T as [T IH] using tree_ind. intros Hp.
  destruct T as [t v]. destruct t.
  - destruct v; try discriminate Hp. simpl. lia.
  - destruct v; try discriminate Hp. destruct b; simpl; lia.
  - destruct (plain_int_render _ Hp eq_refl) as (i & -> & Hi & Hr).
    rewrite Hr. destruct (@digits_nonempty i ltac:(lia)) as (c & r & ->). simpl. lia.
  - destruct v; discriminate Hp.
  - destruct v as [| | | |[s|]| |]; try discriminate Hp. simpl. lia.
  - destruct v; try discriminate Hp.
    pose proof (plain_array _ Hp) as Hall. rewrite forallb_forall in Hall.
    assert (Hch : forall x, In (Some x) (elements a) -> elt_size x <= length (render x)).
    { intros x Hx. apply IH; [apply slot_size; exact Hx | apply (Hall _ Hx)]. }
    rewrite render_array by reflexivity.
    clear IH Hp Hall. destruct a as [els cap]. cbn [elements] in *.
    cbn [elt_size elements length]. rewrite length_app. cbn [length].
    enough (H : (fix slots (l : list (option cjson_element)) : nat :=
                   match l with
                   | [] => O
                   | Some x :: r => elt_size x + slots r
                   | None :: r => slots r
                   end) els <= length (join (map slot_text els))) by lia.
    assert (Ht : forall l, (forall x, In (Some x) l -> elt_size x <= length (render x)) ->
                 (fix slots (l : list (option cjson_element)) : nat :=
                   match l with
                   | [] => O
                   | Some x :: r => elt_size x + slots r
                   | None :: r => slots r
                   end) l <= length (tail_text (map slot_text l))).
    { induction l as [|s l IHl]; intros Hl; [simpl; lia|].
      cbn [map]. rewrite tail_text_cons. cbn [length]. rewrite length_app.
      specialize (IHl (fun x Hx => Hl x (or_intror Hx))).
      destruct s as [x|]; [|simpl; lia].
      pose proof (Hl x (or_introl eq_refl)). simpl slot_text. lia. }
    destruct els as [|s els]; [simpl; lia|].
    cbn [map]. rewrite join_cons, length_app.
    specialize (Ht els (fun x Hx => Hch x (or_intror Hx))).
    destruct s as [x|]; [|simpl; lia].
    pose proof (Hch x (or_introl eq_refl)). simpl slot_text. lia.
  - destruct v; try discriminate Hp.
    destruct (plain_object _ Hp) as (_ & Hall). rewrite forallb_forall in Hall.
    assert (Hch : forall it x, In it (entries o) -> element it = Some x ->
                               elt_size x <= length (render x)).
    { intros it x Hit Hx. apply IH; [apply (member_size _ _ _ Hit Hx)|].
      specialize (Hall it Hit). unfold plain_item in Hall.
      apply andb_prop in Hall. destruct Hall as [_ Hs]. rewrite Hx in Hs. exact Hs. }
    rewrite render_object by reflexivity.
    clear IH Hp Hall. destruct o as [bs]. unfold entries in *. cbn [items] in *.
    cbn [elt_size items length]. rewrite length_app. cbn [length].
    set (chain := fix chain (c : list cjson_map_item) : nat :=
                    match c with
                    | [] => 0
                    | it0 :: c' =>
                        match element it0 with Some x0 => elt_size x0 | None => 0 end
                        + chain c'
                    end).
    assert (Hc : forall l, (forall it x, In it l -> element it = Some x ->
                                         elt_size x <= length (render x)) ->
                 chain l <= length (tail_text (map member_text l))).
    { induction l as [|it l IHl]; intros Hl; [simpl; lia|].
      cbn [map]. rewrite tail_text_cons. cbn [length]. rewrite length_app.
      specialize (IHl (fun it' x Hx => Hl it' x (or_intror Hx))).
      cbn [chain]. fold chain. unfold member_text at 1. cbn [length].
      rewrite length_app. cbn [length].
      destruct (element it) as [x|] eqn:Hx; [|simpl; lia].
      pose proof (Hl it x (or_introl eq_refl) Hx). simpl slot_text. lia. }
    assert (Hb : (fix buckets (bs : list (list cjson_map_item)) : nat :=
                    match bs with
                    | [] => O
                    | b :: r => chain b + buckets r
                    end) bs = chain (concat bs)).
    { clear. induction bs as [|b bs IHb]; [reflexivity|].
      cbn [concat]. rewrite IHb. clear.
      induction b as [|it b IHb]; [reflexivity|].
      cbn [app chain]. fold chain. rewrite <- IHb. lia. }
    fold chain. rewrite Hb.
    specialize (Hc (concat bs) Hch).
    enough (H : length (tail_text (map member_text (concat bs)))
                <= S (length (join (map member_text (concat bs))))) by lia.
    destruct (concat bs) as [|it l]; [simpl; lia|].
    cbn [map]. rewrite join_cons, tail_text_cons. cbn [length]. lia.
Qed.

(** [cjson_parse_str] on the compact text of a plain tree, whatever bytes
    follow it. *)
Lemma parse_str_render (T : cjson_element) :
  plain_tree T = true ->
  exists T',
    struct_eq T T'
    /\ forall rest,
        (cjson_is_integer T = true -> number_ends rest = true) ->
        cjson_parse_str (render T ++ rest) = Ret (Some T').
Proof.
  intros Hp. destruct (parse_render T Hp) as (T' & Heq & Hrun).
  exists T'. split; [exact Heq|]. intros rest Hnum.
  unfold cjson_parse_str.
  destruct (Hrun (S (length (render T ++ rest)))
              (mk_lexer (render T ++ rest) 0 initial_token) rest)
    as (lexer' & Hr & _).
  - pose proof (render_size T Hp). rewrite length_app. lia.
  - split; reflexivity.
  - exact Hnum.
  - rewrite Hr. reflexivity.
Qed.

(** C3 (amended to plain trees: null, booleans, integers from 0 to INT_MAX,
    strings and member names without quote, backslash and NUL, arrays of such
    trees, objects of such trees under names that are pairwise different):
    the compact text [cjson_to_str] writes for such a tree is parsed by
    [cjson_parse_str] into a tree that is structurally equal to it, where
    equality is exact on scalars and arrays and ignores the order of the
    members of an object. *)
Theorem round_trip_plain_trees (T : cjson_element) :
  plain_tree T = true ->
  exists text T',
    cjson_to_str (Some T) false = Ret text
    /\ cjson_parse_str text = Ret (Some T')
    /\ struct_eq T T'.
Proof.
  intros Hp. destruct (parse_str_render T Hp) as (T' & Heq & Hrun).
  exists (render T), T'. split; [apply to_str_render; exact Hp|].
  split; [|exact Heq].
  rewrite <- (app_nil_r (render T)). apply Hrun. reflexivity.
Qed.

Lemma round_trip_plain_trees_witness :
  plain_tree (Element CJSON_OBJECT (val_object sample_object)) = true
  /\ exists text T',
      cjson_to_str (Some (Element CJSON_OBJECT (val_object sample_object))) false
      = Ret text
      /\ cjson_parse_str text = Ret (Some T')
      /\ struct_eq (Element CJSON_OBJECT (val_object sample_object)) T'.
Proof.
  split; [reflexivity|].
  apply (round_trip_plain_trees (Element CJSON_OBJECT (val_object sample_object))).
  reflexivity.
Defined.

(** C3 as it is stated fails: a string that holds a double quote is written
    without escaping it, and the parser ends the string at that quote; the
    text of the integer -5 is parsed as 5. *)
Lemma round_trip_fails_outside_plain_trees :
  (exists T',
      cjson_to_str (Some (cjson_create_string (txt "a'b"))) false = Ret (txt "'a'b'")
      /\ cjson_parse_str (txt "'a'b'") = Ret (Some T')
      /\ ~ struct_eq (cjson_create_string (txt "a'b")) T')
  /\ (exists T',
      cjson_to_str (Some (cjson_create_integer (-5))) false = Ret (txt "-5")
      /\ cjson_parse_str (txt "-5") = Ret (Some T')
      /\ ~ struct_eq (cjson_create_integer (-5)) T').
Proof.
  split.
  - exists (cjson_create_string (txt "a")).
    split; [vm_compute; reflexivity|]. split; [vm_compute; reflexivity|].
    intros H. inversion H.
  - exists (cjson_create_integer 5).
    split; [vm_compute; reflexivity|]. split; [vm_compute; reflexivity|].
    intros H. inversion H.
Qed.

(** ** Negative numbers *)

(** C7 (the code departs from it).  A minus sign followed by the digits of
    [v] is parsed as the integer [v], not [- v]: [strtol] has read the sign
    and the lexer multiplies the result by the sign once more.  On the text
    [-5] the parser returns the integer 5, as it does on the text [5]. *)
Theorem negative_integer_sign_applied_twice :
  (forall (v : Z) (rest : list ascii),
      (0 <= v <= INT_MAX)%Z ->
      number_ends rest = true ->
      cjson_parse_str ("-"%char :: digits v ++ rest)
      = Ret (Some (cjson_create_integer v)))
  /\ cjson_parse_str (txt "-5") = Ret (Some (cjson_create_integer 5))
  /\ cjson_parse_str (txt "5") = Ret (Some (cjson_create_integer 5))
  /\ strtol (txt "-5") = (-5)%Z.
Proof.
  split; [|repeat split; vm_compute; reflexivity].
  intros v rest Hv Hrest. unfold cjson_parse_str.
  set (str := "-"%char :: digits v ++ rest).
  destruct (@parse_scalar (length str) (mk_lexer str 0 initial_token)
              CJSON_TOK_INTEGER ("-"%char :: digits v) rest v
              (cjson_create_integer v))
    as (lexer' & Hrun & _).
  - split; reflexivity.
  - reflexivity.
  - apply (@lex_negative (mk_lexer str 0 initial_token) v rest);
      [reflexivity | exact Hv | exact Hrest].
  - left. reflexivity.
  - rewrite Hrun. reflexivity.
Qed.

(** ** Further facts about the parser and the serializer *)

(** X1: trailing bytes are ignored after a text with white space, an
    escape-free string, a nested array and a negative number as well: the
    parser stops after the first element. *)
Theorem trailing_bytes_after_spaced_text :
  cjson_parse_str (txt " { 'k' : [ true , -7 ] , 'n' : null } }} x")
  = cjson_parse_str (txt " { 'k' : [ true , -7 ] , 'n' : null }")
  /\ exists e, cjson_parse_str (txt " { 'k' : [ true , -7 ] , 'n' : null }")
               = Ret (Some e)
               /\ cjson_is_object e = true.
Proof.
  split; [vm_compute; reflexivity|].
  eexists. split; [vm_compute; reflexivity | reflexivity].
Qed.

(** X4: in compact mode [cjson_to_str] writes, for a plain tree, the text
    [render] describes: no white space, elements and members separated by a
    comma, a member as its quoted name, a colon and its value; the text
    holds no NUL byte. *)
Theorem compact_text_of_plain_tree (T : cjson_element) :
  plain_tree T = true ->
  cjson_to_str (Some T) false = Ret (render T) /\ is_cstr (render T) = true.
Proof.
  intros Hp. split; [apply to_str_render | apply render_is_cstr]; exact Hp.
Qed.

Lemma compact_text_of_plain_tree_witness :
  plain_tree (Element CJSON_OBJECT (val_object sample_object)) = true
  /\ cjson_to_str (Some (Element CJSON_OBJECT (val_object sample_object))) false
     = Ret (txt "{'f1':42,'f2':'42','f3':[]}").
Proof.
  split; [reflexivity|].
  apply (compact_text_of_plain_tree (Element CJSON_OBJECT (val_object sample_object))).
  reflexivity.
Defined.


(** ** Loops over the members of an object *)

Lemma iter_loop_entries (St : Type)
  (body : cjson_object_iterator -> St -> outcome St)
  (f : cjson_map_item -> St -> outcome St) (o : cjson_object) :
  (forall it c st, it_name it = Some (name c) -> it_element it = element c ->
                   body it st = f c st) ->
  forall (n k : nat) (it : cjson_object_iterator) (st : St),
    iterate_steps k o = Ret it ->
    length (entries o) <= n + k ->
    iter_loop body n it st = fold_entries f (skipn k (entries o)) st.
Proof.
  intros Hbody. induction n as [|n IH]; intros k it st Hit Hn.
  - destruct (iterate_steps_spec o k) as (it' & Hit' & [[Hlt _]|[_ Hend]]); [lia|].
    rewrite Hit in Hit'. injection Hit' as <-.
    rewrite skipn_all2 by lia. simpl. rewrite Hend. reflexivity.
  - destruct (iterate_steps_spec o k) as (it' & Hit' & [[Hlt Hst]|[Hge Hend]]);
      rewrite Hit in Hit'; injection Hit' as <-.
    + destruct (stands_at_entry Hst) as (c & Hc & Hname & Helt & _).
      destruct Hst as (_ & Hend & _).
      rewrite (skipn_nth_error _ _ Hc).
      destruct (iterate_steps_spec o (S k)) as (it1 & Hit1 & _).
      assert (Hnext : cjson_iterate_next it = Ret it1)
        by (simpl in Hit1; rewrite Hit in Hit1; exact Hit1).
      cbn [iter_loop fold_entries]. rewrite Hend.
      rewrite (Hbody it c st Hname Helt).
      destruct (f c st) as [st1| | |]; cbn [bind]; try reflexivity.
      rewrite Hnext. cbn [bind]. apply IH; [exact Hit1 | lia].
    + rewrite skipn_all2 by lia. simpl. rewrite Hend. reflexivity.
Qed.

Lemma iter_loop_all (St : Type)
  (body : cjson_object_iterator -> St -> outcome St)
  (f : cjson_map_item -> St -> outcome St) (o : cjson_object) (st : St) :
  (forall it c st, it_name it = Some (name c) -> it_element it = element c ->
                   body it st = f c st) ->
  iter_loop body (length (entries o)) (cjson_iterate_object o) st
  = fold_entries f (entries o) st.
Proof.
  intros Hbody.
  apply (@iter_loop_entries St body f o Hbody (length (entries o)) 0);
    [reflexivity | lia].
Qed.

(** ** Delete *)

Lemma delete_members_loop (rec : option cjson_element -> outcome unit)
  (n : nat) (it : cjson_object_iterator) :
  delete_members rec n it
  = iter_loop (fun it _ => rec (it_element it)) n it tt.
Proof.
  revert it; induction n as [|n IH]; intros it; simpl.
  - reflexivity.
  - destruct (it_end it); [reflexivity|].
    destruct (rec (it_element it)) as [[]| | |]; cbn [bind]; try reflexivity.
    destruct (cjson_iterate_next it); cbn [bind]; try reflexivity. apply IH.
Qed.

Lemma delete_elements_spec (rec : option cjson_element -> outcome unit)
  (l : list (option cjson_element)) :
  (forall slot, In slot l ->
                rec slot = if releasable_slot slot then Ret tt else Undefined) ->
  delete_elements rec l = if forallb releasable_slot l then Ret tt else Undefined.
Proof.
  induction l as [|e l IH]; intros H; [reflexivity|].
  cbn [delete_elements forallb]. rewrite (H e (or_introl eq_refl)).
  destruct (releasable_slot e); cbn [bind andb]; [|reflexivity].
  apply IH. intros slot Hs. apply H. right. exact Hs.
Qed.

Lemma fold_delete_spec (rec : option cjson_element -> outcome unit)
  (l : list cjson_map_item) :
  (forall c, In c l ->
             rec (element c)
             = if releasable_slot (element c) then Ret tt else Undefined) ->
  fold_entries (fun c (_ : unit) => rec (element c)) l tt
  = if forallb (fun c => releasable_slot (element c)) l then Ret tt else Undefined.
Proof.
  induction l as [|c l IH]; intros H; [reflexivity|].
  cbn [fold_entries forallb]. rewrite (H c (or_introl eq_refl)).
  destruct (releasable_slot (element c)); cbn [bind andb]; [|reflexivity].
  apply IH. intros x Hx. apply H. right. exact Hx.
Qed.

Lemma delete_rec_spec (T : cjson_element) :
  forall fuel, S (elt_size T) <= fuel ->
  delete_rec fuel (Some T) = if releasable T then Ret tt else Undefined.
Proof.
  induction T as [T IH] using tree_ind. intros [|fuel] Hfuel; [lia|].
  assert (Hnull : delete_rec fuel None = Undefined).
  { pose proof (elt_size_pos T). destruct fuel; [lia | reflexivity]. }
  destruct T as [t v]. cbn [delete_rec]. unfold delete_body. cbn [element_type value].
  destruct t; try reflexivity.
  - destruct v; reflexivity.
  - destruct v; try reflexivity. cbn [read_array bind].
    rewrite delete_elements_spec; [reflexivity|].
    intros [x|] Hx; [|exact Hnull].
    pose proof (slot_size CJSON_ARRAY a x Hx).
    apply IH; [assumption | lia].
  - destruct v; try reflexivity. cbn [read_object bind].
    rewrite delete_members_loop.
    rewrite (@iter_loop_all unit _ (fun c _ => delete_rec fuel (element c)) o tt)
      by (intros it c st _ ->; reflexivity).
    rewrite fold_delete_spec.
    + cbn [releasable]. unfold entries. rewrite <- forallb_concat. reflexivity.
    + intros c Hc. destruct (element c) as [x|] eqn:Hx; [|exact Hnull].
      pose proof (member_size CJSON_OBJECT o c Hc Hx).
      apply IH; [assumption | lia].
Qed.

(** ** The map as a finite map *)

Lemma chain_find_c_str chain (nm : list ascii) :
  chain_find chain (c_str nm) = chain_find chain nm.
Proof.
  induction chain as [|it chain IH]; [reflexivity|].
  cbn [chain_find]. unfold str_eqb. rewrite c_str_idem, IH. reflexivity.
Qed.

Lemma object_get_c_str (m : cjson_object) (nm : list ascii) :
  cjson_object_get m (c_str nm) = cjson_object_get m nm.
Proof.
  unfold cjson_object_get. rewrite bucket_of_c_str.
  destruct (bucket_of (map_capacity m) nm); cbn [bind]; try reflexivity.
  rewrite chain_find_c_str. reflexivity.
Qed.




(** ** The hash *)

Lemma hash_step_range (res : Z) (c : ascii) :
  (0 <= wrap64 (Z.shiftl res 3 + schar c) < 2 ^ 64)%Z.
Proof. unfold wrap64. apply Z.mod_pos_bound. lia. Qed.

Lemma hash_fold_range (s : list ascii) (a : Z) :
  (0 <= a < 2 ^ 64)%Z ->
  (0 <= fold_left (fun res c => wrap64 (Z.shiftl res 3 + schar c)) s a < 2 ^ 64)%Z.
Proof.
  revert a; induction s as [|c s IH]; intros a Ha; [exact Ha|].
  cbn [fold_left]. apply IH. apply hash_step_range.
Qed.

Lemma hash_fold_shift (s : list ascii) (a b : Z) :
  (0 <= a < 2 ^ 64)%Z -> (0 <= b < 2 ^ 64)%Z ->
  ((a - b) * 8 ^ Z.of_nat (length s) mod 2 ^ 64 = 0)%Z ->
  fold_left (fun res c => wrap64 (Z.shiftl res 3 + schar c)) s a
  = fold_left (fun res c => wrap64 (Z.shiftl res 3 + schar c)) s b.
Proof.
  revert a b; induction s as [|c s IH]; intros a b Ha Hb Hdiv.
  - cbn [length] in Hdiv. change (8 ^ Z.of_nat 0)%Z with 1%Z in Hdiv.
    rewrite Z.mul_1_r in Hdiv. cbn [fold_left].
    apply Z.mod_divide in Hdiv; [|lia]. destruct Hdiv as [k Hk].
    assert (k = 0)%Z by nia. lia.
  - cbn [fold_left]. apply IH; try apply hash_step_range.
    unfold wrap64. rewrite !Z.shiftl_mul_pow2 by lia.
    change (2 ^ 3)%Z with 8%Z.
    cbn [length] in Hdiv. rewrite Nat2Z.inj_succ, Z.pow_succ_r in Hdiv by lia.
    rewrite <- Zmult_mod_idemp_l, <- Zminus_mod.
    rewrite Zmult_mod_idemp_l.
    replace ((a * 8 + schar c - (b * 8 + schar c)) * 8 ^ Z.of_nat (length s))%Z
      with ((a - b) * (8 * 8 ^ Z.of_nat (length s)))%Z by ring.
    exact Hdiv.
Qed.

Lemma hash_suffix (p s : list ascii) :
  is_cstr p = true -> is_cstr s = true -> 22 <= length s ->
  cjson_hash (p ++ s) = cjson_hash s.
Proof.
  intros Hp Hs Hlen. unfold cjson_hash.
  rewrite (is_cstr_c_str s Hs).
  rewrite (is_cstr_c_str (p ++ s)) by (rewrite is_cstr_app, Hp, Hs; reflexivity).
  rewrite fold_left_app.
  apply hash_fold_shift; [apply hash_fold_range; lia | lia |].
  rewrite Z.sub_0_r.
  replace (Z.of_nat (length s)) with (22 + (Z.of_nat (length s) - 22))%Z by lia.
  rewrite Z.pow_add_r by lia.
  change (8 ^ 22)%Z with (2 ^ 64 * 4)%Z.
  rewrite Z.mul_assoc, (Z.mul_comm _ (2 ^ 64 * 4)%Z), <- !Z.mul_assoc.
  rewrite Z.mul_comm. apply Z_mod_mult.
Qed.


(** ** Clone *)

Lemma well_formed_array (a : cjson_array) :
  well_formed (Element CJSON_ARRAY (val_array a))
  = forallb well_formed_slot (elements a).
Proof. reflexivity. Qed.

Lemma well_formed_object (o : cjson_map) :
  well_formed (Element CJSON_OBJECT (val_object o))
  = map_ok o && forallb (fun it => well_formed_slot (element it)) (entries o).
Proof.
  cbn [well_formed]. unfold entries. rewrite <- forallb_concat. reflexivity.
Qed.

Lemma clone_elements_append (rec : option cjson_element -> outcome (option cjson_element))
  (xs xs' : list (option cjson_element)) (dst : cjson_array) :
  Forall2 (fun x x' => rec x = Ret x') xs xs' ->
  clone_elements rec xs dst = append_all dst xs'.
Proof.
  intros H. revert dst. induction H as [|x x' xs xs' Hx _ IH]; intros dst;
    [reflexivity|].
  cbn [clone_elements append_all]. rewrite Hx. cbn [bind].
  destruct (cjson_array_append dst x'); cbn [bind]; try reflexivity. apply IH.
Qed.

Lemma clone_members_loop (rec : option cjson_element -> outcome (option cjson_element))
  (n : nat) (it : cjson_object_iterator) (dst : cjson_object) :
  clone_members rec n it dst
  = iter_loop (fun it dst =>
                 c <- rec (it_element it) ;;
                 match it_name it with
                 | Some nm => cjson_object_insert dst nm c
                 | None => Undefined
                 end) n it dst.
Proof.
  revert it dst; induction n as [|n IH]; intros it dst; simpl.
  - reflexivity.
  - destruct (it_end it); [reflexivity|].
    destruct (rec (it_element it)) as [c| | |]; cbn [bind]; try reflexivity.
    destruct (it_name it) as [nm|]; cbn [bind]; [|reflexivity].
    destruct (cjson_object_insert dst nm c); cbn [bind]; try reflexivity.
    destruct (cjson_iterate_next it); cbn [bind]; try reflexivity. apply IH.
Qed.

Lemma fold_clone_insert (rec : option cjson_element -> outcome (option cjson_element))
  (l l' : list cjson_map_item) (dst : cjson_object) :
  Forall2 (fun c c' => name c' = name c /\ rec (element c) = Ret (element c')) l l' ->
  fold_entries (fun c dst => x <- rec (element c) ;; cjson_object_insert dst (name c) x)
    l dst
  = insert_all dst l'.
Proof.
  intros H. revert dst. induction H as [|c c' l l' [Hn Hc] _ IH]; intros dst;
    [reflexivity|].
  cbn [fold_entries insert_all]. rewrite Hc, Hn. cbn [bind].
  unfold cjson_object_insert.
  destruct (cjson_map_insert dst (name c) (element c')); cbn [bind]; try reflexivity.
  apply IH.
Qed.

(** Insertions under fresh names push every item on the chain of its bucket. *)
Lemma insert_all_buckets (l : list cjson_map_item) (m : cjson_map) :
  map_ok m = true ->
  NoDup (map (@name _) l) ->
  (forall it, In it l -> is_cstr (name it) = true) ->
  (forall it, In it l -> ~ In (name it) (map (@name _) (entries m))) ->
  exists m',
    insert_all m l = Ret m'
    /\ map_ok m' = true
    /\ map_capacity m' = map_capacity m
    /\ forall h, nth h (items m') []
                 = rev (filter (in_bucket (map_capacity m) h) l) ++ nth h (items m) [].
Proof.
  revert m; induction l as [|it l IH]; intros m Hok Hnd Hc Hfresh.
  - exists m. simpl. auto.
  - inversion Hnd as [|? ? Hnotin Hnd']; subst.
    pose proof (is_cstr_c_str _ (Hc it (or_introl eq_refl))) as Hcs.
    assert (Hf : ~ In (c_str (name it)) (map (@name _) (entries m)))
      by (rewrite Hcs; apply Hfresh; left; reflexivity).
    destruct (@map_insert_spec m (name it) (element it) Hok)
      as (m1 & h1 & Hins & Hb & Hcap & Hok1 & _ & _ & Hoth & _ & Hpush).
    { intros x Hx Hn. exfalso. apply Hf. rewrite <- Hn. apply in_map. exact Hx. }
    specialize (Hpush Hf). rewrite Hcs in Hpush.
    assert (Hin1 : forall x, In x (entries m1) -> x = it \/ In x (entries m)).
    { intros x Hx. apply in_entries in Hx. destruct Hx as (h & Hh & Hx).
      destruct (Nat.eq_dec h h1) as [->|Hne].
      - rewrite Hpush in Hx. destruct Hx as [<-|Hx].
        + left. destruct it; reflexivity.
        + right. apply in_entries. exists h1. split; [congruence | exact Hx].
      - rewrite (Hoth h Hne) in Hx. right. apply in_entries.
        exists h. split; [congruence | exact Hx]. }
    destruct (IH m1 Hok1 Hnd') as (m' & Hall & Hok' & Hcap' & Hb').
    { intros x Hx. apply Hc. right. exact Hx. }
    { intros x Hx Hin. apply in_map_iff in Hin. destruct Hin as (y & Hy & Hyin).
      destruct (Hin1 y Hyin) as [->|Hym].
      - apply Hnotin. rewrite Hy. apply in_map. exact Hx.
      - apply (Hfresh x (or_intror Hx)). rewrite <- Hy. apply in_map. exact Hym. }
    exists m'. cbn [insert_all]. rewrite Hins. cbn [bind].
    split; [exact Hall|]. split; [exact Hok'|]. split; [congruence|].
    intros h. rewrite Hb', Hcap. cbn [filter]. unfold in_bucket at 2. rewrite Hb.
    destruct (Nat.eqb h1 h) eqn:Hh.
    + apply Nat.eqb_eq in Hh. subst h. rewrite Hpush. cbn [rev].
      rewrite <- app_assoc. cbn [app]. destruct it; reflexivity.
    + apply Nat.eqb_neq in Hh. rewrite (Hoth h) by congruence. reflexivity.
Qed.

Lemma chain_filter_bucket (cap i h : nat) (chain : list cjson_map_item) :
  chain_ok cap i chain = true ->
  filter (in_bucket cap h) chain = if Nat.eqb i h then chain else [].
Proof.
  intros Hok.
  assert (Hall : forall it, In it chain -> in_bucket cap h it = Nat.eqb i h).
  { intros it Hit. destruct (@chain_ok_item cap i chain it Hok Hit) as [Hb _].
    unfold in_bucket. rewrite Hb. reflexivity. }
  clear Hok. induction chain as [|it chain IH].
  - destruct (Nat.eqb i h); reflexivity.
  - cbn [filter]. rewrite (Hall it (or_introl eq_refl)).
    rewrite IH by (intros x Hx; apply Hall; right; exact Hx).
    destruct (Nat.eqb i h); reflexivity.
Qed.

Lemma buckets_filter_bucket (cap i h : nat) (bs : list (list cjson_map_item)) :
  buckets_ok cap i bs = true ->
  filter (in_bucket cap h) (concat bs) = if h <? i then [] else nth (h - i) bs [].
Proof.
  revert i; induction bs as [|chain bs IH]; intros i Hok.
  - cbn [concat filter]. destruct (h <? i); [reflexivity|]. destruct (h - i); reflexivity.
  - cbn [buckets_ok] in Hok. apply andb_prop in Hok. destruct Hok as [Hc Hbs].
    cbn [concat]. rewrite filter_app, (@chain_filter_bucket cap i h chain Hc), (IH (S i) Hbs).
    destruct (Nat.eqb i h) eqn:E.
    + apply Nat.eqb_eq in E. subst i.
      replace (h <? S h) with true by (symmetry; apply Nat.ltb_lt; lia).
      replace (h <? h) with false by (symmetry; apply Nat.ltb_ge; lia).
      rewrite Nat.sub_diag, app_nil_r. reflexivity.
    + apply Nat.eqb_neq in E. cbn [app].
      destruct (h <? i) eqn:L.
      * apply Nat.ltb_lt in L.
        replace (h <? S i) with true by (symmetry; apply Nat.ltb_lt; lia). reflexivity.
      * apply Nat.ltb_ge in L.
        replace (h <? S i) with false by (symmetry; apply Nat.ltb_ge; lia).
        replace (h - i) with (S (h - S i)) by lia. reflexivity.
Qed.

Lemma map_filter_bucket (m : cjson_map) (h : nat) :
  map_ok m = true ->
  filter (in_bucket (map_capacity m) h) (entries m) = nth h (items m) [].
Proof.
  intros Hok. unfold map_ok in Hok. apply andb_prop in Hok. destruct Hok as [_ Hb].
  unfold entries. rewrite (@buckets_filter_bucket (map_capacity m) 0 h (items m) Hb).
  cbn. rewrite Nat.sub_0_r. reflexivity.
Qed.

Lemma Forall2_filter_names (R : cjson_element -> cjson_element -> Prop)
  (p : cjson_map_item -> bool) (l l' : list cjson_map_item) :
  (forall a b, name a = name b -> p a = p b) ->
  Forall2 (item_rel R) l l' ->
  Forall2 (item_rel R) (filter p l) (filter p l').
Proof.
  intros Hp H. induction H as [|x y l l' Hxy _ IH]; [constructor|].
  cbn [filter]. rewrite (Hp x y) by (destruct Hxy; reflexivity).
  destruct (p y); [constructor; assumption | exact IH].
Qed.

Lemma Forall2_rev (A B : Type) (R : A -> B -> Prop) (l : list A) (l' : list B) :
  Forall2 R l l' -> Forall2 R (rev l) (rev l').
Proof.
  induction 1 as [|x y l l' Hxy _ IH]; [constructor|].
  cbn [rev]. apply Forall2_app; [exact IH | constructor; [exact Hxy | constructor]].
Qed.

Lemma Forall2_nth_ext (A B : Type) (R : A -> B -> Prop) (da : A) (db : B)
  (l : list A) (l' : list B) :
  length l = length l' ->
  (forall h, h < length l -> R (nth h l da) (nth h l' db)) ->
  Forall2 R l l'.
Proof.
  revert l'; induction l as [|x l IH]; intros [|y l'] Hlen H; try discriminate;
    [constructor|].
  constructor.
  - apply (H 0). simpl. lia.
  - apply IH; [simpl in Hlen; lia|]. intros h Hh. apply (H (S h)). simpl. lia.
Qed.

Lemma Forall2_concat (A B : Type) (R : A -> B -> Prop)
  (l : list (list A)) (l' : list (list B)) :
  Forall2 (Forall2 R) l l' -> Forall2 R (concat l) (concat l').
Proof.
  induction 1 as [|x y l l' Hxy _ IH]; [constructor|].
  cbn [concat]. apply Forall2_app; assumption.
Qed.

Lemma Permutation_concat_rev (A : Type) (l : list (list A)) :
  Permutation (concat l) (concat (map (@rev A) l)).
Proof.
  induction l as [|x l IH]; [constructor|].
  cbn [map concat]. apply Permutation_app; [apply Permutation_rev | exact IH].
Qed.

Lemma chains_reversed_struct_eq (o p : cjson_map) :
  chains_reversed o p ->
  struct_eq (Element CJSON_OBJECT (val_object o)) (Element CJSON_OBJECT (val_object p)).
Proof.
  intros H. apply eq_object with (l := concat (map (@rev _) (items o))).
  - apply Permutation_concat_rev.
  - unfold entries. apply Forall2_concat.
    unfold chains_reversed in H. clear -H.
    induction H as [|c c' l l' Hc _ IH]; [constructor|].
    cbn [map]. constructor; assumption.
Qed.

Lemma Forall2_In_r (A B : Type) (P : A -> B -> Prop) (l : list A) (l' : list B) (y : B) :
  Forall2 P l l' -> In y l' -> exists x, In x l /\ P x y.
Proof.
  induction 1 as [|a b l l' Hab _ IH]; intros Hy; [contradiction|].
  destruct Hy as [<-|Hy].
  - exists a. split; [left; reflexivity | exact Hab].
  - destruct (IH Hy) as (x & Hx & Hp). exists x. split; [right; exact Hx | exact Hp].
Qed.

Lemma c_str_fixed_is_cstr (s : list ascii) : c_str s = s -> is_cstr s = true.
Proof. intros H. rewrite <- H. apply c_str_is_cstr. Qed.

Lemma clone_rec_spec (T : cjson_element) :
  well_formed T = true ->
  exists T',
    struct_eq T T'
    /\ well_formed T' = true
    /\ (forall o, T = Element CJSON_OBJECT (val_object o) ->
          exists o', T' = Element CJSON_OBJECT (val_object o')
                     /\ map_capacity o' = map_capacity o
                     /\ chains_reversed o o')
    /\ (forall a, T = Element CJSON_ARRAY (val_array a) ->
          exists a', T' = Element CJSON_ARRAY (val_array a')
                     /\ Forall2 (slot_rel struct_eq) (elements a) (elements a')
                     /\ size a' <= capacity a')
    /\ forall fuel, S (elt_size T) <= fuel -> clone_rec fuel (Some T) = Ret (Some T').
Proof.
  induction T as [T IH] using tree_ind. intros Hwf.
  pose proof (elt_size_pos T) as Hpos.
  assert (Hscalar : forall t v, T = Element t v ->
            struct_eq T T ->
            match t with CJSON_STRING | CJSON_ARRAY | CJSON_OBJECT => False | _ => True end ->
            exists T',
              struct_eq T T' /\ well_formed T' = true
              /\ (forall o, T = Element CJSON_OBJECT (val_object o) ->
                    exists o', T' = Element CJSON_OBJECT (val_object o')
                               /\ map_capacity o' = map_capacity o
                               /\ chains_reversed o o')
              /\ (forall a, T = Element CJSON_ARRAY (val_array a) ->
                    exists a', T' = Element CJSON_ARRAY (val_array a')
                               /\ Forall2 (slot_rel struct_eq) (elements a) (elements a')
                               /\ size a' <= capacity a')
              /\ forall fuel, S (elt_size T) <= fuel ->
                              clone_rec fuel (Some T) = Ret (Some T')).
  { intros t v -> Heq Ht. exists (Element t v).
    split; [exact Heq|]. split; [exact Hwf|].
    split; [intros o Ho; injection Ho as -> _; contradiction|].
    split; [intros a Ha; injection Ha as -> _; contradiction|].
    intros [|fuel] Hfuel; [lia|]. cbn [clone_rec]. unfold clone_body.
    cbn [element_type]. destruct t; try contradiction; reflexivity. }
  destruct T as [t v]. destruct t.
  - apply (Hscalar CJSON_NULL v eq_refl); [constructor | exact I].
  - destruct v; try discriminate Hwf.
    apply (Hscalar CJSON_BOOL (val_boolean b) eq_refl); [constructor | exact I].
  - destruct v; try discriminate Hwf.
    apply (Hscalar CJSON_INTEGER (val_integer i) eq_refl); [constructor | exact I].
  - destruct v; try discriminate Hwf.
    apply (Hscalar CJSON_FLOAT (val_fraction d) eq_refl); [constructor | exact I].
  - (* string *)
    clear Hscalar. destruct v as [| | | |[s|]| |]; try discriminate Hwf.
    cbn [well_formed] in Hwf.
    exists (Element CJSON_STRING (val_string (Some s))).
    split; [constructor|]. split; [exact Hwf|].
    split; [intros o Ho; discriminate Ho|]. split; [intros a Ha; discriminate Ha|].
    intros [|fuel] Hfuel; [lia|]. cbn [clone_rec]. unfold clone_body.
    cbn [element_type value read_string bind]. unfold strdup.
    rewrite (is_cstr_c_str s Hwf). reflexivity.
  - (* array *)
    clear Hscalar. destruct v; try discriminate Hwf.
    rewrite well_formed_array in Hwf. rewrite forallb_forall in Hwf.
    set (T := Element CJSON_ARRAY (val_array a)) in *.
    destruct (@build_list _ _
                (fun x x' =>
                   slot_rel struct_eq x x' /\ well_formed_slot x' = true
                   /\ forall fuel, elt_size T <= fuel -> clone_rec fuel x = Ret x')
                (elements a)) as (xs' & Hxs).
    { intros [x|] Hx.
      - pose proof (slot_size CJSON_ARRAY a x Hx) as Hsize. fold T in Hsize.
        destruct (IH x Hsize (Hwf _ Hx)) as (x' & Heq & Hwf' & _ & _ & Hrun).
        exists (Some x'). split; [constructor; exact Heq|]. split; [exact Hwf'|].
        intros fuel Hfuel. apply Hrun. lia.
      - exists None. split; [constructor|]. split; [reflexivity|].
        intros [|fuel] Hfuel; [lia | reflexivity]. }
    destruct (@append_all_spec xs' (mk_array [] 0)) as (a' & Happ & Hels & Hcap);
      [simpl; unfold size; simpl; lia|].
    cbn [elements app] in Hels.
    exists (Element CJSON_ARRAY (val_array a')).
    assert (Hrel : Forall2 (slot_rel struct_eq) (elements a) (elements a')).
    { rewrite Hels. eapply Forall2_impl; [|exact Hxs]. intros x x' [H _]. exact H. }
    split; [constructor; exact Hrel|].
    split.
    { rewrite well_formed_array, Hels. apply forallb_forall. intros x' Hx'.
      destruct (@Forall2_In_r _ _ _ _ _ _ Hxs Hx') as (x & _ & _ & H & _). exact H. }
    split; [intros o Ho; discriminate Ho|].
    split.
    { intros a0 Ha. injection Ha as <-. exists a'. auto. }
    intros [|fuel] Hfuel; [lia|]. cbn [clone_rec]. unfold clone_body.
    cbn [element_type value]. unfold T, cjson_as_array, cjson_is_array.
    cbn [element_type value type_eqb type_code Z.eqb Pos.eqb assert bind read_array
           cjson_create_array].
    rewrite (@clone_elements_append (clone_rec fuel) (elements a) xs').
    + rewrite Happ. reflexivity.
    + eapply Forall2_impl; [|exact Hxs]. intros x x' (_ & _ & H). apply H. lia.
  - (* object *)
    clear Hscalar. destruct v; try discriminate Hwf.
    rewrite well_formed_object in Hwf. apply andb_prop in Hwf.
    destruct Hwf as [Hok Hwf]. rewrite forallb_forall in Hwf.
    set (T := Element CJSON_OBJECT (val_object o)) in *.
    destruct (map_ok_spec o Hok) as [Hcap0 _].
    destruct (@build_list _ _
                (fun c c' =>
                   item_rel struct_eq c c' /\ well_formed_slot (element c') = true
                   /\ forall fuel, elt_size T <= fuel ->
                                   clone_rec fuel (element c) = Ret (element c'))
                (entries o)) as (its' & Hits).
    { intros [nm [x|]] Hc.
      - pose proof (member_size CJSON_OBJECT o _ Hc eq_refl) as Hsize. fold T in Hsize.
        destruct (IH x Hsize (Hwf _ Hc)) as (x' & Heq & Hwf' & _ & _ & Hrun).
        exists (mk_item nm (Some x')).
        split; [constructor; constructor; exact Heq|]. split; [exact Hwf'|].
        intros fuel Hfuel. apply Hrun. lia.
      - exists (mk_item nm None). split; [constructor; constructor|].
        split; [reflexivity|].
        intros [|fuel] Hfuel; [lia | reflexivity]. }
    assert (Hrel : Forall2 (item_rel struct_eq) (entries o) its')
      by (eapply Forall2_impl; [|exact Hits]; intros x x' [H _]; exact H).
    pose proof (Forall2_names Hrel) as Hnames.
    set (cap := map_capacity o) in *.
    destruct (@insert_all_buckets its' (mk_map (repeat [] cap)))
      as (m' & Hins & Hok' & Hcap' & Hb).
    { apply empty_map_ok. exact Hcap0. }
    { rewrite Hnames. apply map_ok_NoDup. exact Hok. }
    { intros it' Hit'.
      assert (Hn : In (name it') (map (@name _) (entries o)))
        by (rewrite <- Hnames; apply in_map; exact Hit').
      apply in_map_iff in Hn. destruct Hn as (it & Heq & Hit).
      rewrite <- Heq. apply c_str_fixed_is_cstr.
      destruct (map_ok_item o it Hok Hit) as (_ & _ & _ & H). exact H. }
    { intros it' _. unfold entries. cbn [items]. rewrite concat_repeat_empty.
      simpl. tauto. }
    assert (Hcapm : map_capacity (mk_map (repeat ([] : list cjson_map_item) cap)) = cap)
      by (unfold map_capacity; cbn [items]; apply repeat_length).
    rewrite Hcapm in Hcap', Hb.
    assert (Hb' : forall h, nth h (items m') []
                            = rev (filter (in_bucket cap h) its')).
    { intros h. rewrite Hb. cbn [items].
      replace (nth h (repeat [] cap) []) with ([] : list cjson_map_item)
        by (symmetry; apply nth_repeat).
      apply app_nil_r. }
    assert (Hrev : chains_reversed o m').
    { unfold chains_reversed.
      apply Forall2_nth_ext with (da := []) (db := []); [exact (eq_sym Hcap')|].
      intros h _. rewrite Hb'. apply Forall2_rev.
      rewrite <- (@map_filter_bucket o h Hok). fold cap.
      apply Forall2_filter_names; [|exact Hrel].
      intros x y Hxy. unfold in_bucket. rewrite Hxy. reflexivity. }
    exists (Element CJSON_OBJECT (val_object m')).
    split; [apply chains_reversed_struct_eq; exact Hrev|].
    split.
    { rewrite well_formed_object, Hok'. cbn [andb]. apply forallb_forall.
      intros x Hx. apply in_entries in Hx. destruct Hx as (h & _ & Hx).
      rewrite Hb' in Hx. apply in_rev in Hx. apply filter_In in Hx.
      destruct (@Forall2_In_r _ _ _ _ _ _ Hits (proj1 Hx)) as (c & _ & _ & H & _). exact H. }
    split.
    { intros o0 Ho. injection Ho as <-. exists m'. auto. }
    split; [intros a Ha; discriminate Ha|].
    intros [|fuel] Hfuel; [lia|]. cbn [clone_rec]. unfold clone_body.
    cbn [element_type value]. unfold T, cjson_as_object.
    cbn [element_type value type_eqb type_code Z.eqb Pos.eqb assert bind read_object
           cjson_create_object].
    fold cap. rewrite clone_members_loop.
    rewrite (@iter_loop_all _ _
               (fun c dst => x <- clone_rec fuel (element c) ;;
                             cjson_object_insert dst (name c) x) o).
    + rewrite (@fold_clone_insert (clone_rec fuel) (entries o) its').
      * rewrite Hins. reflexivity.
      * eapply Forall2_impl; [|exact Hits]. intros x x' (Hxy & _ & H).
        split; [destruct Hxy; reflexivity | apply H; lia].
    + intros it c st Hn He. rewrite Hn, He. reflexivity.
Qed.

Lemma clone_spec (T : cjson_element) :
  well_formed T = true ->
  exists T',
    cjson_clone (Some T) = Ret (Some T')
    /\ struct_eq T T'
    /\ well_formed T' = true
    /\ (forall o, T = Element CJSON_OBJECT (val_object o) ->
          exists o', T' = Element CJSON_OBJECT (val_object o')
                     /\ map_capacity o' = map_capacity o
                     /\ chains_reversed o o').
Proof.
  intros Hwf. destruct (clone_rec_spec T Hwf) as (T' & Heq & Hwf' & Hobj & _ & Hrun).
  exists T'. split; [apply Hrun; lia|]. auto.
Qed.

Lemma chains_reversed_item (o p : cjson_map) (it : cjson_map_item) :
  chains_reversed o p -> In it (entries o) ->
  exists it', In it' (entries p) /\ item_rel struct_eq it it'.
Proof.
  unfold chains_reversed, entries.
  induction 1 as [|c c' l l' Hc _ IH]; intros Hin; [contradiction|].
  cbn [concat] in *. apply in_app_or in Hin. destruct Hin as [Hin|Hin].
  - apply in_rev in Hin. clear IH.
    induction Hc as [|x y r r' Hxy _ IHc]; [contradiction|].
    destruct Hin as [<-|Hin].
    + exists y. split; [left; reflexivity | exact Hxy].
    + destruct (IHc Hin) as (it' & Hit' & Hrel).
      exists it'. split; [|exact Hrel].
      cbn [app] in *. apply in_app_or in Hit'. destruct Hit' as [H|H].
      * right. apply in_or_app. left. exact H.
      * right. apply in_or_app. right. exact H.
  - destruct (IH Hin) as (it' & Hit' & Hrel).
    exists it'. split; [apply in_or_app; right; exact Hit' | exact Hrel].
Qed.

Lemma chains_reversed_item_back (o p : cjson_map) (it' : cjson_map_item) :
  chains_reversed o p -> In it' (entries p) ->
  exists it, In it (entries o) /\ item_rel struct_eq it it'.
Proof.
  unfold chains_reversed, entries.
  induction 1 as [|c c' l l' Hc _ IH]; intros Hin; [contradiction|].
  cbn [concat] in *. apply in_app_or in Hin. destruct Hin as [Hin|Hin].
  - destruct (@Forall2_In_r _ _ _ _ _ _ Hc Hin) as (x & Hx & Hrel).
    exists x. split; [|exact Hrel]. apply in_or_app. left. apply in_rev. exact Hx.
  - destruct (IH Hin) as (it & Hit & Hrel).
    exists it. split; [apply in_or_app; right; exact Hit | exact Hrel].
Qed.

Lemma chains_reversed_lookup (o p : cjson_map) (nm : list ascii) :
  map_ok o = true -> map_ok p = true -> chains_reversed o p ->
  exists x x',
    cjson_object_get o nm = Ret x
    /\ cjson_object_get p nm = Ret x'
    /\ slot_rel struct_eq x x'.
Proof.
  intros Hoko Hokp Hrev.
  destruct (in_dec (list_eq_dec ascii_dec) (c_str nm) (map (@name _) (entries o)))
    as [Hin|Hnin].
  - apply in_map_iff in Hin. destruct Hin as (it & Hn & Hit).
    destruct (chains_reversed_item it Hrev Hit) as (it' & Hit' & Hrel).
    exists (element it), (element it').
    split; [apply object_get_present; assumption|].
    split; [|destruct Hrel; assumption].
    apply object_get_present; [assumption | assumption|].
    destruct Hrel. exact Hn.
  - exists None, None. split; [apply object_get_absent; assumption|].
    split; [|constructor].
    apply object_get_absent; [assumption|].
    intros Hin. apply Hnin. apply in_map_iff in Hin. destruct Hin as (it' & Hn & Hit').
    destruct (chains_reversed_item_back it' Hrev Hit') as (it & Hit & Hrel).
    apply in_map_iff. exists it. split; [|exact Hit]. destruct Hrel. exact Hn.
Qed.


(** ** The members of an object, entry by entry *)

Lemma to_str_members_loop (pretty : bool)
  (rec : option cjson_element -> to_str_state -> outcome to_str_state)
  (n : nat) (it : cjson_object_iterator) (st : to_str_state) :
  to_str_members pretty rec n it st
  = iter_loop (fun it st => st <- put_char ","%char st ;;
                            st <- pretty_newline pretty st ;;
                            to_str_member rec it st) n it st.
Proof.
  revert it st; induction n as [|n IH]; intros it st; simpl.
  - reflexivity.
  - destruct (it_end it); [reflexivity|].
    destruct (put_char ","%char st) as [st1| | |]; cbn [bind]; try reflexivity.
    destruct (pretty_newline pretty st1) as [st2| | |]; cbn [bind]; try reflexivity.
    destruct (to_str_member rec it st2) as [st3| | |]; cbn [bind]; try reflexivity.
    destruct (cjson_iterate_next it); cbn [bind]; try reflexivity. apply IH.
Qed.

Lemma dump_members_loop (pretty : bool)
  (rec : option cjson_element -> dump_state -> outcome dump_state)
  (n : nat) (it : cjson_object_iterator) (st : dump_state) :
  dump_members pretty rec n it st
  = iter_loop (fun it st => st <- dump_newline pretty (print [","%char] st) ;;
                            dump_member rec it st) n it st.
Proof.
  revert it st; induction n as [|n IH]; intros it st; simpl.
  - reflexivity.
  - destruct (it_end it); [reflexivity|].
    destruct (dump_newline pretty (print [","%char] st)) as [st1| | |];
      cbn [bind]; try reflexivity.
    destruct (dump_member rec it st1) as [st3| | |]; cbn [bind]; try reflexivity.
    destruct (cjson_iterate_next it); cbn [bind]; try reflexivity. apply IH.
Qed.

(** A walk over the members: the first one, then the others behind a comma. *)
Lemma object_walk_entries (St : Type)
  (first rest : cjson_object_iterator -> St -> outcome St)
  (f g : cjson_map_item -> St -> outcome St) (o : cjson_object) (st : St) :
  (forall it c st, it_name it = Some (name c) -> it_element it = element c ->
                   first it st = f c st) ->
  (forall it c st, it_name it = Some (name c) -> it_element it = element c ->
                   rest it st = g c st) ->
  (st <- (if it_end (cjson_iterate_object o) then Ret st
          else first (cjson_iterate_object o) st) ;;
   it <- cjson_iterate_next (cjson_iterate_object o) ;;
   iter_loop rest (length (entries o)) it st)
  = match entries o with
    | [] => Ret st
    | c :: r => st <- f c st ;; fold_entries g r st
    end.
Proof.
  intros Hfirst Hrest.
  destruct (iterate_object_spec o) as [[Hnil Hend]|Hst].
  - rewrite Hnil, Hend. cbn [bind]. rewrite (iterate_next_end _ Hend). cbn [bind].
    destruct (length (@nil cjson_map_item)); simpl; rewrite Hend; reflexivity.
  - destruct (stands_at_entry Hst) as (c & Hc & Hname & Helt & _).
    destruct (iterate_steps_spec o 1) as (it1 & Hit1 & _).
    assert (Hnext : cjson_iterate_next (cjson_iterate_object o) = Ret it1)
      by exact Hit1.
    destruct Hst as (_ & Hend & _). rewrite Hend.
    rewrite (Hfirst _ c st Hname Helt).
    destruct (entries o) as [|c0 r] eqn:He; [discriminate Hc|].
    injection Hc as ->.
    destruct (f c st) as [st1| | |]; cbn [bind]; try reflexivity.
    rewrite Hnext. cbn [bind].
    rewrite (@iter_loop_entries St rest g o Hrest (length (c :: r)) 1 it1 st1 Hit1)
      by (rewrite He; simpl; lia).
    rewrite He. reflexivity.
Qed.

Lemma to_str_member_entry
  (rec : option cjson_element -> to_str_state -> outcome to_str_state)
  (it : cjson_object_iterator) (c : cjson_map_item) (st : to_str_state) :
  it_name it = Some (name c) -> it_element it = element c ->
  to_str_member rec it st = to_str_entry rec c st.
Proof. intros Hn He. unfold to_str_member, to_str_entry. rewrite Hn, He. reflexivity. Qed.

Lemma dump_member_entry
  (rec : option cjson_element -> dump_state -> outcome dump_state)
  (it : cjson_object_iterator) (c : cjson_map_item) (st : dump_state) :
  it_name it = Some (name c) -> it_element it = element c ->
  dump_member rec it st = dump_entry rec c st.
Proof. intros Hn He. unfold dump_member, dump_entry. rewrite Hn, He. reflexivity. Qed.

Lemma to_str_object_entries (pretty : bool)
  (rec : option cjson_element -> to_str_state -> outcome to_str_state)
  (o : cjson_object) (st : to_str_state) :
  (st <- (if it_end (cjson_iterate_object o) then Ret st
          else to_str_member rec (cjson_iterate_object o) st) ;;
   it <- cjson_iterate_next (cjson_iterate_object o) ;;
   to_str_members pretty rec (length (entries o)) it st)
  = to_str_entries pretty rec (entries o) st.
Proof.
  unfold to_str_entries.
  rewrite <- (@object_walk_entries _ (to_str_member rec)
                (fun it st => st <- put_char ","%char st ;;
                              st <- pretty_newline pretty st ;;
                              to_str_member rec it st)).
  - destruct (if it_end (cjson_iterate_object o) then Ret st
              else to_str_member rec (cjson_iterate_object o) st);
      cbn [bind]; try reflexivity.
    destruct (cjson_iterate_next (cjson_iterate_object o)); cbn [bind]; try reflexivity.
    apply to_str_members_loop.
  - intros it c st0 Hn He. apply to_str_member_entry; assumption.
  - intros it c st0 Hn He.
    destruct (put_char ","%char st0) as [st1| | |]; cbn [bind]; try reflexivity.
    destruct (pretty_newline pretty st1) as [st2| | |]; cbn [bind]; try reflexivity.
    apply to_str_member_entry; assumption.
Qed.

Lemma dump_object_entries (pretty : bool)
  (rec : option cjson_element -> dump_state -> outcome dump_state)
  (o : cjson_object) (st : dump_state) :
  (st <- (if it_end (cjson_iterate_object o) then Ret st
          else dump_member rec (cjson_iterate_object o) st) ;;
   it <- cjson_iterate_next (cjson_iterate_object o) ;;
   dump_members pretty rec (length (entries o)) it st)
  = dump_entries pretty rec (entries o) st.
Proof.
  unfold dump_entries.
  rewrite <- (@object_walk_entries _ (dump_member rec)
                (fun it st => st <- dump_newline pretty (print [","%char] st) ;;
                              dump_member rec it st)).
  - destruct (if it_end (cjson_iterate_object o) then Ret st
              else dump_member rec (cjson_iterate_object o) st);
      cbn [bind]; try reflexivity.
    destruct (cjson_iterate_next (cjson_iterate_object o)); cbn [bind]; try reflexivity.
    apply dump_members_loop.
  - intros it c st0 Hn He. apply dump_member_entry; assumption.
  - intros it c st0 Hn He.
    destruct (dump_newline pretty (print [","%char] st0)) as [st1| | |];
      cbn [bind]; try reflexivity.
    apply dump_member_entry; assumption.
Qed.

(** ** [cjson_dump] prints what [cjson_to_str] returns *)

Lemma append_char_inv (sb sb' : cjson_str_builder) (c : ascii) :
  cjson_str_builder_append_char sb c = Ret sb' -> str sb' = str sb ++ [c].
Proof.
  unfold cjson_str_builder_append_char.
  destruct (sb_capacity sb <? length (str sb)); [discriminate|].
  intros H. injection H as <-. reflexivity.
Qed.

Lemma append_chars_inv (s : list ascii) (sb sb' : cjson_str_builder) :
  append_chars sb s = Ret sb' -> str sb' = str sb ++ s.
Proof.
  revert sb; induction s as [|c s IH]; intros sb H.
  - injection H as <-. rewrite app_nil_r. reflexivity.
  - cbn [append_chars] in H. apply bind_ret_inv in H. destruct H as (sb1 & H1 & H2).
    rewrite (IH _ H2), (append_char_inv _ _ H1), <- app_assoc. reflexivity.
Qed.

Lemma sim_weaken (P Q : nat -> Prop) f g :
  (forall i, Q i -> P i) -> sim P f g -> sim Q f g.
Proof. intros HPQ H sb sb' i i' out HQ Hf. apply (H sb sb' i i' out (HPQ i HQ) Hf). Qed.

Lemma sim_ext (P : nat -> Prop) f f' g g' :
  sim P f g -> (forall st, f' st = f st) -> (forall st, g' st = g st) -> sim P f' g'.
Proof.
  intros H Hf Hg sb sb' i i' out HP E. rewrite Hf in E. rewrite Hg.
  apply (H sb sb' i i' out HP E).
Qed.

Lemma sim_fails (P : nat -> Prop) f g :
  (forall st st', f st <> Ret st') -> sim P f g.
Proof. intros H sb sb' i i' out _ E. exfalso. apply (H _ _ E). Qed.

Lemma sim_ret (P : nat -> Prop) : sim P (fun st => Ret st) (fun st => Ret st).
Proof.
  intros sb sb' i i' out _ E. injection E as <- <-. exists [].
  rewrite !app_nil_r. auto.
Qed.

Lemma sim_bind (P : nat -> Prop) f1 f2 g1 g2 :
  sim P f1 g1 -> sim P f2 g2 ->
  sim P (fun st => st' <- f1 st ;; f2 st') (fun st => st' <- g1 st ;; g2 st').
Proof.
  intros H1 H2 sb sb' i i' out HP E.
  apply bind_ret_inv in E. destruct E as ([sb1 i1] & E1 & E2).
  destruct (H1 sb sb1 i i1 out HP E1) as (d1 & S1 & C1 & -> & G1).
  destruct (H2 sb1 sb' i i' (out ++ d1) HP E2) as (d2 & S2 & C2 & -> & G2).
  exists (d1 ++ d2). rewrite S2, S1, <- app_assoc.
  split; [reflexivity|]. split; [rewrite is_cstr_app, C1, C2; reflexivity|].
  split; [reflexivity|]. rewrite G1. cbn [bind]. rewrite G2, <- app_assoc. reflexivity.
Qed.

Lemma sim_put_char (P : nat -> Prop) (c : ascii) :
  Ascii.eqb c NUL = false ->
  sim P (put_char c) (fun st => Ret (print [c] st)).
Proof.
  intros Hc sb sb' i i' out _ E. unfold put_char in E.
  apply bind_ret_inv in E. destruct E as (sb1 & E1 & E2). injection E2 as <- <-.
  exists [c]. split; [apply (append_char_inv _ _ E1)|].
  split; [unfold is_cstr; cbn [forallb]; rewrite Hc; reflexivity|]. split; reflexivity.
Qed.

Lemma sim_put_cstr (P : nat -> Prop) (s : list ascii) :
  sim P (put_cstr (Some s)) (fun st => Ret (print (c_str s) st)).
Proof.
  intros sb sb' i i' out _ E. unfold put_cstr, cjson_str_builder_append_cstr in E.
  apply bind_ret_inv in E. destruct E as (sb1 & E1 & E2). injection E2 as <- <-.
  exists (c_str s). split; [apply (append_chars_inv _ _ E1)|].
  split; [apply c_str_is_cstr|]. split; reflexivity.
Qed.

Lemma is_cstr_repeat_space (n : nat) : is_cstr (repeat " "%char n) = true.
Proof. induction n; simpl; auto. Qed.

Lemma sim_newline (P : nat -> Prop) (pretty : bool) :
  (forall i, P i -> (Z.of_nat i <= INT_MAX)%Z) ->
  sim P (pretty_newline pretty) (dump_newline pretty).
Proof.
  intros HP sb sb' i i' out Hi E.
  assert (Hw : wrap_int (Z.of_nat i) = Z.of_nat i).
  { specialize (HP i Hi). unfold wrap_int, INT_MAX in *.
    rewrite Z.mod_small by lia. lia. }
  unfold dump_newline, cjson_pretty_newline. cbn [fst snd]. rewrite Hw.
  replace (0 <=? Z.of_nat i)%Z with true by (symmetry; apply Z.leb_le; lia).
  cbn [assert bind]. rewrite Nat2Z.id.
  unfold pretty_newline in E. destruct pretty.
  - apply bind_ret_inv in E. destruct E as (sb1 & E1 & E).
    apply bind_ret_inv in E. destruct E as (sb2 & E2 & E). injection E as <- <-.
    exists (ascii_of_nat 10 :: repeat " "%char i).
    rewrite (append_chars_inv _ _ E2), (append_char_inv _ _ E1), <- app_assoc.
    split; [reflexivity|].
    split; [change (is_cstr (repeat " "%char i) = true); apply is_cstr_repeat_space|].
    split; reflexivity.
  - injection E as <- <-. exists []. rewrite !app_nil_r. auto.
Qed.

Lemma put_char_inv (c : ascii) (sb sb' : cjson_str_builder) (i i' : nat) :
  put_char c (sb, i) = Ret (sb', i') -> str sb' = str sb ++ [c] /\ i' = i.
Proof.
  unfold put_char. intros E. apply bind_ret_inv in E. destruct E as (x & Ex & Ey).
  injection Ey as <- <-. split; [apply (append_char_inv _ _ Ex) | reflexivity].
Qed.

Lemma sim_block (P Q : nat -> Prop) (pretty : bool) (c1 c2 : ascii) f g :
  Ascii.eqb c1 NUL = false -> Ascii.eqb c2 NUL = false ->
  (forall i, P i -> (Z.of_nat i <= INT_MAX)%Z) ->
  (forall i, Q i -> (Z.of_nat i <= INT_MAX)%Z) ->
  (forall i, P i -> Q (i + 2)) ->
  sim Q f g ->
  sim P
    (fun st =>
       '(sb, indent) <- put_char c1 st ;;
       st <- pretty_newline pretty (sb, indent + 2) ;;
       st <- f st ;;
       let '(sb, indent) := st in
       st <- pretty_newline pretty (sb, indent - 2) ;;
       put_char c2 st)
    (fun st =>
       let st := print [c1] st in
       st <- dump_newline pretty (fst st, snd st + 2) ;;
       st <- g st ;;
       st <- dump_newline pretty (fst st, snd st - 2) ;;
       Ret (print [c2] st)).
Proof.
  intros Hc1 Hc2 HP HQ HPQ Hfg sb sb' i i' out Hi E.
  apply bind_ret_inv in E. destruct E as ([sb1 i1] & E1 & E).
  destruct (put_char_inv _ _ _ E1) as [S1 ->].
  apply bind_ret_inv in E. destruct E as ([sb2 i2] & E2 & E).
  destruct (@sim_newline Q pretty HQ sb1 sb2 (i + 2) i2 (out ++ [c1]) (HPQ i Hi) E2)
    as (d2 & S2 & C2 & -> & G2).
  apply bind_ret_inv in E. destruct E as ([sb3 i3] & E3 & E).
  destruct (Hfg sb2 sb3 (i + 2) i3 ((out ++ [c1]) ++ d2) (HPQ i Hi) E3)
    as (d3 & S3 & C3 & -> & G3).
  apply bind_ret_inv in E. destruct E as ([sb4 i4] & E4 & E).
  replace (i + 2 - 2) with i in E4 by lia.
  destruct (@sim_newline P pretty HP sb3 sb4 i i4 (((out ++ [c1]) ++ d2) ++ d3) Hi E4)
    as (d4 & S4 & C4 & -> & G4).
  destruct (put_char_inv _ _ _ E) as [S5 ->].
  exists ([c1] ++ d2 ++ d3 ++ d4 ++ [c2]).
  split; [rewrite S5, S4, S3, S2, S1, <- !app_assoc; reflexivity|].
  split.
  { rewrite !is_cstr_app, C2, C3, C4. unfold is_cstr. cbn [forallb].
    rewrite Hc1, Hc2. reflexivity. }
  split; [reflexivity|].
  cbn [print fst snd]. rewrite G2. cbn [bind]. rewrite G3. cbn [bind fst snd].
  replace (i + 2 - 2) with i by lia. rewrite G4. cbn [bind]. unfold print.
  cbn [fst snd]. rewrite <- !app_assoc. reflexivity.
Qed.

Lemma sim_elements (P : nat -> Prop) (pretty : bool) rec rec'
  (l : list (option cjson_element)) :
  (forall i, P i -> (Z.of_nat i <= INT_MAX)%Z) ->
  (forall slot, In slot l -> sim P (rec slot) (rec' slot)) ->
  sim P (to_str_elements pretty rec l) (dump_elements pretty rec' l).
Proof.
  intros HP. induction l as [|e l IH]; intros Hrec.
  - apply sim_ret.
  - eapply sim_ext;
      [apply (sim_bind (@sim_put_char P ","%char eq_refl)
                (sim_bind (@sim_newline P pretty HP)
                   (sim_bind (Hrec e (or_introl eq_refl))
                      (IH (fun slot Hs => Hrec slot (or_intror Hs))))))
      | intros st; reflexivity
      | intros st; reflexivity].
Qed.

Lemma sim_entry (P : nat -> Prop) rec rec' (c : cjson_map_item) :
  sim P (rec (element c)) (rec' (element c)) ->
  sim P (to_str_entry rec c) (dump_entry rec' c).
Proof.
  intros Hrec.
  eapply sim_ext;
    [apply (sim_bind (@sim_put_char P quote eq_refl)
              (sim_bind (@sim_put_cstr P (name c))
                 (sim_bind (@sim_put_cstr P [quote; ":"%char]) Hrec)))
    | intros st; reflexivity
    | intros [out i]; unfold dump_entry, print; cbn [bind fst snd]].
  change (c_str [quote; ":"%char]) with [quote; ":"%char].
  rewrite <- !app_assoc. reflexivity.
Qed.

Lemma sim_fold_entries (P : nat -> Prop) (pretty : bool) rec rec'
  (l : list cjson_map_item) :
  (forall i, P i -> (Z.of_nat i <= INT_MAX)%Z) ->
  (forall c, In c l -> sim P (rec (element c)) (rec' (element c))) ->
  sim P
    (fold_entries (fun c st => st <- put_char ","%char st ;;
                               st <- pretty_newline pretty st ;;
                               to_str_entry rec c st) l)
    (fold_entries (fun c st => st <- dump_newline pretty (print [","%char] st) ;;
                               dump_entry rec' c st) l).
Proof.
  intros HP. induction l as [|c l IH]; intros Hrec.
  - apply sim_ret.
  - eapply sim_ext;
      [apply (sim_bind
                (sim_bind (@sim_put_char P ","%char eq_refl)
                   (sim_bind (@sim_newline P pretty HP)
                      (@sim_entry P rec rec' c (Hrec c (or_introl eq_refl)))))
                (IH (fun x Hx => Hrec x (or_intror Hx))))
      | intros st; reflexivity
      | intros st; reflexivity].
Qed.

Lemma sim_entries (P : nat -> Prop) (pretty : bool) rec rec'
  (l : list cjson_map_item) :
  (forall i, P i -> (Z.of_nat i <= INT_MAX)%Z) ->
  (forall c, In c l -> sim P (rec (element c)) (rec' (element c))) ->
  sim P (to_str_entries pretty rec l) (dump_entries pretty rec' l).
Proof.
  intros HP Hrec. destruct l as [|c l]; [apply sim_ret|].
  eapply sim_ext;
    [apply (sim_bind (@sim_entry P rec rec' c (Hrec c (or_introl eq_refl)))
              (@sim_fold_entries P pretty rec rec' l HP
                 (fun x Hx => Hrec x (or_intror Hx))))
    | intros st; reflexivity
    | intros st; reflexivity].
Qed.

Lemma no_float_array t (a : cjson_array) :
  t <> CJSON_FLOAT ->
  no_float (Element t (val_array a)) = forallb no_float_slot (elements a).
Proof. intros Ht. destruct t; try reflexivity. contradiction. Qed.

Lemma no_float_object t (o : cjson_map) :
  t <> CJSON_FLOAT ->
  no_float (Element t (val_object o))
  = forallb (fun it => no_float_slot (element it)) (entries o).
Proof.
  intros Ht. unfold entries. rewrite <- forallb_concat.
  destruct t; try reflexivity. contradiction.
Qed.

Lemma is_cstr_fmt_d (v : Z) : c_str (fmt_d v) = fmt_d v.
Proof.
  apply is_cstr_c_str. unfold fmt_d. destruct (v <? 0)%Z eqn:E.
  - apply Z.ltb_lt in E. change (is_cstr ("-"%char :: digits (- v)))
      with (is_cstr (digits (- v))). apply is_cstr_digits. lia.
  - apply Z.ltb_ge in E. apply is_cstr_digits. lia.
Qed.

Lemma to_str_rec_null (fuel : nat) (pretty : bool) (st st' : to_str_state) :
  cjson_to_str_rec fuel pretty None st <> Ret st'.
Proof. destruct fuel; discriminate. Qed.

Lemma dump_sim (pretty : bool) (fuel : nat) :
  forall e, no_float e = true ->
  sim (fun i => (Z.of_nat (i + 2 * elt_size e) <= INT_MAX)%Z)
    (cjson_to_str_rec fuel pretty (Some e)) (dump_rec fuel pretty (Some e)).
Proof.
  induction fuel as [|fuel IH]; intros e Hnf.
  - apply sim_fails. intros st st'. discriminate.
  - assert (Hslot : forall (Q : nat -> Prop) (slot : option cjson_element),
              no_float_slot slot = true ->
              (forall x, slot = Some x ->
                 forall j, Q j -> (Z.of_nat (j + 2 * elt_size x) <= INT_MAX)%Z) ->
              sim Q (cjson_to_str_rec fuel pretty slot) (dump_rec fuel pretty slot)).
    { intros Q [x|] Hx HQ.
      - eapply sim_weaken; [apply (HQ x eq_refl) | apply IH; exact Hx].
      - apply sim_fails. intros st st'. apply to_str_rec_null. }
    pose proof (elt_size_pos e) as Hpos.
    set (P := fun i => (Z.of_nat (i + 2 * elt_size e) <= INT_MAX)%Z).
    set (Q := fun j => (Z.of_nat (j + 2 * (elt_size e - 1)) <= INT_MAX)%Z).
    assert (HP : forall i, P i -> (Z.of_nat i <= INT_MAX)%Z) by (unfold P; intros; lia).
    assert (HQ : forall i, Q i -> (Z.of_nat i <= INT_MAX)%Z) by (unfold Q; intros; lia).
    assert (HPQ : forall i, P i -> Q (i + 2)) by (unfold P, Q; intros; lia).
    destruct e as [t v]. cbn [cjson_to_str_rec dump_rec].
    unfold to_str_body, dump_body. cbn [element_type value].
    destruct t.
    + eapply sim_ext; [apply (@sim_put_cstr P (list_ascii_of_string "null"))
                      | intros st; reflexivity | intros st; reflexivity].
    + destruct (read_boolean v) as [[|]| | |]; cbn [bind];
        try (apply sim_fails; intros st st'; discriminate).
      * eapply sim_ext; [apply (@sim_put_cstr P (list_ascii_of_string "true"))
                        | intros st; reflexivity | intros st; reflexivity].
      * eapply sim_ext; [apply (@sim_put_cstr P (list_ascii_of_string "false"))
                        | intros st; reflexivity | intros st; reflexivity].
    + destruct (read_integer v) as [i| | |]; cbn [bind];
        try (apply sim_fails; intros st st'; discriminate).
      unfold sprintf_buffer. destruct (length (fmt_d i) <? 11); cbn [bind];
        [|apply sim_fails; intros st st'; discriminate].
      eapply sim_ext; [apply (@sim_put_cstr P (fmt_d i))
                      | intros st; reflexivity
                      | intros st; rewrite is_cstr_fmt_d; reflexivity].
    + discriminate Hnf.
    + destruct (read_string v) as [[s|]| | |]; cbn [bind];
        try (apply sim_fails; intros st st'; discriminate).
      * eapply sim_ext;
          [apply (sim_bind (@sim_put_char P quote eq_refl)
                    (sim_bind (@sim_put_cstr P s) (@sim_put_char P quote eq_refl)))
          | intros st; reflexivity
          | intros [out i]; unfold print; cbn [bind fst snd];
            rewrite <- !app_assoc; reflexivity].
      * apply sim_fails. intros st st'.
        destruct (put_char quote st) as [[sb i]| | |]; discriminate.
    + destruct (read_array v) as [a| | |] eqn:Hread; cbn [bind];
        try (apply sim_fails; intros st st'; discriminate).
      assert (Hch : forall slot, In slot (elements a) ->
                sim Q (cjson_to_str_rec fuel pretty slot) (dump_rec fuel pretty slot)).
      { destruct v as [| | | | |a0|]; try discriminate Hread;
          injection Hread as Ha; subst a; [intros slot []|].
        rewrite no_float_array in Hnf by discriminate.
        rewrite forallb_forall in Hnf.
        intros slot Hs. apply Hslot; [apply Hnf; exact Hs|].
        intros x -> j Hj.
        pose proof (slot_size CJSON_ARRAY a0 x Hs). unfold Q in Hj. lia. }
      apply (@sim_block P Q pretty "["%char "]"%char
               (fun st => match elements a with
                          | [] => Ret st
                          | first :: rest =>
                              st <- cjson_to_str_rec fuel pretty first st ;;
                              to_str_elements pretty (cjson_to_str_rec fuel pretty) rest st
                          end)
               (fun st => match elements a with
                          | [] => Ret st
                          | first :: rest =>
                              st <- dump_rec fuel pretty first st ;;
                              dump_elements pretty (dump_rec fuel pretty) rest st
                          end)
               eq_refl eq_refl HP HQ HPQ).
      destruct (elements a) as [|first rest]; [apply sim_ret|].
      apply (sim_bind (Hch first (or_introl eq_refl))).
      apply sim_elements; [exact HQ|].
      intros slot Hs. apply Hch. right. exact Hs.
    + destruct (read_object v) as [o| | |] eqn:Hread; cbn [bind];
        try (apply sim_fails; intros st st'; discriminate).
      assert (Hch : forall c, In c (entries o) ->
                sim Q (cjson_to_str_rec fuel pretty (element c))
                  (dump_rec fuel pretty (element c))).
      { destruct v as [| | | | | |o0]; try discriminate Hread;
          injection Hread as Ho; subst o; [intros c []|].
        rewrite no_float_object in Hnf by discriminate.
        rewrite forallb_forall in Hnf.
        intros c Hc. apply Hslot; [apply Hnf; exact Hc|].
        intros x Hx j Hj.
        pose proof (member_size CJSON_OBJECT o0 c Hc Hx). unfold Q in Hj. lia. }
      eapply sim_ext;
        [apply (@sim_block P Q pretty "{"%char "}"%char
                  (to_str_entries pretty (cjson_to_str_rec fuel pretty) (entries o))
                  (dump_entries pretty (dump_rec fuel pretty) (entries o))
                  eq_refl eq_refl HP HQ HPQ);
         apply sim_entries; [exact HQ | exact Hch]
        | |].
      * intros st. cbv beta. destruct (put_char "{"%char st) as [[sb i]| | |];
          cbn [bind]; try reflexivity.
        destruct (pretty_newline pretty (sb, i + 2)) as [st2| | |];
          cbn [bind]; try reflexivity.
        rewrite <- to_str_object_entries.
        destruct (if it_end (cjson_iterate_object o) then Ret st2
                  else to_str_member (cjson_to_str_rec fuel pretty)
                         (cjson_iterate_object o) st2) as [st3| | |];
          cbn [bind]; try reflexivity.
        destruct (cjson_iterate_next (cjson_iterate_object o)) as [it| | |];
          cbn [bind]; reflexivity.
      * intros st. cbv beta zeta.
        destruct (dump_newline pretty (fst (print ["{"%char] st),
                                       snd (print ["{"%char] st) + 2))
          as [st2| | |]; cbn [bind]; try reflexivity.
        rewrite <- dump_object_entries.
        destruct (if it_end (cjson_iterate_object o) then Ret st2
                  else dump_member (dump_rec fuel pretty)
                         (cjson_iterate_object o) st2) as [st3| | |];
          cbn [bind]; try reflexivity.
        destruct (cjson_iterate_next (cjson_iterate_object o)) as [it| | |];
          cbn [bind]; reflexivity.
Qed.

Lemma dump_to_str_spec (T : cjson_element) (pretty : bool) (s out : list ascii) :
  no_float T = true ->
  (Z.of_nat (2 * elt_size T) <= INT_MAX)%Z ->
  cjson_to_str (Some T) pretty = Ret s ->
  cjson_dump (Some T) pretty out = Ret (out ++ s).
Proof.
  intros Hnf Hsize E. unfold cjson_to_str in E.
  apply bind_ret_inv in E. destruct E as ([sb1 i1] & E1 & E).
  apply bind_ret_inv in E. destruct E as (sb2 & E2 & E). injection E as <-.
  destruct (@dump_sim pretty (S (elt_size T)) T Hnf (mk_sb [] 0) sb1 0 i1 out)
    as (d & S1 & C1 & -> & G); [simpl; lia | exact E1|].
  cbn [str app] in S1.
  rewrite (append_char_inv _ _ E2), S1, (c_str_app_nul d [] C1).
  unfold cjson_dump. rewrite G. reflexivity.
Qed.


(** ** The parser at the edges of its input *)

Lemma space_run_all (s : list ascii) :
  forallb isspace s = true -> space_run s = length s.
Proof.
  induction s as [|c s IH]; [reflexivity|]. cbn [forallb space_run length].
  intros H. apply andb_prop in H. destruct H as [Hc Hs]. rewrite Hc, (IH Hs).
  reflexivity.
Qed.

Lemma skip_space_app (ws s : list ascii) :
  forallb isspace ws = true -> skip_space (ws ++ s) = skip_space s.
Proof.
  induction ws as [|c ws IH]; [reflexivity|]. cbn [forallb app skip_space].
  intros H. apply andb_prop in H. destruct H as [Hc Hs]. rewrite Hc. apply IH, Hs.
Qed.

Lemma lex_eof (lexer : cjson_lexer) :
  head_char (input lexer) = NUL ->
  cjson_read_next_token lexer
  = Ret (after_token lexer CJSON_TOK_EOF 0 (integer_value (token lexer))).
Proof.
  intros Hin. unfold cjson_read_next_token, after_token. rewrite Hin. reflexivity.
Qed.

Lemma stuck_char_tests (c : ascii) :
  stuck_char c = true ->
  isspace c = false /\ Ascii.eqb c "-" = false /\ isdigit c = false
  /\ Ascii.eqb c "f" = false /\ Ascii.eqb c "n" = false /\ Ascii.eqb c "t" = false
  /\ Ascii.eqb c "," = false /\ Ascii.eqb c "[" = false /\ Ascii.eqb c "]" = false
  /\ Ascii.eqb c "{" = false /\ Ascii.eqb c quote = false.
Proof.
  destruct c as [[] [] [] [] [] [] [] []]; vm_compute; intros H;
    repeat split; congruence.
Qed.

Lemma lex_stuck (lexer : cjson_lexer) :
  stuck_start (input lexer) = true ->
  exists lexer1,
    cjson_read_next_token lexer = Ret lexer1
    /\ stuck_token (type (token lexer1)) = true
    /\ lexer_content lexer1 = lexer_content lexer.
Proof.
  unfold stuck_start. intros H.
  destruct (stuck_char_tests _ H)
    as (_ & H1 & H2 & H3 & H4 & H5 & H6 & H7 & H8 & H9 & H10).
  unfold cjson_read_next_token.
  rewrite H1, H2, H3, H4, H5, H6, H7, H8, H9, H10.
  destruct (Ascii.eqb (head_char (input lexer)) ":");
    [eexists; split; [reflexivity | split; reflexivity]|].
  destruct (Ascii.eqb (head_char (input lexer)) "}");
    [eexists; split; [reflexivity | split; reflexivity]|].
  destruct (Ascii.eqb (head_char (input lexer)) NUL);
    eexists; split; try reflexivity; split; reflexivity.
Qed.

Lemma stuck_not_none (t : token_type) :
  stuck_token t = true ->
  tok_eqb t CJSON_TOK_NONE = false /\ tok_eqb t CJSON_TOK_COMMA = false
  /\ tok_eqb t CJSON_TOK_RBRACK = false.
Proof. destruct t; intros H; try discriminate H; repeat split; reflexivity. Qed.

(** On a token that starts no value [cjson_parse_element] returns NULL and
    keeps the token. *)
Lemma parse_element_stuck (fuel : nat) (lexer : cjson_lexer) (error : bool) :
  stuck_token (type (token lexer)) = true ->
  exists lexer',
    cjson_parse_element (S fuel) lexer error = Ret (None, lexer', error)
    /\ token lexer' = token lexer.
Proof.
  intros Ht. destruct (stuck_not_none _ Ht) as (Hnone & _ & _).
  exists (cjson_parse_ws (cjson_parse_ws lexer)). split; [|reflexivity].
  cbn [cjson_parse_element]. unfold parse_element_body, cjson_parse_value.
  rewrite peek_held by exact Hnone. cbn [bind].
  change (token (cjson_parse_ws lexer)) with (token lexer).
  destruct (type (token lexer)); try discriminate Ht; reflexivity.
Qed.

Lemma delete_null_slot (a : cjson_array) :
  In None (elements a) ->
  cjson_delete (Some (Element CJSON_ARRAY (val_array a))) = Undefined.
Proof.
  intros Hin. unfold cjson_delete. rewrite delete_rec_spec by lia.
  cbn [releasable].
  replace (forallb _ (elements a)) with false; [reflexivity|].
  symmetry. apply not_true_is_false. intros H. rewrite forallb_forall in H.
  specialize (H None Hin). discriminate H.
Qed.

(** After an opening bracket, a token that starts no value and is no
    closing bracket and no comma leaves a NULL pointer in the array, which
    [cjson_delete] follows when the parser gives the array up. *)
Lemma parse_array_stuck (fuel : nat) (lexer lexer1 : cjson_lexer) :
  tok_eqb (type (token lexer)) CJSON_TOK_NONE = false ->
  cjson_read_next_token (cjson_parse_ws (consumed lexer)) = Ret lexer1 ->
  stuck_token (type (token lexer1)) = true ->
  cjson_parse_array (cjson_parse_element (S fuel)) lexer false = Undefined.
Proof.
  intros Hheld Hread Hstuck.
  destruct (stuck_not_none _ Hstuck) as (Hnone & Hcomma & Hrb).
  unfold cjson_parse_array. rewrite pop_held by exact Hheld. cbn [bind].
  rewrite (@peek_fresh (cjson_parse_ws (consumed lexer)) lexer1 eq_refl Hread).
  cbn [bind]. rewrite Hrb. cbn [negb].
  destruct (@parse_element_stuck fuel lexer1 false Hstuck) as (lexer2 & Hrun & Htok).
  rewrite Hrun. cbn [bind cjson_array_append capacity size elements length app
                      Nat.ltb Nat.leb Nat.eqb].
  assert (Hnone2 : tok_eqb (type (token lexer2)) CJSON_TOK_NONE = false)
    by (rewrite Htok; exact Hnone).
  cbn [elements_loop]. rewrite peek_held by exact Hnone2. cbn [bind].
  rewrite Htok, Hcomma. cbn [negb bind].
  rewrite peek_held by exact Hnone2. cbn [bind]. rewrite Htok, Hrb. cbn [negb].
  rewrite delete_null_slot by (left; reflexivity). reflexivity.
Qed.

Lemma stuck_skip_space (s : list ascii) :
  stuck_start s = true -> skip_space s = s.
Proof.
  intros H. destruct s as [|c s]; [reflexivity|].
  destruct (stuck_char_tests _ H) as (Hsp & _). cbn [head_char] in Hsp.
  cbn [skip_space]. rewrite Hsp. reflexivity.
Qed.

Lemma parse_element_S (fuel : nat) (lexer : cjson_lexer) (error : bool) :
  cjson_parse_element (S fuel) lexer error
  = parse_element_body (cjson_parse_element fuel) lexer error.
Proof. reflexivity. Qed.

Lemma parse_str_array_stuck (ws s : list ascii) :
  forallb isspace ws = true -> stuck_start s = true ->
  cjson_parse_str ("["%char :: ws ++ s) = Undefined.
Proof.
  intros Hws Hs. unfold cjson_parse_str.
  set (str := "["%char :: ws ++ s).
  set (lexer0 := mk_lexer str 0 initial_token).
  change (length str) with (S (length (ws ++ s))).
  rewrite parse_element_S. unfold parse_element_body.
  rewrite parse_ws_id by reflexivity.
  unfold cjson_parse_value.
  assert (Hin0 : input lexer0 = "["%char :: ws ++ s) by reflexivity.
  rewrite (peek_fresh lexer0 eq_refl
             (@lex_punct lexer0 _ _ CJSON_TOK_LBRACK Hin0 ltac:(tauto))).
  cbn [bind after_token token type].
  fold (after_token lexer0 CJSON_TOK_LBRACK 1 (integer_value (token lexer0))).
  set (lexerA := after_token lexer0 CJSON_TOK_LBRACK 1 (integer_value (token lexer0))).
  assert (HC : fresh (cjson_parse_ws (consumed lexerA)) s).
  { rewrite <- (stuck_skip_space s Hs), <- (skip_space_app ws s Hws).
    apply parse_ws_fresh. apply (@fresh_after_pop lexer0 CJSON_TOK_LBRACK ["["%char]).
    exact Hin0. }
  destruct (@lex_stuck (cjson_parse_ws (consumed lexerA))) as (lexer1 & Hread & Hst & _).
  { rewrite (proj2 HC). exact Hs. }
  rewrite (@parse_array_stuck (length (ws ++ s)) lexerA lexer1 eq_refl Hread Hst).
  reflexivity.
Qed.

Lemma skip_space_all (s : list ascii) :
  forallb isspace s = true -> skip_space s = [].
Proof.
  intros H. rewrite <- (app_nil_r s), (skip_space_app s [] H). reflexivity.
Qed.

Lemma parse_str_blank (s : list ascii) :
  forallb isspace s = true -> cjson_parse_str s = Ret None.
Proof.
  intros Hs. unfold cjson_parse_str. rewrite parse_element_S.
  unfold parse_element_body, cjson_parse_value.
  set (lexer0 := mk_lexer s 0 initial_token).
  assert (HW : fresh (cjson_parse_ws lexer0) []).
  { rewrite <- (skip_space_all s Hs). apply parse_ws_fresh. split; reflexivity. }
  rewrite (peek_fresh (cjson_parse_ws lexer0) (proj1 HW)
             (@lex_eof (cjson_parse_ws lexer0) ltac:(rewrite (proj2 HW); reflexivity))).
  reflexivity.
Qed.

(** ** String literals *)

Lemma escape_value_is_escape (c : ascii) :
  escape_value c <> None -> is_escape c = true.
Proof.
  unfold escape_value, is_escape.
  destruct (Ascii.eqb c quote); [reflexivity|].
  destruct (Ascii.eqb c backslash); [reflexivity|].
  destruct (Ascii.eqb c "/"); [reflexivity|].
  destruct (Ascii.eqb c "b"); [reflexivity|].
  destruct (Ascii.eqb c "f"); [reflexivity|].
  destruct (Ascii.eqb c "n"); [reflexivity|].
  destruct (Ascii.eqb c "t"); [intros _; cbn; apply orb_true_r|].
  intros H. contradiction.
Qed.

Lemma scan_string_pieces (ps : list piece) (r : list ascii) (n : nat) :
  forallb piece_ok ps = true ->
  scan_string (literal_body ps ++ r) n = scan_string r (n + length (literal_body ps)).
Proof.
  revert n; induction ps as [|p ps IH]; intros n H.
  - cbn. rewrite Nat.add_0_r. reflexivity.
  - cbn [forallb] in H. apply andb_prop in H. destruct H as [Hp Hps].
    unfold literal_body in *. cbn [map concat]. rewrite <- app_assoc, length_app.
    destruct p as [c|c]; cbn [piece_text app length piece_ok] in *.
    + destruct (plain_char_other _ Hp) as (Hq & Hb & _).
      cbn [scan_string]. rewrite Hq, Hb, (IH _ Hps). f_equal. lia.
    + cbn [scan_string].
      change (Ascii.eqb backslash quote) with false.
      change (Ascii.eqb backslash backslash) with true. cbv iota.
      rewrite escape_value_is_escape
        by (destruct (escape_value c); [discriminate | discriminate Hp]).
      rewrite (IH _ Hps). f_equal. lia.
Qed.

Lemma extract_loop_pieces (ps : list piece) (r res : list ascii) (m : nat) :
  forallb piece_ok ps = true ->
  extract_loop (literal_body ps ++ r) (length (literal_body ps) + m) res
  = extract_loop r m (res ++ map piece_value ps).
Proof.
  revert res; induction ps as [|p ps IH]; intros res H.
  - cbn. rewrite app_nil_r. reflexivity.
  - cbn [forallb] in H. apply andb_prop in H. destruct H as [Hp Hps].
    unfold literal_body in *. cbn [map concat]. rewrite <- app_assoc, length_app.
    destruct p as [c|c]; cbn [piece_text app length piece_ok piece_value] in *.
    + destruct (plain_char_other _ Hp) as (_ & Hb & _).
      cbn [extract_loop Nat.add]. rewrite Hb, (IH _ Hps), <- app_assoc. reflexivity.
    + cbn [extract_loop Nat.add head_char skipn].
      change (Ascii.eqb backslash backslash) with true. cbv iota.
      replace (S (length (concat (map piece_text ps)) + m) - 1)
        with (length (concat (map piece_text ps)) + m) by lia.
      unfold escape_value in *.
      destruct (Ascii.eqb c quote);
        [rewrite (IH _ Hps), <- app_assoc; reflexivity|].
      destruct (Ascii.eqb c backslash);
        [rewrite (IH _ Hps), <- app_assoc; reflexivity|].
      destruct (Ascii.eqb c "/");
        [rewrite (IH _ Hps), <- app_assoc; reflexivity|].
      destruct (Ascii.eqb c "b");
        [rewrite (IH _ Hps), <- app_assoc; reflexivity|].
      destruct (Ascii.eqb c "f");
        [rewrite (IH _ Hps), <- app_assoc; reflexivity|].
      destruct (Ascii.eqb c "n");
        [rewrite (IH _ Hps), <- app_assoc; reflexivity|].
      destruct (Ascii.eqb c "t");
        [rewrite (IH _ Hps), <- app_assoc; reflexivity|].
      discriminate Hp.
Qed.

Lemma piece_values_cstr (ps : list piece) :
  forallb piece_ok ps = true -> c_str (map piece_value ps) = map piece_value ps.
Proof.
  intros H. apply is_cstr_c_str. unfold is_cstr.
  apply forallb_forall. intros x Hx. apply in_map_iff in Hx.
  destruct Hx as (p & <- & Hp). rewrite forallb_forall in H. specialize (H p Hp).
  destruct p as [c|c]; cbn [piece_ok piece_value] in *.
  - destruct (plain_char_other _ H) as (_ & _ & Hn). rewrite Hn. reflexivity.
  - unfold escape_value in *.
    repeat match goal with
           | |- context [if ?b then _ else _] => destruct b; [reflexivity|]
           end.
    discriminate H.
Qed.

Lemma lex_string_scanned (lexer : cjson_lexer) (s : list ascii) (n : nat) :
  input lexer = quote :: s ->
  scan_string s 1 = Ret (CJSON_TOK_STRING, n) ->
  cjson_read_next_token lexer
  = Ret (after_token lexer CJSON_TOK_STRING n (integer_value (token lexer))).
Proof.
  intros Hin Hscan. unfold cjson_read_next_token, after_token. rewrite Hin.
  cbn -[Nat.add scan_string]. rewrite Hscan. reflexivity.
Qed.

Lemma parse_str_string (body rest : list ascii) (r : option (list ascii)) :
  scan_string (body ++ quote :: rest) 1 = Ret (CJSON_TOK_STRING, S (S (length body))) ->
  extract_loop (body ++ quote :: rest) (length body) [] = Ret r ->
  cjson_parse_str (quote :: body ++ quote :: rest)
  = Ret (Some (Element CJSON_STRING (val_string (option_map c_str r)))).
Proof.
  intros Hscan Hext. unfold cjson_parse_str. rewrite parse_element_S.
  set (lexer0 := mk_lexer (quote :: body ++ quote :: rest) 0 initial_token).
  unfold parse_element_body. rewrite parse_ws_id by reflexivity.
  unfold cjson_parse_value.
  rewrite (peek_fresh lexer0 eq_refl
             (@lex_string_scanned lexer0 _ _ eq_refl Hscan)).
  cbn [bind after_token token type].
  unfold cjson_extract_string. cbn [type content content_len].
  cbn [tok_code type_code Z.eqb Pos.eqb assert bind].
  change (input lexer0) with (quote :: body ++ quote :: rest). cbn [skipn].
  replace (S (S (length body)) - 2) with (length body) by lia.
  rewrite Hext. cbn [bind]. rewrite pop_held by reflexivity. reflexivity.
Qed.

Lemma parse_str_literal (ps : list piece) (rest : list ascii) :
  forallb piece_ok ps = true ->
  cjson_parse_str (quote :: literal_body ps ++ quote :: rest)
  = Ret (Some (Element CJSON_STRING (val_string (Some (map piece_value ps))))).
Proof.
  intros H.
  rewrite (@parse_str_string (literal_body ps) rest (Some (map piece_value ps))).
  - cbn [option_map]. rewrite (piece_values_cstr ps H). reflexivity.
  - rewrite (scan_string_pieces ps (quote :: rest) 1 H). cbn [scan_string].
    change (Ascii.eqb quote quote) with true. cbv iota.
    f_equal. f_equal. lia.
  - rewrite <- (Nat.add_0_r (length (literal_body ps))).
    rewrite (extract_loop_pieces ps (quote :: rest) [] 0 H). reflexivity.
Qed.

Lemma parse_str_escape_r (ps ps' : list piece) (rest : list ascii) :
  forallb piece_ok ps = true -> forallb piece_ok ps' = true ->
  cjson_parse_str (quote :: (literal_body ps ++ backslash :: "r"%char :: literal_body ps')
                     ++ quote :: rest)
  = Ret (Some (Element CJSON_STRING (val_string None))).
Proof.
  intros H H'.
  rewrite (@parse_str_string
             (literal_body ps ++ backslash :: "r"%char :: literal_body ps') rest None).
  - reflexivity.
  - rewrite <- app_assoc.
    rewrite (scan_string_pieces ps _ 1 H). cbn [app scan_string].
    change (Ascii.eqb backslash quote) with false.
    change (Ascii.eqb backslash backslash) with true.
    change (is_escape "r") with true. cbv iota.
    rewrite (scan_string_pieces ps' (quote :: rest) _ H'). cbn [scan_string].
    change (Ascii.eqb quote quote) with true. cbv iota.
    f_equal. f_equal. rewrite length_app. cbn [length]. lia.
  - rewrite <- app_assoc, length_app.
    rewrite (extract_loop_pieces ps _ [] _ H). reflexivity.
Qed.

Lemma parse_str_escape_u (ps : list piece) (rest : list ascii) :
  forallb piece_ok ps = true ->
  cjson_parse_str (quote :: literal_body ps ++ backslash :: "u"%char :: rest) = Aborted.
Proof.
  intros H. unfold cjson_parse_str. rewrite parse_element_S.
  unfold parse_element_body. rewrite parse_ws_id by reflexivity.
  unfold cjson_parse_value, cjson_lexer_peek, cjson_read_next_token.
  cbn -[Nat.add scan_string].
  rewrite (scan_string_pieces ps _ 1 H). reflexivity.
Qed.

(** ** Numbers *)

Lemma parse_str_integer (v : Z) (rest : list ascii) :
  (0 <= v <= INT_MAX)%Z -> number_ends rest = true ->
  cjson_parse_str (digits v ++ rest) = Ret (Some (cjson_create_integer v)).
Proof.
  intros Hv Hrest. unfold cjson_parse_str.
  set (str := digits v ++ rest).
  destruct (@parse_scalar (length str) (mk_lexer str 0 initial_token)
              CJSON_TOK_INTEGER (digits v) rest v (cjson_create_integer v))
    as (lexer' & Hrun & _).
  - split; reflexivity.
  - destruct (@digits_nonempty v ltac:(lia)) as (c & r & Hd).
    pose proof (@digits_all_digits v ltac:(lia)) as Hall.
    rewrite Hd in Hall |- *. cbn [forallb] in Hall. apply andb_prop in Hall.
    destruct (isdigit_other _ (proj1 Hall)) as (_ & Hsp & _).
    cbn [app space_run]. rewrite Hsp. reflexivity.
  - apply (@lex_integer (mk_lexer str 0 initial_token) v rest);
      [reflexivity | exact Hv | exact Hrest].
  - left. reflexivity.
  - rewrite Hrun. reflexivity.
Qed.

Lemma strtol_range (s : list ascii) : (LONG_MIN <= strtol s <= LONG_MAX)%Z.
Proof.
  unfold strtol.
  destruct (match skip_space s with
            | [] => (false, skip_space s)
            | c :: r => if Ascii.eqb c "-" then (true, r)
                        else if Ascii.eqb c "+" then (false, r)
                        else (false, skip_space s)
            end) as [neg s2].
  unfold LONG_MIN, LONG_MAX. lia.
Qed.

(** A digit starts a number token, whatever follows. *)
Lemma lex_digit (lexer : cjson_lexer) :
  isdigit (head_char (input lexer)) = true ->
  exists lexer1,
    cjson_read_next_token lexer = Ret lexer1
    /\ (type (token lexer1) = CJSON_TOK_INTEGER \/ type (token lexer1) = CJSON_TOK_FLOAT).
Proof.
  intros Hd. destruct (isdigit_other _ Hd) as (Hm & _ & _).
  unfold cjson_read_next_token. rewrite Hm, Hd. unfold scan_number.
  pose proof (strtol_range (input lexer)) as Hr. rewrite Z.mul_1_r.
  replace ((strtol (input lexer) <? LONG_MIN) || (LONG_MAX <? strtol (input lexer)))%Z
    with false
    by (symmetry; apply orb_false_iff; split; apply Z.ltb_ge; lia).
  destruct (skipn _ (input lexer)) as [|c [|d r]]; cbn [bind];
    try (eexists; split; [reflexivity | left; reflexivity]).
  destruct (Ascii.eqb c "." && isdigit d); cbn [bind];
    eexists; split; try reflexivity; [right | left]; reflexivity.
Qed.

Lemma lex_float (lexer : cjson_lexer) (v : Z) (ds r : list ascii) :
  input lexer = digits v ++ "."%char :: ds ++ r ->
  (0 <= v <= INT_MAX)%Z ->
  ds <> [] -> forallb isdigit ds = true -> digit_run r = 0 ->
  exists fv,
    cjson_read_next_token lexer
    = Ret (mk_lexer (lexer_content lexer)
             (location lexer + (length (digits v) + length ds))
             (mk_token CJSON_TOK_FLOAT (input lexer)
                (length (digits v) + length ds) v fv)).
Proof.
  intros Hin Hv Hne Hds Hrun.
  pose proof (@digits_all_digits v ltac:(lia)) as Hall.
  destruct (@digits_nonempty v ltac:(lia)) as (c & ds0 & Hd).
  assert (Hc : isdigit c = true /\ forallb isdigit ds0 = true)
    by (rewrite Hd in Hall; simpl in Hall; apply andb_prop in Hall; exact Hall).
  destruct Hc as [Hc Hds0].
  destruct (isdigit_other _ Hc) as (Hminus & Hsp & _).
  set (tl := "."%char :: ds ++ r) in *.
  assert (Hrun' : digit_run tl = 0) by reflexivity.
  assert (Hlen : (if Ascii.eqb (head_char (digits v ++ tl)) "0" then 1
                  else 1 + digit_run (skipn 1 (digits v ++ tl)))
                 = length (digits v)).
  { destruct (Ascii.eqb (head_char (digits v ++ tl)) "0") eqn:Hz.
    - assert (v = 0)%Z.
      { apply digits_head_zero; [lia|]. rewrite Hd in Hz |- *. exact Hz. }
      subst v. reflexivity.
    - rewrite Hd. cbn [app skipn length].
      rewrite digit_run_app by exact Hds0. rewrite Hrun'. lia. }
  assert (Hval : strtol (digits v ++ tl) = v).
  { unfold strtol.
    replace (skip_space (digits v ++ tl)) with (digits v ++ tl)
      by (rewrite Hd; cbn [app skip_space]; rewrite Hsp; reflexivity).
    rewrite Hd at 1. cbn [app]. rewrite Hminus.
    replace (Ascii.eqb c "+") with false
      by (revert Hc; clear; destruct c as [[] [] [] [] [] [] [] []];
          vm_compute; congruence).
    rewrite digits_value_app by exact Hall.
    rewrite digits_value_digits by lia.
    change (digits_value tl v) with v.
    unfold LONG_MIN, LONG_MAX, INT_MAX in *. lia. }
  unfold cjson_read_next_token. rewrite Hin.
  replace (head_char (digits v ++ tl)) with c by (rewrite Hd; reflexivity).
  rewrite Hminus, Hc.
  unfold scan_number.
  replace (head_char (digits v ++ tl)) with c by (rewrite Hd; reflexivity).
  replace (if Ascii.eqb c "0" then 1
           else (1 + digit_run (skipn 1 (digits v ++ tl))))
    with (length (digits v))
    by (rewrite <- Hlen; rewrite Hd; reflexivity).
  rewrite Hval, Z.mul_1_r.
  replace ((v <? LONG_MIN) || (LONG_MAX <? v))%Z with false
    by (symmetry; apply orb_false_iff; unfold LONG_MIN, LONG_MAX, INT_MAX in *;
        split; [apply Z.ltb_ge | apply Z.ltb_ge]; lia).
  replace (wrap_int v) with v
    by (unfold wrap_int, INT_MAX in *; rewrite Z.mod_small by lia; lia).
  rewrite skipn_app, skipn_all, Nat.sub_diag. cbn [app skipn].
  destruct ds as [|d ds']; [contradiction|].
  cbn [forallb] in Hds. apply andb_prop in Hds. destruct Hds as [Hd1 Hds'].
  unfold tl. cbn [app]. change (Ascii.eqb "." ".") with true. rewrite Hd1.
  cbn [andb bind].
  replace (skipn (length (digits v) + 1 + 1) (digits v ++ "."%char :: d :: ds' ++ r))
    with (ds' ++ r).
  2:{ replace (length (digits v) + 1 + 1) with (length (digits v) + 2) by lia.
      rewrite skipn_app, skipn_all2 by lia.
      replace (length (digits v) + 2 - length (digits v)) with 2 by lia.
      reflexivity. }
  rewrite digit_run_app by exact Hds'. rewrite Hrun.
  eexists. f_equal. f_equal; [|f_equal]; cbn [length]; lia.
Qed.

Lemma last_digit (ds : list ascii) :
  ds <> [] -> forallb isdigit ds = true ->
  exists ds0 dl, ds = ds0 ++ [dl] /\ isdigit dl = true.
Proof.
  intros Hne Hds. destruct (exists_last Hne) as (ds0 & dl & ->).
  exists ds0, dl. split; [reflexivity|].
  rewrite forallb_app in Hds. apply andb_prop in Hds. destruct Hds as [_ H].
  cbn in H. rewrite andb_true_r in H. exact H.
Qed.

(** A float between the brackets of an array: the token stops before its
    last digit, the digit is read as the next token, and the parser gives
    the array up. *)
Lemma parse_str_float_in_array (v : Z) (ds r : list ascii) :
  (0 <= v <= INT_MAX)%Z ->
  ds <> [] -> forallb isdigit ds = true -> digit_run r = 0 ->
  cjson_parse_str ("["%char :: digits v ++ "."%char :: ds ++ r) = Ret None.
Proof.
  intros Hv Hne Hds Hrun. unfold cjson_parse_str.
  set (body := digits v ++ "."%char :: ds ++ r).
  set (lexer0 := mk_lexer ("["%char :: body) 0 initial_token).
  change (length ("["%char :: body)) with (S (length body)).
  rewrite parse_element_S. unfold parse_element_body.
  rewrite parse_ws_id by reflexivity.
  unfold cjson_parse_value.
  assert (Hin0 : input lexer0 = "["%char :: body) by reflexivity.
  rewrite (peek_fresh lexer0 eq_refl
             (@lex_punct lexer0 _ _ CJSON_TOK_LBRACK Hin0 ltac:(tauto))).
  cbn [bind after_token token type].
  fold (after_token lexer0 CJSON_TOK_LBRACK 1 (integer_value (token lexer0))).
  set (lexerA := after_token lexer0 CJSON_TOK_LBRACK 1 (integer_value (token lexer0))).
  assert (HB : fresh (consumed lexerA) body)
    by (apply (@fresh_after_pop lexer0 CJSON_TOK_LBRACK ["["%char]); exact Hin0).
  (* the first byte of the body is a digit *)
  destruct (@digits_nonempty v ltac:(lia)) as (c & ds1 & Hd).
  pose proof (@digits_all_digits v ltac:(lia)) as Hall.
  assert (Hc : isdigit c = true)
    by (rewrite Hd in Hall; cbn [forallb] in Hall; apply andb_prop in Hall; apply Hall).
  destruct (isdigit_other _ Hc) as (_ & Hsp & _).
  assert (Hsp0 : space_run body = 0)
    by (unfold body; rewrite Hd; cbn [app space_run]; rewrite Hsp; reflexivity).
  destruct (@lex_float (consumed lexerA) v ds r (proj2 HB) Hv Hne Hds Hrun)
    as (fv & Hread).
  set (len := length (digits v) + length ds) in *.
  set (lexerF := mk_lexer (lexer_content (consumed lexerA))
                   (location (consumed lexerA) + len)
                   (mk_token CJSON_TOK_FLOAT (input (consumed lexerA)) len v fv)) in *.
  (* what is left of the input after the token *)
  destruct (last_digit Hne Hds) as (ds0 & dl & Hds0 & Hdl).
  assert (HinF : input lexerF = dl :: r).
  { unfold lexerF. rewrite input_advance, (proj2 HB). unfold body, len.
    rewrite Hds0, length_app. cbn [length].
    replace (digits v ++ "."%char :: (ds0 ++ [dl]) ++ r)
      with ((digits v ++ "."%char :: ds0) ++ dl :: r)
      by (repeat rewrite <- app_assoc; reflexivity).
    rewrite skipn_app, skipn_all2 by (rewrite length_app; cbn [length]; lia).
    rewrite length_app. cbn [length].
    replace (length (digits v) + (length ds0 + 1) - (length (digits v) + S (length ds0)))
      with 0 by lia.
    reflexivity. }
  destruct (isdigit_other _ Hdl) as (_ & Hspl & _).
  assert (HspF : space_run (input lexerF) = 0)
    by (rewrite HinF; cbn [space_run]; rewrite Hspl; reflexivity).
  assert (HG : fresh (consumed lexerF) (dl :: r)) by (split; [reflexivity | exact HinF]).
  destruct (@lex_digit (consumed lexerF)) as (lexerN & HreadN & HtN).
  { rewrite (proj2 HG). exact Hdl. }
  (* the run *)
  unfold cjson_parse_array. rewrite pop_held by reflexivity. cbn [bind].
  rewrite parse_ws_id by (rewrite (proj2 HB); exact Hsp0).
  rewrite (peek_fresh (consumed lexerA) (proj1 HB) Hread). cbn [bind].
  change (type (token lexerF)) with CJSON_TOK_FLOAT. cbn [tok_eqb tok_code Z.eqb negb].
  destruct (length body) as [|n] eqn:Hlen.
  { unfold body in Hlen. rewrite length_app in Hlen. cbn [length] in Hlen. lia. }
  rewrite parse_element_S. unfold parse_element_body.
  rewrite parse_ws_id by exact HspF.
  unfold cjson_parse_value. rewrite peek_held by reflexivity. cbn [bind].
  change (type (token lexerF)) with CJSON_TOK_FLOAT. cbv iota.
  rewrite pop_held by reflexivity. cbn [bind].
  rewrite parse_ws_id by (rewrite (proj2 HG); cbn [space_run]; rewrite Hspl; reflexivity).
  cbn [cjson_array_append capacity size elements length app Nat.ltb Nat.leb Nat.eqb bind].
  cbn [elements_loop].
  rewrite (peek_fresh (consumed lexerF) (proj1 HG) HreadN). cbn [bind].
  assert (Hnc : tok_eqb (type (token lexerN)) CJSON_TOK_COMMA = false)
    by (destruct HtN as [-> | ->]; reflexivity).
  assert (Hnb : tok_eqb (type (token lexerN)) CJSON_TOK_RBRACK = false)
    by (destruct HtN as [-> | ->]; reflexivity).
  assert (Hnn : tok_eqb (type (token lexerN)) CJSON_TOK_NONE = false)
    by (destruct HtN as [-> | ->]; reflexivity).
  rewrite Hnc. cbn [negb bind].
  rewrite peek_held by exact Hnn. cbn [bind]. rewrite Hnb. cbn [negb].
  unfold cjson_delete. rewrite delete_rec_spec by lia. reflexivity.
Qed.

Lemma lex_stuck_no_brace (lexer : cjson_lexer) :
  stuck_start (input lexer) = true ->
  Ascii.eqb (head_char (input lexer)) "}" = false ->
  exists lexer1,
    cjson_read_next_token lexer = Ret lexer1
    /\ stuck_token (type (token lexer1)) = true
    /\ tok_eqb (type (token lexer1)) CJSON_TOK_RBRACE = false.
Proof.
  unfold stuck_start. intros H Hb.
  destruct (stuck_char_tests _ H)
    as (_ & H1 & H2 & H3 & H4 & H5 & H6 & H7 & H8 & H9 & H10).
  unfold cjson_read_next_token.
  rewrite H1, H2, H3, H4, H5, H6, H7, H8, H9, H10, Hb.
  destruct (Ascii.eqb (head_char (input lexer)) ":");
    [eexists; split; [reflexivity | split; reflexivity]|].
  destruct (Ascii.eqb (head_char (input lexer)) NUL);
    eexists; split; try reflexivity; split; reflexivity.
Qed.

Lemma delete_null_member (o : cjson_map) (c : cjson_map_item) :
  In c (entries o) -> element c = None ->
  cjson_delete (Some (Element CJSON_OBJECT (val_object o))) = Undefined.
Proof.
  intros Hin Hc. unfold cjson_delete. rewrite delete_rec_spec by lia.
  cbn [releasable]. rewrite forallb_concat.
  replace (forallb _ (concat (items o))) with false; [reflexivity|].
  symmetry. apply not_true_is_false. intros H. rewrite forallb_forall in H.
  specialize (H c Hin). rewrite Hc in H. discriminate H.
Qed.

(** After an opening brace, a name and a colon, a token that starts no
    value and is no closing brace leaves a NULL pointer in the map, which
    [cjson_delete] follows when the parser gives the object up. *)
Lemma parse_str_object_stuck (nm s : list ascii) :
  plain_text nm = true ->
  stuck_start s = true -> Ascii.eqb (head_char s) "}" = false ->
  cjson_parse_str ("{"%char :: quote :: nm ++ quote :: ":"%char :: s) = Undefined.
Proof.
  intros Hnm Hs Hbrace. unfold cjson_parse_str.
  set (body := quote :: nm ++ quote :: ":"%char :: s).
  set (lexer0 := mk_lexer ("{"%char :: body) 0 initial_token).
  change (length ("{"%char :: body)) with (S (length body)).
  rewrite parse_element_S. unfold parse_element_body.
  rewrite parse_ws_id by reflexivity.
  unfold cjson_parse_value.
  assert (Hin0 : input lexer0 = "{"%char :: body) by reflexivity.
  rewrite (peek_fresh lexer0 eq_refl
             (@lex_punct lexer0 _ _ CJSON_TOK_LBRACE Hin0 ltac:(tauto))).
  cbn [bind after_token token type].
  fold (after_token lexer0 CJSON_TOK_LBRACE 1 (integer_value (token lexer0))).
  set (lexerA := after_token lexer0 CJSON_TOK_LBRACE 1 (integer_value (token lexer0))).
  assert (HB : fresh (consumed lexerA) body)
    by (apply (@fresh_after_pop lexer0 CJSON_TOK_LBRACE ["{"%char]); exact Hin0).
  pose proof (@lex_string (consumed lexerA) nm (":"%char :: s) (proj2 HB) Hnm) as HreadS.
  set (lexerS := after_token (consumed lexerA) CJSON_TOK_STRING
                   (length (quote :: nm ++ [quote]))
                   (integer_value (token (consumed lexerA)))) in *.
  assert (HinS : input lexerS = ":"%char :: s).
  { apply (@input_after_token (consumed lexerA) CJSON_TOK_STRING
             (quote :: nm ++ [quote]) (":"%char :: s)).
    rewrite (proj2 HB). unfold body. cbn [app]. rewrite <- app_assoc. reflexivity. }
  assert (HS : fresh (consumed lexerS) (":"%char :: s))
    by (split; [reflexivity | exact HinS]).
  pose proof (@lex_punct (consumed lexerS) _ _ CJSON_TOK_COLON (proj2 HS) ltac:(tauto))
    as HreadC.
  set (lexerC := after_token (consumed lexerS) CJSON_TOK_COLON 1
                   (integer_value (token (consumed lexerS)))) in *.
  assert (HC : fresh (consumed lexerC) s)
    by (apply (@fresh_after_pop (consumed lexerS) CJSON_TOK_COLON [":"%char]);
        exact (proj2 HS)).
  assert (Hsp : space_run s = 0).
  { destruct s as [|c s']; [reflexivity|].
    destruct (stuck_char_tests _ Hs) as (Hc & _). cbn [head_char] in Hc.
    cbn [space_run]. rewrite Hc. reflexivity. }
  destruct (@lex_stuck_no_brace (consumed lexerC)) as (lexer1 & Hread1 & Hst & Hnb);
    [rewrite (proj2 HC); exact Hs | rewrite (proj2 HC); exact Hbrace |].
  destruct (stuck_not_none _ Hst) as (Hnone & Hcomma & _).
  destruct (@map_insert_fresh (mk_map (repeat [] 64)) nm None)
    as (m1 & Hins & _ & Hperm).
  { apply empty_map_ok. discriminate. }
  { apply plain_text_is_cstr. exact Hnm. }
  { unfold entries. cbn [items]. rewrite concat_repeat_empty. simpl. tauto. }
  (* the run *)
  unfold cjson_parse_object. rewrite pop_held by reflexivity. cbn [bind].
  rewrite parse_ws_id by (rewrite (proj2 HB); reflexivity).
  rewrite (peek_fresh (consumed lexerA) (proj1 HB) HreadS). cbn [bind].
  change (type (token lexerS)) with CJSON_TOK_STRING. cbn [tok_eqb tok_code Z.eqb Pos.eqb negb].
  unfold cjson_parse_members, cjson_parse_member.
  rewrite parse_ws_id by (rewrite HinS; reflexivity).
  rewrite pop_held by reflexivity. cbn [bind].
  change (type (token lexerS)) with CJSON_TOK_STRING. cbn [tok_eqb tok_code Z.eqb Pos.eqb negb].
  change (content (token lexerS)) with (input (consumed lexerA)).
  change (content_len (token lexerS)) with (length (quote :: nm ++ [quote])).
  rewrite (proj2 HB). unfold body. rewrite (member_name_plain nm (":"%char :: s) Hnm).
  rewrite parse_ws_id by (rewrite (proj2 HS); reflexivity).
  rewrite (peek_fresh (consumed lexerS) (proj1 HS) HreadC). cbn [bind].
  change (type (token lexerC)) with CJSON_TOK_COLON. cbn [tok_eqb tok_code Z.eqb Pos.eqb negb].
  rewrite pop_held by reflexivity. cbn [bind].
  destruct (length (quote :: nm ++ quote :: ":"%char :: s)) as [|n] eqn:Hlen;
    [discriminate Hlen|].
  rewrite parse_element_S. unfold parse_element_body.
  rewrite parse_ws_id by (rewrite (proj2 HC); exact Hsp).
  unfold cjson_parse_value.
  rewrite (peek_fresh (consumed lexerC) (proj1 HC) Hread1). cbn [bind].
  replace (match type (token lexer1) with
           | CJSON_TOK_LBRACE => _ | _ => _ end)
    with (@Ret parse_result (None, lexer1, false))
    by (destruct (type (token lexer1)); try discriminate Hst; reflexivity).
  cbn [bind]. rewrite Hins. cbn [bind].
  cbn [members_loop].
  rewrite peek_held by exact Hnone. cbn [bind].
  change (token (cjson_parse_ws lexer1)) with (token lexer1).
  rewrite Hcomma. cbn [negb bind].
  rewrite pop_held by exact Hnone. cbn [bind].
  change (token (cjson_parse_ws lexer1)) with (token lexer1).
  rewrite Hnb. cbn [negb].
  rewrite (@delete_null_member m1 (mk_item nm None)); [reflexivity | | reflexivity].
  apply (Permutation_in _ (Permutation_sym Hperm)). left. reflexivity.
Qed.


(** ** The path accessor *)

Lemma strspn_app (nm rest : list ascii) :
  forallb member_char nm = true ->
  member_char (head_char rest) = false ->
  strspn (nm ++ rest) member_chars = length nm.
Proof.
  intros Hnm Hrest. induction nm as [|c nm IH].
  - destruct rest as [|d rest]; [reflexivity|]. cbn [app strspn head_char] in *.
    unfold member_char in Hrest. rewrite Hrest. reflexivity.
  - cbn [forallb] in Hnm. apply andb_prop in Hnm. destruct Hnm as [Hc Hnm].
    cbn [app strspn length]. unfold member_char in Hc. rewrite Hc, (IH Hnm).
    reflexivity.
Qed.

Lemma path_head (p : list segment) :
  member_char (head_char (path_text p)) = false
  /\ isdigit (head_char (path_text p)) = false
  /\ (Ascii.eqb (head_char (path_text p)) NUL = true <-> p = []).
Proof.
  destruct p as [|[nm|i] p]; cbn.
  - repeat split; intros; reflexivity.
  - repeat split; intros; discriminate.
  - repeat split; intros; discriminate.
Qed.

Lemma strtoul_digits (v : Z) (r : list ascii) :
  (0 <= v <= ULONG_MAX)%Z -> isdigit (head_char r) = false ->
  strtoul (digits v ++ r) = (v, length (digits v)).
Proof.
  intros Hv Hr.
  pose proof (@digits_all_digits v ltac:(lia)) as Hall.
  destruct (@digits_nonempty v ltac:(lia)) as (c & ds & Hd).
  assert (Hc : isdigit c = true)
    by (rewrite Hd in Hall; cbn [forallb] in Hall; apply andb_prop in Hall; apply Hall).
  destruct (isdigit_other _ Hc) as (Hminus & Hsp & _).
  assert (Hrun : digit_run r = 0)
    by (destruct r as [|x r']; [reflexivity|]; cbn [digit_run head_char] in *;
        rewrite Hr; reflexivity).
  unfold strtoul.
  replace (skip_space (digits v ++ r)) with (digits v ++ r)
    by (rewrite Hd; cbn [app skip_space]; rewrite Hsp; reflexivity).
  rewrite Nat.sub_diag.
  rewrite Hd at 1. cbn [app]. rewrite Hminus.
  replace (Ascii.eqb c "+") with false
    by (revert Hc; clear; destruct c as [[] [] [] [] [] [] [] []];
        vm_compute; congruence).
  rewrite digits_value_app by exact Hall.
  rewrite digits_value_digits by lia.
  replace (digits_value r v) with v
    by (destruct r as [|x r']; [reflexivity|]; cbn [digits_value head_char] in *;
        rewrite Hr; reflexivity).
  rewrite digit_run_app by exact Hall. rewrite Hrun, Nat.add_0_r.
  rewrite Hd. cbn [length].
  replace (ULONG_MAX <? v)%Z with false by (symmetry; apply Z.ltb_ge; lia).
  reflexivity.
Qed.

Lemma bind_ret_r (A : Type) (m : outcome A) : (x <- m ;; Ret x) = m.
Proof. destruct m; reflexivity. Qed.

Lemma get_rec_follow (p : list segment) :
  forallb segment_ok p = true -> p <> [] ->
  forall fuel e, length p <= fuel ->
  get_element_from_rec fuel e (path_text p) = follow p e.
Proof.
  induction p as [|s p IH]; intros Hok Hne fuel e Hfuel; [contradiction|].
  cbn [forallb] in Hok. apply andb_prop in Hok. destruct Hok as [Hs Hp].
  destruct fuel as [|fuel]; [cbn [length] in Hfuel; lia|].
  cbn [length] in Hfuel.
  destruct (path_head p) as (Hmc & Hdig & Hnul).
  assert (Hrest : forall r : option cjson_element,
            (if Ascii.eqb (head_char (path_text p)) NUL then Ret r
             else get_element_from_rec fuel r (path_text p))
            = follow p r).
  { intros r. destruct p as [|s' p']; [reflexivity|].
    replace (Ascii.eqb (head_char (path_text (s' :: p'))) NUL) with false
      by (destruct s'; reflexivity).
    apply IH; [exact Hp | discriminate | cbn [length] in *; lia]. }
  cbn [get_element_from_rec]. unfold get_element_from_body.
  change (path_text (s :: p)) with (segment_text s ++ path_text p).
  destruct s as [nm|i]; cbn [segment_text app head_char follow].
  - change (Ascii.eqb "." "[") with false. change (Ascii.eqb "." ".") with true.
    cbv iota. unfold cjson_get_element_from_object.
    destruct e as [x|]; [|reflexivity].
    cbn [follow_segment]. unfold cjson_as_object, cjson_is_object.
    destruct (type_eqb (element_type x) CJSON_OBJECT); cbn [assert bind];
      [|reflexivity].
    cbn [segment_ok] in Hs. apply andb_prop in Hs. destruct Hs as [Hhead Hnm].
    cbn [skipn].
    assert (Hh : head_char (nm ++ path_text p) = head_char nm).
    { destruct nm as [|c nm]; [|reflexivity].
      cbn in Hhead. discriminate Hhead. }
    rewrite Hh, Hhead. cbn [assert bind].
    destruct (read_object (value x)) as [o| | |]; cbn [bind]; try reflexivity.
    rewrite (strspn_app nm (path_text p) Hnm Hmc).
    unfold strndup. rewrite firstn_app, firstn_all, Nat.sub_diag. cbn [firstn].
    rewrite app_nil_r, object_get_c_str.
    destruct (cjson_object_get o nm) as [elt| | |]; cbn [bind]; try reflexivity.
    destruct elt as [y|]; cbn [assert bind]; [|reflexivity].
    replace (skipn (length nm + 1) ("."%char :: nm ++ path_text p))
      with (path_text p).
    2:{ rewrite Nat.add_1_r. cbn [skipn]. rewrite skipn_app, skipn_all, Nat.sub_diag.
        reflexivity. }
    apply Hrest.
  - change (Ascii.eqb "[" "[") with true. cbv iota.
    unfold cjson_get_element_from_array.
    destruct e as [x|]; [|reflexivity].
    cbn [follow_segment]. unfold cjson_as_array.
    destruct (cjson_is_array x); cbn [assert bind]; [|reflexivity].
    destruct (read_array (value x)) as [a| | |]; cbn [bind]; try reflexivity.
    cbn [segment_ok] in Hs. apply Z.leb_le in Hs.
    cbn [skipn]. rewrite <- app_assoc. cbn [app].
    rewrite (@strtoul_digits (Z.of_nat i) ("]"%char :: path_text p))
      by (try reflexivity; lia).
    rewrite skipn_app, skipn_all, Nat.sub_diag. cbn [app skipn head_char].
    change (Ascii.eqb "]" "]") with true. cbn [assert bind].
    destruct (array_at a (Z.of_nat i)) as [elt| | |]; cbn [bind]; try reflexivity.
    apply Hrest.
Qed.

Lemma get_follow (p : list segment) (e : option cjson_element) :
  forallb segment_ok p = true -> p <> [] ->
  cjson_get_element_from e (path_text p) = follow p e.
Proof.
  intros Hok Hne. unfold cjson_get_element_from.
  apply get_rec_follow; [exact Hok | exact Hne|].
  apply Nat.le_trans with (m := length (path_text p)); [|lia].
  clear. induction p as [|s p IH]; [simpl; lia|].
  change (path_text (s :: p)) with (segment_text s ++ path_text p).
  rewrite length_app. cbn [length].
  destruct s; cbn [segment_text length]; lia.
Qed.

Lemma follow_app (p q : list segment) (e : option cjson_element) :
  q <> [] ->
  follow (p ++ q) e = (r <- follow p e ;; follow q r).
Proof.
  intros Hq. revert e. induction p as [|s p IH]; intros e; [reflexivity|].
  cbn [app follow]. destruct e as [x|].
  - destruct (follow_segment s x) as [r| | |]; cbn [bind]; try reflexivity. apply IH.
  - reflexivity.
Qed.

Lemma path_empty_index (e : cjson_element) (a : cjson_array) :
  cjson_as_array e = Ret a ->
  cjson_get_element_from (Some e) (list_ascii_of_string "[]") = array_at a 0.
Proof.
  intros Ha. unfold cjson_get_element_from.
  cbn [get_element_from_rec length list_ascii_of_string].
  unfold get_element_from_body. cbn [head_char].
  change (Ascii.eqb "[" "[") with true. cbv iota.
  unfold cjson_get_element_from_array.
  assert (Harr : cjson_is_array e = true).
  { unfold cjson_as_array in Ha.
    destruct (cjson_is_array e); [reflexivity | discriminate]. }
  rewrite Harr. cbn [assert bind]. rewrite Ha. cbn [bind].
  change (strtoul (skipn 1 ["["%char; "]"%char])) with (0%Z, 0).
  cbn [skipn head_char]. change (Ascii.eqb "]" "]") with true. cbn [assert bind].
  destruct (array_at a 0); reflexivity.
Qed.


(** ** The buffer of the serializer *)

Lemma digits_length_lower (k : nat) (n : Z) :
  (10 ^ Z.of_nat k <= n)%Z -> k + 1 <= length (digits n).
Proof.
  revert n; induction k as [|k IH]; intros n Hn.
  - destruct (@digits_nonempty n ltac:(simpl in Hn; lia)) as (c & r & ->).
    simpl. lia.
  - rewrite Nat2Z.inj_succ, Z.pow_succ_r in Hn by lia.
    assert (H10 : (10 <= n)%Z).
    { assert (0 < 10 ^ Z.of_nat k)%Z by (apply Z.pow_pos_nonneg; lia). lia. }
    rewrite digits_step by exact H10. rewrite length_app. cbn [length].
    assert (k + 1 <= length (digits (n / 10))); [|lia].
    apply IH. apply Z.div_le_lower_bound; lia.
Qed.

Lemma fmt_d_length (v : Z) :
  (INT_MIN <= v <= INT_MAX)%Z ->
  (length (fmt_d v) <? 11) = (-1000000000 <? v)%Z.
Proof.
  intros Hv. unfold fmt_d, INT_MIN, INT_MAX in *.
  destruct (v <? 0)%Z eqn:Hneg.
  - apply Z.ltb_lt in Hneg. cbn [length].
    destruct (-1000000000 <? v)%Z eqn:E.
    + apply Z.ltb_lt in E. apply Nat.ltb_lt.
      pose proof (@digits_length (- v) 9 ltac:(simpl; lia) ltac:(lia)). lia.
    + apply Z.ltb_ge in E. apply Nat.ltb_ge.
      pose proof (@digits_length_lower 9 (- v) ltac:(simpl; lia)). lia.
  - apply Z.ltb_ge in Hneg.
    replace (-1000000000 <? v)%Z with true by (symmetry; apply Z.ltb_lt; lia).
    apply Nat.ltb_lt.
    pose proof (@digits_length v 10 ltac:(simpl; lia) ltac:(lia)). lia.
Qed.

Lemma to_str_integer_spec (v : Z) (pretty : bool) :
  (INT_MIN <= v <= INT_MAX)%Z ->
  cjson_to_str (Some (cjson_create_integer v)) pretty
  = if (-1000000000 <? v)%Z then Ret (fmt_d v) else Undefined.
Proof.
  intros Hv. unfold cjson_to_str, cjson_create_integer.
  cbn [elt_size cjson_to_str_rec]. unfold to_str_body.
  cbn [element_type value read_integer bind]. unfold sprintf_buffer.
  rewrite (fmt_d_length Hv).
  destruct (-1000000000 <? v)%Z; [|reflexivity].
  cbn [bind]. unfold put_cstr, cjson_str_builder_append_cstr.
  destruct (@append_chars_ok (c_str (fmt_d v)) (mk_sb [] 0)) as (sb1 & E1 & S1 & K1);
    [unfold sb_ok; simpl; lia|].
  rewrite E1. cbn [bind].
  destruct (@append_char_ok sb1 NUL K1) as (sb2 & E2 & S2 & _).
  rewrite E2. cbn [bind]. rewrite S2, S1. cbn [str app].
  rewrite is_cstr_fmt_d. f_equal. apply c_str_app_nul.
  rewrite <- is_cstr_fmt_d. apply c_str_is_cstr.
Qed.


(** ** Properties of the library beyond the specification *)



(** X7: [cjson_hash] shifts its result by three bits for every byte, in 64
    bits: a byte that is followed by 22 more bytes or more has left the
    result.  A name of 22 bytes or more hashes like its last 22 bytes
    whatever stands before them. *)
Theorem hash_keeps_last_22_bytes (p s : list ascii) :
  is_cstr p = true -> is_cstr s = true -> 22 <= length s ->
  cjson_hash (p ++ s) = cjson_hash s.
Proof. apply hash_suffix. Qed.

Lemma hash_keeps_last_22_bytes_witness :
  is_cstr (txt "user_") = true
  /\ is_cstr (txt "abcdefghijklmnopqrstuv") = true
  /\ 22 <= length (txt "abcdefghijklmnopqrstuv")
  /\ cjson_hash (txt "user_" ++ txt "abcdefghijklmnopqrstuv")
     = cjson_hash (txt "abcdefghijklmnopqrstuv").
Proof.
  split; [reflexivity|]. split; [reflexivity|]. split; [simpl; lia|].
  apply (@hash_keeps_last_22_bytes (txt "user_") (txt "abcdefghijklmnopqrstuv"));
    [reflexivity | reflexivity | simpl; lia].
Defined.

(** X8: [cjson_clone] of NULL is NULL; of a well-formed tree (in every node
    the member of the union of its type, strings that are C strings, maps
    under their invariant; NULL slots and NULL member elements allowed) it
    returns a tree that is structurally equal to it, exact on scalars and
    arrays and up to the order of the members on objects, and that is
    well-formed again. *)
Theorem clone_is_structurally_equal (T : cjson_element) :
  well_formed T = true ->
  exists T',
    cjson_clone (Some T) = Ret (Some T')
    /\ struct_eq T T'
    /\ well_formed T' = true
    /\ cjson_clone None = Ret None.
Proof.
  intros Hwf. destruct (clone_spec T Hwf) as (T' & Hrun & Heq & Hwf' & _).
  exists T'. repeat split; assumption.
Qed.

Lemma clone_is_structurally_equal_witness :
  well_formed (Element CJSON_OBJECT (val_object sample_object)) = true
  /\ exists T',
      cjson_clone (Some (Element CJSON_OBJECT (val_object sample_object)))
      = Ret (Some T')
      /\ struct_eq (Element CJSON_OBJECT (val_object sample_object)) T'
      /\ well_formed T' = true
      /\ cjson_clone None = Ret None.
Proof.
  split; [reflexivity|].
  apply (clone_is_structurally_equal (Element CJSON_OBJECT (val_object sample_object))).
  reflexivity.
Defined.



(** X10: a lookup on the clone of an object finds, under every name, the
    clone of what the lookup on the original finds: both return NULL, or
    elements that are structurally equal. *)
Theorem clone_keeps_lookups (o : cjson_object) (nm : list ascii) :
  well_formed (Element CJSON_OBJECT (val_object o)) = true ->
  exists o' x x',
    cjson_clone (Some (Element CJSON_OBJECT (val_object o)))
    = Ret (Some (Element CJSON_OBJECT (val_object o')))
    /\ cjson_object_get o nm = Ret x
    /\ cjson_object_get o' nm = Ret x'
    /\ slot_rel struct_eq x x'.
Proof.
  intros Hwf. destruct (clone_spec _ Hwf) as (T' & Hrun & _ & Hwf' & Hobj).
  destruct (Hobj o eq_refl) as (o' & -> & Hcap & Hrev).
  rewrite well_formed_object in Hwf, Hwf'.
  apply andb_prop in Hwf, Hwf'.
  destruct (@chains_reversed_lookup o o' nm (proj1 Hwf) (proj1 Hwf') Hrev)
    as (x & x' & Hx & Hx' & Hrel).
  exists o', x, x'. auto.
Qed.

Lemma clone_keeps_lookups_witness :
  well_formed (Element CJSON_OBJECT (val_object sample_object)) = true
  /\ exists o' x x',
      cjson_clone (Some (Element CJSON_OBJECT (val_object sample_object)))
      = Ret (Some (Element CJSON_OBJECT (val_object o')))
      /\ cjson_object_get sample_object (txt "f2") = Ret x
      /\ cjson_object_get o' (txt "f2") = Ret x'
      /\ slot_rel struct_eq x x'.
Proof.
  split; [reflexivity|].
  apply (clone_keeps_lookups sample_object (txt "f2")). reflexivity.
Defined.

(** X11: [cjson_dump] prints what [cjson_to_str] returns.  For a tree
    without a node of float type and of less than 2^30 nodes, whenever
    [cjson_to_str] returns a text, in compact or in pretty mode, [cjson_dump]
    in the same mode appends exactly this text to the standard output. *)
Theorem dump_prints_what_to_str_returns (T : cjson_element) (pretty : bool)
  (s out : list ascii) :
  no_float T = true ->
  (Z.of_nat (2 * elt_size T) <= INT_MAX)%Z ->
  cjson_to_str (Some T) pretty = Ret s ->
  cjson_dump (Some T) pretty out = Ret (out ++ s).
Proof. apply dump_to_str_spec. Qed.

Lemma dump_prints_what_to_str_returns_witness :
  no_float sample_tree = true
  /\ (Z.of_nat (2 * elt_size sample_tree) <= INT_MAX)%Z
  /\ exists s,
      cjson_to_str (Some sample_tree) true = Ret s
      /\ cjson_dump (Some sample_tree) true (txt "> ") = Ret (txt "> " ++ s).
Proof.
  split; [reflexivity|]. split; [vm_compute; discriminate|].
  eexists. split; [vm_compute; reflexivity|].
  apply (@dump_prints_what_to_str_returns sample_tree true _ (txt "> "));
    [reflexivity | vm_compute; discriminate | vm_compute; reflexivity].
Defined.

(** X12: on an input of white space only, the empty input included,
    [cjson_parse_str] returns NULL. *)
Theorem blank_input_parses_to_null (s : list ascii) :
  forallb isspace s = true -> cjson_parse_str s = Ret None.
Proof. apply parse_str_blank. Qed.

Lemma blank_input_parses_to_null_witness :
  forallb isspace [" "%char; ascii_of_nat 10; ascii_of_nat 9] = true
  /\ cjson_parse_str [" "%char; ascii_of_nat 10; ascii_of_nat 9] = Ret None.
Proof.
  split; [reflexivity|].
  apply (blank_input_parses_to_null [" "%char; ascii_of_nat 10; ascii_of_nat 9]).
  reflexivity.
Defined.

(** X13: an array that is not finished makes the parser follow a NULL
    pointer.  When the opening bracket (and white space) is followed by the
    end of the input, a colon, a closing brace or a byte that starts no
    token, [cjson_parse_array] appends the NULL pointer [cjson_parse_element]
    returns and then gives the array to [cjson_delete]: the behaviour of
    [cjson_parse_str] is undefined, it does not return NULL. *)
Theorem unfinished_array_is_undefined (ws s : list ascii) :
  forallb isspace ws = true -> stuck_start s = true ->
  cjson_parse_str ("["%char :: ws ++ s) = Undefined.
Proof. apply parse_str_array_stuck. Qed.

Lemma unfinished_array_is_undefined_witness :
  forallb isspace [" "%char] = true
  /\ stuck_start [] = true
  /\ cjson_parse_str ("["%char :: [" "%char] ++ []) = Undefined.
Proof.
  split; [reflexivity|]. split; [reflexivity|].
  apply (@unfinished_array_is_undefined [" "%char] []); reflexivity.
Defined.

(** X14: the same for an object: after the opening brace, a name and a
    colon, the end of the input, a second colon or a byte that starts no
    token leaves a member with a NULL element in the map, and the parser
    gives the object to [cjson_delete], which follows the NULL pointer. *)
Theorem unfinished_object_is_undefined (nm s : list ascii) :
  plain_text nm = true ->
  stuck_start s = true -> Ascii.eqb (head_char s) "}" = false ->
  cjson_parse_str ("{"%char :: quote :: nm ++ quote :: ":"%char :: s) = Undefined.
Proof. apply parse_str_object_stuck. Qed.

Lemma unfinished_object_is_undefined_witness :
  plain_text (txt "a") = true
  /\ stuck_start [] = true
  /\ cjson_parse_str ("{"%char :: quote :: txt "a" ++ quote :: ":"%char :: [])
     = Undefined.
Proof.
  split; [reflexivity|]. split; [reflexivity|].
  apply (@unfinished_object_is_undefined (txt "a") []); reflexivity.
Defined.

(** X15: string literals.  A literal whose body is made of bytes other
    than the quote, the backslash and NUL, and of the escapes backslash-quote,
    backslash-backslash, backslash-slash and backslash-b, -f, -n, -t, is
    parsed as the string of these bytes with every escape replaced by the
    byte it stands for, whatever follows the closing quote. *)
Theorem string_literal_is_decoded (ps : list piece) (rest : list ascii) :
  forallb piece_ok ps = true ->
  cjson_parse_str (quote :: literal_body ps ++ quote :: rest)
  = Ret (Some (Element CJSON_STRING (val_string (Some (map piece_value ps))))).
Proof. apply parse_str_literal. Qed.

Lemma string_literal_is_decoded_witness :
  forallb piece_ok [Plain "a"%char; Escaped "n"%char; Escaped quote; Plain "b"%char]
  = true
  /\ cjson_parse_str (txt "'a\n\'b' trailing")
     = Ret (Some (Element CJSON_STRING
                    (val_string (Some ["a"%char; ascii_of_nat 10; quote; "b"%char])))).
Proof.
  split; [reflexivity|].
  apply (@string_literal_is_decoded
           [Plain "a"%char; Escaped "n"%char; Escaped quote; Plain "b"%char]
           (txt " trailing")).
  reflexivity.
Defined.

(** X16: the two escapes the extraction does not know.  The lexer accepts
    backslash-r, but [cjson_extract_string] has no case for it: the parser
    returns a string element whose value is the NULL pointer.  On
    backslash-u the lexer stops the process in an assertion. *)
Theorem escapes_r_and_u :
  (forall (ps ps' : list piece) (rest : list ascii),
      forallb piece_ok ps = true -> forallb piece_ok ps' = true ->
      cjson_parse_str
        (quote :: (literal_body ps ++ backslash :: "r"%char :: literal_body ps')
           ++ quote :: rest)
      = Ret (Some (Element CJSON_STRING (val_string None))))
  /\ (forall (ps : list piece) (rest : list ascii),
         forallb piece_ok ps = true ->
         cjson_parse_str (quote :: literal_body ps ++ backslash :: "u"%char :: rest)
         = Aborted)
  /\ (forall pretty,
         cjson_to_str (Some (Element CJSON_STRING (val_string None))) pretty
         = Undefined).
Proof.
  split; [exact parse_str_escape_r|]. split; [exact parse_str_escape_u|].
  intros pretty. reflexivity.
Qed.

(** X17: the path accessor follows its path segment by segment.  On the
    text of a path made of members (a point and a name of letters, digits and
    underscores that starts with no digit) and of indices (decimal digits
    between brackets), [cjson_get_element_from] returns, stops or is
    undefined exactly as the chain of lookups does: [cjson_as_object] and
    [cjson_object_get] for a member, which must exist, [cjson_as_array] and
    the slot of the index for an index.  A path of two parts is the second
    part followed from the element the first part leads to. *)
Theorem path_is_a_chain_of_lookups :
  (forall (p : list segment) (e : option cjson_element),
      forallb segment_ok p = true -> p <> [] ->
      cjson_get_element_from e (path_text p) = follow p e)
  /\ (forall (p q : list segment) (e : option cjson_element),
         forallb segment_ok p = true -> forallb segment_ok q = true ->
         p <> [] -> q <> [] ->
         cjson_get_element_from e (path_text p ++ path_text q)
         = (r <- cjson_get_element_from e (path_text p) ;;
            cjson_get_element_from r (path_text q))).
Proof.
  split; [exact get_follow|].
  intros p q e Hp Hq Hnp Hnq.
  assert (Hpq : path_text p ++ path_text q = path_text (p ++ q))
    by (unfold path_text; rewrite map_app, concat_app; reflexivity).
  assert (Hok : forallb segment_ok (p ++ q) = true)
    by (rewrite forallb_app, Hp, Hq; reflexivity).
  assert (Hne : p ++ q <> []) by (destruct p; [contradiction | discriminate]).
  rewrite Hpq, (@get_follow (p ++ q) e Hok Hne), (@follow_app p q e Hnq),
    (@get_follow p e Hp Hnp).
  destruct (follow p e) as [r| | |]; cbn [bind]; try reflexivity.
  symmetry. apply get_follow; assumption.
Qed.

(** X18: an index without digits is the index 0: [strtoul] converts
    nothing and returns 0, and the path of an opening and a closing bracket
    reads the first slot of the array (and is undefined on an empty
    array). *)
Theorem path_empty_index_reads_first_slot (e : cjson_element) (a : cjson_array) :
  cjson_as_array e = Ret a ->
  cjson_get_element_from (Some e) (list_ascii_of_string "[]") = array_at a 0.
Proof. apply path_empty_index. Qed.

Lemma path_empty_index_reads_first_slot_witness :
  cjson_as_array sample_tree
  = Ret (mk_array [Some (cjson_create_integer 1);
                   Some (cjson_create_string (txt "two"));
                   Some (Element CJSON_ARRAY
                           (val_array (mk_array [Some cjson_create_null] 8)))] 8)
  /\ cjson_get_element_from (Some sample_tree) (list_ascii_of_string "[]")
     = Ret (Some (cjson_create_integer 1)).
Proof.
  split; [reflexivity|].
  apply (@path_empty_index_reads_first_slot sample_tree _ eq_refl).
Defined.

(** X19: the buffer of [cjson_to_str_rec] has 11 bytes.  [cjson_to_str]
    returns the decimal text of an integer element when the integer is above
    -1000000000; for the integers from INT_MIN to -1000000000, whose text has
    11 bytes, [sprintf] writes the terminator behind the buffer. *)
Theorem to_str_integer_buffer (v : Z) (pretty : bool) :
  (INT_MIN <= v <= INT_MAX)%Z ->
  cjson_to_str (Some (cjson_create_integer v)) pretty
  = if (-1000000000 <? v)%Z then Ret (fmt_d v) else Undefined.
Proof. apply to_str_integer_spec. Qed.

Lemma to_str_integer_buffer_witness :
  (INT_MIN <= -1000000000 <= INT_MAX)%Z
  /\ cjson_to_str (Some (cjson_create_integer (-1000000000))) false = Undefined.
Proof.
  split; [vm_compute; split; discriminate|].
  apply (@to_str_integer_buffer (-1000000000) false). vm_compute. split; discriminate.
Defined.

(** X20: a fresh object.  [cjson_create_object] of a capacity above 0
    builds a map under its invariant in which every lookup returns NULL and
    the iteration is at its end at once.  With the capacity 0 every lookup
    and every insertion takes a remainder by zero. *)
Theorem fresh_object_is_empty :
  (forall (capacity : nat) (nm : list ascii),
      capacity <> 0 ->
      exists o,
        cjson_as_object (cjson_create_object capacity) = Ret o
        /\ map_ok o = true
        /\ cjson_object_get o nm = Ret None
        /\ it_end (cjson_iterate_object o) = true)
  /\ (forall (nm : list ascii) (e : option cjson_element),
         exists o,
           cjson_as_object (cjson_create_object 0) = Ret o
           /\ cjson_object_get o nm = Undefined
           /\ cjson_object_insert o nm e = Undefined
           /\ it_end (cjson_iterate_object o) = true).
Proof.
  split.
  - intros capacity nm Hcap. exists (mk_map (repeat [] capacity)).
    assert (Hok : map_ok (mk_map (repeat ([] : list cjson_map_item) capacity)) = true)
      by (apply empty_map_ok; exact Hcap).
    assert (Hent : entries (mk_map (repeat ([] : list cjson_map_item) capacity)) = [])
      by (unfold entries; cbn [items]; apply concat_repeat_empty).
    split; [reflexivity|]. split; [exact Hok|]. split.
    + apply object_get_absent; [exact Hok|]. rewrite Hent. simpl. tauto.
    + destruct (iterate_object_spec (mk_map (repeat [] capacity)))
        as [[_ H]|H]; [exact H|].
      destruct (stands_at_entry H) as (c & Hc & _). rewrite Hent in Hc.
      discriminate Hc.
  - intros nm e. exists (mk_map []). repeat split.
Qed.


(** ** Serializer: the pretty text it builds *)

Lemma tail_sp_cons (sep x : list ascii) (l : list (list ascii)) :
  tail_sp sep (x :: l) = ","%char :: sep ++ x ++ tail_sp sep l.
Proof. unfold tail_sp. cbn [map concat app]. rewrite <- app_assoc. reflexivity. Qed.

Lemma render_pretty_array (indent : nat) (a : cjson_array) :
  render_pretty indent (Element CJSON_ARRAY (val_array a))
  = "["%char :: newline (indent + 2)
      ++ join_sp (newline (indent + 2)) (map (slot_pretty (indent + 2)) (elements a))
      ++ newline indent ++ ["]"%char].
Proof. reflexivity. Qed.

Lemma render_pretty_object (indent : nat) (o : cjson_map) :
  render_pretty indent (Element CJSON_OBJECT (val_object o))
  = "{"%char :: newline (indent + 2)
      ++ join_sp (newline (indent + 2)) (map (member_pretty (indent + 2)) (entries o))
      ++ newline indent ++ ["}"%char].
Proof. unfold entries. rewrite concat_map. reflexivity. Qed.

Lemma render_pretty_scalar (indent : nat) (T : cjson_element) :
  plain_tree T = true ->
  cjson_is_array T = false -> cjson_is_object T = false ->
  render_pretty indent T = render T.
Proof.
  intros Hp Ha Ho. destruct T as [t v].
  destruct t; try discriminate Ha; try discriminate Ho;
    destruct v; try discriminate Hp; reflexivity.
Qed.

Lemma writes_at_of_writes (indent : nat) (m : to_str_state -> outcome to_str_state)
  (text : list ascii) :
  writes m text -> writes_at indent m text.
Proof. intros H sb Hok. apply H. exact Hok. Qed.

Lemma writes_at_bind (indent : nat) (f g : to_str_state -> outcome to_str_state)
  (a b : list ascii) :
  writes_at indent f a -> writes_at indent g b ->
  writes_at indent (fun st => st' <- f st ;; g st') (a ++ b).
Proof.
  intros Hf Hg sb Hok.
  destruct (Hf sb Hok) as (sb1 & E1 & S1 & K1).
  destruct (Hg sb1 K1) as (sb2 & E2 & S2 & K2).
  exists sb2. rewrite E1. cbn [bind]. rewrite E2.
  split; [reflexivity|]. split; [|exact K2].
  rewrite S2, S1, <- app_assoc. reflexivity.
Qed.

Lemma writes_at_ext (indent : nat) (f g : to_str_state -> outcome to_str_state)
  (a b : list ascii) :
  writes_at indent f a -> (forall st, g st = f st) -> b = a -> writes_at indent g b.
Proof.
  intros Hf Hfg -> sb Hok. rewrite Hfg. apply Hf. exact Hok.
Qed.

Lemma writes_at_newline (indent : nat) :
  writes_at indent (pretty_newline true) (newline indent).
Proof.
  intros sb Hok.
  destruct (append_char_ok (ascii_of_nat 10) Hok) as (sb1 & E1 & S1 & K1).
  destruct (append_chars_ok (repeat " "%char indent) K1) as (sb2 & E2 & S2 & K2).
  exists sb2. unfold pretty_newline. rewrite E1. cbn [bind]. rewrite E2. cbn [bind].
  split; [reflexivity|]. split; [|exact K2].
  rewrite S2, S1, <- app_assoc. reflexivity.
Qed.

Section Pretty.
Variable rec : option cjson_element -> to_str_state -> outcome to_str_state.
Variable indent : nat.

Lemma writes_at_elements (l : list (option cjson_element)) :
  (forall slot, In slot l -> writes_at indent (rec slot) (slot_pretty indent slot)) ->
  writes_at indent (to_str_elements true rec l)
    (tail_sp (newline indent) (map (slot_pretty indent) l)).
Proof.
  induction l as [|e l IH]; intros Hl.
  - apply writes_at_of_writes, writes_ret.
  - cbn [map]. rewrite tail_sp_cons.
    change (","%char :: newline indent ++ slot_pretty indent e
              ++ tail_sp (newline indent) (map (slot_pretty indent) l))
      with ([","%char] ++ (newline indent ++ slot_pretty indent e
              ++ tail_sp (newline indent) (map (slot_pretty indent) l))).
    eapply writes_at_ext; [|intros st; reflexivity | reflexivity].
    apply writes_at_bind; [apply writes_at_of_writes, writes_put_char|].
    apply writes_at_bind; [apply writes_at_newline|].
    apply writes_at_bind; [apply Hl; left; reflexivity|].
    apply IH. intros slot Hs. apply Hl. right. exact Hs.
Qed.

Lemma writes_at_entry (c : cjson_map_item) :
  plain_text (name c) = true ->
  writes_at indent (rec (element c)) (slot_pretty indent (element c)) ->
  writes_at indent (to_str_entry rec c) (member_pretty indent c).
Proof.
  intros Hp Hrec. unfold member_pretty.
  change (quote :: name c ++ quote :: ":"%char :: slot_pretty indent (element c))
    with ([quote] ++ (name c ++ [quote; ":"%char] ++ slot_pretty indent (element c))).
  eapply writes_at_ext; [|intros st; unfold to_str_entry; reflexivity | reflexivity].
  apply writes_at_bind; [apply writes_at_of_writes, writes_put_char|].
  apply writes_at_bind;
    [apply writes_at_of_writes, writes_put_cstr, plain_text_is_cstr, Hp|].
  apply writes_at_bind; [apply writes_at_of_writes, writes_put_cstr; reflexivity|].
  exact Hrec.
Qed.

Lemma writes_at_fold_entries (l : list cjson_map_item) :
  (forall c, In c l ->
             plain_text (name c) = true
             /\ writes_at indent (rec (element c)) (slot_pretty indent (element c))) ->
  writes_at indent
    (fold_entries (fun c st => st <- put_char ","%char st ;;
                               st <- pretty_newline true st ;;
                               to_str_entry rec c st) l)
    (tail_sp (newline indent) (map (member_pretty indent) l)).
Proof.
  induction l as [|c l IH]; intros Hl.
  - apply writes_at_of_writes, writes_ret.
  - cbn [map]. rewrite tail_sp_cons.
    change (","%char :: newline indent ++ member_pretty indent c
              ++ tail_sp (newline indent) (map (member_pretty indent) l))
      with ([","%char] ++ (newline indent ++ member_pretty indent c
              ++ tail_sp (newline indent) (map (member_pretty indent) l))).
    destruct (Hl c (or_introl eq_refl)) as [Hp Hrec].
    eapply writes_at_ext;
      [|intros st; cbn [fold_entries];
        instantiate (1 := fun st => st1 <- put_char ","%char st ;;
                                   st2 <- pretty_newline true st1 ;;
                                   st3 <- to_str_entry rec c st2 ;;
                                   fold_entries _ l st3);
        cbv beta;
        destruct (put_char ","%char st) as [st1| | |]; cbn [bind]; try reflexivity;
        destruct (pretty_newline true st1) as [st2| | |]; cbn [bind]; reflexivity
       | reflexivity].
    apply writes_at_bind; [apply writes_at_of_writes, writes_put_char|].
    apply writes_at_bind; [apply writes_at_newline|].
    apply writes_at_bind; [apply writes_at_entry; assumption|].
    apply IH. intros c' Hc'. apply Hl. right. exact Hc'.
Qed.

Lemma writes_at_entries (l : list cjson_map_item) :
  (forall c, In c l ->
             plain_text (name c) = true
             /\ writes_at indent (rec (element c)) (slot_pretty indent (element c))) ->
  writes_at indent (to_str_entries true rec l)
    (join_sp (newline indent) (map (member_pretty indent) l)).
Proof.
  intros Hl. destruct l as [|c l].
  - apply writes_at_of_writes, writes_ret.
  - cbn [map join_sp]. destruct (Hl c (or_introl eq_refl)) as [Hp Hrec].
    eapply writes_at_ext; [|intros st; unfold to_str_entries; reflexivity | reflexivity].
    apply writes_at_bind; [apply writes_at_entry; assumption|].
    apply writes_at_fold_entries. intros c' Hc'. apply Hl. right. exact Hc'.
Qed.
End Pretty.

(** The plain text of a tree is a C string in pretty mode as well. *)
Lemma is_cstr_newline (indent : nat) : is_cstr (newline indent) = true.
Proof.
  unfold newline, is_cstr. cbn [forallb]. apply andb_true_intro. split; [reflexivity|].
  apply forallb_forall. intros c Hc. apply repeat_spec in Hc. subst c. reflexivity.
Qed.

Lemma is_cstr_tail_sp (sep : list ascii) (l : list (list ascii)) :
  is_cstr sep = true ->
  (forall x, In x l -> is_cstr x = true) -> is_cstr (tail_sp sep l) = true.
Proof.
  intros Hsep. induction l as [|x l IH]; intros H; [reflexivity|].
  rewrite tail_sp_cons.
  change (","%char :: sep ++ x ++ tail_sp sep l)
    with ([","%char] ++ sep ++ x ++ tail_sp sep l).
  rewrite !is_cstr_app, Hsep, (H x (or_introl eq_refl)),
    (IH (fun y Hy => H y (or_intror Hy))). reflexivity.
Qed.

Lemma is_cstr_join_sp (sep : list ascii) (l : list (list ascii)) :
  is_cstr sep = true ->
  (forall x, In x l -> is_cstr x = true) -> is_cstr (join_sp sep l) = true.
Proof.
  intros Hsep H. destruct l as [|x l]; [reflexivity|].
  cbn [join_sp]. rewrite is_cstr_app, (H x (or_introl eq_refl)).
  apply (@is_cstr_tail_sp sep l Hsep). intros y Hy. apply H. right. exact Hy.
Qed.

Lemma render_pretty_is_cstr (T : cjson_element) :
  plain_tree T = true -> forall indent, is_cstr (render_pretty indent T) = true.
Proof.
  induction T as [T IH] using tree_ind. intros Hp indent.
  destruct T as [t v].
  destruct (cjson_is_array (Element t v)) eqn:Ha;
    [|destruct (cjson_is_object (Element t v)) eqn:Ho].
  - destruct t; try discriminate Ha. destruct v; try discriminate Hp.
    pose proof (plain_array _ Hp) as Hall. rewrite forallb_forall in Hall.
    rewrite render_pretty_array.
    change ("["%char :: newline (indent + 2)
              ++ join_sp (newline (indent + 2))
                   (map (slot_pretty (indent + 2)) (elements a))
              ++ newline indent ++ ["]"%char])
      with (["["%char] ++ newline (indent + 2)
              ++ join_sp (newline (indent + 2))
                   (map (slot_pretty (indent + 2)) (elements a))
              ++ newline indent ++ ["]"%char]).
    rewrite !is_cstr_app, !is_cstr_newline.
    rewrite is_cstr_join_sp; [reflexivity | apply is_cstr_newline|].
    intros x Hx. apply in_map_iff in Hx. destruct Hx as (slot & <- & Hs).
    specialize (Hall slot Hs). destruct slot as [y|]; [|discriminate].
    apply IH; [apply slot_size; exact Hs | exact Hall].
  - destruct t; try discriminate Ho. destruct v; try discriminate Hp.
    destruct (plain_object _ Hp) as (_ & Hall). rewrite forallb_forall in Hall.
    rewrite render_pretty_object.
    change ("{"%char :: newline (indent + 2)
              ++ join_sp (newline (indent + 2))
                   (map (member_pretty (indent + 2)) (entries o))
              ++ newline indent ++ ["}"%char])
      with (["{"%char] ++ newline (indent + 2)
              ++ join_sp (newline (indent + 2))
                   (map (member_pretty (indent + 2)) (entries o))
              ++ newline indent ++ ["}"%char]).
    rewrite !is_cstr_app, !is_cstr_newline.
    rewrite is_cstr_join_sp; [reflexivity | apply is_cstr_newline|].
    intros x Hx. apply in_map_iff in Hx. destruct Hx as (it & <- & Hit).
    specialize (Hall it Hit). unfold plain_item in Hall.
    apply andb_prop in Hall. destruct Hall as [Hn Hs].
    unfold member_pretty.
    change (quote :: name it ++ quote :: ":"%char :: slot_pretty (indent + 2) (element it))
      with ([quote] ++ name it ++ [quote; ":"%char]
              ++ slot_pretty (indent + 2) (element it)).
    rewrite !is_cstr_app, (plain_text_is_cstr _ Hn).
    destruct (element it) as [y|] eqn:Hy; [|discriminate].
    cbn [slot_pretty]. rewrite (IH y); [reflexivity | | exact Hs].
    apply (member_size _ _ _ Hit Hy).
  - rewrite render_pretty_scalar by assumption. apply render_is_cstr. exact Hp.
Qed.

(** What the serializer writes in pretty mode for a plain tree. *)
Lemma to_str_rec_pretty (T : cjson_element) :
  plain_tree T = true ->
  forall fuel indent, elt_size T <= fuel ->
  writes_at indent (cjson_to_str_rec fuel true (Some T)) (render_pretty indent T).
Proof.
  induction T as [T IH] using tree_ind. intros Hp fuel indent Hfuel.
  destruct T as [t v].
  destruct (cjson_is_array (Element t v)) eqn:Ha;
    [|destruct (cjson_is_object (Element t v)) eqn:Ho].
  - (* array *)
    destruct t; try discriminate Ha. destruct v; try discriminate Hp.
    destruct fuel as [|fuel]; [simpl in Hfuel; lia|].
    cbn [cjson_to_str_rec].
    pose proof (plain_array _ Hp) as Hall. rewrite forallb_forall in Hall.
    assert (Hslot : forall slot, In slot (elements a) ->
                      writes_at (indent + 2) (cjson_to_str_rec fuel true slot)
                        (slot_pretty (indent + 2) slot)).
    { intros slot Hs. specialize (Hall slot Hs).
      destruct slot as [x|]; [|discriminate].
      pose proof (slot_size CJSON_ARRAY a x Hs).
      apply IH; [assumption | exact Hall | lia]. }
    assert (Hin : writes_at (indent + 2)
                    (fun st => match elements a with
                               | [] => Ret st
                               | first :: rest =>
                                   st <- cjson_to_str_rec fuel true first st ;;
                                   to_str_elements true (cjson_to_str_rec fuel true) rest st
                               end)
                    (join_sp (newline (indent + 2))
                       (map (slot_pretty (indent + 2)) (elements a)))).
    { destruct (elements a) as [|first rest]; [apply writes_at_of_writes, writes_ret|].
      cbn [map join_sp].
      apply writes_at_bind.
      - apply Hslot. left. reflexivity.
      - apply writes_at_elements. intros slot Hs. apply Hslot. right. exact Hs. }
    rewrite render_pretty_array.
    intros sb Hok.
    destruct (writes_put_char "[" indent Hok) as (sb1 & E1 & S1 & K1).
    destruct (@writes_at_newline (indent + 2) sb1 K1) as (sb2 & E2 & S2 & K2).
    destruct (Hin sb2 K2) as (sb3 & E3 & S3 & K3).
    destruct (@writes_at_newline indent sb3 K3) as (sb4 & E4 & S4 & K4).
    destruct (writes_put_char "]" indent K4) as (sb5 & E5 & S5 & K5).
    exists sb5. unfold to_str_body. cbn [element_type value read_array bind].
    rewrite E1. cbn [bind]. rewrite E2. cbn [bind]. rewrite E3. cbn [bind].
    rewrite Nat.add_sub, E4. cbn [bind]. rewrite E5.
    split; [reflexivity|]. split; [|exact K5].
    rewrite S5, S4, S3, S2, S1. cbn [app]. rewrite <- !app_assoc. reflexivity.
  - (* object *)
    destruct t; try discriminate Ho. destruct v; try discriminate Hp.
    destruct fuel as [|fuel]; [simpl in Hfuel; lia|].
    cbn [cjson_to_str_rec].
    destruct (plain_object _ Hp) as (_ & Hall). rewrite forallb_forall in Hall.
    assert (Hmem : forall c, In c (entries o) ->
                     plain_text (name c) = true
                     /\ writes_at (indent + 2) (cjson_to_str_rec fuel true (element c))
                          (slot_pretty (indent + 2) (element c))).
    { intros c Hc. specialize (Hall c Hc). unfold plain_item in Hall.
      apply andb_prop in Hall. destruct Hall as [Hn Hs]. split; [exact Hn|].
      destruct (element c) as [x|] eqn:Hx; [|discriminate].
      pose proof (member_size CJSON_OBJECT o c Hc Hx).
      apply IH; [assumption | exact Hs | lia]. }
    rewrite render_pretty_object.
    intros sb Hok.
    destruct (writes_put_char "{" indent Hok) as (sb1 & E1 & S1 & K1).
    destruct (@writes_at_newline (indent + 2) sb1 K1) as (sb2 & E2 & S2 & K2).
    destruct (@writes_at_entries (cjson_to_str_rec fuel true) (indent + 2)
                (entries o) Hmem sb2 K2) as (sb3 & E3 & S3 & K3).
    destruct (@writes_at_newline indent sb3 K3) as (sb4 & E4 & S4 & K4).
    destruct (writes_put_char "}" indent K4) as (sb5 & E5 & S5 & K5).
    exists sb5. unfold to_str_body. cbn [element_type value read_object bind].
    rewrite E1. cbn [bind]. rewrite E2. cbn [bind]. cbv zeta.
    rewrite <- to_str_object_entries in E3.
    apply bind_ret_inv in E3. destruct E3 as (stA & EA & E3).
    apply bind_ret_inv in E3. destruct E3 as (itB & EB & E3).
    rewrite EA. cbn [bind]. rewrite EB. cbn [bind]. rewrite E3. cbn [bind].
    rewrite Nat.add_sub, E4. cbn [bind]. rewrite E5.
    split; [reflexivity|]. split; [|exact K5].
    rewrite S5, S4, S3, S2, S1. cbn [app]. rewrite <- !app_assoc. reflexivity.
  - (* scalars: as in compact mode *)
    rewrite render_pretty_scalar by assumption.
    apply writes_at_of_writes.
    pose proof (@to_str_rec_render (Element t v) Hp fuel Hfuel) as Hw.
    destruct fuel as [|fuel]; [simpl in Hfuel; lia|].
    intros sb i Hok. specialize (Hw sb i Hok).
    cbn [cjson_to_str_rec] in Hw |- *.
    destruct t; try discriminate Ha; try discriminate Ho; exact Hw.
Qed.

Lemma to_str_pretty (T : cjson_element) :
  plain_tree T = true -> cjson_to_str (Some T) true = Ret (render_pretty 0 T).
Proof.
  intros Hp. unfold cjson_to_str.
  assert (Hok : sb_ok (mk_sb [] 0)) by (unfold sb_ok; simpl; lia).
  destruct (@to_str_rec_pretty T Hp (S (elt_size T)) 0 ltac:(lia) _ Hok)
    as (sb1 & E1 & S1 & K1).
  rewrite E1. cbn [bind].
  destruct (append_char_ok NUL K1) as (sb2 & E2 & S2 & K2).
  rewrite E2. cbn [bind]. rewrite S2, S1. cbn [app str].
  rewrite c_str_app_nul by (apply render_pretty_is_cstr; exact Hp). reflexivity.
Qed.


(** ** Parser: white space between the tokens *)

Lemma space_run_skip_space (s : list ascii) : space_run (skip_space s) = 0.
Proof.
  induction s as [|c s IH]; [reflexivity|]. cbn [skip_space].
  destruct (isspace c) eqn:Hc; [exact IH|]. cbn [space_run]. rewrite Hc. reflexivity.
Qed.

Lemma parse_ws_input (lexer : cjson_lexer) :
  input (cjson_parse_ws lexer) = skip_space (input lexer).
Proof. unfold cjson_parse_ws. rewrite input_advance. apply skipn_space_run. Qed.

Lemma parse_ws_idem (lexer : cjson_lexer) :
  cjson_parse_ws (cjson_parse_ws lexer) = cjson_parse_ws lexer.
Proof.
  apply parse_ws_id. rewrite parse_ws_input. apply space_run_skip_space.
Qed.

Lemma parse_ws_consumed (lexer : cjson_lexer) :
  cjson_parse_ws (consumed lexer) = consumed (cjson_parse_ws lexer).
Proof. reflexivity. Qed.

Lemma parse_ws_consumed_ws (lexer : cjson_lexer) :
  cjson_parse_ws (consumed (cjson_parse_ws lexer)) = cjson_parse_ws (consumed lexer).
Proof. rewrite !parse_ws_consumed, parse_ws_idem. reflexivity. Qed.

(** [cjson_parse_element] starts with [cjson_parse_ws]. *)
Lemma parse_element_ws (fuel : nat) (lexer : cjson_lexer) (error : bool) :
  cjson_parse_element fuel (cjson_parse_ws lexer) error
  = cjson_parse_element fuel lexer error.
Proof.
  destruct fuel as [|fuel]; [reflexivity|].
  cbn [cjson_parse_element]. unfold parse_element_body.
  rewrite parse_ws_idem. reflexivity.
Qed.

(** A container read by a lexer that holds its opening bracket skips the
    white space after the bracket itself. *)
Lemma parse_object_ws (rec : cjson_lexer -> bool -> outcome parse_result)
  (lexer : cjson_lexer) (error : bool) :
  tok_eqb (type (token lexer)) CJSON_TOK_NONE = false ->
  cjson_parse_object rec (cjson_parse_ws lexer) error
  = cjson_parse_object rec lexer error.
Proof.
  intros Hq. unfold cjson_parse_object.
  rewrite (pop_held (cjson_parse_ws lexer)) by exact Hq.
  rewrite (pop_held lexer) by exact Hq. cbn [bind].
  rewrite parse_ws_consumed_ws. reflexivity.
Qed.

Lemma parse_array_ws (rec : cjson_lexer -> bool -> outcome parse_result)
  (lexer : cjson_lexer) (error : bool) :
  tok_eqb (type (token lexer)) CJSON_TOK_NONE = false ->
  cjson_parse_array rec (cjson_parse_ws lexer) error
  = cjson_parse_array rec lexer error.
Proof.
  intros Hq. unfold cjson_parse_array.
  rewrite (pop_held (cjson_parse_ws lexer)) by exact Hq.
  rewrite (pop_held lexer) by exact Hq. cbn [bind].
  rewrite parse_ws_consumed_ws. reflexivity.
Qed.

(** An element whose first token the caller has looked at. *)
Lemma parse_element_peeked (fuel : nat) (lexer peeked : cjson_lexer) (error : bool) :
  type (token lexer) = CJSON_TOK_NONE ->
  cjson_read_next_token lexer = Ret peeked ->
  tok_eqb (type (token peeked)) CJSON_TOK_NONE = false ->
  space_run (input lexer) = 0 ->
  cjson_parse_element fuel peeked error = cjson_parse_element fuel lexer error.
Proof.
  intros Ht Hr Hq Hs. destruct fuel as [|fuel]; [reflexivity|].
  cbn [cjson_parse_element]. unfold parse_element_body.
  rewrite (parse_ws_id lexer) by exact Hs.
  unfold cjson_parse_value.
  rewrite (peek_fresh _ Ht Hr), (peek_held (cjson_parse_ws peeked)) by exact Hq.
  cbn [bind].
  change (token (cjson_parse_ws peeked)) with (token peeked).
  assert (Hpop : cjson_lexer_pop (cjson_parse_ws peeked)
                 = Ret (token peeked, consumed (cjson_parse_ws peeked)))
    by (apply (pop_held (cjson_parse_ws peeked)); exact Hq).
  pose proof (pop_held peeked Hq) as Hpop'.
  pose proof (fun r e => @parse_object_ws r peeked e Hq) as Hobj.
  pose proof (fun r e => @parse_array_ws r peeked e Hq) as Harr.
  destruct (type (token peeked)) eqn:Hty.
  all: rewrite ?Hobj, ?Harr; try reflexivity.
  all: try (destruct (cjson_extract_string (token peeked)); cbn [bind];
            [|reflexivity..]).
  all: rewrite ?Hpop, ?Hpop'; cbn [bind].
  all: rewrite ?parse_ws_consumed_ws, ?parse_ws_idem; reflexivity.
Qed.

Lemma space_not_number (c : ascii) :
  isspace c = true -> isdigit c = false /\ Ascii.eqb c "." = false.
Proof.
  destruct c as [[] [] [] [] [] [] [] []]; vm_compute; intros H;
    split; congruence.
Qed.

Lemma number_ends_blank (ws : list ascii) (c : ascii) (rest : list ascii) :
  forallb isspace ws = true ->
  c = "]"%char \/ c = "}"%char \/ c = ","%char ->
  number_ends (ws ++ c :: rest) = true.
Proof.
  intros Hws Hc. destruct ws as [|w ws].
  - destruct Hc as [->|[->| ->]]; reflexivity.
  - cbn [forallb] in Hws. apply andb_prop in Hws. destruct Hws as [Hw _].
    destruct (space_not_number _ Hw) as [Hd Hp].
    cbn [app number_ends]. rewrite Hd, Hp. reflexivity.
Qed.

Lemma solid_space_run (t rest : list ascii) :
  solid t = true -> space_run (t ++ rest) = 0.
Proof.
  destruct t as [|c t]; [discriminate|]. cbn [solid]. intros H.
  apply negb_true_iff in H. apply space_run_cons. exact H.
Qed.

Lemma skip_blank_solid (ws t rest : list ascii) :
  forallb isspace ws = true -> solid t = true ->
  skip_space (ws ++ t ++ rest) = t ++ rest.
Proof.
  intros Hws Ht. rewrite skip_space_app by exact Hws.
  apply skip_space_id, solid_space_run, Ht.
Qed.

Lemma tail_sp_length (sep : list ascii) (l : list (list ascii)) :
  length l <= length (tail_sp sep l).
Proof.
  induction l as [|x l IH]; [simpl; lia|].
  rewrite tail_sp_cons. cbn [length]. rewrite !length_app. lia.
Qed.

Lemma skip_tail_sp (sep trail : list ascii) (l : list (list ascii)) (c : ascii)
  (rest : list ascii) :
  forallb isspace trail = true -> isspace c = false ->
  skip_space (tail_sp sep l ++ trail ++ c :: rest)
  = match l with
    | [] => c :: rest
    | _ => tail_sp sep l ++ trail ++ c :: rest
    end.
Proof.
  intros Htrail Hc. destruct l as [|x l].
  - cbn [tail_sp map concat app]. rewrite skip_space_app by exact Htrail.
    cbn [skip_space]. rewrite Hc. reflexivity.
  - rewrite tail_sp_cons. reflexivity.
Qed.

Lemma number_ends_tail_sp (sep trail : list ascii) (l : list (list ascii)) (c : ascii)
  (rest : list ascii) :
  forallb isspace trail = true ->
  c = "]"%char \/ c = "}"%char ->
  number_ends (tail_sp sep l ++ trail ++ c :: rest) = true.
Proof.
  intros Htrail Hc. destruct l as [|x l].
  - apply number_ends_blank; [exact Htrail | tauto].
  - rewrite tail_sp_cons. reflexivity.
Qed.

Lemma loop_fuel (sep trail : list ascii) (l : list (list ascii)) (c : ascii)
  (rest : list ascii) :
  length l <= S (length (skip_space (tail_sp sep l ++ trail ++ c :: rest))).
Proof.
  destruct l as [|x l]; [simpl; lia|].
  rewrite tail_sp_cons. cbn [app skip_space isspace].
  change (isspace ","%char) with false. cbv iota.
  pose proof (tail_sp_length sep l). cbn [length]. rewrite !length_app. lia.
Qed.

Section Spaced.
Variable rec : cjson_lexer -> bool -> outcome parse_result.
Hypothesis rec_ws :
  forall lexer error, rec (cjson_parse_ws lexer) error = rec lexer error.
Variables lead sep trail : list ascii.
Hypothesis lead_blank : forallb isspace lead = true.
Hypothesis sep_blank : forallb isspace sep = true.
Hypothesis trail_blank : forallb isspace trail = true.

Lemma elements_loop_sp (texts : list (list ascii)) (xs' : list (option cjson_element)) :
  Forall2 (fun t x' => solid t = true /\ parses_sp rec t x') texts xs' ->
  forall n lexer array array' rest,
    length texts <= n ->
    fresh lexer (skip_space (tail_sp sep texts ++ trail ++ "]"%char :: rest)) ->
    append_all array xs' = Ret array' ->
    exists lexer_e,
      fresh lexer_e ("]"%char :: rest)
      /\ elements_loop rec n lexer array false
         = Ret (after_token lexer_e CJSON_TOK_RBRACK 1 (integer_value (token lexer_e)),
                array', false).
Proof.
  induction 1 as [|t x' texts xs' [Hsolid Hx] Hrest IH];
    intros n lexer array array' rest Hn Hf Happ.
  - simpl in Happ. injection Happ as <-. exists lexer.
    rewrite skip_tail_sp in Hf by (try exact trail_blank; reflexivity).
    split; [exact Hf|].
    destruct Hf as [Ht Hin].
    assert (Hpeek := peek_fresh _ Ht
                       (@lex_punct lexer _ _ CJSON_TOK_RBRACK Hin ltac:(tauto))).
    destruct n; cbn [elements_loop]; rewrite Hpeek; reflexivity.
  - destruct n as [|n]; [simpl in Hn; lia|].
    rewrite skip_tail_sp in Hf by (try exact trail_blank; reflexivity).
    destruct Hf as [Ht Hin]. rewrite tail_sp_cons in Hin.
    cbn [app] in Hin. rewrite <- !app_assoc in Hin.
    set (rest1 := tail_sp sep texts ++ trail ++ "]"%char :: rest) in *.
    assert (Hpeek := peek_fresh _ Ht
                       (@lex_punct lexer _ _ CJSON_TOK_COMMA Hin ltac:(tauto))).
    set (lexer1 := after_token lexer CJSON_TOK_COMMA 1 (integer_value (token lexer))) in *.
    assert (Hf1 : fresh (consumed lexer1) (sep ++ t ++ rest1)).
    { apply (@fresh_after_pop lexer CJSON_TOK_COMMA [","%char] _
               (integer_value (token lexer)) Hin). }
    apply parse_ws_fresh in Hf1.
    rewrite skip_blank_solid in Hf1 by assumption.
    destruct (Hx _ _ Hf1) as (lexer2 & _ & Hrec & Hf2 & _).
    { apply number_ends_tail_sp; [exact trail_blank | tauto]. }
    rewrite rec_ws in Hrec.
    cbn [append_all] in Happ. apply bind_ret_inv in Happ.
    destruct Happ as (array1 & Happ1 & Happ).
    destruct (IH n lexer2 array1 array' rest) as (lexer_e & Hfe & Hloop);
      [simpl in Hn; lia | exact Hf2 | exact Happ|].
    exists lexer_e. split; [exact Hfe|].
    cbn [elements_loop]. rewrite Hpeek. cbn [bind].
    change (tok_eqb (type (token lexer1)) CJSON_TOK_COMMA) with true. cbn [negb].
    rewrite (pop_held lexer1) by reflexivity. cbn [bind].
    rewrite Hrec. cbn [bind]. rewrite Happ1. cbn [bind]. exact Hloop.
Qed.

Lemma parse_array_sp (texts : list (list ascii)) (xs' : list (option cjson_element))
  (array' : cjson_array) (lexer : cjson_lexer) (rest : list ascii) (iv : Z) :
  Forall2 (fun t x' => solid t = true /\ parses_sp rec t x') texts xs' ->
  append_all (mk_array [] 0) xs' = Ret array' ->
  input lexer
  = "["%char :: lead ++ join_sp sep texts ++ trail ++ "]"%char :: rest ->
  exists lexer',
    cjson_parse_array rec (after_token lexer CJSON_TOK_LBRACK 1 iv) false
    = Ret (Some (Element CJSON_ARRAY (val_array array')), lexer', false)
    /\ fresh lexer' rest.
Proof.
  intros Hall Happ Hin.
  set (lexer0 := after_token lexer CJSON_TOK_LBRACK 1 iv).
  assert (Hf0 : fresh (consumed lexer0)
                  (lead ++ join_sp sep texts ++ trail ++ "]"%char :: rest)).
  { apply (@fresh_after_pop lexer CJSON_TOK_LBRACK ["["%char] _ iv Hin). }
  apply parse_ws_fresh in Hf0.
  rewrite skip_space_app in Hf0 by exact lead_blank.
  unfold cjson_parse_array.
  rewrite (pop_held lexer0) by reflexivity. cbn [bind].
  destruct Hall as [|t x' texts xs' [Hsolid Hx] Hrest].
  - simpl in Happ. injection Happ as <-.
    cbn [join_sp app] in Hf0.
    rewrite skip_space_app in Hf0 by exact trail_blank.
    destruct Hf0 as [Ht Hi]. cbn [skip_space] in Hi.
    change (isspace "]"%char) with false in Hi. cbv iota in Hi.
    rewrite (peek_fresh _ Ht (@lex_punct _ _ _ CJSON_TOK_RBRACK Hi ltac:(tauto))).
    cbn [bind].
    set (lexer1 := after_token (cjson_parse_ws (consumed lexer0)) CJSON_TOK_RBRACK 1 _).
    change (tok_eqb (type (token lexer1)) CJSON_TOK_RBRACK) with true. cbn [negb].
    rewrite (pop_held lexer1) by reflexivity. cbn [bind].
    eexists. split; [reflexivity|].
    apply (@fresh_after_pop (cjson_parse_ws (consumed lexer0)) CJSON_TOK_RBRACK
             ["]"%char] rest
             (integer_value (token (cjson_parse_ws (consumed lexer0)))) Hi).
  - cbn [join_sp] in Hf0. rewrite <- app_assoc in Hf0.
    set (rest1 := tail_sp sep texts ++ trail ++ "]"%char :: rest) in *.
    rewrite skip_space_id in Hf0 by (apply solid_space_run; exact Hsolid).
    destruct (Hx _ _ Hf0) as (lexer2 & peeked & _ & Hf2 & Hread & Htype & Hrec).
    { apply number_ends_tail_sp; [exact trail_blank | tauto]. }
    rewrite (peek_fresh _ (proj1 Hf0) Hread). cbn [bind].
    rewrite Htype. cbn [negb]. rewrite Hrec. cbn [bind].
    cbn [append_all] in Happ. apply bind_ret_inv in Happ.
    destruct Happ as (array1 & Happ1 & Happ).
    rewrite Happ1. cbn [bind].
    destruct (@elements_loop_sp texts xs' Hrest (S (length (input lexer2))) lexer2
                array1 array' rest)
      as (lexer_e & Hfe & Hloop); [|exact Hf2 | exact Happ|].
    { destruct Hf2 as [_ ->]. unfold rest1. apply loop_fuel. }
    rewrite Hloop. cbn [bind].
    set (lexer3 := after_token lexer_e CJSON_TOK_RBRACK 1 _).
    rewrite (peek_held lexer3) by reflexivity. cbn [bind].
    change (tok_eqb (type (token lexer3)) CJSON_TOK_RBRACK) with true. cbn [negb].
    rewrite (pop_held lexer3) by reflexivity. cbn [bind].
    eexists. split; [reflexivity|].
    apply (@fresh_after_pop lexer_e CJSON_TOK_RBRACK ["]"%char] rest
             (integer_value (token lexer_e)) (proj2 Hfe)).
Qed.

Variable vt : cjson_map_item -> list ascii.

Lemma member_sp_split (it : cjson_map_item) (rest : list ascii) :
  member_sp vt it ++ rest
  = quote :: name it ++ quote :: ([":"%char] ++ vt it ++ rest).
Proof.
  unfold member_sp. simpl. rewrite <- app_assoc. reflexivity.
Qed.

Lemma member_sp_solid (it : cjson_map_item) : solid (member_sp vt it) = true.
Proof. reflexivity. Qed.

Lemma parse_member_sp (it it' : cjson_map_item) (lexer0 lexer : cjson_lexer)
  (rest : list ascii) (m m' : cjson_map) :
  member_parses_sp rec vt it it' ->
  fresh lexer0 (member_sp vt it ++ rest) ->
  cjson_parse_ws lexer = lexer0 \/ cjson_read_next_token lexer0 = Ret lexer ->
  number_ends rest = true ->
  cjson_map_insert m (name it') (element it') = Ret m' ->
  exists lexer',
    cjson_parse_member rec lexer m false = Ret (lexer', m', false)
    /\ fresh lexer' (skip_space rest).
Proof.
  intros (Hname & Hplain & Hrec) [Ht Hin] Hstate Hnum Hins.
  rewrite member_sp_split in Hin.
  pose proof (@lex_string lexer0 (name it) _ Hin Hplain) as Hread.
  set (lexer1 := after_token lexer0 CJSON_TOK_STRING
                   (length (quote :: name it ++ [quote]))
                   (integer_value (token lexer0))) in *.
  assert (Hin1 : input lexer1 = [":"%char] ++ vt it ++ rest).
  { apply (@after_token_input lexer0 CJSON_TOK_STRING (quote :: name it ++ [quote])).
    rewrite Hin. simpl. rewrite <- app_assoc. reflexivity. }
  assert (Hpop : cjson_lexer_pop (cjson_parse_ws lexer)
                 = Ret (token lexer1, consumed lexer1)).
  { destruct Hstate as [->|Hr].
    - apply pop_fresh; assumption.
    - rewrite Hread in Hr. injection Hr as <-.
      rewrite parse_ws_id by (rewrite Hin1; reflexivity).
      apply pop_held. reflexivity. }
  unfold cjson_parse_member. rewrite Hpop. cbn [bind].
  change (tok_eqb (type (token lexer1)) CJSON_TOK_STRING) with true. cbn [negb].
  replace (strndup (skipn 1 (content (token lexer1)))
             (content_len (token lexer1) - 2)) with (name it').
  2:{ cbn [lexer1 after_token token content content_len]. rewrite Hin, Hname.
      symmetry. apply member_name_plain. exact Hplain. }
  rewrite parse_ws_id by (change (space_run (input lexer1) = 0); rewrite Hin1; reflexivity).
  assert (Hf1 : fresh (consumed lexer1) ([":"%char] ++ vt it ++ rest))
    by (split; [reflexivity | exact Hin1]).
  rewrite (peek_fresh _ (proj1 Hf1)
             (@lex_punct _ _ _ CJSON_TOK_COLON (proj2 Hf1) ltac:(tauto))).
  cbn [bind].
  set (lexer2 := after_token (consumed lexer1) CJSON_TOK_COLON 1 _).
  change (tok_eqb (type (token lexer2)) CJSON_TOK_COLON) with true. cbn [negb].
  rewrite (pop_held lexer2) by reflexivity. cbn [bind].
  destruct (Hrec (consumed lexer2) rest) as (lexer' & _ & Hrun & Hf' & _).
  - apply (@fresh_after_pop (consumed lexer1) CJSON_TOK_COLON [":"%char] _
             (integer_value (token (consumed lexer1))) (proj2 Hf1)).
  - exact Hnum.
  - rewrite Hrun. cbn [bind]. rewrite Hins. cbn [bind].
    exists lexer'. split; [reflexivity | exact Hf'].
Qed.

Lemma members_loop_sp (its its' : list cjson_map_item) :
  Forall2 (member_parses_sp rec vt) its its' ->
  forall n lexer m m' rest,
    length its <= n ->
    fresh lexer
      (skip_space (tail_sp sep (map (member_sp vt) its) ++ trail ++ "}"%char :: rest)) ->
    insert_all m its' = Ret m' ->
    exists lexer_e,
      fresh lexer_e ("}"%char :: rest)
      /\ members_loop rec n lexer m false
         = Ret (after_token lexer_e CJSON_TOK_RBRACE 1 (integer_value (token lexer_e)),
                m', false).
Proof.
  induction 1 as [|it it' its its' Hit Hrest IH]; intros n lexer m m' rest Hn Hf Hins.
  - simpl in Hins. injection Hins as <-. exists lexer.
    cbn [map] in Hf.
    rewrite skip_tail_sp in Hf by (try exact trail_blank; reflexivity).
    split; [exact Hf|].
    destruct Hf as [Ht Hin].
    assert (Hpeek := peek_fresh _ Ht
                       (@lex_punct lexer _ _ CJSON_TOK_RBRACE Hin ltac:(tauto))).
    destruct n; cbn [members_loop]; rewrite Hpeek; reflexivity.
  - destruct n as [|n]; [simpl in Hn; lia|].
    cbn [map] in Hf.
    rewrite skip_tail_sp in Hf by (try exact trail_blank; reflexivity).
    destruct Hf as [Ht Hin]. rewrite tail_sp_cons in Hin.
    cbn [app] in Hin. rewrite <- !app_assoc in Hin.
    set (rest1 := tail_sp sep (map (member_sp vt) its) ++ trail ++ "}"%char :: rest) in *.
    assert (Hpeek := peek_fresh _ Ht
                       (@lex_punct lexer _ _ CJSON_TOK_COMMA Hin ltac:(tauto))).
    set (lexer1 := after_token lexer CJSON_TOK_COMMA 1 (integer_value (token lexer))) in *.
    assert (Hf1 : fresh (consumed lexer1) (sep ++ member_sp vt it ++ rest1)).
    { apply (@fresh_after_pop lexer CJSON_TOK_COMMA [","%char] _
               (integer_value (token lexer)) Hin). }
    apply parse_ws_fresh in Hf1.
    rewrite skip_blank_solid in Hf1 by (try exact sep_blank; apply member_sp_solid).
    cbn [insert_all] in Hins. apply bind_ret_inv in Hins.
    destruct Hins as (m1 & Hins1 & Hins).
    destruct (@parse_member_sp it it' (cjson_parse_ws (consumed lexer1))
                (consumed lexer1) rest1 m m1 Hit Hf1 (or_introl eq_refl))
      as (lexer2 & Hmem & Hf2); [|exact Hins1|].
    { apply number_ends_tail_sp; [exact trail_blank | tauto]. }
    destruct (IH n lexer2 m1 m' rest) as (lexer_e & Hfe & Hloop);
      [simpl in Hn; lia | exact Hf2 | exact Hins|].
    exists lexer_e. split; [exact Hfe|].
    cbn [members_loop]. rewrite Hpeek. cbn [bind].
    change (tok_eqb (type (token lexer1)) CJSON_TOK_COMMA) with true. cbn [negb].
    rewrite (pop_held lexer1) by reflexivity. cbn [bind].
    rewrite Hmem. cbn [bind]. exact Hloop.
Qed.

Lemma parse_object_sp (its its' : list cjson_map_item) (m' : cjson_map)
  (lexer : cjson_lexer) (rest : list ascii) (iv : Z) :
  Forall2 (member_parses_sp rec vt) its its' ->
  insert_all (mk_map (repeat [] 64)) its' = Ret m' ->
  input lexer
  = "{"%char :: lead ++ join_sp sep (map (member_sp vt) its) ++ trail
      ++ "}"%char :: rest ->
  exists lexer',
    cjson_parse_object rec (after_token lexer CJSON_TOK_LBRACE 1 iv) false
    = Ret (Some (Element CJSON_OBJECT (val_object m')), lexer', false)
    /\ fresh lexer' rest.
Proof.
  intros Hall Hins Hin.
  set (lexer0 := after_token lexer CJSON_TOK_LBRACE 1 iv).
  assert (Hf0 : fresh (consumed lexer0)
                  (lead ++ join_sp sep (map (member_sp vt) its) ++ trail
                     ++ "}"%char :: rest)).
  { apply (@fresh_after_pop lexer CJSON_TOK_LBRACE ["{"%char] _ iv Hin). }
  apply parse_ws_fresh in Hf0.
  rewrite skip_space_app in Hf0 by exact lead_blank.
  unfold cjson_parse_object.
  rewrite (pop_held lexer0) by reflexivity. cbn [bind].
  destruct Hall as [|it it' its its' Hit Hrest].
  - simpl in Hins. injection Hins as <-.
    cbn [map join_sp app] in Hf0.
    rewrite skip_space_app in Hf0 by exact trail_blank.
    destruct Hf0 as [Ht Hi]. cbn [skip_space] in Hi.
    change (isspace "}"%char) with false in Hi. cbv iota in Hi.
    rewrite (peek_fresh _ Ht (@lex_punct _ _ _ CJSON_TOK_RBRACE Hi ltac:(tauto))).
    cbn [bind].
    set (lexer1 := after_token (cjson_parse_ws (consumed lexer0)) CJSON_TOK_RBRACE 1 _).
    change (tok_eqb (type (token lexer1)) CJSON_TOK_RBRACE) with true. cbn [negb bind].
    rewrite (pop_held lexer1) by reflexivity. cbn [bind].
    change (tok_eqb (type (token lexer1)) CJSON_TOK_RBRACE) with true. cbn [negb].
    eexists. split; [reflexivity|].
    apply (@fresh_after_pop (cjson_parse_ws (consumed lexer0)) CJSON_TOK_RBRACE
             ["}"%char] rest
             (integer_value (token (cjson_parse_ws (consumed lexer0)))) Hi).
  - cbn [map join_sp] in Hf0. rewrite <- app_assoc in Hf0.
    set (rest1 := tail_sp sep (map (member_sp vt) its) ++ trail ++ "}"%char :: rest) in *.
    rewrite skip_space_id in Hf0 by (apply solid_space_run, member_sp_solid).
    destruct Hf0 as [Ht0 Hi0].
    pose proof Hit as (_ & Hplain & _).
    assert (Hi0' := Hi0). rewrite member_sp_split in Hi0'.
    pose proof (@lex_string (cjson_parse_ws (consumed lexer0)) (name it) _ Hi0' Hplain)
      as Hread.
    rewrite (peek_fresh _ Ht0 Hread). cbn [bind].
    set (peeked := after_token (cjson_parse_ws (consumed lexer0)) CJSON_TOK_STRING _ _) in *.
    change (tok_eqb (type (token peeked)) CJSON_TOK_RBRACE) with false. cbn [negb].
    cbn [insert_all] in Hins. apply bind_ret_inv in Hins.
    destruct Hins as (m1 & Hins1 & Hins).
    destruct (@parse_member_sp it it' (cjson_parse_ws (consumed lexer0)) peeked rest1
                (mk_map (repeat [] 64)) m1 Hit (conj Ht0 Hi0) (or_intror Hread))
      as (lexer2 & Hmem & Hf2); [|exact Hins1|].
    { apply number_ends_tail_sp; [exact trail_blank | tauto]. }
    unfold cjson_parse_members. rewrite Hmem. cbn [bind].
    destruct (@members_loop_sp its its' Hrest (S (length (input lexer2))) lexer2
                m1 m' rest)
      as (lexer_e & Hfe & Hloop); [|exact Hf2 | exact Hins|].
    { destruct Hf2 as [_ ->]. unfold rest1.
      rewrite <- (length_map (member_sp vt) its). apply loop_fuel. }
    rewrite Hloop. cbn [bind].
    set (lexer3 := after_token lexer_e CJSON_TOK_RBRACE 1 _).
    rewrite (pop_held lexer3) by reflexivity. cbn [bind].
    change (tok_eqb (type (token lexer3)) CJSON_TOK_RBRACE) with true. cbn [negb].
    eexists. split; [reflexivity|].
    apply (@fresh_after_pop lexer_e CJSON_TOK_RBRACE ["}"%char] rest
             (integer_value (token lexer_e)) (proj2 Hfe)).
Qed.
End Spaced.


(** ** Round trip through the pretty text *)

Lemma blank_newline (indent : nat) : forallb isspace (newline indent) = true.
Proof.
  unfold newline. cbn [forallb]. apply andb_true_intro. split; [reflexivity|].
  apply forallb_forall. intros c Hc. apply repeat_spec in Hc. subst c. reflexivity.
Qed.

Lemma render_pretty_solid (T : cjson_element) (indent : nat) :
  plain_tree T = true -> solid (render_pretty indent T) = true.
Proof.
  intros Hp. destruct T as [t v].
  destruct (cjson_is_array (Element t v)) eqn:Ha;
    [|destruct (cjson_is_object (Element t v)) eqn:Ho].
  - destruct t; try discriminate Ha. destruct v; try discriminate Hp. reflexivity.
  - destruct t; try discriminate Ho. destruct v; try discriminate Hp. reflexivity.
  - rewrite render_pretty_scalar by assumption.
    destruct (render_head _ Hp) as (c & r & -> & Hc). cbn [solid].
    rewrite Hc. reflexivity.
Qed.

(** The first token of the pretty text of a plain tree. *)
Lemma first_token_pretty (T : cjson_element) (indent : nat) (lexer : cjson_lexer)
  (rest : list ascii) :
  plain_tree T = true ->
  input lexer = render_pretty indent T ++ rest ->
  (cjson_is_integer T = true -> number_ends rest = true) ->
  exists peeked,
    cjson_read_next_token lexer = Ret peeked
    /\ tok_eqb (type (token peeked)) CJSON_TOK_NONE = false
    /\ tok_eqb (type (token peeked)) CJSON_TOK_RBRACK = false.
Proof.
  intros Hp Hin Hnum. destruct T as [t v]. destruct t.
  - destruct v; try discriminate Hp.
    eexists. split;
      [apply (@lex_keyword lexer _ rest CJSON_TOK_NULL Hin); left; reflexivity|].
    split; reflexivity.
  - destruct v; try discriminate Hp. destruct b.
    + eexists. split;
        [apply (@lex_keyword lexer _ rest CJSON_TOK_TRUE Hin); right; left; reflexivity|].
      split; reflexivity.
    + eexists. split;
        [apply (@lex_keyword lexer _ rest CJSON_TOK_FALSE Hin); right; right; reflexivity|].
      split; reflexivity.
  - destruct (plain_int_render _ Hp eq_refl) as (i & -> & Hi & Hr).
    change (render_pretty indent (Element CJSON_INTEGER (val_integer i)))
      with (render (Element CJSON_INTEGER (val_integer i))) in Hin.
    rewrite Hr in Hin.
    eexists. split; [apply (@lex_integer lexer i rest Hin Hi (Hnum eq_refl))|].
    split; reflexivity.
  - destruct v; discriminate Hp.
  - destruct v as [| | | |[s|]| |]; try discriminate Hp.
    simpl in Hp.
    assert (Hin' : input lexer = quote :: s ++ quote :: rest)
      by (rewrite Hin; simpl; rewrite <- app_assoc; reflexivity).
    eexists. split; [apply (@lex_string lexer s rest Hin' Hp)|].
    split; reflexivity.
  - destruct v; try discriminate Hp.
    rewrite render_pretty_array in Hin.
    eexists. split; [apply (@lex_punct lexer _ _ CJSON_TOK_LBRACK Hin); tauto|].
    split; reflexivity.
  - destruct v; try discriminate Hp.
    rewrite render_pretty_object in Hin.
    eexists. split; [apply (@lex_punct lexer _ _ CJSON_TOK_LBRACE Hin); tauto|].
    split; reflexivity.
Qed.

Lemma parses_sp_of_run (T T' : cjson_element) (indent fuel : nat) :
  plain_tree T = true ->
  (forall lexer rest,
      fresh lexer (render_pretty indent T ++ rest) ->
      (cjson_is_integer T = true -> number_ends rest = true) ->
      exists lexer',
        cjson_parse_element fuel lexer false = Ret (Some T', lexer', false)
        /\ fresh lexer' (skip_space rest)) ->
  parses_sp (cjson_parse_element fuel) (render_pretty indent T) (Some T').
Proof.
  intros Hp Hrun lexer rest Hf Hnum.
  destruct (Hrun lexer rest Hf (fun _ => Hnum)) as (lexer' & Hr & Hf').
  destruct (@first_token_pretty T indent lexer rest Hp (proj2 Hf) (fun _ => Hnum))
    as (peeked & Hread & Hnone & Hrb).
  exists lexer', peeked. repeat split; try assumption; try apply Hf'.
  rewrite (@parse_element_peeked fuel lexer peeked false (proj1 Hf) Hread Hnone);
    [exact Hr|].
  rewrite (proj2 Hf). apply solid_space_run, render_pretty_solid. exact Hp.
Qed.

(** What the parser makes of the pretty text of a plain tree, at every
    indent. *)
Lemma parse_pretty (T : cjson_element) :
  plain_tree T = true ->
  exists T',
    struct_eq T T'
    /\ forall indent fuel lexer rest,
        elt_size T <= fuel ->
        fresh lexer (render_pretty indent T ++ rest) ->
        (cjson_is_integer T = true -> number_ends rest = true) ->
        exists lexer',
          cjson_parse_element fuel lexer false = Ret (Some T', lexer', false)
          /\ fresh lexer' (skip_space rest).
Proof.
  induction T as [T IH] using tree_ind. intros Hp.
  destruct T as [t v].
  destruct (cjson_is_array (Element t v)) eqn:Ha;
    [|destruct (cjson_is_object (Element t v)) eqn:Ho].
  - (* array *)
    destruct t; try discriminate Ha. destruct v; try discriminate Hp.
    pose proof (plain_array _ Hp) as Hall. rewrite forallb_forall in Hall.
    set (T := Element CJSON_ARRAY (val_array a)) in *.
    destruct (@build_list _ _
                (fun x x' =>
                   slot_rel struct_eq x x'
                   /\ forall indent fuel, elt_size T <= S fuel ->
                        solid (slot_pretty indent x) = true
                        /\ parses_sp (cjson_parse_element fuel) (slot_pretty indent x) x')
                (elements a)) as (xs' & Hxs).
    { intros x Hx. specialize (Hall x Hx). destruct x as [x|]; [|discriminate].
      pose proof (slot_size CJSON_ARRAY a x Hx) as Hsize.
      destruct (IH x Hsize Hall) as (x' & Heq & Hrun).
      exists (Some x'). split; [constructor; exact Heq|].
      intros indent fuel Hfuel. split; [apply render_pretty_solid; exact Hall|].
      apply parses_sp_of_run; [exact Hall|].
      intros lexer rest. apply Hrun. fold T in Hsize. lia. }
    destruct (@append_all_spec xs' (mk_array [] 0)) as (array' & Happ & Hels & _);
      [simpl; unfold size; simpl; lia|].
    exists (Element CJSON_ARRAY (val_array array')). split.
    { constructor. rewrite Hels. simpl.
      eapply Forall2_impl; [|exact Hxs]. intros x x' [H _]. exact H. }
    intros indent [|fuel] lexer rest Hfuel Hf _; [simpl in Hfuel; lia|].
    destruct Hf as [Ht Hin]. unfold T in Hin.
    rewrite render_pretty_array in Hin.
    assert (Hin' : input lexer
                   = "["%char :: newline (indent + 2)
                       ++ join_sp (newline (indent + 2))
                            (map (slot_pretty (indent + 2)) (elements a))
                       ++ newline indent ++ "]"%char :: rest)
      by (rewrite Hin; cbn [app]; rewrite <- !app_assoc; reflexivity).
    destruct (@parse_array_sp (cjson_parse_element fuel) (parse_element_ws fuel)
                (newline (indent + 2)) (newline (indent + 2)) (newline indent)
                (blank_newline _) (blank_newline _) (blank_newline _)
                (map (slot_pretty (indent + 2)) (elements a)) xs' array'
                lexer rest (integer_value (token lexer)))
      as (lexer1 & Hrun & Hf1); [|exact Happ | exact Hin'|].
    { clear - Hxs Hfuel. induction Hxs as [|x x' xs xs' [_ Hx] _ IHx]; [constructor|].
      cbn [map]. constructor; [|exact IHx]. apply Hx. exact Hfuel. }
    exists (cjson_parse_ws lexer1). split; [|apply parse_ws_fresh; exact Hf1].
    cbn [cjson_parse_element]. unfold parse_element_body.
    rewrite parse_ws_id by (rewrite Hin'; reflexivity).
    unfold cjson_parse_value.
    rewrite (peek_fresh _ Ht (@lex_punct lexer _ _ CJSON_TOK_LBRACK Hin' ltac:(tauto))).
    cbn [bind after_token token type]. fold (after_token lexer CJSON_TOK_LBRACK 1
                                               (integer_value (token lexer))).
    rewrite Hrun. reflexivity.
  - (* object *)
    destruct t; try discriminate Ho. destruct v; try discriminate Hp.
    destruct (plain_object _ Hp) as (Hnd & Hall). rewrite forallb_forall in Hall.
    set (T := Element CJSON_OBJECT (val_object o)) in *.
    destruct (@build_list _ _
                (fun it it' =>
                   item_rel struct_eq it it'
                   /\ forall indent fuel, elt_size T <= S fuel ->
                        member_parses_sp (cjson_parse_element fuel)
                          (fun it => slot_pretty indent (element it)) it it')
                (entries o)) as (its' & Hits).
    { intros it Hit. specialize (Hall it Hit). unfold plain_item in Hall.
      apply andb_prop in Hall. destruct Hall as [Hname Hslot].
      destruct it as [nm [x|]]; [|discriminate]. cbn [name element plain_slot] in *.
      pose proof (member_size CJSON_OBJECT o _ Hit eq_refl) as Hsize.
      destruct (IH x Hsize Hslot) as (x' & Heq & Hrun).
      exists (mk_item nm (Some x')). split; [constructor; constructor; exact Heq|].
      intros indent fuel Hfuel. split; [reflexivity|]. split; [exact Hname|].
      cbn [element slot_pretty]. apply parses_sp_of_run; [exact Hslot|].
      intros lexer rest. apply Hrun. fold T in Hsize. lia. }
    assert (Hrel : Forall2 (item_rel struct_eq) (entries o) its')
      by (eapply Forall2_impl; [|exact Hits]; intros x x' [H _]; exact H).
    pose proof (Forall2_names Hrel) as Hnames.
    destruct (@insert_all_spec its' (mk_map (repeat [] 64))) as (m' & Hins & _ & Hperm).
    { apply empty_map_ok. discriminate. }
    { rewrite Hnames. exact Hnd. }
    { intros it' Hit'. apply plain_text_is_cstr.
      assert (Hn : In (name it') (map (@name _) (entries o)))
        by (rewrite <- Hnames; apply in_map; exact Hit').
      apply in_map_iff in Hn. destruct Hn as (it & Heq & Hit).
      rewrite <- Heq. specialize (Hall it Hit). unfold plain_item in Hall.
      apply andb_prop in Hall. apply Hall. }
    { intros it' _. unfold entries. cbn [items]. rewrite concat_repeat_empty. simpl. tauto. }
    exists (Element CJSON_OBJECT (val_object m')). split.
    { assert (Hp' : Permutation its' (entries m')).
      { symmetry. rewrite Hperm.
        change (entries {| items := repeat [] 64 |}) with (concat (repeat (@nil cjson_map_item) 64)).
        rewrite concat_repeat_empty, app_nil_r. symmetry. apply Permutation_rev. }
      assert (Hflip : Forall2 (fun a b => item_rel struct_eq b a) its' (entries o))
        by (apply Forall2_flip; exact Hrel).
      destruct (Permutation_Forall2 Hp' Hflip) as (lp & Hlp & Hf2).
      apply eq_object with (l := lp); [exact Hlp|].
      apply Forall2_flip. exact Hf2. }
    intros indent [|fuel] lexer rest Hfuel Hf _; [simpl in Hfuel; lia|].
    destruct Hf as [Ht Hin]. unfold T in Hin.
    rewrite render_pretty_object in Hin.
    assert (Hin' : input lexer
                   = "{"%char :: newline (indent + 2)
                       ++ join_sp (newline (indent + 2))
                            (map (member_sp (fun it => slot_pretty (indent + 2) (element it)))
                               (entries o))
                       ++ newline indent ++ "}"%char :: rest)
      by (rewrite Hin; cbn [app]; rewrite <- !app_assoc; reflexivity).
    destruct (@parse_object_sp (cjson_parse_element fuel)
                (newline (indent + 2)) (newline (indent + 2)) (newline indent)
                (blank_newline _) (blank_newline _) (blank_newline _)
                (fun it => slot_pretty (indent + 2) (element it))
                (entries o) its' m' lexer rest (integer_value (token lexer)))
      as (lexer1 & Hrun & Hf1); [|exact Hins | exact Hin'|].
    { eapply Forall2_impl; [|exact Hits]. intros x x' [_ H]. apply H. exact Hfuel. }
    exists (cjson_parse_ws lexer1). split; [|apply parse_ws_fresh; exact Hf1].
    cbn [cjson_parse_element]. unfold parse_element_body.
    rewrite parse_ws_id by (rewrite Hin'; reflexivity).
    unfold cjson_parse_value.
    rewrite (peek_fresh _ Ht (@lex_punct lexer _ _ CJSON_TOK_LBRACE Hin' ltac:(tauto))).
    cbn [bind after_token token type]. fold (after_token lexer CJSON_TOK_LBRACE 1
                                               (integer_value (token lexer))).
    rewrite Hrun. reflexivity.
  - (* scalars: the text of the compact mode *)
    destruct (parse_render _ Hp) as (T' & Heq & Hrun).
    exists T'. split; [exact Heq|].
    intros indent fuel lexer rest Hfuel Hf Hnum.
    rewrite render_pretty_scalar in Hf by assumption.
    apply Hrun; assumption.
Qed.

(** The pretty text is at least as long as the compact text. *)
Lemma length_tail_le (sep : list ascii) (l l' : list (list ascii)) :
  Forall2 (fun a b => length a <= length b) l l' ->
  length (tail_text l) <= length (tail_sp sep l').
Proof.
  induction 1 as [|x y l l' Hxy _ IH]; [simpl; lia|].
  rewrite tail_text_cons, tail_sp_cons. cbn [length]. rewrite !length_app. lia.
Qed.

Lemma length_join_le (sep : list ascii) (l l' : list (list ascii)) :
  Forall2 (fun a b => length a <= length b) l l' ->
  length (join l) <= length (join_sp sep l').
Proof.
  intros H. destruct H as [|x y l l' Hxy Hrest]; [simpl; lia|].
  rewrite join_cons. cbn [join_sp]. rewrite !length_app.
  pose proof (length_tail_le sep Hrest). lia.
Qed.

Lemma Forall2_map_same (A B C : Type) (R : B -> C -> Prop) (f : A -> B) (g : A -> C)
  (l : list A) :
  (forall x, In x l -> R (f x) (g x)) -> Forall2 R (map f l) (map g l).
Proof.
  induction l as [|x l IH]; intros H; [constructor|].
  cbn [map]. constructor; [apply H; left; reflexivity|].
  apply IH. intros y Hy. apply H. right. exact Hy.
Qed.

Lemma render_pretty_longer (T : cjson_element) :
  plain_tree T = true ->
  forall indent, length (render T) <= length (render_pretty indent T).
Proof.
  induction T as [T IH] using tree_ind. intros Hp indent.
  destruct T as [t v].
  destruct (cjson_is_array (Element t v)) eqn:Ha;
    [|destruct (cjson_is_object (Element t v)) eqn:Ho].
  - destruct t; try discriminate Ha. destruct v; try discriminate Hp.
    pose proof (plain_array _ Hp) as Hall. rewrite forallb_forall in Hall.
    rewrite render_array by reflexivity. rewrite render_pretty_array.
    cbn [length]. rewrite !length_app.
    pose proof (@length_join_le (newline (indent + 2))
                  (map slot_text (elements a))
                  (map (slot_pretty (indent + 2)) (elements a))) as Hle.
    cbn [length] in *. enough (length (join (map slot_text (elements a)))
             <= length (join_sp (newline (indent + 2))
                          (map (slot_pretty (indent + 2)) (elements a)))) by lia.
    apply Hle. apply Forall2_map_same. intros x Hx.
    specialize (Hall x Hx). destruct x as [x|]; [|discriminate].
    apply IH; [apply slot_size; exact Hx | exact Hall].
  - destruct t; try discriminate Ho. destruct v; try discriminate Hp.
    destruct (plain_object _ Hp) as (_ & Hall). rewrite forallb_forall in Hall.
    rewrite render_object by reflexivity. rewrite render_pretty_object.
    cbn [length]. rewrite !length_app.
    pose proof (@length_join_le (newline (indent + 2))
                  (map member_text (entries o))
                  (map (member_pretty (indent + 2)) (entries o))) as Hle.
    cbn [length] in *. enough (length (join (map member_text (entries o)))
             <= length (join_sp (newline (indent + 2))
                          (map (member_pretty (indent + 2)) (entries o)))) by lia.
    apply Hle. apply Forall2_map_same. intros it Hit.
    specialize (Hall it Hit). unfold plain_item in Hall.
    apply andb_prop in Hall. destruct Hall as [_ Hs].
    unfold member_text, member_pretty. cbn [length]. rewrite !length_app.
    cbn [length].
    destruct (element it) as [x|] eqn:Hx; [|discriminate].
    cbn [slot_text slot_pretty].
    pose proof (IH x (member_size _ _ _ Hit Hx) Hs (indent + 2)). lia.
  - rewrite render_pretty_scalar by assumption. lia.
Qed.

(** [cjson_parse_str] on the pretty text of a plain tree, whatever bytes
    follow it. *)
Lemma parse_str_pretty (T : cjson_element) :
  plain_tree T = true ->
  exists T',
    struct_eq T T'
    /\ forall rest,
        (cjson_is_integer T = true -> number_ends rest = true) ->
        cjson_parse_str (render_pretty 0 T ++ rest) = Ret (Some T').
Proof.
  intros Hp. destruct (@parse_pretty T Hp) as (T' & Heq & Hrun).
  exists T'. split; [exact Heq|]. intros rest Hnum.
  unfold cjson_parse_str.
  destruct (Hrun 0 (S (length (render_pretty 0 T ++ rest)))
              (mk_lexer (render_pretty 0 T ++ rest) 0 initial_token) rest)
    as (lexer' & Hr & _).
  - pose proof (render_size T Hp). pose proof (@render_pretty_longer T Hp 0).
    rewrite length_app. lia.
  - split; reflexivity.
  - exact Hnum.
  - rewrite Hr. reflexivity.
Qed.


(** ** The pretty mode *)

(** X21: in pretty mode [cjson_to_str] writes, for a plain tree, the text
    [render_pretty 0] describes: after the opening bracket of a container,
    after each comma and before the closing bracket comes a line feed and
    the indent, which grows by two spaces with each level of nesting; a
    member is its quoted name, a colon and its value with no space between
    them; an empty container still gets the two line breaks.  The text
    holds no NUL byte. *)
Theorem pretty_text_of_plain_tree (T : cjson_element) :
  plain_tree T = true ->
  cjson_to_str (Some T) true = Ret (render_pretty 0 T)
  /\ is_cstr (render_pretty 0 T) = true.
Proof.
  intros Hp. split; [apply to_str_pretty | apply render_pretty_is_cstr]; exact Hp.
Qed.

Lemma pretty_text_of_plain_tree_witness :
  plain_tree (Element CJSON_OBJECT (val_object sample_object)) = true
  /\ cjson_to_str (Some (Element CJSON_OBJECT (val_object sample_object))) true
     = Ret (txt "{" ++ newline 2 ++ txt "'f1':42," ++ newline 2
              ++ txt "'f2':'42'," ++ newline 2 ++ txt "'f3':[" ++ newline 4
              ++ newline 2 ++ txt "]" ++ newline 0 ++ txt "}").
Proof.
  split; [reflexivity|].
  apply (pretty_text_of_plain_tree (Element CJSON_OBJECT (val_object sample_object))).
  reflexivity.
Defined.

(** X22: the round trip holds through the pretty text as well.  The text
    [cjson_to_str] writes in pretty mode for a plain tree is parsed by
    [cjson_parse_str] into a tree that is structurally equal to it (exact
    on scalars and arrays, up to the order of the members of an object),
    and the bytes that follow the text are ignored, provided they do not
    continue a number when the tree is an integer. *)
Theorem round_trip_pretty_text (T : cjson_element) (rest : list ascii) :
  plain_tree T = true ->
  (cjson_is_integer T = true -> number_ends rest = true) ->
  exists text T',
    cjson_to_str (Some T) true = Ret text
    /\ cjson_parse_str text = Ret (Some T')
    /\ cjson_parse_str (text ++ rest) = Ret (Some T')
    /\ struct_eq T T'.
Proof.
  intros Hp Hnum. destruct (@parse_str_pretty T Hp) as (T' & Heq & Hrun).
  exists (render_pretty 0 T), T'. split; [apply to_str_pretty; exact Hp|].
  split; [|split; [apply Hrun; exact Hnum | exact Heq]].
  rewrite <- (app_nil_r (render_pretty 0 T)). apply Hrun. reflexivity.
Qed.

Lemma round_trip_pretty_text_witness :
  plain_tree sample_tree = true
  /\ (cjson_is_integer sample_tree = true -> number_ends (txt "] x") = true)
  /\ exists text T',
      cjson_to_str (Some sample_tree) true = Ret text
      /\ cjson_parse_str text = Ret (Some T')
      /\ cjson_parse_str (text ++ txt "] x") = Ret (Some T')
      /\ struct_eq sample_tree T'.
Proof.
  split; [reflexivity|]. split; [intros _; reflexivity|].
  apply (round_trip_pretty_text sample_tree (txt "] x"));
    [reflexivity | intros _; reflexivity].
Defined.


(** ** A comma before the closing bracket of an array *)

Lemma delimited_comma (l : list (list ascii)) (r : list ascii) :
  delimited (tail_text l ++ ","%char :: r).
Proof.
  destruct l as [|x l]; [|rewrite tail_text_cons]; apply delimited_cons; reflexivity.
Qed.

(** At a closing bracket [cjson_parse_element] returns NULL and keeps the
    bracket as the token of the lexer. *)
Lemma parse_element_at_bracket (fuel : nat) (lexer : cjson_lexer) (rest : list ascii) :
  fresh lexer ("]"%char :: rest) ->
  cjson_parse_element (S fuel) lexer false
  = Ret (None,
         cjson_parse_ws (after_token lexer CJSON_TOK_RBRACK 1
                           (integer_value (token lexer))),
         false).
Proof.
  intros [Ht Hin]. cbn [cjson_parse_element]. unfold parse_element_body.
  rewrite parse_ws_id by (rewrite Hin; reflexivity).
  unfold cjson_parse_value.
  rewrite (peek_fresh _ Ht (@lex_punct lexer _ _ CJSON_TOK_RBRACK Hin ltac:(tauto))).
  reflexivity.
Qed.

Section TrailingComma.
Variable rec : cjson_lexer -> bool -> outcome parse_result.
Hypothesis rec_at_bracket :
  forall lexer rest,
    fresh lexer ("]"%char :: rest) ->
    rec lexer false
    = Ret (None,
           cjson_parse_ws (after_token lexer CJSON_TOK_RBRACK 1
                             (integer_value (token lexer))),
           false).

Lemma elements_loop_trailing (xs xs' : list (option cjson_element)) :
  Forall2 (fun x x' => parses_to rec (slot_text x) x') xs xs' ->
  forall n lexer array array' rest,
    length xs < n ->
    fresh lexer (tail_text (map slot_text xs) ++ ","%char :: "]"%char :: rest) ->
    append_all array (xs' ++ [None]) = Ret array' ->
    exists lexer_e,
      fresh lexer_e ("]"%char :: rest)
      /\ elements_loop rec n lexer array false
         = Ret (cjson_parse_ws (after_token lexer_e CJSON_TOK_RBRACK 1
                                  (integer_value (token lexer_e))),
                array', false).
Proof.
  induction 1 as [|x x' xs xs' Hx Hrest IH]; intros n lexer array array' rest Hn Hf Happ.
  - destruct n as [|n]; [simpl in Hn; lia|].
    destruct Hf as [Ht Hin]. cbn [map] in Hin.
    change (tail_text [] ++ ","%char :: "]"%char :: rest)
      with ([","%char] ++ "]"%char :: rest) in Hin.
    assert (Hpeek := peek_fresh _ Ht
                       (@lex_punct lexer _ _ CJSON_TOK_COMMA Hin ltac:(tauto))).
    set (lexer1 := after_token lexer CJSON_TOK_COMMA 1 (integer_value (token lexer))) in *.
    assert (Hf1 : fresh (consumed lexer1) ("]"%char :: rest)).
    { apply (@fresh_after_pop lexer CJSON_TOK_COMMA [","%char] _
               (integer_value (token lexer)) Hin). }
    exists (consumed lexer1). split; [exact Hf1|].
    cbn [app append_all] in Happ. apply bind_ret_inv in Happ.
    destruct Happ as (array1 & Happ1 & Happ). injection Happ as <-.
    cbn [elements_loop]. rewrite Hpeek. cbn [bind].
    change (tok_eqb (type (token lexer1)) CJSON_TOK_COMMA) with true. cbn [negb].
    rewrite (pop_held lexer1) by reflexivity. cbn [bind].
    rewrite (rec_at_bracket Hf1). cbn [bind]. rewrite Happ1. cbn [bind].
    set (lexer2 := cjson_parse_ws _).
    assert (Hheld : cjson_lexer_peek lexer2 = Ret (token lexer2, lexer2))
      by (apply peek_held; reflexivity).
    destruct n; cbn [elements_loop]; rewrite Hheld; reflexivity.
  - destruct n as [|n]; [simpl in Hn; lia|].
    destruct Hf as [Ht Hin]. cbn [map] in Hin. rewrite tail_text_cons in Hin.
    cbn [app] in Hin. rewrite <- app_assoc in Hin.
    set (rest1 := tail_text (map slot_text xs) ++ ","%char :: "]"%char :: rest) in *.
    assert (Hpeek := peek_fresh _ Ht
                       (@lex_punct lexer _ _ CJSON_TOK_COMMA Hin ltac:(tauto))).
    set (lexer1 := after_token lexer CJSON_TOK_COMMA 1 (integer_value (token lexer))) in *.
    assert (Hf1 : fresh (consumed lexer1) (slot_text x ++ rest1)).
    { apply (@fresh_after_pop lexer CJSON_TOK_COMMA [","%char] _
               (integer_value (token lexer)) Hin). }
    destruct (Hx _ _ Hf1) as (lexer2 & _ & Hrec & Hf2 & _).
    { apply delimited_comma. }
    cbn [app append_all] in Happ. apply bind_ret_inv in Happ.
    destruct Happ as (array1 & Happ1 & Happ).
    destruct (IH n lexer2 array1 array' rest) as (lexer_e & Hfe & Hloop);
      [simpl in Hn; lia | exact Hf2 | exact Happ|].
    exists lexer_e. split; [exact Hfe|].
    cbn [elements_loop]. rewrite Hpeek. cbn [bind].
    change (tok_eqb (type (token lexer1)) CJSON_TOK_COMMA) with true. cbn [negb].
    rewrite (pop_held lexer1) by reflexivity. cbn [bind].
    rewrite Hrec. cbn [bind]. rewrite Happ1. cbn [bind]. exact Hloop.
Qed.

Lemma parse_array_trailing (x x' : option cjson_element)
  (xs xs' : list (option cjson_element)) (array' : cjson_array)
  (lexer : cjson_lexer) (rest : list ascii) (iv : Z) :
  Forall2 (fun x x' => parses_to rec (slot_text x) x') (x :: xs) (x' :: xs') ->
  append_all (mk_array [] 0) ((x' :: xs') ++ [None]) = Ret array' ->
  input lexer
  = "["%char :: join (map slot_text (x :: xs)) ++ ","%char :: "]"%char :: rest ->
  space_run (slot_text x) = 0 -> slot_text x <> [] ->
  exists lexer',
    cjson_parse_array rec (after_token lexer CJSON_TOK_LBRACK 1 iv) false
    = Ret (Some (Element CJSON_ARRAY (val_array array')), lexer', false)
    /\ fresh lexer' (skip_space rest).
Proof.
  intros Hall Happ Hin Hsp Hne.
  set (lexer0 := after_token lexer CJSON_TOK_LBRACK 1 iv).
  assert (Hin0 : input lexer0
                 = join (map slot_text (x :: xs)) ++ ","%char :: "]"%char :: rest)
    by (apply (@after_token_input lexer CJSON_TOK_LBRACK ["["%char] _ iv Hin)).
  cbn [map] in Hin0. rewrite join_cons, <- app_assoc in Hin0.
  set (rest1 := tail_text (map slot_text xs) ++ ","%char :: "]"%char :: rest) in *.
  unfold cjson_parse_array.
  rewrite (pop_held lexer0) by reflexivity. cbn [bind].
  rewrite parse_ws_id.
  2:{ change (space_run (input lexer0) = 0). rewrite Hin0.
      destruct (slot_text x) as [|c r]; [congruence|].
      cbn [app space_run] in Hsp |- *. destruct (isspace c); [discriminate|reflexivity]. }
  assert (Hf0 : fresh (consumed lexer0) (slot_text x ++ rest1))
    by (split; [reflexivity | exact Hin0]).
  inversion Hall as [|? ? ? ? Hx Hrest]; subst.
  destruct (Hx _ _ Hf0) as (lexer2 & peeked & _ & Hf2 & Hread & Htype & Hrec).
  { apply delimited_comma. }
  rewrite (peek_fresh _ (proj1 Hf0) Hread). cbn [bind].
  rewrite Htype. cbn [negb]. rewrite Hrec. cbn [bind].
  cbn [app append_all] in Happ. apply bind_ret_inv in Happ.
  destruct Happ as (array1 & Happ1 & Happ).
  rewrite Happ1. cbn [bind].
  destruct (@elements_loop_trailing xs xs' Hrest (S (length (input lexer2))) lexer2
              array1 array' rest)
    as (lexer_e & Hfe & Hloop); [|exact Hf2 | exact Happ|].
  { destruct Hf2 as [_ ->]. unfold rest1. rewrite length_app.
    pose proof (tail_text_length (map slot_text xs)) as Hlen.
    rewrite length_map in Hlen. cbn [length]. lia. }
  rewrite Hloop. cbn [bind].
  set (lexer3 := cjson_parse_ws (after_token lexer_e CJSON_TOK_RBRACK 1 _)).
  rewrite (peek_held lexer3) by reflexivity. cbn [bind].
  change (tok_eqb (type (token lexer3)) CJSON_TOK_RBRACK) with true. cbn [negb].
  rewrite (pop_held lexer3) by reflexivity. cbn [bind].
  eexists. split; [reflexivity|].
  unfold lexer3. rewrite <- parse_ws_consumed. apply parse_ws_fresh.
  apply (@fresh_after_pop lexer_e CJSON_TOK_RBRACK ["]"%char] rest
           (integer_value (token lexer_e)) (proj2 Hfe)).
Qed.
End TrailingComma.

(** The text of a non-empty plain array with a comma before its closing
    bracket. *)
Lemma parse_str_trailing_comma (a : cjson_array) (rest : list ascii) :
  plain_tree (Element CJSON_ARRAY (val_array a)) = true ->
  elements a <> [] ->
  exists (array' : cjson_array) (xs' : list (option cjson_element)),
    cjson_parse_str
      ("["%char :: join (map slot_text (elements a)) ++ ","%char :: "]"%char :: rest)
    = Ret (Some (Element CJSON_ARRAY (val_array array')))
    /\ elements array' = xs' ++ [None]
    /\ Forall2 (slot_rel struct_eq) (elements a) xs'.
Proof.
  intros Hp Hne.
  pose proof (plain_array _ Hp) as Hall. rewrite forallb_forall in Hall.
  set (T := Element CJSON_ARRAY (val_array a)) in *.
  set (str := "["%char :: join (map slot_text (elements a))
                ++ ","%char :: "]"%char :: rest).
  assert (Hlen : elt_size T <= length str).
  { pose proof (render_size T Hp) as Hs. unfold T in Hs.
    rewrite render_array in Hs by reflexivity.
    cbn [length] in Hs. rewrite length_app in Hs. cbn [length] in Hs.
    fold T in Hs. unfold str. cbn [length]. rewrite length_app. cbn [length]. lia. }
  destruct (@build_list _ _
              (fun x x' =>
                 slot_rel struct_eq x x'
                 /\ parses_to (cjson_parse_element (length str)) (slot_text x) x')
              (elements a)) as (xs' & Hxs).
  { intros x Hx. specialize (Hall x Hx). destruct x as [x|]; [|discriminate].
    pose proof (slot_size CJSON_ARRAY a x Hx) as Hsize.
    destruct (parse_render x Hall) as (x' & Heq & Hrun).
    exists (Some x'). split; [constructor; exact Heq|].
    apply parses_to_of_run; [exact Hall|].
    intros lexer rest0. apply Hrun. fold T in Hsize. lia. }
  destruct (@append_all_spec (xs' ++ [None]) (mk_array [] 0))
    as (array' & Happ & Hels & _); [simpl; unfold size; simpl; lia|].
  exists array', xs'. split; [|split; [exact Hels|]].
  2:{ eapply Forall2_impl; [|exact Hxs]. intros x x' [H _]. exact H. }
  assert (Hpar : Forall2 (fun x x' => parses_to (cjson_parse_element (length str))
                                        (slot_text x) x') (elements a) xs')
    by (eapply Forall2_impl; [|exact Hxs]; intros x x' [_ H]; exact H).
  destruct (elements a) as [|x xs] eqn:He; [congruence|].
  destruct xs' as [|x' xs']; [inversion Hpar|].
  assert (Hx : plain_slot x = true) by (apply Hall; left; reflexivity).
  destruct x as [x|]; [|discriminate].
  assert (Hpos : length str = S (pred (length str)))
    by (unfold str; cbn [length]; lia).
  destruct (@parse_array_trailing (cjson_parse_element (length str)))
    with (x := Some x) (x' := x') (xs := xs) (xs' := xs') (array' := array')
         (lexer := mk_lexer str 0 initial_token) (rest := rest)
         (iv := integer_value initial_token)
    as (lexer1 & Hrun & Hf1).
  - intros lexer rest0 Hf. rewrite Hpos. apply (@parse_element_at_bracket _ lexer rest0 Hf).
  - exact Hpar.
  - exact Happ.
  - reflexivity.
  - cbn [slot_text]. apply (@render_space_run x []) in Hx.
    rewrite app_nil_r in Hx. exact Hx.
  - cbn [slot_text]. destruct (render_head x Hx) as (c & r & -> & _). discriminate.
  - unfold cjson_parse_str. fold str.
    cbn [cjson_parse_element]. unfold parse_element_body.
    rewrite parse_ws_id by reflexivity.
    unfold cjson_parse_value.
    rewrite (peek_fresh (mk_lexer str 0 initial_token) eq_refl
               (@lex_punct (mk_lexer str 0 initial_token) _ _ CJSON_TOK_LBRACK
                  eq_refl ltac:(tauto))).
    cbn [bind after_token token type].
    fold (after_token (mk_lexer str 0 initial_token) CJSON_TOK_LBRACK 1
            (integer_value initial_token)).
    rewrite Hrun. reflexivity.
Qed.


(** ** The string builder *)

Lemma append_char_bound (sb : cjson_str_builder) (c : ascii) :
  sb_ok sb ->
  sb_capacity sb <= Nat.max 8 (2 * length (str sb)) ->
  exists sb',
    cjson_str_builder_append_char sb c = Ret sb'
    /\ str sb' = str sb ++ [c]
    /\ sb_ok sb'
    /\ sb_capacity sb' <= Nat.max 8 (2 * length (str sb')).
Proof.
  unfold sb_ok, cjson_str_builder_append_char. intros Hok Hb.
  replace (sb_capacity sb <? length (str sb)) with false
    by (symmetry; apply Nat.ltb_ge; exact Hok).
  eexists. split; [reflexivity|]. split; [reflexivity|].
  cbn [str sb_capacity]. rewrite length_app. cbn [length].
  destruct (Nat.eqb (sb_capacity sb) 0) eqn:H0;
    [apply Nat.eqb_eq in H0 | apply Nat.eqb_neq in H0].
  - destruct (Nat.eqb (length (str sb)) 8) eqn:H8;
      [apply Nat.eqb_eq in H8 | apply Nat.eqb_neq in H8]; lia.
  - destruct (Nat.eqb (length (str sb)) (sb_capacity sb)) eqn:Hc;
      [apply Nat.eqb_eq in Hc | apply Nat.eqb_neq in Hc]; lia.
Qed.

Lemma append_chars_bound (s : list ascii) (sb : cjson_str_builder) :
  sb_ok sb ->
  sb_capacity sb <= Nat.max 8 (2 * length (str sb)) ->
  exists sb',
    append_chars sb s = Ret sb'
    /\ str sb' = str sb ++ s
    /\ sb_ok sb'
    /\ sb_capacity sb' <= Nat.max 8 (2 * length (str sb')).
Proof.
  revert sb; induction s as [|c s IH]; intros sb Hok Hb.
  - exists sb. simpl. rewrite app_nil_r. auto.
  - destruct (append_char_bound c Hok Hb) as (sb1 & E1 & S1 & K1 & B1).
    destruct (IH sb1 K1 B1) as (sb2 & E2 & S2 & K2 & B2).
    exists sb2. simpl. rewrite E1. cbn [bind]. rewrite E2.
    split; [reflexivity|]. split; [|split; assumption].
    rewrite S2, S1, <- app_assoc. reflexivity.
Qed.

(** ** Further properties: malformed arrays, the string builder *)

(** X23: a comma before the closing bracket of an array is no error.  For
    the compact text of a non-empty plain array with a comma put before its
    closing bracket (and whatever bytes after it), [cjson_parse_str]
    returns an array, not NULL: its slots are the elements of the text,
    followed by one more slot that holds a NULL pointer.  [cjson_delete]
    cannot take this array: it follows the NULL pointer. *)
Theorem trailing_comma_leaves_null_slot (a : cjson_array) (rest : list ascii) :
  plain_tree (Element CJSON_ARRAY (val_array a)) = true ->
  elements a <> [] ->
  exists (array' : cjson_array) (xs' : list (option cjson_element)),
    cjson_parse_str
      ("["%char :: join (map slot_text (elements a)) ++ ","%char :: "]"%char :: rest)
    = Ret (Some (Element CJSON_ARRAY (val_array array')))
    /\ elements array' = xs' ++ [None]
    /\ Forall2 (slot_rel struct_eq) (elements a) xs'
    /\ cjson_delete (Some (Element CJSON_ARRAY (val_array array'))) = Undefined.
Proof.
  intros Hp Hne.
  destruct (@parse_str_trailing_comma a rest Hp Hne) as (array' & xs' & Hrun & Hels & Hrel).
  exists array', xs'. repeat split; try assumption.
  apply delete_null_slot. rewrite Hels. apply in_or_app. right. left. reflexivity.
Qed.

Lemma trailing_comma_leaves_null_slot_witness :
  exists (array' : cjson_array) (xs' : list (option cjson_element)),
    cjson_parse_str (txt "[1,'a',]")
    = Ret (Some (Element CJSON_ARRAY (val_array array')))
    /\ elements array' = xs' ++ [None]
    /\ Forall2 (slot_rel struct_eq)
         [Some (cjson_create_integer 1); Some (cjson_create_string (txt "a"))] xs'
    /\ cjson_delete (Some (Element CJSON_ARRAY (val_array array'))) = Undefined.
Proof.
  apply (@trailing_comma_leaves_null_slot
           (mk_array [Some (cjson_create_integer 1);
                      Some (cjson_create_string (txt "a"))] 8) []).
  - reflexivity.
  - discriminate.
Defined.

(** X24: the string builder.  On a builder whose buffer holds its bytes,
    [cjson_str_builder_append_cstr] appends the bytes of the C string (up
    to its first NUL) and nothing else, the buffer still holds the bytes,
    and its capacity stays within the larger of 8 and twice the size: the
    doubling never reserves more than that.  The empty builder that
    [cjson_to_str] starts from is such a builder. *)
Theorem str_builder_append_cstr_grows (sb : cjson_str_builder) (s : list ascii) :
  sb_ok sb ->
  sb_capacity sb <= Nat.max 8 (2 * length (str sb)) ->
  exists sb',
    cjson_str_builder_append_cstr sb (Some s) = Ret sb'
    /\ str sb' = str sb ++ c_str s
    /\ sb_ok sb'
    /\ sb_capacity sb' <= Nat.max 8 (2 * length (str sb')).
Proof.
  intros Hok Hb. unfold cjson_str_builder_append_cstr.
  apply append_chars_bound; assumption.
Qed.

Lemma str_builder_append_cstr_grows_witness :
  exists sb',
    cjson_str_builder_append_cstr (mk_sb [] 0) (Some (txt "123456789")) = Ret sb'
    /\ str sb' = str (mk_sb [] 0) ++ c_str (txt "123456789")
    /\ sb_ok sb'
    /\ sb_capacity sb' <= Nat.max 8 (2 * length (str sb')).
Proof.
  apply (@str_builder_append_cstr_grows (mk_sb [] 0) (txt "123456789")).
  - unfold sb_ok. simpl. lia.
  - simpl. lia.
Defined.


(** ** Trees that can be released *)

(** A tree that is structurally equal to a tree [cjson_delete] can walk
    can be walked as well. *)
Lemma struct_eq_releasable (T : cjson_element) :
  forall T', struct_eq T T' -> releasable T = true -> releasable T' = true.
Proof.
  induction T as [T IH] using tree_ind. intros T' Heq Hrel.
  inversion Heq as [v w| | | | |a b Hall|o p l Hperm Hall]; subst;
    try reflexivity.
  - (* array *)
    cbn [releasable] in Hrel |- *. rewrite forallb_forall in Hrel.
    apply forallb_forall. intros y Hy.
    destruct (@Forall2_In_r _ _ _ _ _ y Hall Hy) as (x & Hx & Hxy).
    specialize (Hrel x Hx). destruct x as [x|]; [|discriminate].
    inversion Hxy as [|? y0 Hxy0]; subst.
    apply (IH x); [apply slot_size; exact Hx | exact Hxy0 | exact Hrel].
  - (* object *)
    cbn [releasable] in Hrel |- *. rewrite forallb_concat in Hrel |- *.
    fold (entries o) in Hrel. fold (entries p).
    rewrite forallb_forall in Hrel. apply forallb_forall. intros it' Hit'.
    destruct (@Forall2_In_r _ _ _ _ _ it' Hall Hit') as (it & Hit & Hrel').
    assert (Hin : In it (entries o))
      by (apply (Permutation_in _ (Permutation_sym Hperm)); exact Hit).
    specialize (Hrel it Hin).
    destruct Hrel' as [n x y Hxy]. cbn [element] in *.
    destruct x as [x|]; [|discriminate].
    inversion Hxy as [|? y0 Hxy0]; subst.
    apply (IH x); [apply (member_size _ _ _ Hin eq_refl) | exact Hxy0 | exact Hrel].
Qed.

Lemma plain_releasable (T : cjson_element) :
  plain_tree T = true -> releasable T = true.
Proof.
  induction T as [T IH] using tree_ind. intros Hp.
  destruct T as [t v]. destruct t; try reflexivity.
  - destruct v as [| | | |[s|]| |]; try discriminate Hp. reflexivity.
  - destruct v; try discriminate Hp.
    pose proof (plain_array _ Hp) as Hall. rewrite forallb_forall in Hall.
    cbn [releasable]. apply forallb_forall. intros x Hx.
    specialize (Hall x Hx). destruct x as [x|]; [|discriminate].
    apply IH; [apply slot_size; exact Hx | exact Hall].
  - destruct v; try discriminate Hp.
    destruct (plain_object _ Hp) as (_ & Hall). rewrite forallb_forall in Hall.
    cbn [releasable]. rewrite forallb_concat. fold (entries o).
    apply forallb_forall. intros it Hit.
    specialize (Hall it Hit). unfold plain_item in Hall.
    apply andb_prop in Hall. destruct Hall as [_ Hs].
    destruct (element it) as [x|] eqn:Hx; [|discriminate].
    apply IH; [apply (member_size _ _ _ Hit Hx) | exact Hs].
Qed.

Lemma delete_releasable (T : cjson_element) :
  releasable T = true -> cjson_delete (Some T) = Ret tt.
Proof.
  intros H. unfold cjson_delete. rewrite delete_rec_spec by lia.
  rewrite H. reflexivity.
Qed.

(** ** How the operations compose *)

(** X25: a clone can be released.  For a tree as the library builds it
    that holds no NULL pointer, [cjson_clone] returns a tree, and
    [cjson_delete] walks this tree to its end. *)
Theorem clone_can_be_deleted (T : cjson_element) :
  well_formed T = true ->
  releasable T = true ->
  exists T',
    cjson_clone (Some T) = Ret (Some T')
    /\ cjson_delete (Some T') = Ret tt.
Proof.
  intros Hwf Hrel. destruct (clone_spec T Hwf) as (T' & Hrun & Heq & _).
  exists T'. split; [exact Hrun|].
  apply delete_releasable. apply (struct_eq_releasable Heq Hrel).
Qed.

Lemma clone_can_be_deleted_witness :
  exists T',
    cjson_clone (Some (Element CJSON_OBJECT (val_object sample_object))) = Ret (Some T')
    /\ cjson_delete (Some T') = Ret tt.
Proof.
  apply (clone_can_be_deleted (Element CJSON_OBJECT (val_object sample_object)));
    reflexivity.
Defined.

(** X26: what the parser builds from the text of a plain tree can be
    released.  In either mode, the text [cjson_to_str] writes for a plain
    tree is parsed into a tree that [cjson_delete] walks to its end: the
    parser has left no NULL pointer in it. *)
Theorem parsed_text_can_be_deleted (T : cjson_element) (pretty : bool) :
  plain_tree T = true ->
  exists text T',
    cjson_to_str (Some T) pretty = Ret text
    /\ cjson_parse_str text = Ret (Some T')
    /\ cjson_delete (Some T') = Ret tt.
Proof.
  intros Hp. pose proof (plain_releasable T Hp) as Hrel. destruct pretty.
  - destruct (@parse_str_pretty T Hp) as (T' & Heq & Hrun).
    exists (render_pretty 0 T), T'. split; [apply to_str_pretty; exact Hp|].
    split; [|apply delete_releasable, (struct_eq_releasable Heq Hrel)].
    rewrite <- (app_nil_r (render_pretty 0 T)). apply Hrun. reflexivity.
  - destruct (@parse_str_render T Hp) as (T' & Heq & Hrun).
    exists (render T), T'. split; [apply to_str_render; exact Hp|].
    split; [|apply delete_releasable, (struct_eq_releasable Heq Hrel)].
    rewrite <- (app_nil_r (render T)). apply Hrun. reflexivity.
Qed.

Lemma parsed_text_can_be_deleted_witness :
  exists text T',
    cjson_to_str (Some sample_tree) true = Ret text
    /\ cjson_parse_str text = Ret (Some T')
    /\ cjson_delete (Some T') = Ret tt.
Proof.
  apply (parsed_text_can_be_deleted sample_tree true). reflexivity.
Defined.


(** ** Bytes after the first element *)






(** ** Integer tokens *)

(** After a leading 0 the token ends, but its value is what [strtol] reads
    from the whole input. *)
Lemma lex_zero (lexer : cjson_lexer) (r : list ascii) :
  input lexer = "0"%char :: r ->
  point_digit r = false ->
  cjson_read_next_token lexer
  = Ret (after_token lexer CJSON_TOK_INTEGER 1 (wrap_int (strtol ("0"%char :: r)))).
Proof.
  intros Hin Hpd. unfold cjson_read_next_token, after_token. rewrite Hin.
  change (head_char ("0"%char :: r)) with "0"%char.
  change (Ascii.eqb "0" "-") with false. change (isdigit "0") with true. cbv iota.
  unfold scan_number.
  change (head_char ("0"%char :: r)) with "0"%char.
  change (Ascii.eqb "0" "0") with true. cbv iota.
  pose proof (strtol_range ("0"%char :: r)) as Hr. rewrite Z.mul_1_r.
  replace ((strtol ("0"%char :: r) <? LONG_MIN)
           || (LONG_MAX <? strtol ("0"%char :: r)))%Z with false
    by (symmetry; apply orb_false_iff; split; apply Z.ltb_ge; lia).
  cbn [skipn]. unfold point_digit in Hpd.
  destruct r as [|c [|d r']]; cbn [bind]; try reflexivity.
  rewrite Hpd. reflexivity.
Qed.

Lemma parse_str_leading_zero (r : list ascii) :
  point_digit r = false ->
  cjson_parse_str ("0"%char :: r)
  = Ret (Some (cjson_create_integer (wrap_int (strtol ("0"%char :: r))))).
Proof.
  intros Hpd. unfold cjson_parse_str.
  set (str := "0"%char :: r).
  destruct (@parse_scalar (length str) (mk_lexer str 0 initial_token)
              CJSON_TOK_INTEGER ["0"%char] r (wrap_int (strtol str))
              (cjson_create_integer (wrap_int (strtol str))))
    as (lexer' & Hrun & _).
  - split; reflexivity.
  - reflexivity.
  - apply (@lex_zero (mk_lexer str 0 initial_token) r); [reflexivity | exact Hpd].
  - left. reflexivity.
  - rewrite Hrun. reflexivity.
Qed.

(** X2: integer tokens.  The decimal text of [v] (which has no leading
    zero), for [v] from 0 to [INT_MAX], followed by bytes that do not
    continue a number, is parsed as the integer [v]: the text 12 yields 12,
    not the element of its prefix 1.  After a leading 0 the token ends at
    once, but its value is what [strtol] reads from the whole input: when no
    point and digit follow the 0, the text 0 followed by any bytes is parsed
    as the integer [strtol] returns, so 07 yields 7, and inside an array the
    7 is left as the next token, so that [[07]] yields NULL. *)
Theorem integer_token_and_leading_zero :
  (forall (v : Z) (rest : list ascii),
      (0 <= v <= INT_MAX)%Z -> number_ends rest = true ->
      cjson_parse_str (digits v ++ rest) = Ret (Some (cjson_create_integer v)))
  /\ (forall r : list ascii,
         point_digit r = false ->
         cjson_parse_str ("0"%char :: r)
         = Ret (Some (cjson_create_integer (wrap_int (strtol ("0"%char :: r))))))
  /\ cjson_parse_str (txt "12") = Ret (Some (cjson_create_integer 12))
  /\ cjson_parse_str (txt "1") = Ret (Some (cjson_create_integer 1))
  /\ cjson_parse_str (txt "07") = Ret (Some (cjson_create_integer 7))
  /\ cjson_parse_str (txt "[07]") = Ret None.
Proof.
  split; [exact parse_str_integer|]. split; [exact parse_str_leading_zero|].
  repeat split; vm_compute; reflexivity.
Qed.

(** ** Float tokens *)

Local Open Scope Z_scope.

Lemma lex_float_negative (lexer : cjson_lexer) (v : Z) (ds r : list ascii) :
  input lexer = "-"%char :: digits v ++ "."%char :: ds ++ r ->
  0 <= v <= INT_MAX ->
  ds <> [] -> forallb isdigit ds = true -> digit_run r = 0%nat ->
  exists fv,
    cjson_read_next_token lexer
    = Ret (mk_lexer (lexer_content lexer)
             (location lexer + (S (length (digits v)) + length ds))
             (mk_token CJSON_TOK_FLOAT (input lexer)
                (S (length (digits v)) + length ds) v fv)).
Proof.
  intros Hin Hv Hne Hds Hrun.
  pose proof (@digits_all_digits v ltac:(lia)) as Hall.
  set (tl := "."%char :: ds ++ r) in *.
  assert (Hrun' : digit_run tl = 0%nat) by reflexivity.
  assert (Hval : strtol ("-"%char :: digits v ++ tl) = - v).
  { unfold strtol. cbn [skip_space]. change (isspace "-") with false. cbv iota.
    change (Ascii.eqb "-" "-") with true. cbv iota.
    rewrite digits_value_app by exact Hall.
    rewrite digits_value_digits by lia.
    change (digits_value tl v) with v.
    unfold LONG_MIN, LONG_MAX, INT_MAX in *. lia. }
  unfold cjson_read_next_token. rewrite Hin.
  change (head_char ("-"%char :: digits v ++ tl)) with "-"%char.
  change (Ascii.eqb "-" "-") with true. cbv iota.
  unfold scan_number.
  change (head_char ("-"%char :: digits v ++ tl)) with "-"%char.
  change (Ascii.eqb "-" "0") with false. cbv iota.
  cbn [skipn]. rewrite digit_run_app by exact Hall. rewrite Hrun', Nat.add_0_r.
  rewrite Hval. replace (- v * -1) with v by lia.
  replace ((v <? LONG_MIN) || (LONG_MAX <? v)) with false
    by (symmetry; apply orb_false_iff; unfold LONG_MIN, LONG_MAX, INT_MAX in *;
        split; [apply Z.ltb_ge | apply Z.ltb_ge]; lia).
  replace (wrap_int v) with v
    by (unfold wrap_int, INT_MAX in *; rewrite Z.mod_small by lia; lia).
  change (1 + length (digits v))%nat with (S (length (digits v))).
  cbn [skipn]. rewrite skipn_app, skipn_all, Nat.sub_diag. cbn [app skipn].
  destruct ds as [|d ds']; [contradiction|].
  cbn [forallb] in Hds. apply andb_prop in Hds. destruct Hds as [Hd1 Hds'].
  unfold tl. cbn [app]. change (Ascii.eqb "." ".") with true. rewrite Hd1.
  cbn [andb bind].
  replace (skipn (S (length (digits v)) + 1 + 1)
             ("-"%char :: digits v ++ "."%char :: d :: ds' ++ r))
    with (ds' ++ r).
  2:{ replace (S (length (digits v)) + 1 + 1)%nat
        with (S (length (digits v) + 2)) by lia.
      cbn [skipn].
      rewrite skipn_app, skipn_all2 by lia.
      replace (length (digits v) + 2 - length (digits v))%nat with 2%nat by lia.
      reflexivity. }
  rewrite digit_run_app by exact Hds'. rewrite Hrun.
  eexists. f_equal. f_equal; [|f_equal]; cbn [length]; lia.
Qed.

Local Close Scope Z_scope.

(** The float token of a literal with or without a minus sign. *)
Lemma lex_float_signed (lexer : cjson_lexer) (neg : bool) (v : Z) (ds r : list ascii) :
  input lexer = sign_text neg ++ digits v ++ "."%char :: ds ++ r ->
  (0 <= v <= INT_MAX)%Z ->
  ds <> [] -> forallb isdigit ds = true -> digit_run r = 0 ->
  exists iv fv,
    cjson_read_next_token lexer
    = Ret (mk_lexer (lexer_content lexer)
             (location lexer + (length (sign_text neg) + length (digits v) + length ds))
             (mk_token CJSON_TOK_FLOAT (input lexer)
                (length (sign_text neg) + length (digits v) + length ds) iv fv)).
Proof.
  intros Hin Hv Hne Hds Hrun. destruct neg; cbn [sign_text app length] in *.
  - destruct (@lex_float_negative lexer v ds r Hin Hv Hne Hds Hrun) as (fv & Hread).
    exists v, fv. exact Hread.
  - destruct (@lex_float lexer v ds r Hin Hv Hne Hds Hrun) as (fv & Hread).
    exists v, fv. exact Hread.
Qed.

(** A text between the brackets of an array that the lexer reads as a float
    token up to, but not including, its last digit [dl]: the digit is read
    as the next token, and the parser gives the array up. *)
Lemma float_token_in_array (ws lit0 : list ascii) (dl : ascii) (r : list ascii) :
  forallb isspace ws = true ->
  isdigit dl = true ->
  solid (lit0 ++ dl :: r) = true ->
  (forall lexer,
      input lexer = lit0 ++ dl :: r ->
      exists iv fv,
        cjson_read_next_token lexer
        = Ret (mk_lexer (lexer_content lexer) (location lexer + length lit0)
                 (mk_token CJSON_TOK_FLOAT (input lexer) (length lit0) iv fv))) ->
  cjson_parse_str ("["%char :: ws ++ lit0 ++ dl :: r) = Ret None.
Proof.
  intros Hws Hdl Hsolid Hlex. unfold cjson_parse_str.
  set (body := lit0 ++ dl :: r) in *.
  set (lexer0 := mk_lexer ("["%char :: ws ++ body) 0 initial_token).
  change (length ("["%char :: ws ++ body)) with (S (length (ws ++ body))).
  rewrite parse_element_S. unfold parse_element_body.
  rewrite parse_ws_id by reflexivity.
  unfold cjson_parse_value.
  assert (Hin0 : input lexer0 = "["%char :: ws ++ body) by reflexivity.
  rewrite (peek_fresh lexer0 eq_refl
             (@lex_punct lexer0 _ _ CJSON_TOK_LBRACK Hin0 ltac:(tauto))).
  cbn [bind after_token token type].
  fold (after_token lexer0 CJSON_TOK_LBRACK 1 (integer_value (token lexer0))).
  set (lexerA := after_token lexer0 CJSON_TOK_LBRACK 1 (integer_value (token lexer0))).
  assert (HA : fresh (consumed lexerA) (ws ++ body))
    by (apply (@fresh_after_pop lexer0 CJSON_TOK_LBRACK ["["%char]); exact Hin0).
  apply parse_ws_fresh in HA.
  rewrite skip_space_app in HA by exact Hws.
  rewrite skip_space_id in HA by (rewrite <- (app_nil_r body); apply solid_space_run;
                                   exact Hsolid).
  set (lexerB := cjson_parse_ws (consumed lexerA)) in *.
  destruct (Hlex lexerB (proj2 HA)) as (iv & fv & Hread).
  set (lexerF := mk_lexer (lexer_content lexerB) (location lexerB + length lit0)
                   (mk_token CJSON_TOK_FLOAT (input lexerB) (length lit0) iv fv)) in *.
  assert (HinF : input lexerF = dl :: r).
  { unfold lexerF. rewrite input_advance, (proj2 HA). unfold body.
    rewrite skipn_app, skipn_all, Nat.sub_diag. reflexivity. }
  destruct (isdigit_other _ Hdl) as (_ & Hspl & _).
  assert (HspF : space_run (input lexerF) = 0)
    by (rewrite HinF; cbn [space_run]; rewrite Hspl; reflexivity).
  assert (HG : fresh (consumed lexerF) (dl :: r)) by (split; [reflexivity | exact HinF]).
  destruct (@lex_digit (consumed lexerF)) as (lexerN & HreadN & HtN).
  { rewrite (proj2 HG). exact Hdl. }
  unfold cjson_parse_array. rewrite pop_held by reflexivity. cbn [bind].
  fold lexerB.
  rewrite (peek_fresh lexerB (proj1 HA) Hread). cbn [bind].
  change (type (token lexerF)) with CJSON_TOK_FLOAT. cbn [tok_eqb tok_code Z.eqb negb].
  destruct (length (ws ++ body)) as [|n] eqn:Hlen.
  { unfold body in Hlen. rewrite !length_app in Hlen. cbn [length] in Hlen. lia. }
  rewrite parse_element_S. unfold parse_element_body.
  rewrite parse_ws_id by exact HspF.
  unfold cjson_parse_value. rewrite peek_held by reflexivity. cbn [bind].
  change (type (token lexerF)) with CJSON_TOK_FLOAT. cbv iota.
  rewrite pop_held by reflexivity. cbn [bind].
  rewrite parse_ws_id by (rewrite (proj2 HG); cbn [space_run]; rewrite Hspl; reflexivity).
  cbn [cjson_array_append capacity size elements length app Nat.ltb Nat.leb Nat.eqb bind].
  cbn [elements_loop].
  rewrite (peek_fresh (consumed lexerF) (proj1 HG) HreadN). cbn [bind].
  assert (Hnc : tok_eqb (type (token lexerN)) CJSON_TOK_COMMA = false)
    by (destruct HtN as [-> | ->]; reflexivity).
  assert (Hnb : tok_eqb (type (token lexerN)) CJSON_TOK_RBRACK = false)
    by (destruct HtN as [-> | ->]; reflexivity).
  assert (Hnn : tok_eqb (type (token lexerN)) CJSON_TOK_NONE = false)
    by (destruct HtN as [-> | ->]; reflexivity).
  rewrite Hnc. cbn [negb bind].
  rewrite peek_held by exact Hnn. cbn [bind]. rewrite Hnb. cbn [negb].
  unfold cjson_delete. rewrite delete_rec_spec by lia. reflexivity.
Qed.

Lemma parse_str_signed_float_in_array (ws : list ascii) (neg : bool) (v : Z)
  (ds r : list ascii) :
  forallb isspace ws = true ->
  (0 <= v <= INT_MAX)%Z ->
  ds <> [] -> forallb isdigit ds = true -> digit_run r = 0 ->
  cjson_parse_str ("["%char :: ws ++ sign_text neg ++ digits v ++ "."%char :: ds ++ r)
  = Ret None.
Proof.
  intros Hws Hv Hne Hds Hrun.
  destruct (last_digit Hne Hds) as (ds0 & dl & Hds0 & Hdl).
  assert (Hds0' : forallb isdigit ds0 = true).
  { rewrite Hds0, forallb_app in Hds. apply andb_prop in Hds. apply Hds. }
  assert (Htext : sign_text neg ++ digits v ++ "."%char :: ds ++ r
                  = (sign_text neg ++ digits v ++ "."%char :: ds0) ++ dl :: r).
  { rewrite Hds0. repeat rewrite <- app_assoc. cbn [app].
    repeat rewrite <- app_assoc. reflexivity. }
  rewrite Htext.
  apply float_token_in_array; [exact Hws | exact Hdl | |].
  - destruct neg; [reflexivity|]. cbn [sign_text app].
    destruct (@digits_nonempty v ltac:(lia)) as (c & ds1 & Hd).
    pose proof (@digits_all_digits v ltac:(lia)) as Hall.
    rewrite Hd in Hall |- *. cbn [forallb] in Hall. apply andb_prop in Hall.
    destruct (isdigit_other _ (proj1 Hall)) as (_ & Hsp & _).
    cbn [app solid]. rewrite Hsp. reflexivity.
  - intros lexer Hin. rewrite <- Htext in Hin.
    destruct (@lex_float_signed lexer neg v ds r Hin Hv Hne Hds Hrun)
      as (iv & fv & Hread).
    exists iv, fv. rewrite Hread. f_equal.
    assert (Hlen : length (sign_text neg) + length (digits v) + length ds
                   = length (sign_text neg ++ digits v ++ "."%char :: ds0)).
    { rewrite Hds0. repeat rewrite length_app. cbn [length].
      repeat rewrite length_app. cbn [length]. lia. }
    rewrite Hlen. reflexivity.
Qed.

(** X3: the length of a float token leaves out its last digit.  For a
    literal made of an optional minus sign, the decimal text of [v] with
    [v] from 0 to [INT_MAX], a point and the whole run of digits [ds] that
    follows it, the lexer produces a float token whose length is one less
    than the literal's.  Inside an array the digit that is left over is
    read as the next token: on every input that starts with an opening
    bracket, any white space and such a literal, [cjson_parse_str] returns
    NULL, whatever follows the literal; without the point the array is
    read. *)
Theorem float_token_one_byte_short :
  (forall (lexer : cjson_lexer) (neg : bool) (v : Z) (ds r : list ascii),
      input lexer = sign_text neg ++ digits v ++ "."%char :: ds ++ r ->
      (0 <= v <= INT_MAX)%Z ->
      ds <> [] -> forallb isdigit ds = true -> digit_run r = 0 ->
      exists lexer1,
        cjson_read_next_token lexer = Ret lexer1
        /\ type (token lexer1) = CJSON_TOK_FLOAT
        /\ S (content_len (token lexer1))
           = length (sign_text neg ++ digits v ++ "."%char :: ds)
        /\ location lexer1 = location lexer + content_len (token lexer1))
  /\ (forall (ws : list ascii) (neg : bool) (v : Z) (ds r : list ascii),
         forallb isspace ws = true ->
         (0 <= v <= INT_MAX)%Z ->
         ds <> [] -> forallb isdigit ds = true -> digit_run r = 0 ->
         cjson_parse_str
           ("["%char :: ws ++ sign_text neg ++ digits v ++ "."%char :: ds ++ r)
         = Ret None)
  /\ cjson_parse_str (txt "[1.5]") = Ret None
  /\ cjson_parse_str (txt "[ -1.5]") = Ret None
  /\ cjson_parse_str (txt "[15]")
     = Ret (Some (Element CJSON_ARRAY
                    (val_array (mk_array [Some (cjson_create_integer 15)] 8)))).
Proof.
  split.
  { intros lexer neg v ds r Hin Hv Hne Hds Hrun.
    destruct (@lex_float_signed lexer neg v ds r Hin Hv Hne Hds Hrun)
      as (iv & fv & Hread).
    eexists. split; [exact Hread|]. cbn [token type content_len location].
    split; [reflexivity|]. split; [|reflexivity].
    rewrite !length_app. cbn [length]. lia. }
  split; [exact parse_str_signed_float_in_array|].
  repeat split; vm_compute; reflexivity.
Qed.

(** ** Releasing a tree *)

Lemma forallb_eq_in (A : Type) (f g : A -> bool) (l : list A) :
  (forall x, In x l -> f x = g x) -> forallb f l = forallb g l.
Proof.
  induction l as [|x l IH]; intros H; [reflexivity|].
  cbn [forallb]. rewrite (H x (or_introl eq_refl)).
  rewrite IH; [reflexivity|]. intros y Hy. apply H. right. exact Hy.
Qed.

(** On a tree whose nodes store the member of their type, [cjson_delete]
    can walk the tree when it holds no NULL pointer, and only then. *)
Lemma typed_releasable (T : cjson_element) :
  typed T = true -> releasable T = no_null T.
Proof.
  induction T as [T IH] using tree_ind. intros Ht.
  destruct T as [t v]. destruct t; try reflexivity.
  - destruct v; try discriminate Ht; reflexivity.
  - destruct v; try discriminate Ht; [reflexivity|].
    cbn [typed] in Ht. rewrite forallb_forall in Ht.
    cbn [releasable no_null]. apply forallb_eq_in. intros x Hx.
    specialize (Ht x Hx). destruct x as [x|]; [|reflexivity].
    apply IH; [apply slot_size; exact Hx | exact Ht].
  - destruct v; try discriminate Ht; [reflexivity|].
    cbn [typed] in Ht. rewrite forallb_concat in Ht. fold (entries o) in Ht.
    rewrite forallb_forall in Ht.
    cbn [releasable no_null]. rewrite !forallb_concat. fold (entries o).
    apply forallb_eq_in. intros it Hit.
    specialize (Ht it Hit). destruct (element it) as [x|] eqn:Hx; [|reflexivity].
    apply IH; [apply (member_size _ _ _ Hit Hx) | exact Ht].
Qed.

(** X5: on a tree in which every node of string, array or object type
    stores the member of the union of its type (or zeroed storage), as in
    every tree the constructors, the containers and the parser build,
    [cjson_delete] returns exactly when the tree holds no NULL pointer in a
    slot of an array or as the element of a member; when it holds one, and
    on NULL itself, the call follows the NULL pointer.  An array with a NULL
    slot, as the parser builds for a comma before the closing bracket,
    cannot be deleted. *)
Theorem delete_returns_iff_no_null (T : cjson_element) :
  typed T = true ->
  cjson_delete (Some T) = (if no_null T then Ret tt else Undefined)
  /\ cjson_delete None = Undefined.
Proof.
  intros Ht. split; [|reflexivity].
  unfold cjson_delete. rewrite delete_rec_spec by lia.
  rewrite (typed_releasable T Ht). reflexivity.
Qed.

Lemma delete_returns_iff_no_null_witness :
  typed (Element CJSON_ARRAY
           (val_array (mk_array [Some (cjson_create_integer 1); None] 8))) = true
  /\ cjson_delete (Some (Element CJSON_ARRAY
           (val_array (mk_array [Some (cjson_create_integer 1); None] 8))))
     = Undefined
  /\ cjson_delete (Some sample_tree) = Ret tt.
Proof.
  split; [reflexivity|]. split.
  - apply (delete_returns_iff_no_null
             (Element CJSON_ARRAY
                (val_array (mk_array [Some (cjson_create_integer 1); None] 8)))).
    reflexivity.
  - apply (delete_returns_iff_no_null sample_tree). reflexivity.
Defined.
